(* ===== verification/_CoqProject ===== *)
-Q . S2P
Prelude.v
GoTypes.v
Flags.v
Float64.v
Float64Facts.v
Interfaces.v
Kube.v
Workload.v
Summary.v
Metric.v
Decider.v
Convergence.v
Backend.v
Autoscaler.v
ScaleLoop.v
Dispatcher.v
Gateway.v
Controller.v
Pipeline.v
GatewayRun.v
Fairness.v
Replay.v
Session.v
TraceExperiment.v
Kubelet.v
KubeletServer.v
PodLife.v
Handler.v
Experiments.v
Breakdown.v
Programs.v
