(* ===== verification/Prelude.v ===== *)
(** * Verification of the kubedirect benchmark suite

    ** The program

    The repository drives serverless workloads against a Kubernetes cluster
    with the Kubedirect extensions and measures them.  Its parts, with the Go
    packages under [src/]:

    - [pkg/workload] holds requests, responses and traces, and turns an
      invocation trace into absolute arrival times; [pkg/workload/handler] is
      the function that a pod runs;
    - [pkg/replay] shards a trace over senders, which send its requests to a
      gateway, and tallies the responses; [experiments/trace] wires it up;
    - [pkg/gateway] relays the requests of a target between the clients and a
      dispatcher, and informs an autoscaler of every request that comes in or
      goes out;
    - [pkg/gateway/dispatcher] hands a request to a ready pod, one at a time per
      pod, and executes it with an executor of [pkg/backend];
    - [pkg/autoscaler] turns requests into replicas: [metric] accounts for the
      concurrency, [decider] takes the decision of the Knative pod autoscaler,
      [scaler] writes it to the API server, and the loop runs them;
    - [cmd/kubelet] is a kubelet that accepts pods from a Kubedirect client or
      from the API server and marks them ready after a configured delay;
    - [experiments/microbench] measures single control-plane components.

    A request travels from [replay] through the channel of its target, the relay
    and the dispatcher to an executor, and its response back the same way; the
    autoscaler watches the relay and changes the number of pods, the kubelet
    makes the pods ready, and the gateway reconciles the dispatcher with them.

    ** The files

    - [Prelude]: outcomes of Go code ([Ret], [Panic], [Fatal]), errors and
      results with their monads, the tactics and the hint database [kd], counting
      in lists and permutations.
    - [GoTypes]: fixed-width integers with wrap-around, durations, instants.
      [Flags]: Go's package [flag] and the parsing of its numbers.
    - [Float64], [Float64Facts]: binary64 arithmetic (the Standard Library's
      executable [SpecFloat]) and its theory: every operation is a correct
      rounding of the exact result, integers up to 2^53 are exact.
    - [Interfaces]: code outside the repository as classes of operations with
      their laws: [SharedMap], unbounded channels, work queues and the windows of
      Knative.  [Kube]: API objects and the API client ([ClientOps]).
    - [Workload]: [pkg/workload/types.go], [selection.go], [conversion.go].
      [Summary]: the texts of [types.go], with the verb [%.3f] on [float64].
    - [Metric]: [pkg/autoscaler/metric/stats.go] and [collector.go].
    - [Decider]: [pkg/autoscaler/decider/kpa.go].  [KPADecider] has the fields of
      the Go struct; [Reconcile] is composed of the steps of the Go method.
      [Convergence]: rounds of decisions, each carried out before the next, with
      the window of the scale-down delay.
    - [Backend]: [pkg/backend]: timeouts, the fake and the gRPC backend; the Go
      interface is the class [Executor].  An execution is a sequence of turns
      ([exec_state]): it takes a connection, or fills the pool and then awaits one
      of it, and then calls; what executions share is in [ExecutorLaws].
    - [Autoscaler]: [pkg/autoscaler/scaler/deployment.go], [interface.go],
      [kpa.go], [onetime.go].  The loop is written over the class [DeciderOps],
      which the KPA decider implements ([kpa_laws]); its goroutines are the rules
      of [as_step]; each API call of a scaling meets a state of the cluster of its
      own ([scale_reads]).  [ScaleLoop]: that loop and a changing cluster under a
      constant load ([al_run]).
    - [Dispatcher]: [pkg/gateway/dispatcher].  Executors live in a heap, since an
      execution keeps its executor after the endpoint is gone.  The goroutines
      (dispatching, the expiry of a context, execution, the parallel additions
      and removals of a reconciliation, the closing of removed executors) are
      the rules of [pd_step].
    - [Gateway]: [pkg/gateway/interface.go], [k8s.go], [knative.go].  The
      autoscaler is the class [GatewayHooks].  [Controller]: the controller that
      [SetUpWithManager] registers, with its watches, its queue and its workers,
      over a cache that changes between two reads of a reconciliation, each of
      which may fail ([ct_work]); that the watches report a change with an object
      that carries the labels of the workload is a hypothesis on the surroundings
      ([ct_env]), on which the filter and the handler of the code act.
    - [Pipeline]: a target of a running gateway.  The dispatcher is the class
      [DispatcherOps], which the pod and the Knative service dispatcher
      implement, with what can make it panic ([dp_fails]) and what can keep a
      request in it ([dp_clear]); [pipe_step] composes clients, relay, dispatcher
      and hooks.
    - [GatewayRun]: all targets of a running gateway, with the output channel
      and the autoscaler that they share, from [Start] of either gateway on
      ([gr_step]).  [Fairness]: its infinite executions, and what justice to each
      goroutine means; a dispatcher whose goroutines can be told apart is the
      class [FairDispatcher].
    - [Replay]: [pkg/replay/worker.go], the functions of [client.go] and the
      flags of [experiments/trace/main.go].
    - [Session]: the goroutines of a replay beside a running gateway: senders,
      relays, [recv] and [write] of [client.go] and the main goroutine of
      [experiments/trace/main.go], with the closing of the channels and the panics
      of dispatchers, autoscaler and output file ([ss_step]).
    - [TraceExperiment]: [main] of [experiments/trace/main.go] up to the start.
    - [Kubelet]: [cmd/kubelet/kubelet.go] and [kubedirect.go], over the classes
      [KdApi] and [EpochHub] of the Kubedirect packages.  [KubeletServer]: the
      construction of the server, [cmd/kubelet/main.go] and the running server
      with its informers, workers and timers ([kr_step]).  [PodLife]: kubelet and
      gateway together, over the laws of readiness ([ReadyLaws]).
    - [Handler]: [pkg/workload/handler] and its main function.
    - [Experiments]: the clients of [experiments/microbench]: what the runs
      check, count and report.  [Breakdown]: their Kubedirect services, mains
      and goroutines ([ws_step], [so_step] and [mr_step]).
    - [Programs]: [pkg/util/ctrl.go], and every main function from its command
      line to the parts above.

    Shared state is explicit: a method takes the state of its receiver and
    returns the new one, and goroutines are rules of a step relation, a rule for
    each turn of a loop between two points where the goroutine can wait.  The clock, random
    choices and the results of I/O are arguments or fields of an environment;
    API writes of the kubelet are a list of effects.

    ** The theorems

    - The request path ([Dispatcher], [Pipeline], [GatewayRun]): every request
      to a gateway that was set up and started gets at most one response in
      every interleaving, every reachable state in which no execution is cut off
      from its connections can be drained, and in every execution that is just to
      the goroutines each request is answered ([Fairness]), however many others
      keep coming, unless an execution awaits for ever a connection of a removed
      pod; the load
      that the autoscaler sees is the number of requests in flight; no pod loses
      its capacity, none runs two requests unless it left and came back; a
      reconciliation makes the ready pods the endpoints; the loop of [dispatch]
      takes the first live token and ends.  In every interleaving of the
      reconciliations with the changes they react to, and whatever reads fail, the
      gateway misses no change, and once the cluster rests it catches up in
      boundedly many steps, except for targets whose pods it failed to list, an
      error that it ignores ([Controller]).
    - The trace experiment ([Session], [TraceExperiment]): the requests of the
      traces are accounted for at every instant, the last line of the output
      counts those answered, the shutdown terminates, in an orderly one nobody
      sends on a closed channel and only the backends, the autoscaler and the
      output file can make a goroutine panic, and for valid flags the whole program can run to an end at which
      every invocation has been counted.
    - Autoscaling ([Metric], [Decider], [Autoscaler]): the counters are exact and
      a report is the time average of the concurrency, correctly rounded; the
      floating-point decision is the clamped integer one; the panic mode starts,
      lasts and ends as configured and never scales down; a target has one
      ticker and one of at most 16 workers; the loop applies the decision, and a request for a
      target at zero leads to a replica; the one-time autoscaler scales once;
      under a constant load the pods follow an explicit course to the number it
      needs and stay there, at once after the last delayed decision has left the
      window of the scale-down delay ([Convergence]), and so do the replicas that
      the loop writes, whatever the other targets do ([ScaleLoop]).
    - The kubelet: effects only on its own pods and each for its reason, no pod
      ready before the delay that began after it was last reset, every startable pod ready after it, binding; no
      two workers synchronise the same pod and no pod with a timer is forgotten;
      the status it writes makes the pod an endpoint of the gateway that lists it
      ([PodLife]).
    - The programs ([Flags], [Programs]): options are read as they are written,
      and what the kubelet and the trace experiment do with them.
    - Traces ([Workload], [Replay]): loading is total and complete, arrivals are
      sorted, the shards cover the trace, the replay sends each invocation once,
      the summary counts each response, a printed latency can be read back to
      the microsecond.
    - [Backend]: the pool conserves its connections, timeouts are exact.
      [Experiments], [Breakdown]: the wait groups count distinct pods, the
      reported latency is a 90th percentile, and every interleaving of the
      goroutines of a run ends and prints what the sequential run computes.
    - Where the code does not do what it means to, a theorem states what it does:
      [list_error_drops_endpoints], [readded_pod_runs_two],
      [sync_without_client_panics], [setup_nil_config_panics],
      [trace_defaults_fail],
      [grpc_close_never_returns], [metav1_list_options_unset],
      [e2e_extra_pod_panics], [early_signal_panics], [cancelled_connect_panics],
      [closed_pod_keeps_request], [early_request_panics],
      [compaction_stops_session].

    ** Bounds and fuel

    Only [dispatch] takes fuel; each turn consumes a token or stops, so fuel
    above the number of queued tokens is enough ([dispatch_first_live]).  The
    counters of [RequestStats] are [float64], exact up to 2^53, which is the
    bound of the theorems about load.  Decisions are converted to [int32], so
    the decider's theorems ask for counts below 2^31.  A shard count is computed
    in [float64]; traces of fewer than 2^40 invocations leave ample room.  The
    tally is an [int], below 2^62 responses it does not wrap.

    ** What is not modelled

    Generated protocol code, logging (with [StartTracing], which sets a period of
    the log), sockets and signals, and the code of the packages that the
    repository only calls (Kubernetes, Kubedirect, Knative, gRPC, the vHive
    loader), which interfaces and arguments stand for; so do the flags that those
    packages declare.  Time
    passes freely: a rule that waits for a timer may fire at any moment, so the
    pauses of the main functions order nothing by themselves.  Rounding of sums
    at instants that are not whole seconds is modelled but only bounded where the
    theorems say so.  The API server and the controllers between scaler, kubelet and
    gateway are not in the repository; what the theorems need of them (a scaling
    that was carried out, watches that report a change) are their hypotheses, each
    with a concrete run in which it holds.  The Knative dispatcher takes a
    connection in one step: nobody closes its executor, so no other receiver can
    come between the two.  Setters of package variables that
    only one place reads ([Use], [WithSLO], [SampleOutput]) are the arguments of
    the definitions that read them; [SetupLogger] is called nowhere.  What the
    definitions do not cover of the sources are licences, imports, comments,
    interface declarations and accessors of a field. *)

From Stdlib Require Export ZArith Lia.
From stdpp Require Export prelude gmap strings pretty.

(** ** Outcomes of a Go computation

    [Ret] is a normal return, [Panic] a run-time panic, [Fatal] a call of
    [klog.Fatal]/[log.Fatal], which terminates the process. *)
Inductive outcome (A : Type) : Type :=
| Ret (a : A)
| Panic (msg : string)
| Fatal (msg : string).

Arguments Ret {A} a.
Arguments Panic {A} msg.
Arguments Fatal {A} msg.

Global Instance outcome_ret : MRet outcome := fun A a => Ret a.

Global Instance outcome_bind : MBind outcome := fun A B f m =>
  match m with
  | Ret a => f a
  | Panic msg => Panic msg
  | Fatal msg => Fatal msg
  end.

Global Instance outcome_fmap : FMap outcome := fun A B f m =>
  match m with
  | Ret a => Ret (f a)
  | Panic msg => Panic msg
  | Fatal msg => Fatal msg
  end.

(** Dereferencing a nil pointer, or calling a method of a nil interface. *)
Definition nil_deref {A} : outcome A := Panic "invalid memory address or nil pointer dereference".

(** ** Errors

    A Go [error] value is known by its text and by what the [apierrors.IsX]
    and gRPC status predicates say of it.  [fmt.Errorf] with the [%v] verb
    keeps the text of the wrapped error and drops its kind. *)
Inductive err_kind : Type :=
| KNotFound
| KAlreadyExists
| KConflict
| KDeadlineExceeded
| KOther.

Global Instance err_kind_eq_dec : EqDecision err_kind.
Proof. solve_decision. Defined.

Record error : Type := mkError {
  err_is : err_kind;
  err_text : string
}.

Global Instance error_eq_dec : EqDecision error.
Proof. solve_decision. Defined.

Definition errorf (text : string) : error := mkError KOther text.

Definition IsNotFound (e : error) : bool := bool_decide (err_is e = KNotFound).

Definition IsAlreadyExists (e : error) : bool :=
  bool_decide (err_is e = KAlreadyExists).

(** The verb [%q] of [fmt] on a name, which has nothing to escape. *)
Definition quoted (name : string) : string :=
  String (Ascii.ascii_of_nat 34) name +:+ String (Ascii.ascii_of_nat 34) EmptyString.

(** A Go pair [(T, error)] of which exactly one half is meaningful. *)
Inductive result (A : Type) : Type :=
| Ok (a : A)
| Err (e : error).

Arguments Ok {A} a.
Arguments Err {A} e.

Global Instance result_ret : MRet result := fun A a => Ok a.

Global Instance result_bind : MBind result := fun A B f m =>
  match m with
  | Ok a => f a
  | Err e => Err e
  end.

Definition is_ok {A} (r : result A) : bool :=
  match r with Ok _ => true | Err _ => false end.

(** The error half of a result. *)
Definition err_of {A} (r : result A) : option error :=
  match r with Ok _ => None | Err e => Some e end.

(** ** Automation *)

Create HintDb kd.

(** Destruct the discriminee of the first [match]/[if] of the goal. *)
Ltac break_goal :=
  match goal with
  | |- context [match ?x with _ => _ end] =>
      lazymatch x with
      | context [match _ with _ => _ end] => fail
      | _ => destruct x eqn:?
      end
  end.

(** The same in a hypothesis. *)
Ltac break_hyp :=
  match goal with
  | H : context [match ?x with _ => _ end] |- _ =>
      lazymatch x with
      | context [match _ with _ => _ end] => fail
      | _ => destruct x eqn:?
      end
  end.

Ltac break := first [break_goal | break_hyp].

(** Symbolic execution of a handler: split every branch and clean up. *)
Ltac crush_branches :=
  repeat (first [progress simplify_eq/= | break]); try done; auto with kd.

(** ** Lists *)

Section lists.
Context {A B : Type}.
Implicit Types l : list A.

(** [count P l] is the number of elements that satisfy [P]. *)
Fixpoint count (P : A -> bool) (l : list A) : nat :=
  match l with
  | [] => 0
  | x :: l' => (if P x then 1 else 0) + count P l'
  end.

Lemma count_app P l1 l2 : count P (l1 ++ l2) = count P l1 + count P l2.
Proof. induction l1 as [|x l1 IH]; simpl; lia. Qed.

Lemma count_snoc P l x : count P (l ++ [x]) = count P l + (if P x then 1 else 0).
Proof. rewrite count_app. simpl. lia. Qed.

Lemma count_filter P l : count P l = length (filter (fun x => P x = true) l).
Proof.
  induction l as [|x l IH]; [done|].
  cbn [count]. rewrite filter_cons. destruct (P x) eqn:E; case_decide; simpl; try done; lia.
Qed.

Lemma count_le_length P l : count P l <= length l.
Proof. induction l as [|x l IH]; simpl; [lia|]. destruct (P x); lia. Qed.

Lemma count_perm P l1 l2 : Permutation l1 l2 -> count P l1 = count P l2.
Proof. induction 1; simpl; lia. Qed.

Lemma count_zero P l : (forall x, x ∈ l -> P x = false) -> count P l = 0.
Proof.
  induction l as [|x l IH]; simpl; [done|]. intros H.
  rewrite (H x) by left. apply IH. intros y Hy. apply H. by right.
Qed.

Lemma count_pos P l x : x ∈ l -> P x = true -> 1 <= count P l.
Proof.
  induction 1 as [x l|x y l Hin IH]; simpl; intros HP; [rewrite HP; lia|].
  specialize (IH HP). lia.
Qed.

End lists.

Global Instance count_proper {A} (P : A -> bool) :
  Proper (Permutation ==> eq) (count P).
Proof. intros l1 l2. apply count_perm. Qed.

(** Lists with the same number of occurrences are permutations; [perm] decides
    permutations of appends and conses that way. *)
Lemma perm_by_count {A} `{EqDecision A} (l1 l2 : list A) :
  (forall x, count (fun y => bool_decide (y = x)) l1 = count (fun y => bool_decide (y = x)) l2) ->
  Permutation l1 l2.
Proof.
  assert (forall (l : list A) x,
    count_occ (fun a b => decide (a = b)) l x = count (fun y => bool_decide (y = x)) l) as C.
  { induction l as [|y l IH]; intros x; simpl; [done|].
    rewrite IH. case_bool_decide; case_decide; done. }
  intros H. apply (Permutation_count_occ (fun a b => decide (a = b))). intros x. by rewrite !C.
Qed.

Ltac perm :=
  apply perm_by_count; intros; simpl; rewrite ?count_app; simpl; rewrite ?count_app; simpl; lia.

#[export] Hint Rewrite @count_app @count_snoc : kd.
