(* ===== verification/GoTypes.v ===== *)
(** * Go machine integers, durations and instants

    Integers of a fixed width are [Z] with the wrap-around written out; [int]
    is 64 bits wide (the module is built for amd64).  A [time.Duration] is an
    [int64] number of nanoseconds.  A [time.Time] is the number of nanoseconds
    since Go's zero time (1 January, year 1), so that [time.Time{}] is [0];
    the monotonic reading that [time.Now] also carries advances with the wall
    clock and is not distinguished from it. *)

From S2P Require Import Prelude.

Local Open Scope Z_scope.

(** ** Wrap-around *)

Definition wrap_signed (w z : Z) : Z := (z + 2 ^ (w - 1)) mod 2 ^ w - 2 ^ (w - 1).

Definition wrap_unsigned (w z : Z) : Z := z mod 2 ^ w.

(** The conversions [int32(z)], [int64(z)], [uint32(z)] of an integer. *)
Definition int32_of (z : Z) : Z := wrap_signed 32 z.

Definition int64_of (z : Z) : Z := wrap_signed 64 z.

Definition uint32_of (z : Z) : Z := wrap_unsigned 32 z.

Definition min_int64 : Z := - 2 ^ 63.

Definition max_int64 : Z := 2 ^ 63 - 1.

(** Arithmetic on [int], [int64] and [time.Duration]. *)
Definition add64 (a b : Z) : Z := int64_of (a + b).

Definition mul64 (a b : Z) : Z := int64_of (a * b).

(** Go's [/] and [%] truncate toward zero. *)
Definition quo64 (a b : Z) : Z := int64_of (Z.quot a b).

Definition rem64 (a b : Z) : Z := Z.rem a b.

Definition in_int64 (z : Z) : Prop := min_int64 <= z <= max_int64.

Definition in_int32 (z : Z) : Prop := - 2 ^ 31 <= z < 2 ^ 31.

(** ** Durations *)

Definition Nanosecond : Z := 1.

Definition Microsecond : Z := 1000.

Definition Millisecond : Z := 1000000.

Definition Second : Z := 1000000000.

(** ** Instants *)

Definition zero_time : Z := 0.

Definition time_is_zero (t : Z) : bool := t =? 0.

(** [Time.Sub] saturates at the ends of the [Duration] range. *)
Definition time_sub (t u : Z) : Z := Z.max min_int64 (Z.min max_int64 (t - u)).

Definition time_add (t d : Z) : Z := t + d.

Definition time_before (t u : Z) : bool := t <? u.

(** ** Facts *)

Lemma wrap_signed_id w z :
  0 < w -> - 2 ^ (w - 1) <= z < 2 ^ (w - 1) -> wrap_signed w z = z.
Proof.
  intros Hw Hz. unfold wrap_signed.
  assert (2 ^ w = 2 * 2 ^ (w - 1)) as E.
  { rewrite <- Z.pow_succ_r by lia. f_equal. lia. }
  rewrite Z.mod_small; lia.
Qed.

Lemma wrap_signed_range w z :
  0 < w -> - 2 ^ (w - 1) <= wrap_signed w z < 2 ^ (w - 1).
Proof.
  intros Hw. unfold wrap_signed.
  assert (2 ^ w = 2 * 2 ^ (w - 1)) as E.
  { rewrite <- Z.pow_succ_r by lia. f_equal. lia. }
  pose proof (Z.pow_pos_nonneg 2 (w - 1)).
  pose proof (Z.mod_pos_bound (z + 2 ^ (w - 1)) (2 ^ w)). lia.
Qed.

Lemma int32_of_id z : in_int32 z -> int32_of z = z.
Proof. intros H. apply wrap_signed_id; [lia|]. unfold in_int32 in H. lia. Qed.

Lemma int64_of_id z : in_int64 z -> int64_of z = z.
Proof.
  intros H. apply wrap_signed_id; [lia|].
  unfold in_int64, min_int64, max_int64 in H. lia.
Qed.

Lemma int32_of_range z : in_int32 (int32_of z).
Proof. apply (wrap_signed_range 32); lia. Qed.

Lemma int64_of_range z : in_int64 (int64_of z).
Proof.
  pose proof (wrap_signed_range 64 z ltac:(lia)).
  unfold int64_of, in_int64, min_int64, max_int64 in *. lia.
Qed.

Lemma int32_of_idemp z : int32_of (int32_of z) = int32_of z.
Proof. apply int32_of_id, int32_of_range. Qed.

Lemma in_int32_int64 z : in_int32 z -> in_int64 z.
Proof. unfold in_int32, in_int64, min_int64, max_int64. lia. Qed.

Lemma uint32_of_range z : 0 <= uint32_of z < 2 ^ 32.
Proof. apply Z.mod_pos_bound. lia. Qed.

Lemma uint32_of_id z : 0 <= z < 2 ^ 32 -> uint32_of z = z.
Proof. apply Z.mod_small. Qed.

Lemma time_sub_exact t u : in_int64 (t - u) -> time_sub t u = t - u.
Proof. unfold time_sub, in_int64. lia. Qed.

Lemma time_sub_pos t u : 0 < time_sub t u <-> u < t.
Proof. unfold time_sub, min_int64, max_int64. lia. Qed.

#[export] Hint Resolve int32_of_range int64_of_range in_int32_int64 : kd.
