(* ===== verification/Flags.v ===== *)
(** * Command lines: Go's package [flag]

    The programs of the repository declare their options with [flag.StringVar],
    [flag.IntVar] and [flag.BoolVar] and read them with [flag.Parse], with the
    default [ExitOnError].  The model parses the arguments one by one as
    [FlagSet.parseOne] does, and numbers as [strconv.ParseInt] with base 0 and
    64 bits. *)

From Stdlib Require Import Ascii.
From S2P Require Import Prelude GoTypes.

Local Open Scope Z_scope.

(** ** Numbers *)

Definition in_range (lo hi c : ascii) : bool := (Ascii.leb lo c && Ascii.leb c hi)%bool.

(** [lower]: the letter with the bit 0x20 set. *)
Definition lower_ascii (c : ascii) : ascii :=
  let '(Ascii b0 b1 b2 b3 b4 _ b6 b7) := c in Ascii b0 b1 b2 b3 b4 true b6 b7.

(** The rest of a string that starts with the character. *)
Definition strip (c : ascii) (s : string) : option string :=
  match s with
  | String c' s => if Ascii.eqb c' c then Some s else None
  | EmptyString => None
  end.

Definition code (c : ascii) : Z := Z.of_N (N_of_ascii c).

(** The value of a digit or letter, whatever the base. *)
Definition digit_of (c : ascii) : option Z :=
  if in_range "0" "9" c then Some (code c - 48)
  else if in_range "a" "z" (lower_ascii c) then Some (code (lower_ascii c) - 97 + 10)
  else None.

(** The loop of [ParseUint]; underscores are skipped here and checked apart. *)
Fixpoint digits (base acc : Z) (s : string) : option Z :=
  match s with
  | EmptyString => Some acc
  | String c s =>
      if Ascii.eqb c "_" then digits base acc s
      else
        match digit_of c with
        | Some d => if d <? base then digits base (acc * base + d) s else None
        | None => None
        end
  end.

(** The base and the digits of a literal. *)
Definition base_prefix (s : string) : Z * string :=
  match strip "0" s with
  | Some (String c ((String _ _) as rest)) =>
      if Ascii.eqb (lower_ascii c) "b" then (2, rest)
      else if Ascii.eqb (lower_ascii c) "o" then (8, rest)
      else if Ascii.eqb (lower_ascii c) "x" then (16, rest)
      else (8, String c rest)
  | Some rest => (8, rest)
  | None => (10, s)
  end.

(** [underscoreOK]: underscores separate digits, the base prefix counting as a
    digit.  [prev] is the class of the character before. *)
Inductive prev_char : Type :=
| AtStart
| AfterDigit
| AfterUnderscore
| AfterOther.

Fixpoint underscores_between (hex : bool) (prev : prev_char) (s : string) : bool :=
  match s with
  | EmptyString => match prev with AfterUnderscore => false | _ => true end
  | String c s =>
      if in_range "0" "9" c || (hex && in_range "a" "f" (lower_ascii c)) then underscores_between hex AfterDigit s
      else if Ascii.eqb c "_" then
        match prev with AfterDigit => underscores_between hex AfterUnderscore s | _ => false end
      else match prev with AfterUnderscore => false | _ => underscores_between hex AfterOther s end
  end.

Definition underscoreOK (s : string) : bool :=
  match strip "0" s with
  | Some (String c rest) =>
      let l := lower_ascii c in
      if Ascii.eqb l "b" || Ascii.eqb l "o" || Ascii.eqb l "x"
      then underscores_between (Ascii.eqb l "x") AfterDigit rest
      else underscores_between false AtStart s
  | _ => underscores_between false AtStart s
  end.

Fixpoint has_underscore (s : string) : bool :=
  match s with
  | EmptyString => false
  | String c s => Ascii.eqb c "_" || has_underscore s
  end.

(** [ParseUint(s, 0, 64)] up to the range check. *)
Definition ParseUint (s : string) : option Z :=
  if bool_decide (s = "") then None
  else
    let '(base, ds) := base_prefix s in
    n ← digits base 0 ds;
    if has_underscore ds && negb (underscoreOK s) then None else Some n.

(** [ParseInt(s, 0, 64)]; the errors are not told apart. *)
Definition ParseInt (s : string) : option Z :=
  let '(neg, s) :=
    match strip "+" s, strip "-" s with
    | Some s, _ => (false, s)
    | None, Some s => (true, s)
    | None, None => (false, s)
    end in
  n ← ParseUint s;
  if neg : bool then (if n <=? 2 ^ 63 then Some (- n) else None)
  else (if n <? 2 ^ 63 then Some n else None).

Definition ParseBool (s : string) : option bool :=
  if bool_decide (s ∈ ["1"; "t"; "T"; "TRUE"; "true"; "True"]%string) then Some true
  else if bool_decide (s ∈ ["0"; "f"; "F"; "FALSE"; "false"; "False"]%string) then Some false
  else None.

(** ** Flag sets *)

(** The variable of a flag, with its current value.  The flags that libraries
    declare have a variable of their own: known of them is only whether they
    need no argument, and which values they accept. *)
Inductive flag_var : Type :=
| VString (v : string)
| VInt (v : Z)
| VBool (v : bool)
| VForeign (boolean : bool) (accepts : string -> bool).

(** [flag.Value.Set]; [None] is an error. *)
Definition flag_set (v : flag_var) (s : string) : option flag_var :=
  match v with
  | VString _ => Some (VString s)
  | VInt _ => VInt <$> ParseInt s
  | VBool _ => VBool <$> ParseBool s
  | VForeign _ accepts => if accepts s then Some v else None
  end.

Definition is_bool_flag (v : flag_var) : bool :=
  match v with VBool _ => true | VForeign b _ => b | _ => false end.

(** The formal flags and their values. *)
Notation FlagSet := (gmap string flag_var).

Inductive arg_form : Type :=
| NotAFlag
| Terminator
| BadSyntax
| Named (name : string) (value : option string).

(** The name and the value at the first equals sign. *)
Fixpoint split_equals (s : string) : string * option string :=
  match s with
  | EmptyString => (EmptyString, None)
  | String c s =>
      if Ascii.eqb c "=" then (EmptyString, Some s)
      else let '(name, value) := split_equals s in (String c name, value)
  end.

(** What follows the dashes; an equals sign cannot be first. *)
Definition named_arg (name : string) : arg_form :=
  match name with
  | EmptyString => BadSyntax
  | String c s =>
      if Ascii.eqb c "-" || Ascii.eqb c "=" then BadSyntax
      else let '(rest, value) := split_equals s in Named (String c rest) value
  end.

Definition read_arg (s : string) : arg_form :=
  match strip "-" s with
  | None | Some EmptyString => NotAFlag
  | Some name =>
      match strip "-" name with
      | Some EmptyString => Terminator
      | Some name => named_arg name
      | None => named_arg name
      end
  end.

(** The result of [Parse]: the values and the arguments left, or the exit of
    the process, with code 2 after an error and 0 after the help text. *)
Inductive parsed : Type :=
| Parsed (fs : FlagSet) (rest : list string)
| Exits (code : Z).

(** [parseOne], repeated. *)
Fixpoint flag_parse (fs : FlagSet) (args : list string) : parsed :=
  match args with
  | [] => Parsed fs []
  | s :: args' =>
      match read_arg s with
      | NotAFlag => Parsed fs args
      | Terminator => Parsed fs args'
      | BadSyntax => Exits 2
      | Named name value =>
          match fs !! name with
          | None => Exits (if bool_decide (name = "help" \/ name = "h")%string then 0 else 2)
          | Some v =>
              let store (text : string) (continue : FlagSet -> parsed) :=
                match flag_set v text with Some v' => continue (<[name := v']> fs) | None => Exits 2 end in
              if is_bool_flag v then store (default "true"%string value) (fun fs => flag_parse fs args')
              else
                match value, args' with
                | Some text, _ => store text (fun fs => flag_parse fs args')
                | None, text :: args'' => store text (fun fs => flag_parse fs args'')
                | None, [] => Exits 2
                end
          end
      end
  end.

(** The variables of a program after the parse. *)
Definition string_flag (fs : FlagSet) (name : string) : string :=
  match fs !! name with Some (VString v) => v | _ => "" end.

Definition int_flag (fs : FlagSet) (name : string) : Z :=
  match fs !! name with Some (VInt v) => v | _ => 0 end.

Definition bool_flag (fs : FlagSet) (name : string) : bool :=
  match fs !! name with Some (VBool v) => v | _ => false end.

(** ** Theorems *)

(** *** Printed numbers *)

Lemma digit_of_char (x : N) : (x < 10)%N ->
  digit_of (pretty_N_char x) = Some (Z.of_N x) /\ Ascii.eqb (pretty_N_char x) "_" = false.
Proof.
  intros Hx.
  assert (x ∈ [0; 1; 2; 3; 4; 5; 6; 7; 8; 9]%N) as Hin by (rewrite !elem_of_cons, elem_of_nil; lia).
  rewrite !elem_of_cons, elem_of_nil in Hin. naive_solver.
Qed.

Lemma digits_pretty_go (x : N) : forall s, digits 10 0 (pretty_N_go x s) = digits 10 (Z.of_N x) s.
Proof.
  induction (N.lt_wf_0 x) as [x _ IH]. intros s. destruct (decide (0 < x)%N) as [Hx|Hx].
  2: { assert (x = 0%N) as -> by lia. done. }
  rewrite pretty_N_go_step, IH by (done || by apply N.div_lt). cbn [digits].
  destruct (digit_of_char (x `mod` 10)) as [-> ->]; [by apply N.mod_lt|].
  destruct (Z.ltb_spec (Z.of_N (x `mod` 10)) 10); [|pose proof (N.mod_lt x 10); lia].
  f_equal. rewrite N2Z.inj_mod, N2Z.inj_div by done. pose proof (Z.div_mod (Z.of_N x) (Z.of_N 10)). lia.
Qed.

(** A positive number does not start with a zero or a sign. *)
Lemma pretty_go_head (x : N) : forall s, (0 < x)%N -> exists c r, pretty_N_go x s = String c r /\
  Ascii.eqb c "0" = false /\ Ascii.eqb c "+" = false /\ Ascii.eqb c "-" = false.
Proof.
  induction (N.lt_wf_0 x) as [x _ IH]. intros s Hx. rewrite pretty_N_go_step by done.
  destruct (decide (0 < x `div` 10)%N) as [Hd|Hd].
  { apply IH; [by apply N.div_lt|done]. }
  assert (x `div` 10 = 0)%N as E by (by apply N.le_0_r, N.nlt_ge). rewrite E. simpl. eexists _, _. split; [done|].
  pose proof (N.div_mod x 10 ltac:(done)) as D. rewrite E in D. pose proof (N.mod_lt x 10 ltac:(done)).
  assert ((x `mod` 10)%N ∈ [1; 2; 3; 4; 5; 6; 7; 8; 9]%N) as Hin by (rewrite !elem_of_cons, elem_of_nil; lia).
  rewrite !elem_of_cons, elem_of_nil in Hin. clear IH D.
  destruct Hin as [->|[->|[->|[->|[->|[->|[->|[->|[->|[]]]]]]]]]]; done.
Qed.

Lemma has_underscore_pretty (x : N) : forall s, has_underscore (pretty_N_go x s) = has_underscore s.
Proof.
  induction (N.lt_wf_0 x) as [x _ IH]. intros s. destruct (decide (0 < x)%N) as [Hx|Hx].
  2: { assert (x = 0%N) as -> by lia. done. }
  rewrite pretty_N_go_step, IH by (done || by apply N.div_lt). cbn [has_underscore].
  destruct (digit_of_char (x `mod` 10)) as [_ ->]; [by apply N.mod_lt|]. done.
Qed.

(** [ParseUint] reads a printed number, and its text has no sign. *)
Lemma ParseUint_pretty (x : N) : ParseUint (pretty x) = Some (Z.of_N x) /\
  strip "+" (pretty x) = None /\ strip "-" (pretty x) = None.
Proof.
  unfold pretty, pretty_N. case_decide as Hx; [by subst|].
  destruct (pretty_go_head x "" ltac:(lia)) as (c & r & E & H0 & Hp & Hm).
  pose proof (digits_pretty_go x "") as D. pose proof (has_underscore_pretty x "") as U.
  rewrite E in *. unfold ParseUint, base_prefix, strip. rewrite H0, Hp, Hm, bool_decide_eq_false_2 by done.
  rewrite D, U. done.
Qed.

(** [ParseInt] reads a printed integer. *)
Lemma ParseInt_pretty (z : Z) : in_int64 z -> ParseInt (pretty z) = Some z.
Proof.
  unfold in_int64, min_int64, max_int64, ParseInt. intros Hz. destruct z as [|p|p]; [done|..].
  - change (pretty (Z.pos p)) with (pretty (N.pos p)).
    destruct (ParseUint_pretty (N.pos p)) as (E & -> & ->). rewrite E. simpl.
    by rewrite (proj2 (Z.ltb_lt _ _)) by lia.
  - change (pretty (Z.neg p)) with (String "-" (pretty (N.pos p))). cbn [strip].
    destruct (ParseUint_pretty (N.pos p)) as (E & _ & _). simpl. rewrite E. simpl.
    by rewrite (proj2 (Z.leb_le _ _)) by lia.
Qed.

(** *** Written flags *)

(** A name that can be written after the dashes. *)
Fixpoint no_equals (s : string) : bool :=
  match s with
  | EmptyString => true
  | String c s => negb (Ascii.eqb c "=") && no_equals s
  end.

Definition flag_name (name : string) : bool :=
  match name with
  | EmptyString => false
  | String c s => negb (Ascii.eqb c "-") && negb (Ascii.eqb c "=") && no_equals s
  end.

(** The text of a value. *)
Definition show_var (v : flag_var) : string :=
  match v with
  | VString s => s
  | VInt z => pretty z
  | VBool b => if b then "true" else "false"
  | VForeign _ _ => ""
  end.

Inductive style : Type :=
| OneDash
| TwoDashes
| Apart.

Definition show_flag (w : style * string * flag_var) : list string :=
  let '(st, name, v) := w in
  match st with
  | OneDash => ["-" +:+ name +:+ "=" +:+ show_var v]
  | TwoDashes => ["--" +:+ name +:+ "=" +:+ show_var v]
  | Apart => ["-" +:+ name; show_var v]
  end.

(** The value fits the variable, and a boolean is not written apart. *)
Definition fits (st : style) (v v0 : flag_var) : Prop :=
  match v, v0 with
  | VString _, VString _ => True
  | VInt z, VInt _ => in_int64 z
  | VBool _, VBool _ => st <> Apart
  | _, _ => False
  end.

Definition writable (fs : FlagSet) (w : style * string * flag_var) : Prop :=
  let '(st, name, v) := w in
  flag_name name = true /\ exists v0, fs !! name = Some v0 /\ fits st v v0.

Definition assign (fs : FlagSet) (w : style * string * flag_var) : FlagSet :=
  let '(_, name, v) := w in <[name := v]> fs.

Lemma split_equals_name name value : no_equals name = true ->
  split_equals (name +:+ "=" +:+ value) = (name, Some value) /\ split_equals name = (name, None).
Proof.
  induction name as [|c name IH]; [done|]. simpl. intros [Hc%negb_true_iff Hn]%andb_true_iff.
  rewrite Hc. destruct (IH Hn) as [-> ->]. done.
Qed.

Lemma read_written name value : flag_name name = true ->
  read_arg ("-" +:+ name +:+ "=" +:+ value) = Named name (Some value) /\
  read_arg ("--" +:+ name +:+ "=" +:+ value) = Named name (Some value) /\
  read_arg ("-" +:+ name) = Named name None.
Proof.
  destruct name as [|c name]; [done|]. unfold flag_name.
  intros [[Hd%negb_true_iff He%negb_true_iff]%andb_true_iff Hn]%andb_true_iff.
  destruct (split_equals_name name value Hn) as [E1 E2].
  unfold read_arg. simpl. unfold named_arg. rewrite Hd, He. simpl in E1. rewrite E1, E2. done.
Qed.

Lemma flag_set_shows st v v0 : fits st v v0 -> flag_set v0 (show_var v) = Some v.
Proof.
  destruct v, v0; simpl; try done. 
  - intros Hz. by rewrite ParseInt_pretty.
  - by destruct v.
Qed.

Lemma parse_written fs w rest : writable fs w -> flag_parse fs (show_flag w ++ rest) = flag_parse (assign fs w) rest.
Proof.
  destruct w as [[st name] v]. intros (Hn & v0 & L & F). pose proof (flag_set_shows st v v0 F) as S.
  destruct (read_written name (show_var v) Hn) as (R1 & R2 & R3).
  destruct st; cbn [show_flag app flag_parse assign]; rewrite ?R1, ?R2, ?R3, L; cbv zeta.
  - destruct (is_bool_flag v0); cbn [from_option id]; unfold id; by rewrite S.
  - destruct (is_bool_flag v0); cbn [from_option id]; unfold id; by rewrite S.
  - destruct (is_bool_flag v0) eqn:B; [by destruct v, v0|]. by rewrite S.
Qed.

Lemma writable_assign fs w w' : writable fs w -> writable fs w' -> writable (assign fs w) w'.
Proof.
  destruct w as [[st name] v], w' as [[st' name'] v']. intros (_ & v0 & L & F) (Hn & v1 & L' & F').
  split; [done|]. cbn [assign]. destruct (decide (name = name')) as [->|N].
  - rewrite lookup_insert_eq. exists v. split; [done|]. rewrite L in L'. injection L' as <-.
    by destruct v, v', v0.
  - rewrite lookup_insert_ne by done. eauto.
Qed.

(** Command lines are read as they are written.  For options written as
    [-name=value], [--name=value] or, unless boolean, [-name value], in any
    order and with repetitions, [Parse] leaves each declared variable with its
    last value and every other one with its default, and stops at the first
    argument that is no flag. *)
Theorem flags_roundtrip (fs : FlagSet) (written : list (style * string * flag_var)) rest :
  Forall (writable fs) written -> (forall s, head rest = Some s -> read_arg s = NotAFlag) ->
  flag_parse fs (concat (map show_flag written) ++ rest) = Parsed (foldl assign fs written) rest.
Proof.
  intros F Hr. revert fs F. induction written as [|w written IH]; intros fs F; simpl.
  - destruct rest as [|s rest]; [done|]. simpl. by rewrite (Hr s eq_refl).
  - apply Forall_cons in F as [Hw F]. rewrite <- app_assoc, parse_written by done. apply IH.
    eapply Forall_impl; [exact F|]. intros w'. by apply writable_assign.
Qed.

(** ** Witness *)

(** An option in each style, one of them twice, and an argument that ends them. *)
Definition demo_declared : FlagSet := {["node" := VString "n0"; "simulate" := VBool false; "n" := VInt 0]}.

Definition demo_options : list (style * string * flag_var) :=
  [(Apart, "n"%string, VInt 7); (TwoDashes, "simulate"%string, VBool true); (OneDash, "n"%string, VInt (-12))].

Lemma demo_options_written :
  concat (map show_flag demo_options) ++ ["pods"; "-n=3"] = ["-n"; "7"; "--simulate=true"; "-n=-12"; "pods"; "-n=3"]%string.
Proof. vm_compute. reflexivity. Qed.

Lemma flags_roundtrip_witness :
  flag_parse demo_declared ["-n"; "7"; "--simulate=true"; "-n=-12"; "pods"; "-n=3"]
  = Parsed (<["n" := VInt (-12)]> (<["simulate" := VBool true]> (<["n" := VInt 7]> demo_declared))) ["pods"; "-n=3"].
Proof.
  rewrite <- demo_options_written. apply (flags_roundtrip demo_declared demo_options ["pods"; "-n=3"]%string).
  - repeat constructor.
    + exists (VInt 0). split; [vm_compute; reflexivity|]. unfold fits, in_int64, min_int64, max_int64. lia.
    + exists (VBool false). split; [vm_compute; reflexivity|discriminate].
    + exists (VInt 0). split; [vm_compute; reflexivity|]. unfold fits, in_int64, min_int64, max_int64. lia.
  - intros s E. injection E as <-. reflexivity.
Defined.
