(* ===== verification/Float64.v ===== *)
(** * Go [float64]: IEEE-754 binary64 arithmetic

    The operations are those of the Standard Library's executable
    specification of binary64 ([SpecFloat] at precision 53 and exponent bound
    1024), so a model that uses them rounds as the code does and evaluates on
    concrete inputs.  The second half of the file is the theory that the
    components use: every operation returns a canonical number that is a
    correct rounding of the exact result ([rounds]), comparisons agree with the
    order of the denoted numbers, and integers of magnitude at most 2^53 are
    represented, added, subtracted and compared exactly. *)

From Stdlib Require Export SpecFloat.
From S2P Require Import Prelude GoTypes.

Local Open Scope Z_scope.

Abbreviation float64 := spec_float.

Abbreviation fexp64 := (fexp 53 1024).

(** ** Operations *)

(** [float64(z)] of an integer, and integer-valued literals. *)
Definition f64_of_Z (z : Z) : float64 := binary_normalize 53 1024 z 0 false.

Definition f64_add (x y : float64) : float64 := SFadd 53 1024 x y.

Definition f64_sub (x y : float64) : float64 := SFsub 53 1024 x y.

Definition f64_mul (x y : float64) : float64 := SFmul 53 1024 x y.

Definition f64_div (x y : float64) : float64 := SFdiv 53 1024 x y.

Definition f64_lt (x y : float64) : bool := SFltb x y.

Definition f64_le (x y : float64) : bool := SFleb x y.

Definition f64_eq (x y : float64) : bool := SFeqb x y.

Definition f64_is_nan (x : float64) : bool :=
  match x with S754_nan => true | _ => false end.

Definition f64_is_inf (x : float64) (sign : bool) : bool :=
  match x with S754_infinity s => Bool.eqb s sign | _ => false end.

Definition f64_signbit (x : float64) : bool :=
  match x with
  | S754_zero s | S754_infinity s | S754_finite s _ _ => s
  | S754_nan => false
  end.

(** The integer part of the magnitude of [m * 2^e], and whether a fraction is
    left. *)
Definition mag_floor (m : positive) (e : Z) : Z :=
  if 0 <=? e then Z.pos m * 2 ^ e else Z.pos m / 2 ^ (- e).

Definition mag_ceil (m : positive) (e : Z) : Z :=
  if 0 <=? e then Z.pos m * 2 ^ e else - ((- Z.pos m) / 2 ^ (- e)).

(** [math.Floor] and [math.Ceil]; a zero result keeps the sign of [x]. *)
Definition f64_floor (x : float64) : float64 :=
  match x with
  | S754_finite s m e =>
      if 0 <=? e then x
      else binary_normalize 53 1024
             (if s then - mag_ceil m e else mag_floor m e) 0 s
  | _ => x
  end.

Definition f64_ceil (x : float64) : float64 :=
  match x with
  | S754_finite s m e =>
      if 0 <=? e then x
      else binary_normalize 53 1024
             (if s then - mag_floor m e else mag_ceil m e) 0 s
  | _ => x
  end.

(** [math.Max] and [math.Min], special cases first as the package does. *)
Definition f64_max (x y : float64) : float64 :=
  if f64_is_inf x false || f64_is_inf y false then S754_infinity false
  else if f64_is_nan x || f64_is_nan y then S754_nan
  else if f64_eq x (S754_zero false) && f64_eq x y
       then if f64_signbit x then y else x
  else if f64_lt y x then x else y.

Definition f64_min (x y : float64) : float64 :=
  if f64_is_inf x true || f64_is_inf y true then S754_infinity true
  else if f64_is_nan x || f64_is_nan y then S754_nan
  else if f64_eq x (S754_zero false) && f64_eq x y
       then if f64_signbit x then x else y
  else if f64_lt x y then x else y.

(** [int64(x)], and [int(x)]: truncation toward zero.  A value out of range is
    implementation-defined in Go; amd64 gives the most negative integer. *)
Definition f64_to_int64 (x : float64) : Z :=
  match x with
  | S754_zero _ => 0
  | S754_finite s m e =>
      let v := cond_Zopp s (mag_floor m e) in
      if (min_int64 <=? v) && (v <=? max_int64) then v else min_int64
  | _ => min_int64
  end.

#[global] Arguments f64_of_Z : simpl never.
#[global] Arguments f64_add : simpl never.
#[global] Arguments f64_sub : simpl never.
#[global] Arguments f64_mul : simpl never.
#[global] Arguments f64_div : simpl never.
#[global] Arguments f64_lt : simpl never.
#[global] Arguments f64_le : simpl never.
#[global] Arguments f64_eq : simpl never.
#[global] Arguments f64_max : simpl never.
#[global] Arguments f64_min : simpl never.
#[global] Arguments f64_to_int64 : simpl never.

(** [Duration.Seconds]: whole seconds plus the fraction. *)
Definition dur_seconds (d : Z) : float64 :=
  let sec := Z.quot d Second in
  let nsec := Z.rem d Second in
  f64_add (f64_of_Z sec) (f64_div (f64_of_Z nsec) (f64_of_Z 1000000000)).

(** ** Digits and rounding exponents *)

Lemma digits2_pos_spec m :
  2 ^ (Z.pos (digits2_pos m) - 1) <= Z.pos m < 2 ^ Z.pos (digits2_pos m).
Proof.
  induction m as [p IH|p IH|]; cbn [digits2_pos]; [| |cbn; lia].
  all: rewrite Pos2Z.inj_succ.
  all: replace (Z.succ (Z.pos (digits2_pos p)) - 1) with (Z.succ (Z.pos (digits2_pos p) - 1)) by lia.
  all: rewrite !Z.pow_succ_r by lia; lia.
Qed.

Lemma digits2_pos_unique m d :
  2 ^ (d - 1) <= Z.pos m < 2 ^ d -> Z.pos (digits2_pos m) = d.
Proof.
  intros H. pose proof (digits2_pos_spec m) as S.
  pose proof (Z.pow_le_mono_r 2 d 0).
  destruct (Z.lt_trichotomy (Z.pos (digits2_pos m)) d) as [L|[E|L]]; [|done|].
  - pose proof (Z.pow_le_mono_r 2 (Z.pos (digits2_pos m)) (d - 1)). lia.
  - pose proof (Z.pow_le_mono_r 2 d (Z.pos (digits2_pos m) - 1)). lia.
Qed.

Lemma Zdigits2_spec m : 0 < m -> 2 ^ (Zdigits2 m - 1) <= m < 2 ^ Zdigits2 m.
Proof. intros H. destruct m as [|p|p]; try lia. apply digits2_pos_spec. Qed.

Lemma Zdigits2_unique m d : 2 ^ (d - 1) <= m < 2 ^ d -> 0 < m -> Zdigits2 m = d.
Proof. intros H ?. destruct m as [|p|p]; try lia. by apply digits2_pos_unique. Qed.

Lemma Zdigits2_nonneg m : 0 <= Zdigits2 m.
Proof. destruct m; simpl; lia. Qed.

Lemma Zdigits2_le m d : 0 <= d -> 0 <= m < 2 ^ d -> Zdigits2 m <= d.
Proof.
  intros Hd Hm. destruct (Z.eq_dec m 0) as [->|]; [done|].
  pose proof (Zdigits2_spec m ltac:(lia)).
  destruct (Z_le_gt_dec (Zdigits2 m) d); [done|].
  pose proof (Z.pow_le_mono_r 2 d (Zdigits2 m - 1)). lia.
Qed.

Lemma fexp64_eq d : fexp64 d = Z.max (d - 53) (-1074).
Proof. reflexivity. Qed.

Lemma bounded_spec m e :
  bounded 53 1024 m e = true <->
  Z.max (Z.pos (digits2_pos m) + e - 53) (-1074) = e /\ e <= 971.
Proof.
  unfold bounded, canonical_mantissa. rewrite fexp64_eq, andb_true_iff, Z.eqb_eq, Z.leb_le.
  reflexivity.
Qed.

(** ** Shifting right with a rounding location *)

(** [located m l a b]: the number [a/b] has integer part [m] and lies at
    location [l] between [m] and [m + 1]. *)
Definition located (m : Z) (l : location) (a b : Z) : Prop :=
  0 < b /\
  match l with
  | loc_Exact => a = m * b
  | loc_Inexact Lt => m * b < a /\ 2 * a < (2 * m + 1) * b
  | loc_Inexact Eq => 2 * a = (2 * m + 1) * b
  | loc_Inexact Gt => (2 * m + 1) * b < 2 * a /\ 2 * a < (2 * m + 2) * b
  end.

Lemma located_floor m l a b : located m l a b -> m * b <= a /\ a < (m + 1) * b.
Proof. intros [Hb H]. destruct l as [|[]]; nia. Qed.

Lemma located_exact m : located m loc_Exact m 1.
Proof. split; [lia|]. by rewrite Z.mul_1_r. Qed.

Lemma loc_of_record_of_loc m l : loc_of_shr_record (shr_record_of_loc m l) = l.
Proof. by destruct l as [|[]]. Qed.

Lemma shr_m_of_loc m l : shr_m (shr_record_of_loc m l) = m.
Proof. by destruct l as [|[]]. Qed.

Lemma shr_1_located r a b :
  0 <= shr_m r -> located (shr_m r) (loc_of_shr_record r) a b ->
  located (shr_m (shr_1 r)) (loc_of_shr_record (shr_1 r)) a (2 * b) /\
  shr_m (shr_1 r) = shr_m r / 2.
Proof.
  destruct r as [m r s]; cbn [shr_m]. intros Hm.
  destruct m as [|[p|p|]|p]; [| | | |lia].
  all: destruct r, s; cbn; intros [Hb H]; (split; [split; nia|try done]).
  all: first [rewrite Pos2Z.inj_xI|rewrite Pos2Z.inj_xO].
  all: first [apply (Z.div_unique _ _ _ 1); lia|apply (Z.div_unique _ _ _ 0); lia].
Qed.

Lemma iter_pos_nat {A} (f : A -> A) n x :
  SpecFloat.iter_pos f n x = Nat.iter (Pos.to_nat n) f x.
Proof.
  revert x. induction n as [n IH|n IH|]; intros x; cbn [SpecFloat.iter_pos].
  - rewrite !IH, Pos2Nat.inj_xI, <- Nat.iter_add.
    replace (S (2 * Pos.to_nat n))%nat with (Pos.to_nat n + (Pos.to_nat n + 1))%nat by lia.
    rewrite !Nat.iter_add. done.
  - rewrite !IH, Pos2Nat.inj_xO, <- Nat.iter_add. f_equal. lia.
  - done.
Qed.

Lemma shr_iter_located n r a b :
  0 <= shr_m r -> located (shr_m r) (loc_of_shr_record r) a b ->
  let r' := Nat.iter n shr_1 r in
  located (shr_m r') (loc_of_shr_record r') a (b * 2 ^ Z.of_nat n) /\
  shr_m r' = shr_m r / 2 ^ Z.of_nat n.
Proof.
  intros Hm H. induction n as [|n [IH1 IH2]]; cbn [Nat.iter nat_rect].
  - cbn. rewrite Z.mul_1_r, Z.div_1_r. done.
  - rewrite Nat2Z.inj_succ, Z.pow_succ_r by lia.
    destruct (shr_1_located (Nat.iter n shr_1 r) a (b * 2 ^ Z.of_nat n)) as [L1 L2]; [|done|].
    { rewrite IH2. apply Z.div_pos; [lia|]. apply Z.pow_pos_nonneg; lia. }
    split; [by replace (b * (2 * 2 ^ Z.of_nat n)) with (2 * (b * 2 ^ Z.of_nat n)) by ring|].
    rewrite Z.mul_comm, <- Z.div_div by lia. by rewrite <- IH2.
Qed.

Lemma shr_fexp_spec m e l a b :
  0 <= m -> located m l a b -> e <= fexp64 (Zdigits2 m + e) ->
  exists r, shr_fexp 53 1024 m e l = (r, fexp64 (Zdigits2 m + e)) /\
    located (shr_m r) (loc_of_shr_record r) a (b * 2 ^ (fexp64 (Zdigits2 m + e) - e)) /\
    shr_m r = m / 2 ^ (fexp64 (Zdigits2 m + e) - e).
Proof.
  intros Hm Hl He. unfold shr_fexp, shr.
  set (f := fexp64 (Zdigits2 m + e)) in *.
  destruct (f - e) as [|p|p] eqn:E; [| |lia].
  - exists (shr_record_of_loc m l). rewrite loc_of_record_of_loc, shr_m_of_loc.
    cbn. rewrite Z.mul_1_r, Z.div_1_r. repeat split; try apply Hl. f_equal. lia.
  - eexists. split; [f_equal; lia|]. rewrite iter_pos_nat.
    rewrite <- (positive_nat_Z p).
    pose proof (shr_iter_located (Pos.to_nat p) (shr_record_of_loc m l) a b) as S.
    rewrite loc_of_record_of_loc, shr_m_of_loc in S. by apply S.
Qed.

Lemma round_ne_spec m l a b :
  0 <= m -> located m l a b ->
  let r := round_nearest_even m l in
  m <= r <= m + 1 /\
  (forall k, k * b <= a -> k <= r) /\ (forall k, a <= k * b -> r <= k) /\
  (forall k, Z.abs (r * b - a) <= Z.abs (k * b - a)).
Proof.
  intros Hm [Hb H]. assert (forall x y, x * b < y * b -> x < y) as C by (intros; nia).
  assert (forall k, k <= m \/ m + 1 <= k) as D by lia.
  destruct l as [|[]]; cbn; [| destruct (Z.even m) | |].
  all: split; [lia|]; split; [|split]; intros k; [intros Hk|intros Hk|];
    [| |destruct (D k) as [Dk|Dk]; nia].
  all: first [assert (k < m + 1) by (apply C; nia)|assert (m < k + 1) by (apply C; nia)|idtac]; 
    first [lia | assert (m < k) by (apply C; nia); lia].
Qed.

(** ** The rounding of an exact result *)

(** The number [r * 2^e] for a mantissa [r <= 2^53] on the grid of [e]. *)
Definition round_result (s : bool) (r e : Z) : float64 :=
  match r with
  | Z.pos m =>
      if r =? 2 ^ 53 then
        if e + 1 <=? 971 then S754_finite s (2 ^ 52) (e + 1) else S754_infinity s
      else if e <=? 971 then S754_finite s m e else S754_infinity s
  | _ => S754_zero s
  end.

(** The first shift leaves at most 53 digits, and exactly 53 above the
    subnormal range. *)
Lemma first_shift_bounds m e :
  0 <= m -> e <= fexp64 (Zdigits2 m + e) ->
  let e' := fexp64 (Zdigits2 m + e) in
  let q := m / 2 ^ (e' - e) in
  0 <= q < 2 ^ 53 /\ (-1074 < e' -> 2 ^ 52 <= q).
Proof.
  intros Hm He e' q. subst q e'. rewrite fexp64_eq in *.
  assert (0 < 2 ^ (Z.max (Zdigits2 m + e - 53) (-1074) - e)) by (apply Z.pow_pos_nonneg; lia).
  destruct (Z.eq_dec m 0) as [->|].
  { rewrite Z.div_0_l by lia. change (Zdigits2 0) with 0 in *. lia. }
  set (f := Z.max (Zdigits2 m + e - 53) (-1074)) in *.
  pose proof (Zdigits2_spec m ltac:(lia)) as D.
  split.
  - split; [apply Z.div_pos; lia|]. apply Z.div_lt_upper_bound; [lia|].
    rewrite <- Z.pow_add_r by lia.
    pose proof (Z.pow_le_mono_r 2 (Zdigits2 m) (f - e + 53)). lia.
  - intros Hf. apply Z.div_le_lower_bound; [lia|].
    rewrite <- Z.pow_add_r by lia.
    replace (f - e + 52) with (Zdigits2 m - 1) by lia. lia.
Qed.

Lemma second_shift s r e :
  0 <= r <= 2 ^ 53 -> -1074 <= e ->
  match shr_fexp 53 1024 r e loc_Exact with
  | (mrs, e'') =>
      match shr_m mrs with
      | 0 => S754_zero s
      | Z.pos m => if e'' <=? 1024 - 53 then S754_finite s m e'' else S754_infinity s
      | Z.neg _ => S754_nan
      end
  end = round_result s r e.
Proof.
  intros Hr He. unfold shr_fexp, shr. rewrite fexp64_eq.
  destruct (Z.eq_dec r (2 ^ 53)) as [->|Hne].
  - replace (Zdigits2 (2 ^ 53)) with 54 by reflexivity.
    replace (Z.max (54 + e - 53) (-1074) - e) with 1 by lia. reflexivity.
  - pose proof (Zdigits2_le r 53 ltac:(lia) ltac:(lia)).
    destruct (Z.max (Zdigits2 r + e - 53) (-1074) - e) eqn:E; [|lia|].
    all: cbn [shr_m shr_record_of_loc]; unfold round_result.
    all: destruct r; [done| |lia].
    all: rewrite (proj2 (Z.eqb_neq _ _) Hne); done.
Qed.

Lemma round_aux_spec s m e l a b :
  0 <= m -> located m l a b -> e <= fexp64 (Zdigits2 m + e) ->
  let e' := fexp64 (Zdigits2 m + e) in
  exists r, binary_round_aux 53 1024 s m e l = round_result s r e' /\
    0 <= r <= 2 ^ 53 /\
    (-1074 < e' -> 2 ^ 52 <= r /\ 2 ^ 52 * (b * 2 ^ (e' - e)) <= a) /\
    (forall k, k * (b * 2 ^ (e' - e)) <= a -> k <= r) /\
    (forall k, a <= k * (b * 2 ^ (e' - e)) -> r <= k) /\
    (forall k, Z.abs (r * (b * 2 ^ (e' - e)) - a) <= Z.abs (k * (b * 2 ^ (e' - e)) - a)).
Proof.
  intros Hm Hl He e'.
  destruct (shr_fexp_spec m e l a b Hm Hl He) as (mrs & E & L & Q).
  destruct (first_shift_bounds m e Hm He) as [B1 B2]. fold e' in E, L, Q, B1, B2.
  assert (-1074 <= e') by (unfold e'; rewrite fexp64_eq; lia).
  rewrite <- Q in B1, B2.
  destruct (round_ne_spec _ _ _ _ (proj1 B1) L) as (R1 & R2 & R3 & R4).
  exists (round_nearest_even (shr_m mrs) (loc_of_shr_record mrs)).
  split; [unfold binary_round_aux; rewrite E; apply second_shift; lia|].
  split; [lia|]. split; [|done].
  intros He'. specialize (B2 He'). split; [lia|].
  destruct (located_floor _ _ _ _ L). destruct L as [Lb _]. nia.
Qed.

(** ** Denoted numbers

    A finite number is denoted by an integer, its value in units of [2^(-K)]
    for a [K] large enough for the exact intermediate results of the
    operations; which [K] is chosen does not matter. *)
Lemma K_exists : {k : Z | 2200 <= k}.
Proof. exists 2200. lia. Qed.

Definition K : Z := `K_exists.

Lemma K_ge : 2200 <= K.
Proof. unfold K. apply (proj2_sig K_exists). Qed.

Definition P (e : Z) : Z := 2 ^ (e + K).

Lemma P_pos e : -2200 <= e -> 0 < P e.
Proof. intros H. apply Z.pow_pos_nonneg; pose proof K_ge; lia. Qed.

Lemma P_shift e d : -2200 <= e -> 0 <= d -> P (e + d) = P e * 2 ^ d.
Proof.
  intros H Hd. unfold P. pose proof K_ge. rewrite <- Z.pow_add_r by lia. f_equal. lia.
Qed.

Lemma P_between e e' : -2200 <= e <= e' -> P e' = P e * 2 ^ (e' - e).
Proof. intros H. rewrite <- P_shift by lia. f_equal. lia. Qed.

Definition fval (x : float64) : Z :=
  match x with S754_finite s m e => cond_Zopp s (Z.pos m * P e) | _ => 0 end.

(** Finite canonical numbers. *)
Definition finite64 (x : float64) : Prop :=
  match x with
  | S754_zero _ => True
  | S754_finite _ m e => bounded 53 1024 m e = true
  | _ => False
  end.

(** The denoted numbers of finite canonical floats. *)
Definition rep (Y : Z) : Prop :=
  Y = 0 \/ exists m e, bounded 53 1024 m e = true /\ Z.abs Y = Z.pos m * P e.

Lemma bounded_range m e :
  bounded 53 1024 m e = true ->
  -1074 <= e <= 971 /\ 0 < Z.pos m < 2 ^ 53 /\ (-1074 < e -> 2 ^ 52 <= Z.pos m).
Proof.
  rewrite bounded_spec. intros [H1 H2]. pose proof (digits2_pos_spec m) as D.
  pose proof (Z.pow_le_mono_r 2 (Z.pos (digits2_pos m)) 53).
  repeat split; try lia. intros He.
  replace (Z.pos (digits2_pos m)) with 53 in D by lia. lia.
Qed.

Lemma bounded_intro m e :
  -1074 <= e <= 971 -> 0 < Z.pos m < 2 ^ 53 -> (-1074 < e -> 2 ^ 52 <= Z.pos m) ->
  bounded 53 1024 m e = true.
Proof.
  intros H1 H2 H3. rewrite bounded_spec.
  destruct (Z.eq_dec e (-1074)) as [->|].
  - pose proof (Zdigits2_le (Z.pos m) 53). cbn [Zdigits2] in *. lia.
  - rewrite (digits2_pos_unique m 53); [lia|]. cbn -[Z.pow]. lia.
Qed.

Lemma fval_rep x : finite64 x -> rep (fval x).
Proof.
  destruct x as [s| | |s m e]; try done; [by left|]. intros H. right.
  exists m, e. split; [done|]. pose proof (bounded_range _ _ H).
  pose proof (P_pos e ltac:(lia)). destruct s; simpl; lia.
Qed.

Lemma rep_opp Y : rep Y -> rep (- Y).
Proof. intros [->|(m & e & B & E)]; [by left|]. right. exists m, e. by rewrite Z.abs_opp. Qed.

Lemma rep_opp_iff Y : rep (- Y) <-> rep Y.
Proof. split; intros H; apply rep_opp in H; by rewrite ?Z.opp_involutive in H. Qed.

(** Any mantissa of at most 53 bits on the grid of a legal exponent is
    representable. *)
Lemma rep_mk n e : Z.abs n <= 2 ^ 53 -> -1074 <= e < 971 -> rep (n * P e).
Proof.
  intros Hn He. destruct (Z.eq_dec n 0) as [->|Hn0]; [by left|]. right.
  pose proof (P_pos e ltac:(lia)). rewrite Z.abs_mul, (Z.abs_eq (P e)) by lia.
  destruct (Z.eq_dec (Z.abs n) (2 ^ 53)) as [->|Hne].
  { exists (2 ^ 52)%positive, (e + 1). split.
    - apply bounded_intro; lia.
    - rewrite P_shift by lia. rewrite Pos2Z.inj_pow. ring. }
  destruct (Z.abs n) as [|p|p] eqn:E; [lia| |lia].
  pose proof (digits2_pos_spec p) as D. set (d := Z.pos (digits2_pos p)) in *.
  assert (d <= 53) by (apply (Zdigits2_le (Z.pos p) 53); lia).
  set (k := Z.min (53 - d) (e + 1074)).
  assert (0 < 2 ^ k) by (apply Z.pow_pos_nonneg; lia).
  exists (Z.to_pos (Z.pos p * 2 ^ k)), (e - k). rewrite Z2Pos.id by lia. split.
  - apply bounded_intro; [lia| |]; rewrite Z2Pos.id by lia.
    + split; [lia|]. apply Z.lt_le_trans with (2 ^ d * 2 ^ k); [nia|].
      rewrite <- Z.pow_add_r by lia. apply Z.pow_le_mono_r; lia.
    + intros Hk. replace (2 ^ 52) with (2 ^ (d - 1) * 2 ^ k); [nia|].
      rewrite <- Z.pow_add_r by lia. f_equal. lia.
  - rewrite (P_between (e - k) e) by lia. replace (e - (e - k)) with k by lia. ring.
Qed.

Lemma rep_int n : Z.abs n <= 2 ^ 53 -> rep (n * P 0).
Proof. intros H. apply rep_mk; lia. Qed.

(** ** Correct rounding

    [rounds R num den]: [R] is a canonical rounding of the exact number
    [num/den]: it lies on the same side of every representable number,
    overflows only past all of them, and no representable number is nearer. *)
Record rounds (R : float64) (num den : Z) : Prop := {
  rnd_valid : valid_binary 53 1024 R = true;
  rnd_not_nan : f64_is_nan R = false;
  rnd_lo : forall Y, rep Y -> Y * den <= num ->
    R = S754_infinity false \/ (finite64 R /\ Y <= fval R);
  rnd_hi : forall Y, rep Y -> num <= Y * den ->
    R = S754_infinity true \/ (finite64 R /\ fval R <= Y);
  rnd_near : finite64 R -> forall Y, rep Y ->
    Z.abs (fval R * den - num) <= Z.abs (Y * den - num)
}.

Lemma rep_abs_cases Y :
  rep Y -> 0 <= Y ->
  Y = 0 \/ exists m e, bounded 53 1024 m e = true /\ Y = Z.pos m * P e.
Proof. intros [->|(m & e & B & E)] HY; [by left|]. right. exists m, e. split; [done|lia]. Qed.

Lemma rep_max Y : rep Y -> Y <= (2 ^ 53 - 1) * P 971.
Proof.
  intros HR. destruct (Z_le_gt_dec 0 Y) as [HY|].
  2: { pose proof (P_pos 971). lia. }
  destruct (rep_abs_cases Y HR HY) as [->|(m & ey & B & ->)].
  { pose proof (P_pos 971). lia. }
  apply bounded_range in B. rewrite (P_between ey 971) by lia.
  pose proof (P_pos ey ltac:(lia)). pose proof (Z.pow_pos_nonneg 2 (971 - ey)).
  assert (Z.pos m * 1 <= (2 ^ 53 - 1) * 2 ^ (971 - ey)) by nia. nia.
Qed.

Section rounding.
Variables (r e e' a b : Z).
Hypothesis He : -2200 <= e <= e'.
Hypothesis Hb : 0 < b.
Hypothesis Hr : 0 <= r <= 2 ^ 53.
Hypothesis Hmin : -1074 <= e'.
Hypothesis Hnorm : -1074 < e' -> 2 ^ 52 <= r /\ 2 ^ 52 * (b * 2 ^ (e' - e)) <= a.
Hypothesis Hlo : forall k, k * (b * 2 ^ (e' - e)) <= a -> k <= r.
Hypothesis Hhi : forall k, a <= k * (b * 2 ^ (e' - e)) -> r <= k.
Hypothesis Hnear : forall k,
  Z.abs (r * (b * 2 ^ (e' - e)) - a) <= Z.abs (k * (b * 2 ^ (e' - e)) - a).

Lemma mag_lo Y : 0 <= Y -> rep Y -> Y * b <= a * P e -> Y <= r * P e'.
Proof using All.
  intros HY HR HYa. pose proof (P_pos e ltac:(lia)) as Pe. pose proof (P_pos e' ltac:(lia)).
  destruct (rep_abs_cases Y HR HY) as [->|(m & ey & B & ->)]; [nia|].
  apply bounded_range in B. destruct (Z_le_gt_dec e' ey) as [L|L].
  - rewrite (P_between e' ey), (P_between e e') in * by lia.
    assert (Z.pos m * 2 ^ (ey - e') <= r); [apply Hlo|nia].
    apply (Z.mul_le_mono_pos_r _ _ (P e)); nia.
  - destruct (Hnorm ltac:(lia)) as [Hr52 _].
    pose proof (P_pos ey ltac:(lia)).
    assert (2 * P ey <= P e').
    { rewrite (P_between ey e') by lia.
      pose proof (Z.pow_le_mono_r 2 1 (e' - ey)). nia. }
    nia.
Qed.

Lemma mag_hi Y : 0 <= Y -> rep Y -> a * P e <= Y * b -> r * P e' <= Y.
Proof using All.
  intros HY HR HYa. pose proof (P_pos e ltac:(lia)) as Pe. pose proof (P_pos e' ltac:(lia)).
  destruct (rep_abs_cases Y HR HY) as [->|(m & ey & B & ->)].
  { assert (r <= 0); [apply Hhi; nia|nia]. }
  apply bounded_range in B. destruct (Z_le_gt_dec e' ey) as [L|L].
  - rewrite (P_between e' ey), (P_between e e') in * by lia.
    assert (r <= Z.pos m * 2 ^ (ey - e')); [apply Hhi|nia].
    apply (Z.mul_le_mono_pos_r _ _ (P e)); nia.
  - exfalso. destruct (Hnorm ltac:(lia)) as [_ Ha].
    pose proof (P_pos ey ltac:(lia)).
    assert (2 * P ey <= P e').
    { rewrite (P_between ey e') by lia.
      pose proof (Z.pow_le_mono_r 2 1 (e' - ey)). nia. }
    assert (2 ^ 52 * b * P e' <= a * P e) by (rewrite (P_between e e') by lia; nia).
    assert (Z.pos m * P ey < 2 ^ 52 * P e') by nia.
    nia.
Qed.

Lemma mag_near Y :
  0 <= Y -> rep Y -> Z.abs (r * P e' * b - a * P e) <= Z.abs (Y * b - a * P e).
Proof using All.
  intros HY HR. pose proof (P_pos e ltac:(lia)) as Pe. pose proof (P_pos e' ltac:(lia)).
  assert (forall k, Z.abs (r * P e' * b - a * P e) <= Z.abs (k * P e' * b - a * P e)) as N.
  { intros k. rewrite (P_between e e') by lia. set (c := 2 ^ (e' - e)) in *.
    replace (r * (P e * c) * b - a * P e) with ((r * (b * c) - a) * P e) by ring.
    replace (k * (P e * c) * b - a * P e) with ((k * (b * c) - a) * P e) by ring.
    rewrite !Z.abs_mul. pose proof (Hnear k). nia. }
  destruct (rep_abs_cases Y HR HY) as [->|(m & ey & B & ->)]; [apply (N 0)|].
  apply bounded_range in B. destruct (Z_le_gt_dec e' ey) as [L|L].
  - rewrite (P_between e' ey) by lia.
    replace (Z.pos m * (P e' * 2 ^ (ey - e'))) with (Z.pos m * 2 ^ (ey - e') * P e') by ring.
    apply N.
  - destruct (Hnorm ltac:(lia)) as [_ Ha]. pose proof (P_pos ey ltac:(lia)).
    assert (2 * P ey <= P e').
    { rewrite (P_between ey e') by lia.
      pose proof (Z.pow_le_mono_r 2 1 (e' - ey)). nia. }
    assert (2 ^ 52 * P e' * b <= a * P e) by (rewrite (P_between e e') by lia; nia).
    assert (Z.pos m * P ey <= 2 ^ 52 * P e') by nia.
    specialize (N (2 ^ 52)). nia.
Qed.

Lemma round_result_cases s :
  (round_result s r e' = S754_infinity s /\ 2 ^ 53 * P 971 <= r * P e') \/
  (finite64 (round_result s r e') /\ fval (round_result s r e') = cond_Zopp s (r * P e')).
Proof using All.
  unfold round_result. destruct r as [|p|p] eqn:Er; [right; by destruct s| |lia].
  destruct (Z.eqb_spec (Z.pos p) (2 ^ 53)) as [Ep|Ep].
  - destruct (Z.leb_spec (e' + 1) 971).
    + right. split; [apply bounded_intro; lia|]. cbn [fval]. f_equal.
      rewrite Ep, P_shift by lia. rewrite Pos2Z.inj_pow. ring.
    + left. split; [done|]. rewrite Ep. rewrite (P_between 971 e') by lia.
      pose proof (P_pos 971). pose proof (Z.pow_pos_nonneg 2 (e' - 971)). nia.
  - destruct (Z.leb_spec e' 971).
    + right. split; [|done]. apply bounded_intro; lia.
    + left. split; [done|]. rewrite (P_between 971 e') by lia.
      pose proof (P_pos 971 ltac:(lia)). destruct (Hnorm ltac:(lia)) as [Hp _].
      assert (2 <= 2 ^ (e' - 971)) by (apply (Z.pow_le_mono_r 2 1); lia).
      assert (2 ^ 52 * 2 <= Z.pos p * 2 ^ (e' - 971)) by nia. nia.
Qed.

Lemma round_result_rounds s :
  0 <= a -> rounds (round_result s r e') (cond_Zopp s (a * P e)) b.
Proof using All.
  intros Ha. pose proof (P_pos e ltac:(lia)). pose proof (P_pos e' ltac:(lia)).
  pose proof (P_pos 971 ltac:(lia)).
  pose proof (round_result_cases s) as C. split.
  - destruct C as [[-> _]|[F _]]; [done|]. by destruct (round_result s r e').
  - destruct C as [[-> _]|[F _]]; [done|]. by destruct (round_result s r e').
  - intros Y HR HY. destruct s; cbn [cond_Zopp] in *.
    + assert (a * P e <= (- Y) * b) as HY' by (rewrite Z.mul_opp_l; lia).
      assert (0 <= - Y) as HY0 by nia.
      pose proof (mag_hi (- Y) HY0 (rep_opp _ HR) HY').
      pose proof (rep_max _ (rep_opp _ HR)).
      destruct C as [[_ ?]|[F E]]; [lia|]. right. split; [done|lia].
    + destruct C as [[-> _]|[F E]]; [by left|]. right. split; [done|].
      destruct (Z_le_gt_dec 0 Y); [|nia].
      pose proof (mag_lo Y ltac:(lia) HR HY). lia.
  - intros Y HR HY. destruct s; cbn [cond_Zopp] in *.
    + destruct C as [[-> _]|[F E]]; [by left|]. right. split; [done|].
      destruct (Z_le_gt_dec Y 0); [|nia].
      assert ((- Y) * b <= a * P e) as HY' by (rewrite Z.mul_opp_l; lia).
      pose proof (mag_lo (- Y) ltac:(lia) (rep_opp _ HR) HY'). lia.
    + assert (0 <= Y) as HY0 by nia. pose proof (mag_hi Y HY0 HR HY).
      pose proof (rep_max _ HR).
      destruct C as [[_ ?]|[F E]]; [lia|]. right. split; [done|lia].
  - intros F Y HR. destruct C as [[E _]|[_ E]]; [by rewrite E in F|]. rewrite E.
    pose proof (mag_near (Z.abs Y) ltac:(lia)) as N.
    assert (rep (Z.abs Y)) as HA by (destruct (Z.abs_spec Y) as [[_ ->]|[_ ->]]; [done|by apply rep_opp]).
    specialize (N HA). pose proof (mag_near 0 ltac:(lia) ltac:(by left)).
    destruct s; cbn [cond_Zopp]; destruct (Z.abs_spec Y) as [[? EA]|[? EA]]; rewrite EA in N; nia.
Qed.

End rounding.

Lemma round_aux_rounds s m e l a b :
  0 <= m -> -2200 <= e -> located m l a b -> e <= fexp64 (Zdigits2 m + e) ->
  rounds (binary_round_aux 53 1024 s m e l) (cond_Zopp s (a * P e)) b.
Proof.
  intros Hm He Hl Hf.
  destruct (round_aux_spec s m e l a b Hm Hl Hf) as (r & -> & R1 & R2 & R3 & R4 & R5).
  pose proof (located_floor _ _ _ _ Hl). destruct Hl as [Hb _].
  apply round_result_rounds; try done; [|nia].
  rewrite fexp64_eq. lia.
Qed.
