(* ===== verification/Float64Facts.v ===== *)
(** * Facts about [float64] arithmetic

    Each operation of [Float64] rounds the exact result of its operands
    ([f64_add_rounds], [f64_mul_rounds], [f64_div_rounds], ...); from these the
    file derives what the components need: exactness on integers up to 2^53,
    the agreement of comparisons with the denoted order, and the behaviour of
    floor, ceiling, [math.Max], [math.Min] and of the conversion to [int]. *)

From S2P Require Import Prelude GoTypes Float64.

Local Open Scope Z_scope.

(** ** Algebra of [rounds] *)

Lemma rounds_scale R num den c :
  0 < c -> rounds R num den <-> rounds R (num * c) (den * c).
Proof.
  intros Hc. assert (forall Y, Y * den <= num <-> Y * (den * c) <= num * c) as E1
    by (intros; split; nia).
  assert (forall Y, num <= Y * den <-> num * c <= Y * (den * c)) as E2
    by (intros; split; nia).
  assert (forall Y, Z.abs (Y * (den * c) - num * c) = Z.abs (Y * den - num) * c) as E3.
  { intros Y. replace (Y * (den * c) - num * c) with ((Y * den - num) * c) by ring.
    rewrite Z.abs_mul. lia. }
  split; intros [H1 H2 H3 H4 H5]; split; try done.
  - intros Y HY Hle. apply H3; [done|]. by apply E1.
  - intros Y HY Hle. apply H4; [done|]. by apply E2.
  - intros F Y HY. rewrite !E3. specialize (H5 F Y HY). nia.
  - intros Y HY Hle. apply H3; [done|]. by apply E1 in Hle.
  - intros Y HY Hle. apply H4; [done|]. by apply E2 in Hle.
  - intros F Y HY. specialize (H5 F Y HY). rewrite !E3 in H5. nia.
Qed.

Lemma rounds_exact R num den Y :
  rounds R num den -> rep Y -> Y * den = num -> finite64 R /\ fval R = Y.
Proof.
  intros H HY E.
  destruct (rnd_lo _ _ _ H Y HY ltac:(lia)) as [->|[F L]].
  - destruct (rnd_hi _ _ _ H Y HY ltac:(lia)) as [?|[? _]]; done.
  - destruct (rnd_hi _ _ _ H Y HY ltac:(lia)) as [->|[_ U]]; [done|]. split; [done|lia].
Qed.

(** A result squeezed between two representable numbers is finite. *)
Lemma rounds_between R num den Y1 Y2 :
  rounds R num den -> rep Y1 -> rep Y2 -> Y1 * den <= num -> num <= Y2 * den ->
  finite64 R /\ Y1 <= fval R <= Y2.
Proof.
  intros H H1 H2 L U.
  destruct (rnd_lo _ _ _ H Y1 H1 L) as [->|[F A]].
  - destruct (rnd_hi _ _ _ H Y2 H2 U) as [?|[? _]]; done.
  - destruct (rnd_hi _ _ _ H Y2 H2 U) as [->|[_ B]]; [done|]. done.
Qed.

Lemma rounds_self x : finite64 x -> rounds x (fval x) 1.
Proof.
  intros F. split; try (by destruct x).
  - intros Y _ HY. right. split; [done|lia].
  - intros Y _ HY. right. split; [done|lia].
  - intros _ Y _. lia.
Qed.

Lemma rounds_zero s den : 0 < den -> rounds (S754_zero s) 0 den.
Proof.
  intros H. split; try done.
  - intros Y _ HY. right. split; [done|]. simpl. nia.
  - intros Y _ HY. right. split; [done|]. simpl. nia.
  - intros _ Y _. simpl. lia.
Qed.

(** Rounding is monotone. *)
Lemma rounds_mono R1 n1 R2 n2 den :
  0 < den -> rounds R1 n1 den -> rounds R2 n2 den -> finite64 R1 -> finite64 R2 ->
  n1 < n2 -> fval R1 <= fval R2.
Proof.
  intros Hd H1 H2 F1 F2 Hn.
  pose proof (rnd_near _ _ _ H1 F1 _ (fval_rep _ F2)).
  pose proof (rnd_near _ _ _ H2 F2 _ (fval_rep _ F1)).
  destruct (Z_le_gt_dec (fval R1) (fval R2)); [done|]. nia.
Qed.

(** ** Alignment and normalisation *)

Lemma iter_xO m d : Z.pos (Pos.iter xO m d) = Z.pos m * 2 ^ Z.pos d.
Proof.
  induction d as [|d IH] using Pos.peano_ind; [cbn; lia|].
  rewrite Pos.iter_succ, Pos2Z.inj_succ, Z.pow_succ_r by lia.
  rewrite Pos2Z.inj_xO, IH. ring.
Qed.

Lemma shl_align_spec m e e' :
  shl_align m e e' = (fst (shl_align m e e'), Z.min e e') /\
  Z.pos (fst (shl_align m e e')) = Z.pos m * 2 ^ (e - Z.min e e').
Proof.
  unfold shl_align. destruct (e' - e) as [|d|d] eqn:E; cbn [fst].
  - split; [f_equal; lia|]. replace (e - Z.min e e') with 0 by lia. lia.
  - split; [f_equal; lia|]. replace (e - Z.min e e') with 0 by lia. lia.
  - split; [f_equal; lia|]. rewrite iter_xO. do 2 f_equal. lia.
Qed.

Lemma digits_shift m n k :
  0 <= k -> Z.pos n = Z.pos m * 2 ^ k ->
  Z.pos (digits2_pos n) = Z.pos (digits2_pos m) + k.
Proof.
  intros Hk E. apply digits2_pos_unique. pose proof (digits2_pos_spec m).
  assert (0 < 2 ^ k) by (apply Z.pow_pos_nonneg; lia). rewrite E.
  replace (Z.pos (digits2_pos m) + k - 1) with (Z.pos (digits2_pos m) - 1 + k) by lia.
  rewrite !Z.pow_add_r by lia. nia.
Qed.

Lemma binary_round_rounds s m e :
  -2200 <= e -> rounds (binary_round 53 1024 s m e) (cond_Zopp s (Z.pos m * P e)) 1.
Proof.
  intros He. unfold binary_round.
  set (f := fexp64 (Z.pos (digits2_pos m) + e)).
  destruct (shl_align_spec m e f) as [Es Em].
  set (n := fst (shl_align m e f)) in *. rewrite Es.
  pose proof (digits_shift m n (e - Z.min e f) ltac:(lia) Em) as Dn.
  assert (f = Z.max (Z.pos (digits2_pos m) + e - 53) (-1074)) as Ef by done.
  clearbody n f.
  replace (Z.pos m * P e) with (Z.pos n * P (Z.min e f)).
  2: { rewrite Em, (P_between (Z.min e f) e) by lia. ring. }
  apply round_aux_rounds; [lia|lia|apply located_exact|].
  cbn [Zdigits2]. rewrite fexp64_eq, Dn. lia.
Qed.

Lemma normalize_rounds z e s :
  -2200 <= e -> rounds (binary_normalize 53 1024 z e s) (z * P e) 1.
Proof.
  intros He. destruct z as [|m|m]; cbn [binary_normalize].
  - by apply rounds_zero.
  - apply (binary_round_rounds false m e He).
  - pose proof (binary_round_rounds true m e He) as H. cbn [cond_Zopp] in H.
    by rewrite <- Z.mul_opp_l in H.
Qed.

Lemma f64_of_Z_rounds z : rounds (f64_of_Z z) (z * P 0) 1.
Proof. apply normalize_rounds. lia. Qed.

(** ** The four operations *)

Lemma cond_Zopp_mul s a b : cond_Zopp s a * b = cond_Zopp s (a * b).
Proof. destruct s; cbn [cond_Zopp]; ring. Qed.

(** Two operands on the grid of the smaller exponent. *)
Lemma align_val s m e e' :
  -2200 <= e' <= e ->
  cond_Zopp s (Z.pos (fst (shl_align m e e'))) * P e' = cond_Zopp s (Z.pos m * P e).
Proof.
  intros He. destruct (shl_align_spec m e e') as [_ E]. rewrite E.
  replace (Z.min e e') with e' by lia. rewrite cond_Zopp_mul. f_equal.
  rewrite (P_between e' e) by lia. ring.
Qed.

Lemma f64_add_rounds x y :
  finite64 x -> finite64 y -> rounds (f64_add x y) (fval x + fval y) 1.
Proof.
  destruct x as [sx| | |sx mx ex], y as [sy| | |sy my ey]; try done; intros Fx Fy.
  - destruct sx, sy; by apply rounds_zero.
  - by apply (rounds_self (S754_finite sy my ey)).
  - cbn [fval]. rewrite Z.add_0_r. by apply (rounds_self (S754_finite sx mx ex)).
  - pose proof (bounded_range _ _ Fx). pose proof (bounded_range _ _ Fy).
    unfold f64_add; cbn [fval SFadd].
    rewrite <- (align_val sx mx ex (Z.min ex ey)), <- (align_val sy my ey (Z.min ex ey)) by lia.
    rewrite <- Z.mul_add_distr_r. apply normalize_rounds. lia.
Qed.

Lemma f64_sub_rounds x y :
  finite64 x -> finite64 y -> rounds (f64_sub x y) (fval x - fval y) 1.
Proof.
  destruct x as [sx| | |sx mx ex], y as [sy| | |sy my ey]; try done; intros Fx Fy.
  - destruct sx, sy; by apply rounds_zero.
  - pose proof (rounds_self (S754_finite (negb sy) my ey) Fy) as H. unfold f64_sub; cbn [SFsub].
    replace (fval (S754_zero sx) - fval (S754_finite sy my ey))
      with (fval (S754_finite (negb sy) my ey)); [done|].
    destruct sy; cbn [fval cond_Zopp negb]; lia.
  - cbn [fval]. rewrite Z.sub_0_r. by apply (rounds_self (S754_finite sx mx ex)).
  - pose proof (bounded_range _ _ Fx). pose proof (bounded_range _ _ Fy).
    unfold f64_sub; cbn [fval SFsub].
    rewrite <- (align_val sx mx ex (Z.min ex ey)), <- (align_val sy my ey (Z.min ex ey)) by lia.
    rewrite <- Z.mul_sub_distr_r. apply normalize_rounds. lia.
Qed.

Lemma P_mul e e' : -1100 <= e -> -1100 <= e' -> P e * P e' = P (e + e') * P 0.
Proof.
  intros H1 H2. unfold P. pose proof K_ge. rewrite <- !Z.pow_add_r by lia. f_equal. lia.
Qed.

Lemma digits_mul m n :
  Z.pos (digits2_pos m) + Z.pos (digits2_pos n) - 1 <= Zdigits2 (Z.pos (m * n)).
Proof.
  pose proof (digits2_pos_spec m). pose proof (digits2_pos_spec n).
  pose proof (Zdigits2_spec (Z.pos (m * n)) ltac:(lia)) as D. rewrite Pos2Z.inj_mul in D at 1 2.
  set (d := Zdigits2 (Z.pos (m * n))) in *.
  destruct (Z_le_gt_dec (Z.pos (digits2_pos m) + Z.pos (digits2_pos n) - 1) d) as [|L]; [done|].
  assert (2 ^ d <= 2 ^ (Z.pos (digits2_pos m) - 1 + (Z.pos (digits2_pos n) - 1)))
    by (apply Z.pow_le_mono_r; lia).
  rewrite Z.pow_add_r in * by lia.
  pose proof (Z.pow_pos_nonneg 2 (Z.pos (digits2_pos m) - 1)).
  pose proof (Z.pow_pos_nonneg 2 (Z.pos (digits2_pos n) - 1)). nia.
Qed.

Lemma cond_Zopp_xorb sx sy a b :
  cond_Zopp (xorb sx sy) (a * b) = cond_Zopp sx a * cond_Zopp sy b.
Proof. destruct sx, sy; cbn [cond_Zopp xorb]; ring. Qed.

Lemma f64_mul_rounds x y :
  finite64 x -> finite64 y -> rounds (f64_mul x y) (fval x * fval y) (P 0).
Proof.
  pose proof (P_pos 0 ltac:(lia)) as P0.
  destruct x as [sx| | |sx mx ex], y as [sy| | |sy my ey]; try done; intros Fx Fy.
  1,2: by apply rounds_zero.
  { cbn [fval]. rewrite Z.mul_0_r. by apply rounds_zero. }
  pose proof (bounded_range _ _ Fx). pose proof (bounded_range _ _ Fy).
  unfold f64_mul; cbn [fval SFmul]. rewrite <- cond_Zopp_xorb.
  replace (Z.pos mx * P ex * (Z.pos my * P ey)) with (Z.pos (mx * my) * P (ex + ey) * P 0).
  2: { rewrite Pos2Z.inj_mul, <- Z.mul_assoc, <- P_mul by lia. ring. }
  rewrite <- cond_Zopp_mul. rewrite <- (Z.mul_1_l (P 0)) at 2.
  apply rounds_scale; [done|]. apply round_aux_rounds; [lia|lia|apply located_exact|].
  pose proof (digits_mul mx my) as D. rewrite fexp64_eq.
  apply bounded_spec in Fx, Fy. lia.
Qed.

Lemma new_location_located q r a n :
  0 <= r < n -> a = q * n + r -> located q (new_location n r) a n.
Proof.
  intros Hr ->. split; [lia|]. unfold new_location, new_location_even, new_location_odd.
  destruct (Z.even n) eqn:Ev; destruct (Z.eqb_spec r 0) as [->|]; try lia.
  - destruct (Z.compare_spec (2 * r) n); lia.
  - assert (Z.odd n = true) as Od by (by rewrite <- Z.negb_even, Ev).
    apply Z.odd_spec in Od as [k Hk]. destruct (Z.compare_spec (2 * r + 1) n); lia.
Qed.

(** Dividing magnitudes: the quotient is on a grid fine enough to be rounded. *)
Lemma div_core_spec m1 e1 m2 e2 q e' l :
  SFdiv_core_binary 53 1024 (Z.pos m1) e1 (Z.pos m2) e2 = (q, e', l) ->
  0 <= q /\ e' <= e1 - e2 /\ e' <= fexp64 (Zdigits2 q + e') /\
  e' = Z.min (fexp64 (Z.pos (digits2_pos m1) + e1 - (Z.pos (digits2_pos m2) + e2))) (e1 - e2) /\
  located q l (Z.pos m1 * 2 ^ (e1 - e2 - e')) (Z.pos m2).
Proof.
  unfold SFdiv_core_binary. cbn [Zdigits2].
  set (d1 := Z.pos (digits2_pos m1)). set (d2 := Z.pos (digits2_pos m2)).
  set (f := fexp64 (d1 + e1 - (d2 + e2))). set (ez := Z.min f (e1 - e2)).
  replace (match e1 - e2 - ez with
           | 0 => Z.pos m1
           | Z.pos _ => Z.shiftl (Z.pos m1) (e1 - e2 - ez)
           | Z.neg _ => 0
           end) with (Z.pos m1 * 2 ^ (e1 - e2 - ez)).
  2: { destruct (e1 - e2 - ez) eqn:E; [lia| |lia]. by rewrite Z.shiftl_mul_pow2 by lia. }
  set (a := Z.pos m1 * 2 ^ (e1 - e2 - ez)).
  pose proof (Z_div_mod a (Z.pos m2) ltac:(lia)) as DM.
  destruct (Z.div_eucl a (Z.pos m2)) as [q0 r0]. intros [= <- <- <-].
  assert (0 < 2 ^ (e1 - e2 - ez)) by (apply Z.pow_pos_nonneg; lia).
  destruct DM as [Ea Hr]. assert (0 <= q0) by nia.
  split; [done|]. split; [lia|]. split; [|split; [done|apply new_location_located; lia]].
  assert (f = Z.max (d1 + e1 - (d2 + e2) - 53) (-1074)) as Ef by done.
  rewrite fexp64_eq. cut (d1 + e1 - (d2 + e2) <= Zdigits2 q0 + ez); [lia|].
  assert (2 ^ (d1 - 1) <= Z.pos m1 < 2 ^ d1) by apply digits2_pos_spec.
  assert (2 ^ (d2 - 1) <= Z.pos m2 < 2 ^ d2) by apply digits2_pos_spec.
  assert (2 ^ (d1 - 1 + (e1 - e2 - ez)) <= a) by (rewrite Z.pow_add_r by lia; subst a; nia).
  assert (q0 < 2 ^ Zdigits2 q0).
  { destruct (Z.eq_dec q0 0) as [->|]; [cbn; lia|]. apply Zdigits2_spec. lia. }
  pose proof (Zdigits2_nonneg q0).
  assert (a < 2 ^ (d2 + Zdigits2 q0)) by (rewrite Z.pow_add_r by lia; nia).
  assert (d1 - 1 + (e1 - e2 - ez) < d2 + Zdigits2 q0); [|lia].
  apply (Z.pow_lt_mono_r_iff 2); lia.
Qed.

Lemma f64_div_rounds x y :
  finite64 x -> finite64 y -> fval y <> 0 ->
  rounds (f64_div x y) (fval x * P 0 * Z.sgn (fval y)) (Z.abs (fval y)).
Proof.
  pose proof (P_pos 0 ltac:(lia)) as P0.
  destruct x as [sx| | |sx mx ex], y as [sy| | |sy my ey]; try done; intros Fx Fy Hy.
  { cbn [fval] in *. rewrite !Z.mul_0_l. apply rounds_zero. lia. }
  pose proof (bounded_range _ _ Fx) as Bx. pose proof (bounded_range _ _ Fy) as By.
  pose proof (P_pos ey ltac:(lia)) as Pey.
  unfold f64_div; cbn [SFdiv].
  destruct (SFdiv_core_binary 53 1024 (Z.pos mx) ex (Z.pos my) ey) as [[q e'] l] eqn:E.
  destruct (div_core_spec _ _ _ _ _ _ _ E) as (Hq & He & Hf & Ee & Hl).
  rewrite fexp64_eq in Ee.
  pose proof (round_aux_rounds (xorb sx sy) q e' l _ _ Hq ltac:(lia) Hl Hf) as R.
  apply (rounds_scale _ _ _ (P ey) Pey) in R.
  replace (Z.abs (fval (S754_finite sy my ey))) with (Z.pos my * P ey)
    by (destruct sy; cbn [fval cond_Zopp]; lia).
  replace (fval (S754_finite sx mx ex) * P 0 * Z.sgn (fval (S754_finite sy my ey)))
    with (cond_Zopp (xorb sx sy) (Z.pos mx * 2 ^ (ex - ey - e') * P e') * P ey); [done|].
  replace (Z.pos mx * 2 ^ (ex - ey - e') * P e') with (Z.pos mx * P (ex - ey))
    by (rewrite (P_between e' (ex - ey)) by lia; ring).
  rewrite cond_Zopp_mul, <- Z.mul_assoc.
  replace (P (ex - ey) * P ey) with (P ex * P 0).
  2: { unfold P. pose proof K_ge. rewrite <- !Z.pow_add_r by lia. f_equal. lia. }
  replace (Z.sgn (fval (S754_finite sy my ey))) with (cond_Zopp sy 1)
    by (destruct sy; cbn [fval cond_Zopp]; lia).
  cbn [fval]. destruct sx, sy; cbn [cond_Zopp xorb]; ring.
Qed.

(** ** Comparisons *)

Lemma mag_compare m1 e1 m2 e2 :
  bounded 53 1024 m1 e1 = true -> bounded 53 1024 m2 e2 = true ->
  match e1 ?= e2 with
  | Lt => Lt
  | Gt => Gt
  | Eq => Pos.compare_cont Eq m1 m2
  end = (Z.pos m1 * P e1 ?= Z.pos m2 * P e2).
Proof.
  intros B1 B2. apply bounded_range in B1, B2.
  assert (forall m e m' e', -1074 <= e < e' -> 0 < m < 2 ^ 53 -> 2 ^ 52 <= m' ->
            m * P e < m' * P e') as H.
  { intros m e m' e' He Hm Hm'. pose proof (P_pos e ltac:(lia)).
    assert (2 * P e <= P e'); [|nia].
    rewrite (P_between e e') by lia. pose proof (Z.pow_le_mono_r 2 1 (e' - e)). nia. }
  destruct (Z.compare_spec e1 e2) as [->|L|L]; symmetry.
  - pose proof (P_pos e2 ltac:(lia)). change (Pos.compare_cont Eq m1 m2) with (Z.pos m1 ?= Z.pos m2).
    destruct (Z.compare_spec (Z.pos m1) (Z.pos m2)) as [->|?|?];
      [apply Z.compare_refl|apply Z.compare_lt_iff; nia|apply Z.compare_gt_iff; nia].
  - apply Z.compare_lt_iff. apply H; lia.
  - apply Z.compare_gt_iff. apply H; lia.
Qed.

Lemma mag_pos m e : bounded 53 1024 m e = true -> 0 < Z.pos m * P e.
Proof. intros B. apply bounded_range in B. pose proof (P_pos e ltac:(lia)). lia. Qed.

Lemma f64_compare x y :
  finite64 x -> finite64 y -> SFcompare x y = Some (fval x ?= fval y).
Proof.
  destruct x as [sx| | |sx mx ex], y as [sy| | |sy my ey]; try done; intros Fx Fy.
  - pose proof (mag_pos _ _ Fy). cbn [SFcompare fval]. f_equal. symmetry.
    destruct sy; cbn [cond_Zopp]; [apply Z.compare_gt_iff|apply Z.compare_lt_iff]; lia.
  - pose proof (mag_pos _ _ Fx). cbn [SFcompare fval]. f_equal. symmetry.
    destruct sx; cbn [cond_Zopp]; [apply Z.compare_lt_iff|apply Z.compare_gt_iff]; lia.
  - pose proof (mag_pos _ _ Fx). pose proof (mag_pos _ _ Fy).
    pose proof (mag_compare _ _ _ _ Fx Fy) as E. cbn [SFcompare fval]. f_equal.
    destruct sx, sy; cbn [cond_Zopp].
    + rewrite Z.compare_opp, (Z.compare_antisym (Z.pos mx * P ex) (Z.pos my * P ey)), <- E.
      by destruct (ex ?= ey).
    + symmetry. apply Z.compare_lt_iff. lia.
    + symmetry. apply Z.compare_gt_iff. lia.
    + done.
Qed.

Lemma f64_lt_spec x y :
  finite64 x -> finite64 y -> f64_lt x y = (fval x <? fval y).
Proof. intros Fx Fy. unfold f64_lt, SFltb, Z.ltb. rewrite f64_compare by done. done. Qed.

Lemma f64_le_spec x y :
  finite64 x -> finite64 y -> f64_le x y = (fval x <=? fval y).
Proof. intros Fx Fy. unfold f64_le, SFleb, Z.leb. rewrite f64_compare by done. by destruct (_ ?= _). Qed.

Lemma f64_eq_spec x y :
  finite64 x -> finite64 y -> f64_eq x y = (fval x =? fval y).
Proof.
  intros Fx Fy. unfold f64_eq, SFeqb. rewrite f64_compare by done.
  rewrite Z.eqb_compare. done.
Qed.

Lemma fval_inj x y :
  finite64 x -> finite64 y -> fval x = fval y -> fval x <> 0 -> x = y.
Proof.
  intros Fx Fy E N. pose proof (f64_compare x y Fx Fy) as C. rewrite E, Z.compare_refl in C.
  destruct x as [sx| | |sx mx ex], y as [sy| | |sy my ey]; try done.
  cbn [SFcompare] in C. injection C as C.
  destruct sx, sy; try done.
  - destruct (Z.compare_spec ex ey) as [->|?|?]; try done.
    change (Pos.compare_cont Eq mx my) with (Pos.compare mx my) in C.
    destruct (Pos.compare_spec mx my) as [->|?|?]; done.
  - destruct (Z.compare_spec ex ey) as [->|?|?]; try done.
    change (Pos.compare_cont Eq mx my) with (Pos.compare mx my) in C.
    destruct (Pos.compare_spec mx my) as [->|?|?]; done.
Qed.

(** ** Integers *)

Definition exact_int (z : Z) : Prop := Z.abs z <= 2 ^ 53.

Lemma f64_of_Z_exact z :
  exact_int z -> finite64 (f64_of_Z z) /\ fval (f64_of_Z z) = z * P 0.
Proof.
  intros H. apply (rounds_exact _ (z * P 0) 1); [apply f64_of_Z_rounds|by apply rep_int|lia].
Qed.

Lemma f64_of_Z_finite z : exact_int z -> finite64 (f64_of_Z z).
Proof. intros H. by apply f64_of_Z_exact. Qed.

Lemma f64_of_Z_val z : exact_int z -> fval (f64_of_Z z) = z * P 0.
Proof. intros H. by apply f64_of_Z_exact. Qed.

(** An operation whose exact result is a small integer returns that integer. *)
Lemma rounds_int R z den :
  0 < den -> rounds R (z * P 0 * den) den -> exact_int z -> z <> 0 -> R = f64_of_Z z.
Proof.
  intros Hd HR Hz Nz. pose proof (P_pos 0 ltac:(lia)).
  destruct (rounds_exact R (z * P 0 * den) den (z * P 0) HR (rep_int z Hz) eq_refl) as [F E].
  destruct (f64_of_Z_exact z Hz) as [F' E'].
  apply fval_inj; [done|done|congruence|rewrite E; nia].
Qed.

(** A cancelled sum of two non-zero numbers is the positive zero. *)
Lemma f64_add_cancel x y :
  finite64 x -> finite64 y -> fval x + fval y = 0 -> fval x <> 0 ->
  f64_add x y = S754_zero false.
Proof.
  destruct x as [sx| | |sx mx ex], y as [sy| | |sy my ey]; try done; intros Fx Fy E N.
  { cbn [fval] in *. lia. }
  pose proof (bounded_range _ _ Fx). pose proof (bounded_range _ _ Fy).
  unfold f64_add; cbn [fval SFadd] in *.
  rewrite <- (align_val sx mx ex (Z.min ex ey)), <- (align_val sy my ey (Z.min ex ey)) in E by lia.
  rewrite <- Z.mul_add_distr_r in E. pose proof (P_pos (Z.min ex ey) ltac:(lia)).
  apply Z.mul_eq_0_l in E; [|lia]. by rewrite E.
Qed.

Lemma f64_sub_cancel x y :
  finite64 x -> finite64 y -> fval x = fval y -> fval x <> 0 ->
  f64_sub x y = S754_zero false.
Proof.
  destruct x as [sx| | |sx mx ex], y as [sy| | |sy my ey]; try done; intros Fx Fy E N.
  pose proof (bounded_range _ _ Fx). pose proof (bounded_range _ _ Fy).
  unfold f64_sub; cbn [fval SFsub] in *.
  rewrite <- (align_val sx mx ex (Z.min ex ey)), <- (align_val sy my ey (Z.min ex ey)) in E by lia.
  apply (proj2 (Z.sub_move_0_r _ _)) in E. rewrite <- Z.mul_sub_distr_r in E.
  pose proof (P_pos (Z.min ex ey) ltac:(lia)).
  apply Z.mul_eq_0_l in E; [|lia]. by rewrite E.
Qed.

Lemma f64_add_int a b :
  exact_int a -> exact_int b -> exact_int (a + b) ->
  f64_add (f64_of_Z a) (f64_of_Z b) = f64_of_Z (a + b).
Proof.
  intros Ha Hb Hab. pose proof (P_pos 0 ltac:(lia)).
  destruct (f64_of_Z_exact a Ha) as [Fa Ea], (f64_of_Z_exact b Hb) as [Fb Eb].
  destruct (Z.eq_dec (a + b) 0) as [E0|N0].
  - rewrite E0. destruct (Z.eq_dec a 0) as [->|Na]; [by replace b with 0 by lia|].
    apply f64_add_cancel; [done|done|rewrite Ea, Eb; nia|rewrite Ea; nia].
  - apply (rounds_int _ _ 1); try done.
    pose proof (f64_add_rounds _ _ Fa Fb) as R. rewrite Ea, Eb in R.
    by replace ((a + b) * P 0 * 1) with (a * P 0 + b * P 0) by ring.
Qed.

Lemma f64_sub_int a b :
  exact_int a -> exact_int b -> exact_int (a - b) ->
  f64_sub (f64_of_Z a) (f64_of_Z b) = f64_of_Z (a - b).
Proof.
  intros Ha Hb Hab. pose proof (P_pos 0 ltac:(lia)).
  destruct (f64_of_Z_exact a Ha) as [Fa Ea], (f64_of_Z_exact b Hb) as [Fb Eb].
  destruct (Z.eq_dec (a - b) 0) as [E0|N0].
  - rewrite E0. destruct (Z.eq_dec a 0) as [->|Na]; [by replace b with 0 by lia|].
    apply f64_sub_cancel; [done|done|rewrite Ea, Eb; nia|rewrite Ea; nia].
  - apply (rounds_int _ _ 1); try done.
    pose proof (f64_sub_rounds _ _ Fa Fb) as R. rewrite Ea, Eb in R.
    by replace ((a - b) * P 0 * 1) with (a * P 0 - b * P 0) by ring.
Qed.

Lemma fval_pos_sign x : finite64 x -> 0 < fval x -> f64_signbit x = false.
Proof.
  destruct x as [s| | |s m e]; try done. intros F H. pose proof (mag_pos _ _ F).
  destruct s; [cbn [fval cond_Zopp] in H; lia|done].
Qed.

Lemma f64_mul_int a b :
  exact_int a -> exact_int b -> exact_int (a * b) -> 0 <= a -> 0 < b ->
  f64_mul (f64_of_Z a) (f64_of_Z b) = f64_of_Z (a * b).
Proof.
  intros Ha Hb Hab Pa Pb. pose proof (P_pos 0 ltac:(lia)).
  destruct (f64_of_Z_exact a Ha) as [Fa Ea], (f64_of_Z_exact b Hb) as [Fb Eb].
  destruct (Z.eq_dec a 0) as [->|].
  { pose proof (fval_pos_sign _ Fb ltac:(rewrite Eb; nia)) as S.
    rewrite Z.mul_0_l. unfold f64_mul. destruct (f64_of_Z b) as [s| | |s m e]; try done.
    all: simpl in S; by subst. }
  apply (rounds_int _ _ (P 0)); try done; [|nia].
  pose proof (f64_mul_rounds _ _ Fa Fb) as R. rewrite Ea, Eb in R.
  by replace (a * b * P 0 * P 0) with (a * P 0 * (b * P 0)) by ring.
Qed.

Lemma f64_lt_int a b :
  exact_int a -> exact_int b -> f64_lt (f64_of_Z a) (f64_of_Z b) = (a <? b).
Proof.
  intros Ha Hb. pose proof (P_pos 0 ltac:(lia)).
  rewrite f64_lt_spec, !f64_of_Z_val by (done || by apply f64_of_Z_finite).
  destruct (Z.ltb_spec a b), (Z.ltb_spec (a * P 0) (b * P 0)); try done; nia.
Qed.

Lemma f64_le_int a b :
  exact_int a -> exact_int b -> f64_le (f64_of_Z a) (f64_of_Z b) = (a <=? b).
Proof.
  intros Ha Hb. pose proof (P_pos 0 ltac:(lia)).
  rewrite f64_le_spec, !f64_of_Z_val by (done || by apply f64_of_Z_finite).
  destruct (Z.leb_spec a b), (Z.leb_spec (a * P 0) (b * P 0)); try done; nia.
Qed.

(** ** Floor, ceiling and conversion to [int] *)

(** The mathematical floor and ceiling of a finite number. *)
Definition zfloor (x : float64) : Z := fval x / P 0.

Definition zceil (x : float64) : Z := - ((- fval x) / P 0).

Lemma mag_floor_spec m e :
  -1074 <= e -> mag_floor m e = Z.pos m * P e / P 0.
Proof.
  intros He. unfold mag_floor. pose proof (P_pos 0 ltac:(lia)).
  destruct (Z.leb_spec 0 e).
  - rewrite (P_between 0 e) by lia. rewrite Z.sub_0_r.
    replace (Z.pos m * (P 0 * 2 ^ e)) with (Z.pos m * 2 ^ e * P 0) by ring.
    by rewrite Z.div_mul by lia.
  - rewrite (P_between e 0) by lia. pose proof (P_pos e ltac:(lia)).
    replace (P e * 2 ^ (0 - e)) with (2 ^ (- e) * P e) by (change (0 - e) with (- e); ring).
    rewrite Z.div_mul_cancel_r; [done|apply Z.pow_nonzero; lia|lia].
Qed.

Lemma mag_ceil_spec m e :
  -1074 <= e -> mag_ceil m e = - (- (Z.pos m * P e) / P 0).
Proof.
  intros He. unfold mag_ceil. pose proof (P_pos 0 ltac:(lia)).
  destruct (Z.leb_spec 0 e).
  - rewrite (P_between 0 e) by lia. rewrite Z.sub_0_r.
    replace (- (Z.pos m * (P 0 * 2 ^ e))) with (- (Z.pos m * 2 ^ e) * P 0) by ring.
    rewrite Z.div_mul by lia. lia.
  - rewrite (P_between e 0) by lia. pose proof (P_pos e ltac:(lia)).
    replace (P e * 2 ^ (0 - e)) with (2 ^ (- e) * P e) by (change (0 - e) with (- e); ring).
    rewrite <- Z.mul_opp_l.
    rewrite Z.div_mul_cancel_r; [done|apply Z.pow_nonzero; lia|lia].
Qed.

(** Below exponent 0 the integer parts have at most 53 bits. *)
Lemma mag_parts_small m e :
  bounded 53 1024 m e = true -> e < 0 ->
  0 <= mag_floor m e <= 2 ^ 53 /\ 0 <= mag_ceil m e <= 2 ^ 53.
Proof.
  intros B He. apply bounded_range in B. unfold mag_floor, mag_ceil.
  destruct (Z.leb_spec 0 e); [lia|].
  assert (1 <= 2 ^ (- e)) by (pose proof (Z.pow_pos_nonneg 2 (- e)); lia).
  repeat split.
  - apply Z.div_pos; lia.
  - apply Z.div_le_upper_bound; nia.
  - cut ((- Z.pos m) / 2 ^ (- e) <= 0); [lia|]. apply Z.div_le_upper_bound; lia.
  - cut (- 2 ^ 53 <= (- Z.pos m) / 2 ^ (- e)); [lia|]. apply Z.div_le_lower_bound; nia.
Qed.

Lemma normalize_int z s :
  exact_int z ->
  finite64 (binary_normalize 53 1024 z 0 s) /\ fval (binary_normalize 53 1024 z 0 s) = z * P 0.
Proof.
  intros H. apply (rounds_exact _ (z * P 0) 1); [apply normalize_rounds; lia|by apply rep_int|lia].
Qed.

Lemma big_exp_integral s m e :
  0 <= e -> fval (S754_finite s m e) = cond_Zopp s (Z.pos m * 2 ^ e) * P 0.
Proof.
  intros He. cbn [fval]. rewrite (P_between 0 e), Z.sub_0_r by lia.
  rewrite cond_Zopp_mul. f_equal. ring.
Qed.

Lemma f64_ceil_spec x :
  finite64 x -> finite64 (f64_ceil x) /\ fval (f64_ceil x) = zceil x * P 0.
Proof.
  pose proof (P_pos 0 ltac:(lia)) as P0.
  destruct x as [s| | |s m e]; try done; intros F.
  cbn [f64_ceil]. destruct (Z.leb_spec 0 e) as [He|He].
  - split; [done|]. unfold zceil. rewrite big_exp_integral by done.
    rewrite <- Z.mul_opp_l, Z.div_mul by lia. lia.
  - destruct (mag_parts_small m e F He). pose proof (bounded_range _ _ F).
    replace (zceil (S754_finite s m e)) with (if s then - mag_floor m e else mag_ceil m e).
    2: { unfold zceil. rewrite mag_floor_spec, mag_ceil_spec by lia.
         destruct s; cbn [fval cond_Zopp]; [by rewrite Z.opp_involutive|done]. }
    apply normalize_int. unfold exact_int. destruct s; lia.
Qed.

Lemma f64_floor_spec x :
  finite64 x -> finite64 (f64_floor x) /\ fval (f64_floor x) = zfloor x * P 0.
Proof.
  pose proof (P_pos 0 ltac:(lia)) as P0.
  destruct x as [s| | |s m e]; try done; intros F.
  cbn [f64_floor]. destruct (Z.leb_spec 0 e) as [He|He].
  - split; [done|]. unfold zfloor. rewrite big_exp_integral by done.
    by rewrite Z.div_mul by lia.
  - destruct (mag_parts_small m e F He). pose proof (bounded_range _ _ F).
    replace (zfloor (S754_finite s m e)) with (if s then - mag_ceil m e else mag_floor m e).
    2: { unfold zfloor. rewrite mag_floor_spec, mag_ceil_spec by lia.
         destruct s; cbn [fval cond_Zopp]; [by rewrite Z.opp_involutive|done]. }
    apply normalize_int. unfold exact_int. destruct s; lia.
Qed.

Lemma f64_to_int64_spec x :
  finite64 x ->
  f64_to_int64 x = let v := Z.quot (fval x) (P 0) in
                   if (min_int64 <=? v) && (v <=? max_int64) then v else min_int64.
Proof.
  pose proof (P_pos 0 ltac:(lia)) as P0.
  destruct x as [s| | |s m e]; try done; intros F.
  pose proof (bounded_range _ _ F). pose proof (mag_pos _ _ F).
  unfold f64_to_int64. rewrite mag_floor_spec by lia.
  replace (Z.quot (fval (S754_finite s m e)) (P 0)) with
    (cond_Zopp s (Z.pos m * P e / P 0)); [done|].
  destruct s; cbn [fval cond_Zopp].
  - rewrite Z.quot_opp_l by lia. by rewrite Z.quot_div_nonneg by lia.
  - by rewrite Z.quot_div_nonneg by lia.
Qed.

(** An integral number in range converts to itself. *)
Lemma f64_to_int64_integral x z :
  finite64 x -> fval x = z * P 0 -> in_int64 z -> f64_to_int64 x = z.
Proof.
  intros F E R. pose proof (P_pos 0 ltac:(lia)). rewrite f64_to_int64_spec by done.
  rewrite E, Z.quot_mul by lia. cbv zeta.
  unfold in_int64 in R. destruct (Z.leb_spec min_int64 z), (Z.leb_spec z max_int64); try lia; done.
Qed.

Lemma f64_to_int64_of_Z z : exact_int z -> f64_to_int64 (f64_of_Z z) = z.
Proof.
  intros H. destruct (f64_of_Z_exact z H). apply f64_to_int64_integral; try done.
  unfold exact_int in H. unfold in_int64, min_int64, max_int64. lia.
Qed.

(** ** [math.Max] and [math.Min] *)

Lemma f64_max_spec x y :
  finite64 x -> finite64 y ->
  finite64 (f64_max x y) /\ fval (f64_max x y) = Z.max (fval x) (fval y).
Proof.
  intros Fx Fy. unfold f64_max.
  rewrite !f64_eq_spec, f64_lt_spec by done. cbn [fval].
  replace (f64_is_inf x false || f64_is_inf y false) with false by (by destruct x, y).
  replace (f64_is_nan x || f64_is_nan y) with false by (by destruct x, y).
  destruct (Z.eqb_spec (fval x) 0), (Z.eqb_spec (fval x) (fval y)); cbn [andb];
    destruct (f64_signbit x), (Z.ltb_spec (fval y) (fval x)); split; try done; lia.
Qed.

Lemma f64_min_spec x y :
  finite64 x -> finite64 y ->
  finite64 (f64_min x y) /\ fval (f64_min x y) = Z.min (fval x) (fval y).
Proof.
  intros Fx Fy. unfold f64_min.
  rewrite !f64_eq_spec, f64_lt_spec by done. cbn [fval].
  replace (f64_is_inf x true || f64_is_inf y true) with false by (by destruct x, y).
  replace (f64_is_nan x || f64_is_nan y) with false by (by destruct x, y).
  destruct (Z.eqb_spec (fval x) 0), (Z.eqb_spec (fval x) (fval y)); cbn [andb];
    destruct (f64_signbit x), (Z.ltb_spec (fval x) (fval y)); split; try done; lia.
Qed.

(** ** Finiteness of products and quotients of positive numbers *)

Lemma zceil_bounds x : P 0 * (zceil x - 1) < fval x <= P 0 * zceil x.
Proof.
  unfold zceil. pose proof (P_pos 0 ltac:(lia)).
  pose proof (Z.div_mod (- fval x) (P 0) ltac:(lia)).
  pose proof (Z.mod_pos_bound (- fval x) (P 0) ltac:(lia)). lia.
Qed.

Lemma zfloor_bounds x : P 0 * zfloor x <= fval x < P 0 * (zfloor x + 1).
Proof.
  unfold zfloor. pose proof (P_pos 0 ltac:(lia)).
  pose proof (Z.div_mod (fval x) (P 0) ltac:(lia)).
  pose proof (Z.mod_pos_bound (fval x) (P 0) ltac:(lia)). lia.
Qed.

Lemma exact_int_weaken a b : Z.abs a <= Z.abs b -> exact_int b -> exact_int a.
Proof. unfold exact_int. lia. Qed.

#[export] Hint Resolve f64_of_Z_finite : kd.

(** ** Monotone addition *)

Lemma f64_add_mono s x y :
  finite64 s -> finite64 x -> finite64 y -> fval x <= fval y ->
  finite64 (f64_add s x) -> finite64 (f64_add s y) ->
  f64_le (f64_add s x) (f64_add s y) = true.
Proof.
  intros Fs Fx Fy L F1 F2. rewrite f64_le_spec by done. apply Z.leb_le.
  pose proof (f64_add_rounds s x Fs Fx) as R1. pose proof (f64_add_rounds s y Fs Fy) as R2.
  destruct (Z.eq_dec (fval x) (fval y)) as [E|N].
  - destruct (Z.eq_dec (fval x) 0) as [E0|N0]; [|by rewrite (fval_inj x y Fx Fy E N0)].
    destruct (rounds_exact _ _ _ (fval s) R1 (fval_rep s Fs) ltac:(lia)).
    destruct (rounds_exact _ _ _ (fval s) R2 (fval_rep s Fs) ltac:(lia)). lia.
  - apply (rounds_mono _ _ _ _ 1 ltac:(lia) R1 R2 F1 F2). lia.
Qed.

(** Adding a non-negative number does not decrease, up to overflow. *)
Lemma f64_add_nonneg x y :
  finite64 x -> finite64 y -> 0 <= fval y ->
  f64_add x y = S754_infinity false \/ (finite64 (f64_add x y) /\ fval x <= fval (f64_add x y)).
Proof.
  intros Fx Fy Hy. apply (rnd_lo _ _ _ (f64_add_rounds x y Fx Fy)); [by apply fval_rep|lia].
Qed.

(** Dividing by a number that is at least one stays between zero and the
    dividend. *)
Lemma f64_div_shrink x y :
  finite64 x -> 0 <= fval x -> finite64 y -> P 0 <= fval y ->
  finite64 (f64_div x y) /\ 0 <= fval (f64_div x y) <= fval x.
Proof.
  intros Fx Hx Fy Hy. pose proof (P_pos 0 ltac:(lia)).
  pose proof (f64_div_rounds x y Fx Fy ltac:(lia)) as R.
  rewrite Z.sgn_pos, Z.abs_eq in R by lia.
  apply (rounds_between _ _ _ 0 (fval x) R); [by left|by apply fval_rep|nia|nia].
Qed.

Lemma f64_add_inf_r x : finite64 x -> f64_add x (S754_infinity false) = S754_infinity false.
Proof. by destruct x. Qed.

Lemma dur_seconds_whole k :
  0 <= k <= 2 ^ 53 -> dur_seconds (k * Second) = f64_of_Z k.
Proof.
  intros H. unfold dur_seconds. rewrite Z.quot_mul, Z.rem_mul by done.
  change (f64_div (f64_of_Z 0) (f64_of_Z 1000000000)) with (f64_of_Z 0).
  rewrite f64_add_int by (unfold exact_int; lia). f_equal. lia.
Qed.

Lemma zceil_of_Z z : exact_int z -> zceil (f64_of_Z z) = z.
Proof.
  intros H. pose proof (P_pos 0 ltac:(lia)). unfold zceil. rewrite f64_of_Z_val by done.
  rewrite <- Z.mul_opp_l, Z.div_mul by lia. lia.
Qed.

(** A quotient by a whole number lies between representable bounds. *)
Lemma f64_div_within (x : float64) (d lo e1 hi e2 : Z) :
  finite64 x -> exact_int d -> 0 < d -> -1000 <= e1 <= 0 -> -1000 <= e2 <= 0 ->
  Z.abs lo <= 2 ^ 53 -> Z.abs hi <= 2 ^ 53 ->
  lo * P e1 * d <= fval x <= hi * P e2 * d ->
  finite64 (f64_div x (f64_of_Z d)) /\ lo * P e1 <= fval (f64_div x (f64_of_Z d)) <= hi * P e2.
Proof.
  intros Fx Ed Hd He1 He2 Hlo Hhi [B1 B2]. pose proof (P_pos 0 ltac:(lia)).
  destruct (f64_of_Z_exact d Ed) as [Fd Vd].
  pose proof (f64_div_rounds x (f64_of_Z d) Fx Fd) as R. rewrite Vd in R.
  specialize (R ltac:(nia)). rewrite (Z.abs_eq (d * P 0)), Z.sgn_pos in R by nia. rewrite Z.mul_1_r in R.
  apply (rounds_between _ _ _ (lo * P e1) (hi * P e2) R); [apply rep_mk; lia|apply rep_mk; lia|nia|nia].
Qed.

(** The floor of a quotient of whole numbers is their integer quotient. *)
Lemma f64_div_floor r d :
  0 <= r < 2 ^ 31 -> 0 < d <= 2 ^ 20 ->
  finite64 (f64_div (f64_of_Z r) (f64_of_Z d)) /\ zfloor (f64_div (f64_of_Z r) (f64_of_Z d)) = r / d.
Proof.
  intros Hr Hd. destruct (f64_of_Z_exact r) as [Fr Vr]; [unfold exact_int; lia|].
  pose proof (P_pos (-20) ltac:(lia)) as P20. assert (P 0 = P (-20) * 2 ^ 20) as E by (rewrite (P_between (-20) 0) by lia; done).
  pose proof (Z.div_mod r d ltac:(lia)) as D. pose proof (Z.mod_pos_bound r d ltac:(lia)) as Md.
  assert (0 <= r / d < 2 ^ 31) as Q by (split; [apply Z.div_pos; lia|apply Z.div_lt_upper_bound; nia]).
  set (q := r / d) in *. clearbody q.
  destruct (f64_div_within (f64_of_Z r) d q 0 ((q + 1) * 2 ^ 20 - 1) (-20)) as (F & L & U);
    [done|unfold exact_int; lia|lia|lia|lia|lia|lia| |].
  - rewrite Vr, E. nia.
  - split; [done|]. unfold zfloor. rewrite E in *. symmetry. apply (Z.div_unique _ _ _ (fval (f64_div (f64_of_Z r) (f64_of_Z d)) - q * (P (-20) * 2 ^ 20))); [left|]; lia.
Qed.
