(* ===== verification/Interfaces.v ===== *)
(** * Code outside the repository, as interfaces

    The benchmark calls packages whose sources are not part of it: the
    [SharedMap] of [kubedirect/pkg/util] (a link into the Kubernetes
    submodule), the unbounded channels of [golang.design/x/chann], the work
    queues of [client-go] and the aggregation windows of Knative Serving.  Each
    is a class of operations, over which the components are defined, and a
    class of laws stating its documented behaviour, which the theorems assume
    where they need it.  The instances at the end are concrete functions that
    satisfy the laws; the witnesses evaluate with them. *)

From S2P Require Import Prelude GoTypes Float64.

(** ** [kdutil.SharedMap]: a lock-protected map with string keys *)

Class SharedMapOps (M : Type -> Type) : Type := {
  sm_new : forall {V}, M V;
  sm_inner : forall {V}, M V -> gmap string V;
  sm_get : forall {V}, M V -> string -> option V;
  sm_set : forall {V}, M V -> string -> V -> M V;
  sm_del : forall {V}, M V -> string -> option V * M V;
  sm_get_or_create : forall {V}, M V -> string -> V -> (V * bool) * M V
}.

(** [GetOrCreate] returns the stored value, or stores the new one and reports
    it fresh. *)
Class SharedMapLaws (M : Type -> Type) `{SharedMapOps M} : Prop := {
  sm_inner_new : forall V, sm_inner (sm_new : M V) = ∅;
  sm_get_inner : forall V (m : M V) k, sm_get m k = sm_inner m !! k;
  sm_inner_set : forall V (m : M V) k v,
    sm_inner (sm_set m k v) = <[k := v]> (sm_inner m);
  sm_del_old : forall V (m : M V) k, fst (sm_del m k) = sm_inner m !! k;
  sm_inner_del : forall V (m : M V) k,
    sm_inner (snd (sm_del m k)) = delete k (sm_inner m);
  sm_goc_old : forall V (m : M V) k v v',
    sm_inner m !! k = Some v' -> sm_get_or_create m k v = ((v', false), m);
  sm_goc_new : forall V (m : M V) k v,
    sm_inner m !! k = None ->
    fst (sm_get_or_create m k v) = (v, true) /\
    sm_inner (snd (sm_get_or_create m k v)) = <[k := v]> (sm_inner m)
}.

(** ** [chann.Chann]: an unbounded first-in first-out channel *)

Class ChannOps (C : Type -> Type) : Type := {
  ch_new : forall {A}, C A;
  ch_send : forall {A}, C A -> A -> C A;
  ch_recv : forall {A}, C A -> option (A * C A)
}.

Class ChannLaws (C : Type -> Type) `{ChannOps C} : Type := {
  ch_items : forall {A}, C A -> list A;
  ch_items_new : forall A, ch_items (ch_new : C A) = [];
  ch_items_send : forall A (c : C A) x, ch_items (ch_send c x) = ch_items c ++ [x];
  ch_recv_none : forall A (c : C A), ch_recv c = None <-> ch_items c = [];
  ch_recv_some : forall A (c c' : C A) x,
    ch_recv c = Some (x, c') -> ch_items c = x :: ch_items c'
}.

(** ** [workqueue.TypedRateLimitingInterface]

    [Add] marks an item dirty, whether or not it is being processed; [Get]
    hands out a dirty item that no worker is processing; [Done] ends the
    processing.  An item added while it is processed is handed out again after
    [Done]. *)
Class WorkQueueOps (Q : Type -> Type) : Type := {
  wq_add : forall {A} `{Countable A}, Q A -> A -> Q A;
  wq_get : forall {A} `{Countable A}, Q A -> option (A * Q A);
  wq_done : forall {A} `{Countable A}, Q A -> A -> Q A
}.

Class WorkQueueLaws (Q : Type -> Type) `{WorkQueueOps Q} : Type := {
  wq_dirty : forall {A} `{Countable A}, Q A -> gset A;
  wq_processing : forall {A} `{Countable A}, Q A -> gset A;
  wq_add_dirty : forall A `{Countable A} (q : Q A) x,
    wq_dirty (wq_add q x) = {[x]} ∪ wq_dirty q;
  wq_add_processing : forall A `{Countable A} (q : Q A) x,
    wq_processing (wq_add q x) = wq_processing q;
  wq_get_some : forall A `{Countable A} (q q' : Q A) x,
    wq_get q = Some (x, q') ->
    (x ∈ wq_dirty q) /\ (x ∉ wq_processing q) /\
    wq_dirty q' = wq_dirty q ∖ {[x]} /\
    wq_processing q' = {[x]} ∪ wq_processing q;
  wq_get_none : forall A `{Countable A} (q : Q A),
    wq_get q = None -> wq_dirty q ⊆ wq_processing q;
  wq_done_dirty : forall A `{Countable A} (q : Q A) x,
    wq_dirty (wq_done q x) = wq_dirty q;
  wq_done_processing : forall A `{Countable A} (q : Q A) x,
    wq_processing (wq_done q x) = wq_processing q ∖ {[x]}
}.

(** ** Knative's aggregation windows *)

(** [aggregation.TimedFloat64Buckets]. *)
Class TimedBucketsOps (B : Type) : Type := {
  tb_new : Z -> Z -> B;
  tb_record : B -> Z -> float64 -> B;
  tb_average : B -> Z -> float64
}.

(** [max.TimeWindow]: the maximum of the [int32] values recorded in a sliding
    window. *)
Class TimeWindowOps (W : Type) : Type := {
  tw_new : Z -> Z -> W;
  tw_record : W -> Z -> Z -> W;
  tw_current : W -> Z
}.

(** The values recorded at times that the last recording still reaches, back by
    less than the span of the window: the duration rounded up by at most one
    granularity.  [Current] is the largest of them. *)
Class TimeWindowLaws (W : Type) `{TimeWindowOps W} : Type := {
  tw_entries : W -> list (Z * Z);
  tw_span : W -> Z;
  tw_entries_new : forall d g, tw_entries (tw_new d g) = [];
  tw_span_new : forall d g, (0 <= g)%Z -> (tw_span (tw_new d g) <= d + g)%Z;
  tw_span_record : forall w t v, tw_span (tw_record w t v) = tw_span w;
  tw_entries_last : forall w t v, in_int32 v -> (t, v) ∈ tw_entries (tw_record w t v);
  tw_entries_record : forall w t v x, in_int32 v -> x ∈ tw_entries (tw_record w t v) ->
    x = (t, v) \/ ((x ∈ tw_entries w) /\ (t - tw_span w < fst x)%Z);
  tw_current_max : forall w x, x ∈ tw_entries w -> (snd x <= tw_current w)%Z;
  tw_current_entry : forall w, tw_entries w <> [] ->
    exists x, (x ∈ tw_entries w) /\ tw_current w = snd x;
  tw_current_int32 : forall w, in_int32 (tw_current w)
}.

(** A value just recorded is in the window, so the maximum is no smaller. *)
Lemma tw_current_ge {W} `{TimeWindowLaws W} w t v :
  in_int32 v -> (v <= tw_current (tw_record w t v))%Z.
Proof. intros Hv. apply (tw_current_max _ (t, v)), tw_entries_last, Hv. Qed.

(** ** Concrete instances *)

Global Instance gmap_shared_map : SharedMapOps (gmap string) := {
  sm_new := fun V => ∅;
  sm_inner := fun V m => m;
  sm_get := fun V m k => m !! k;
  sm_set := fun V m k v => <[k := v]> m;
  sm_del := fun V m k => (m !! k, delete k m);
  sm_get_or_create := fun V m k v =>
    match m !! k with
    | Some v' => ((v', false), m)
    | None => ((v, true), <[k := v]> m)
    end
}.

Global Instance gmap_shared_map_laws : SharedMapLaws (gmap string).
Proof. split; intros; simplify_eq/=; try done; by simplify_option_eq. Qed.

Global Instance list_chann : ChannOps list := {
  ch_new := fun A => [];
  ch_send := fun A c x => c ++ [x];
  ch_recv := fun A c => match c with [] => None | x :: c' => Some (x, c') end
}.

Global Instance list_chann_laws : ChannLaws list.
Proof.
  refine {| ch_items := fun A c => c |}; try done.
  - intros A []; split; done.
  - intros A [|y c] c' x; simpl; congruence.
Defined.

(** A work queue: the items in order of arrival, and those being processed. *)
Record simple_wq (A : Type) : Type := mk_simple_wq {
  swq_items : list A;
  swq_busy : list A
}.

Arguments mk_simple_wq {A}.
Arguments swq_items {A}.
Arguments swq_busy {A}.

Section simple_wq.
Context {A : Type} `{Countable A}.

Definition swq_add (q : simple_wq A) (x : A) : simple_wq A :=
  if bool_decide (x ∈ swq_items q) then q
  else mk_simple_wq (swq_items q ++ [x]) (swq_busy q).

(** The first item that is not being processed, and the others. *)
Fixpoint swq_pick (busy l : list A) : option (A * list A) :=
  match l with
  | [] => None
  | x :: l' =>
      if bool_decide (x ∈ busy) then
        match swq_pick busy l' with
        | Some (y, r) => Some (y, x :: r)
        | None => None
        end
      else Some (x, l')
  end.

Definition swq_get (q : simple_wq A) : option (A * simple_wq A) :=
  match swq_pick (swq_busy q) (swq_items q) with
  | Some (x, r) =>
      Some (x, mk_simple_wq (filter (fun y => y <> x) r) (x :: swq_busy q))
  | None => None
  end.

Definition swq_done (q : simple_wq A) (x : A) : simple_wq A :=
  mk_simple_wq (swq_items q) (filter (fun y => y <> x) (swq_busy q)).

Lemma swq_pick_some busy l x r :
  swq_pick busy l = Some (x, r) ->
  (x ∉ busy) /\ (x ∈ l) /\ (forall y, (y ∈ l) <-> y = x \/ (y ∈ r)).
Proof.
  revert r. induction l as [|y l IH]; simpl; [done|]. intros r.
  case_bool_decide as Hy.
  - destruct (swq_pick busy l) as [[z r']|] eqn:E; [|done]. intros [= <- <-].
    destruct (IH r' eq_refl) as (? & ? & Hr'). set_solver.
  - intros [= <- <-]. set_solver.
Qed.

Lemma swq_pick_none busy l : swq_pick busy l = None -> forall x, x ∈ l -> x ∈ busy.
Proof.
  induction l as [|y l IH]; simpl; [set_solver|].
  case_bool_decide; [|done]. destruct (swq_pick busy l) as [[]|]; [done|]. set_solver.
Qed.

End simple_wq.

Global Instance simple_wq_ops : WorkQueueOps simple_wq := {
  wq_add := fun A _ _ q x => swq_add q x;
  wq_get := fun A _ _ q => swq_get q;
  wq_done := fun A _ _ q x => swq_done q x
}.

Global Instance simple_wq_laws : WorkQueueLaws simple_wq.
Proof.
  refine {| wq_dirty := fun A _ _ q => list_to_set (swq_items q);
            wq_processing := fun A _ _ q => list_to_set (swq_busy q) |}; simpl.
  - intros A ?? q x. unfold swq_add. case_bool_decide; simpl; set_solver.
  - intros A ?? q x. unfold swq_add. by case_bool_decide.
  - intros A ?? q q' x. unfold swq_get.
    destruct (swq_pick _ _) as [[y r]|] eqn:E; [|done]. intros [= <- <-]. simpl.
    apply swq_pick_some in E as (? & ? & Hr). split; [set_solver|]. split; [set_solver|].
    split; [|set_solver]. apply set_eq. intros z.
    rewrite elem_of_list_to_set, list_elem_of_filter, elem_of_difference, elem_of_list_to_set, Hr.
    set_solver.
  - intros A ?? q. unfold swq_get.
    destruct (swq_pick _ _) as [[y r]|] eqn:E; [done|]. intros _ z.
    rewrite !elem_of_list_to_set. by apply swq_pick_none.
  - done.
  - intros A ?? q x. unfold swq_done. simpl. apply set_eq. intros z.
    rewrite elem_of_list_to_set, list_elem_of_filter, elem_of_difference, elem_of_list_to_set.
    set_solver.
Defined.

(** A window of two time units kept as the list of its samples. *)
Global Instance list_time_window : TimeWindowOps (Z * list (Z * Z)) := {
  tw_new := fun window granularity => (window, []);
  tw_record := fun w t v =>
    (fst w, (t, v) :: filter (fun s => (t - fst w < fst s)%Z) (snd w));
  tw_current := fun w =>
    match snd w with
    | [] => 0%Z
    | (_, v) :: rest => fold_right (fun s acc => Z.max (int32_of (snd s)) acc) (int32_of v) rest
    end
}.

Definition window_entry (s : Z * Z) : Z * Z := (fst s, int32_of (snd s)).

Lemma window_max (v : Z) (rest : list (Z * Z)) :
  let m := fold_right (fun s acc => Z.max (int32_of (snd s)) acc) (int32_of v) rest in
  (int32_of v <= m)%Z /\ (forall s, s ∈ rest -> int32_of (snd s) <= m)%Z /\
  (m = int32_of v \/ exists s, (s ∈ rest) /\ m = int32_of (snd s)).
Proof.
  induction rest as [|s rest (I1 & I2 & I3)]; simpl; [set_solver by lia|]. split; [lia|]. split.
  - intros s' [->|Hs]%elem_of_cons; [lia|]. specialize (I2 _ Hs). lia.
  - destruct (Z.max_spec (int32_of (snd s))
      (fold_right (fun s acc => Z.max (int32_of (snd s)) acc) (int32_of v) rest)) as [[_ ->]|[_ ->]].
    + destruct I3 as [->|(s' & ? & ->)]; [by left|right; exists s'; set_solver].
    + right. exists s. set_solver.
Qed.

Global Instance list_time_window_laws : TimeWindowLaws (Z * list (Z * Z)).
Proof.
  refine {| tw_entries := fun w => map window_entry (snd w); tw_span := fst |}.
  - done.
  - intros d g Hg. simpl. lia.
  - done.
  - intros w t v Hv. simpl. unfold window_entry at 1. simpl. rewrite int32_of_id by done. left.
  - intros w t v x Hv [->|Hx]%elem_of_cons.
    + left. unfold window_entry. simpl. by rewrite int32_of_id.
    + apply list_elem_of_fmap in Hx as (y & -> & [Hy1 Hy2]%list_elem_of_filter). right.
      split; [by apply list_elem_of_fmap_2|done].
  - intros [d [|[t v] l]] x; [by intros ?%elem_of_nil|].
    destruct (window_max v l) as (A & B & _). simpl. intros [->|Hx]%elem_of_cons; [exact A|].
    apply list_elem_of_fmap in Hx as (y & -> & Hy). by apply B.
  - intros [d [|[t v] l]] Hne; [done|]. destruct (window_max v l) as (_ & _ & [E|(s & Hs & E)]).
    + exists (t, int32_of v). split; [left|exact E].
    + exists (window_entry s). split; [right; by apply list_elem_of_fmap_2|exact E].
  - intros [d [|[t v] l]]; simpl; [unfold in_int32; lia|].
    destruct (window_max v l) as (_ & _ & [->|(s & _ & ->)]); apply int32_of_range.
Defined.

(** Buckets that remember the last recorded value. *)
Global Instance last_buckets : TimedBucketsOps float64 := {
  tb_new := fun _ _ => S754_zero false;
  tb_record := fun _ _ x => x;
  tb_average := fun b _ => b
}.
