(* ===== verification/Kube.v ===== *)
(** * Kubernetes API objects

    The objects of the Kubernetes API that the benchmark reads or writes, with
    the fields it uses. *)

From S2P Require Import Prelude GoTypes.

(** [metav1.ObjectMeta]; an instant is as in [GoTypes]. *)
Record ObjectMeta : Type := mkMeta {
  Namespace : string;
  Name : string;
  UID : string;
  ResourceVersion : string;
  Labels : gmap string string;
  Annotations : gmap string string;
  DeletionTimestamp : option Z
}.

(** The value Go reads from a map of strings: the empty string if absent. *)
Definition str_at (m : gmap string string) (k : string) : string := default "" (m !! k).

Record PodCondition : Type := mkCondition {
  CondType : string;
  CondStatus : string;
  LastTransitionTime : Z
}.

Record ContainerStateTerminated : Type := mkTerminated {
  ExitCode : Z;
  Reason : string;
  TermStartedAt : Z;
  FinishedAt : Z
}.

(** [corev1.ContainerState]: at most one of the pointers is set. *)
Record ContainerState : Type := mkContainerState {
  Running : option Z;
  Terminated : option ContainerStateTerminated
}.

Record ContainerStatus : Type := mkContainerStatus {
  CSName : string;
  CSImage : string;
  Started : option bool;
  CSReady : bool;
  State : ContainerState
}.

Record PodStatus : Type := mkPodStatus {
  Phase : string;
  Conditions : list PodCondition;
  HostIP : string;
  PodIP : string;
  StartTime : option Z;
  ContainerStatuses : list ContainerStatus;
  InitContainerStatuses : list ContainerStatus
}.

Definition empty_status : PodStatus := mkPodStatus "" [] "" "" None [] [].

Record Container : Type := mkContainer {
  CName : string;
  CImage : string
}.

Record Pod : Type := mkPod {
  pod_meta : ObjectMeta;
  NodeName : string;
  ReadinessGates : list string;
  Containers : list Container;
  InitContainers : list Container;
  Status : PodStatus
}.

Definition set_status (p : Pod) (st : PodStatus) : Pod :=
  mkPod (pod_meta p) (NodeName p) (ReadinessGates p) (Containers p) (InitContainers p) st.

Record Deployment : Type := mkDeployment {
  dep_meta : ObjectMeta;
  Replicas : option Z;
  TemplateLabels : gmap string string
}.

Record NodeAddress : Type := mkNodeAddress {
  AddrType : string;
  Address : string
}.

Record Node : Type := mkNode {
  node_meta : ObjectMeta;
  Addresses : list NodeAddress
}.

Record NamespacedName : Type := mkNamespacedName {
  nn_namespace : string;
  nn_name : string
}.

(** [NamespacedName.String]. *)
Definition nn_string (n : NamespacedName) : string :=
  (nn_namespace n +:+ "/" +:+ nn_name n)%string.

Global Instance NamespacedName_eq_dec : EqDecision NamespacedName.
Proof. solve_decision. Defined.

Global Instance NamespacedName_countable : Countable NamespacedName.
Proof.
  apply (inj_countable' (fun n => (nn_namespace n, nn_name n)) (fun x => mkNamespacedName x.1 x.2)).
  by intros [].
Defined.

(** Objects selected by the labels of a template. *)
Definition matches_labels (sel labels : gmap string string) : bool :=
  forallb (fun kv => bool_decide (labels !! kv.1 = Some kv.2)) (map_to_list sel).

(** ** The API client

    The [client.Client] of controller-runtime over a cluster whose state has
    type [S].  Reads may be served from a cache, so nothing is assumed about
    how they relate to earlier writes. *)
Class ClientOps (S : Type) : Type := {
  cl_get_deployment : S -> NamespacedName -> result Deployment;
  cl_list_pods : S -> string -> gmap string string -> result (list Pod);
  cl_update_scale : S -> Deployment -> Z -> result unit * S
}.

(** A cluster with its deployments by name, its pods, and the scale updates it
    accepted, the last one first. *)
Record cluster : Type := mkCluster {
  cl_deployments : list (NamespacedName * Deployment);
  cl_pods : list Pod;
  cl_updates : list (string * Z)
}.

Definition cluster_get (c : cluster) (n : NamespacedName) : result Deployment :=
  match list_find (fun nd => nd.1 = n) (cl_deployments c) with
  | Some (_, (_, d)) => Ok d
  | None => Err (mkError KNotFound "not found")
  end.

Definition cluster_list (c : cluster) (ns : string) (sel : gmap string string) : result (list Pod) :=
  Ok (filter (fun p => Namespace (pod_meta p) = ns /\
                       matches_labels sel (Labels (pod_meta p)) = true) (cl_pods c)).

Definition cluster_update_scale (c : cluster) (d : Deployment) (n : Z) : result unit * cluster :=
  let name := mkNamespacedName (Namespace (dep_meta d)) (Name (dep_meta d)) in
  (Ok tt,
   mkCluster
     (map (fun nd => if decide (nd.1 = name)
                     then (nd.1, mkDeployment (dep_meta nd.2) (Some n) (TemplateLabels nd.2))
                     else nd) (cl_deployments c))
     (cl_pods c) ((nn_string name, n) :: cl_updates c)).

Global Instance cluster_client : ClientOps cluster := {
  cl_get_deployment := cluster_get;
  cl_list_pods := cluster_list;
  cl_update_scale := cluster_update_scale
}.
