(* ===== verification/Workload.v ===== *)
(** * Package [workload]: requests, keys and traces

    Models [pkg/workload/types.go] (requests, responses and their statuses),
    [selection.go] (the "namespace/app" keys that index workers, dispatchers
    and deciders) and [conversion.go] (the translation of an invocation trace
    into absolute arrival times). *)

From Stdlib Require Import Ascii Sorted.
From S2P Require Import Prelude GoTypes Float64 Float64Facts Kube.

(** ** Types ([types.go]) *)

Inductive ResponseStatus : Type :=
| SUCCESS
| FAIL_DISPATCH
| FAIL_TIMEOUT
| FAIL_CONNECT
| FAIL_SEND
| FAIL_RECV
| INVALID_TARGET.

Global Instance ResponseStatus_eq_dec : EqDecision ResponseStatus.
Proof. solve_decision. Defined.

(** The [iota] value of a status, an index into the readable names. *)
Definition status_code (s : ResponseStatus) : nat :=
  match s with
  | SUCCESS => 0
  | FAIL_DISPATCH => 1
  | FAIL_TIMEOUT => 2
  | FAIL_CONNECT => 3
  | FAIL_SEND => 4
  | FAIL_RECV => 5
  | INVALID_TARGET => 6
  end.

Definition responseStatusReadable : list string :=
  ["SUCCESS"; "FAIL_DISPATCH"; "FAIL_TIMEOUT"; "FAIL_CONNECT"; "FAIL_SEND";
   "FAIL_RECV"; "INVALID_TARGET"].

(** [ResponseStatus.String] indexes the slice, and panics out of range. *)
Definition status_string (s : ResponseStatus) : outcome string :=
  match responseStatusReadable !! status_code s with
  | Some name => Ret name
  | None => Panic "index out of range"
  end.

Record Request : Type := mkRequest {
  ID : string;
  Target : string;
  DurationMilliSec : Z;
  ClientSendTS : Z;
  ReqGatewayRecvTS : Z;
  GatewaySendTS : Z;
  ClientRelTime : Z;
  TraceRelTime : Z
}.

Global Instance Request_eq_dec : EqDecision Request.
Proof. solve_decision. Defined.

Record Response : Type := mkResponse {
  Source : Request;
  ResStatus : ResponseStatus;
  ResGatewayRecvTS : Z;
  ClientRecvTS : Z;
  RuntimeMicroSec : Z
}.

Global Instance Response_eq_dec : EqDecision Response.
Proof. solve_decision. Defined.

(** [req.GatewayRecvTS = t] and [req.GatewaySendTS = t]. *)
Definition set_gateway_recv (r : Request) (t : Z) : Request :=
  mkRequest (ID r) (Target r) (DurationMilliSec r) (ClientSendTS r) t (GatewaySendTS r)
    (ClientRelTime r) (TraceRelTime r).

Definition set_gateway_send (r : Request) (t : Z) : Request :=
  mkRequest (ID r) (Target r) (DurationMilliSec r) (ClientSendTS r) (ReqGatewayRecvTS r) t
    (ClientRelTime r) (TraceRelTime r).

Record InvocationSpec : Type := mkInvocation {
  ArrivalTimeSec : float64;
  RuntimeMilliSec : Z
}.

Record TraceSpec : Type := mkTrace {
  DurationMinutes : Z;
  Invocations : list InvocationSpec
}.

(** ** Keys ([selection.go]) *)

Definition KeyFromObject (obj : ObjectMeta) : string :=
  (Namespace obj +:+ "/" +:+ str_at (Labels obj) "app")%string.

(** [strings.Split(s, "/")]: the pieces between separators, at least one. *)
Fixpoint split_slash (s : string) : list string :=
  match s with
  | EmptyString => [EmptyString]
  | String c s' =>
      if Ascii.eqb c "/"%char then EmptyString :: split_slash s'
      else match split_slash s' with
           | [] => [String c EmptyString]
           | p :: ps => String c p :: ps
           end
  end.

(** [parts[0]] and [parts[1]] panic when there are fewer pieces. *)
Definition NamespacedNameFromKey (key : string) : outcome NamespacedName :=
  let parts := split_slash key in
  match parts !! 0%nat, parts !! 1%nat with
  | Some ns, Some name => Ret (mkNamespacedName ns name)
  | _, _ => Panic "index out of range"
  end.

Definition IsWorkload (obj : ObjectMeta) : bool :=
  negb (bool_decide (str_at (Labels obj) "app" = ""))
  && negb (bool_decide (str_at (Labels obj) "workload" = "")).

Definition IsTraceWorkload (obj : ObjectMeta) : bool :=
  IsWorkload obj && bool_decide (str_at (Labels obj) "workload" = "trace").

(** The label selectors that the package hands to list calls: existence
    requirements and equality requirements. *)
Inductive requirement : Type :=
| Exists (k : string)
| Equals (k v : string).

Definition satisfies (labels : gmap string string) (r : requirement) : bool :=
  match r with
  | Exists k => bool_decide (is_Some (labels !! k))
  | Equals k v => bool_decide (labels !! k = Some v)
  end.

Definition selected (sel : list requirement) (labels : gmap string string) : bool :=
  forallb (satisfies labels) sel.

Definition CtrlListOptions : list requirement := [Exists "workload"; Exists "app"].

Definition CtrlListOptionsForTrace : list requirement :=
  [Exists "workload"; Exists "app"; Equals "workload" "trace"].

(** The two package variables of type [metav1.ListOptions]; unset, a list
    option selects everything. *)
Record list_option_vars : Type := mkListVars {
  MetaV1ListOptions : list requirement;
  MetaV1ListOptionsForTrace : list requirement
}.

(** [init]: the assignments in the order of the source. *)
Definition selection_init : list_option_vars :=
  let vars := mkListVars [] [] in
  let requireWorkload := Exists "workload" in
  let requireApp := Exists "app" in
  let vars := mkListVars (MetaV1ListOptions vars) [requireWorkload; requireApp] in
  let requireTraceWorkload := Equals "workload" "trace" in
  mkListVars (MetaV1ListOptions vars) [requireTraceWorkload; requireApp].

(** ** Trace translation ([conversion.go]) *)

(** The specification of a trace function, as the loader generates it. *)
Record FunctionSpecification : Type := mkFunctionSpec {
  PerMinuteCount : list Z;
  IAT : list float64;
  RuntimeSpecification : list Z
}.

Local Open Scope Z_scope.

(** State of the loops of [TranslateDirigentFunction]. *)
Record translate_state : Type := mkTranslate {
  reqIndex : nat;
  elapsedInThisMinute : float64;
  translated : list InvocationSpec
}.

(** [float64(time.Second/time.Microsecond)]. *)
Definition micros_per_second : float64 := f64_of_Z (Z.quot Second Microsecond).

(** One iteration of the inner loop. *)
Definition translate_one (raw : FunctionSpecification) (startOfThisMinute : float64)
    (st : translate_state) : outcome translate_state :=
  match IAT raw !! reqIndex st with
  | None => Panic "index out of range"
  | Some iat =>
      let elapsed := f64_add (elapsedInThisMinute st)
                       (f64_div iat micros_per_second) in
      let absArrivalTime := f64_add startOfThisMinute elapsed in
      match RuntimeSpecification raw !! reqIndex st with
      | None => Panic "index out of range"
      | Some runtime =>
          Ret (mkTranslate (S (reqIndex st)) elapsed
                 (translated st ++ [mkInvocation absArrivalTime runtime]))
      end
  end.

Fixpoint translate_minute (n : nat) (raw : FunctionSpecification)
    (startOfThisMinute : float64) (st : translate_state) : outcome translate_state :=
  match n with
  | O => Ret st
  | S n' => st' ← translate_one raw startOfThisMinute st;
            translate_minute n' raw startOfThisMinute st'
  end.

Fixpoint translate_minutes (minute : Z) (counts : list Z) (raw : FunctionSpecification)
    (idx : nat) (acc : list InvocationSpec) : outcome (nat * list InvocationSpec) :=
  match counts with
  | [] => Ret (idx, acc)
  | nReqsThisMinute :: rest =>
      let startOfThisMinute := f64_mul (f64_of_Z minute) (f64_of_Z 60) in
      st ← translate_minute (Z.to_nat nReqsThisMinute) raw startOfThisMinute
             (mkTranslate idx (f64_of_Z 0) acc);
      translate_minutes (minute + 1) rest raw (reqIndex st) (translated st)
  end.

Definition TranslateDirigentFunction (raw : FunctionSpecification) : outcome TraceSpec :=
  r ← translate_minutes 0 (PerMinuteCount raw) raw 0 [];
  if bool_decide (length r.2 = length (IAT raw))
  then Ret (mkTrace (Z.of_nat (length (PerMinuteCount raw))) r.2)
  else Fatal ("Invocation count mismatch: expected " +:+ pretty (length (IAT raw))
              +:+ ", got " +:+ pretty (length r.2)).

Definition determineDurationToParse (runtimeDuration warmupDuration : Z) : Z :=
  let result := 0 in
  let result :=
    if 0 <? warmupDuration then add64 (add64 result 1) warmupDuration else result in
  add64 result runtimeDuration.

Inductive IatDistribution : Type := Exponential | Uniform | Equidistant.

Definition parseIATDistribution (distribution : string) : outcome (IatDistribution * bool) :=
  if bool_decide (distribution = "exponential") then Ret (Exponential, false)
  else if bool_decide (distribution = "exponential_shift") then Ret (Exponential, true)
  else if bool_decide (distribution = "uniform") then Ret (Uniform, false)
  else if bool_decide (distribution = "uniform_shift") then Ret (Uniform, true)
  else if bool_decide (distribution = "equidistant") then Ret (Equidistant, false)
  else Fatal "Unsupported IAT distribution.".

Inductive TraceGranularity : Type := MinuteGranularity | SecondGranularity.

Definition parseTraceGranularity (granularity : string) : outcome TraceGranularity :=
  if bool_decide (granularity = "minute") then Ret MinuteGranularity
  else if bool_decide (granularity = "second") then Ret SecondGranularity
  else Fatal "Invalid trace granularity parameter.".

Global Instance TraceGranularity_eq_dec : EqDecision TraceGranularity.
Proof. solve_decision. Defined.

(** [LoadDirigentTraceFromConfig]: the trace parser and the invocation
    generator belong to the vHive loader and are parameters; [generate i f]
    is what the generator returns on its [i]-th call. *)
Record LoaderConfiguration : Type := mkLoaderConfig {
  Platform : string;
  ExperimentDuration : Z;
  WarmupDuration : Z;
  TracePath : string;
  IATDistribution : string;
  Granularity : string
}.

Section loader.
Context {F : Type}.
Variable parse : string -> Z -> list F.
Variable generate : nat -> F -> IatDistribution -> bool -> TraceGranularity ->
  FunctionSpecification.

Fixpoint generate_all (i : nat) (functions : list F) (dist : IatDistribution)
    (shiftIAT : bool) (gran : TraceGranularity) : outcome (list FunctionSpecification) :=
  match functions with
  | [] => Ret []
  | function :: rest =>
      let spec := generate i function dist shiftIAT gran in
      if bool_decide (length (IAT spec) = length (RuntimeSpecification spec))
      then specs ← generate_all (S i) rest dist shiftIAT gran; Ret (spec :: specs)
      else Fatal ("IAT and runtime spec array length mismatch: expected " +:+ pretty (length (IAT spec))
                  +:+ ", got " +:+ pretty (length (RuntimeSpecification spec)))
  end.

Definition LoadDirigentTraceFromConfig (cfg : LoaderConfiguration) :
    outcome (list FunctionSpecification) :=
  if negb (bool_decide (Platform cfg = "Dirigent")) 
  then Fatal ("Invalid loader platform: expected Dirigent, got " +:+ Platform cfg)
  else if ExperimentDuration cfg <? 1
       then Fatal "Runtime duration should be longer, at least a minute."
  else
    let durationToParse :=
      determineDurationToParse (ExperimentDuration cfg) (WarmupDuration cfg) in
    let functions := parse (TracePath cfg) durationToParse in
    dist ← parseIATDistribution (IATDistribution cfg);
    gran ← parseTraceGranularity (Granularity cfg);
    if negb (bool_decide (gran = MinuteGranularity))
    then Fatal "Expect minute granularity for Azure traces"
    else generate_all 0 functions dist.1 dist.2 gran.

Fixpoint translate_all (specs : list FunctionSpecification) : outcome (list TraceSpec) :=
  match specs with
  | [] => Ret []
  | spec :: rest =>
      t ← TranslateDirigentFunction spec;
      ts ← translate_all rest;
      Ret (t :: ts)
  end.

Definition LoadTraceFromConfig (cfg : LoaderConfiguration) : outcome (list TraceSpec) :=
  functions ← LoadDirigentTraceFromConfig cfg;
  translate_all functions.

End loader.

(** ** Facts about keys *)

Local Open Scope nat_scope.

(** No separator in the text. *)
Fixpoint no_slash (s : string) : bool :=
  match s with
  | EmptyString => true
  | String c s' => negb (Ascii.eqb c "/"%char) && no_slash s'
  end.

Lemma split_no_slash s : no_slash s = true -> split_slash s = [s].
Proof.
  induction s as [|c s IH]; simpl; [done|].
  destruct (Ascii.eqb c "/") eqn:E; simpl; [done|]. intros H. by rewrite IH.
Qed.

Lemma split_app s1 s2 :
  no_slash s1 = true -> split_slash (s1 +:+ "/" +:+ s2) = s1 :: split_slash s2.
Proof.
  induction s1 as [|c s1 IH]; simpl; [done|].
  destruct (Ascii.eqb c "/") eqn:E; simpl; [done|]. intros H. by rewrite IH.
Qed.

Lemma split_nonempty s : split_slash s <> [].
Proof. destruct s; simpl; repeat case_match; done. Qed.

Lemma split_length s : length (split_slash s) = 1 <-> no_slash s = true.
Proof.
  split; [|intros H; by rewrite split_no_slash].
  induction s as [|c s IH]; simpl; [done|]. pose proof (split_nonempty s).
  destruct (Ascii.eqb c "/"); destruct (split_slash s); simpl in *; try done; try lia.
Qed.

Lemma key_parse ns app :
  no_slash ns = true -> no_slash app = true ->
  NamespacedNameFromKey (ns +:+ "/" +:+ app) = Ret (mkNamespacedName ns app).
Proof.
  intros H1 H2. unfold NamespacedNameFromKey. by rewrite split_app, split_no_slash.
Qed.

(** C34: the key of an object identifies it.  For a namespace and an "app" label
    without separators (as Kubernetes names are), [NamespacedNameFromKey] of
    [KeyFromObject] gives both back and its printed form is the key again. *)
Theorem key_roundtrip (obj : ObjectMeta) :
  no_slash (Namespace obj) = true -> no_slash (str_at (Labels obj) "app") = true ->
  NamespacedNameFromKey (KeyFromObject obj) =
    Ret (mkNamespacedName (Namespace obj) (str_at (Labels obj) "app")) /\
  nn_string (mkNamespacedName (Namespace obj) (str_at (Labels obj) "app")) = KeyFromObject obj.
Proof. intros H1 H2. split; [by apply key_parse|done]. Qed.

Definition demo_meta : ObjectMeta :=
  mkMeta "default" "fn-0" "u0" "1" {["app" := "fn-0"; "workload" := "trace"]} ∅ None.

Lemma key_roundtrip_witness :
  NamespacedNameFromKey (KeyFromObject demo_meta) = Ret (mkNamespacedName "default" "fn-0").
Proof. exact (proj1 (key_roundtrip demo_meta eq_refl eq_refl)). Defined.

(** A key is parsed without a panic exactly when it contains a separator;
    the name is the text up to the second one. *)
Theorem key_parse_total (key : string) :
  (no_slash key = true -> NamespacedNameFromKey key = Panic "index out of range") /\
  (no_slash key = false -> exists nn, NamespacedNameFromKey key = Ret nn /\
     no_slash (nn_namespace nn) = true /\ no_slash (nn_name nn) = true).
Proof.
  assert (Hpieces : forall s, Forall (fun p => no_slash p = true) (split_slash s)).
  { induction s as [|c s IH]; simpl; [by repeat constructor|].
    destruct (Ascii.eqb c "/") eqn:E; [by constructor|].
    pose proof (split_nonempty s). destruct (split_slash s) as [|p ps]; [done|].
    inversion IH; subst. constructor; [simpl; by rewrite E|done]. }
  unfold NamespacedNameFromKey. split; intros H.
  - by rewrite split_no_slash.
  - pose proof (split_nonempty key). pose proof (proj1 (split_length key)) as HL.
    pose proof (Hpieces key) as HP.
    destruct (split_slash key) as [|a [|b rest]]; [done| |].
    + rewrite HL in H by done. done.
    + inversion HP as [|?? Ha HP']; subst. inversion HP'; subst. by exists (mkNamespacedName a b).
Qed.

Lemma key_parse_total_witness :
  NamespacedNameFromKey "web" = Panic "index out of range" /\
  NamespacedNameFromKey "default/web" = Ret (mkNamespacedName "default" "web").
Proof.
  split; [exact (proj1 (key_parse_total "web") eq_refl)|].
  destruct (proj2 (key_parse_total "default/web") eq_refl) as (nn & E & _).
  transitivity (Ret nn); [exact E|]. symmetry in E. rewrite E. reflexivity.
Defined.

(** The objects that the set-up lists ([CtrlListOptionsForTrace] for
    deployments, [MetaV1ListOptionsForTrace] for Knative services) are the
    ones the event filter [IsTraceWorkload] accepts, up to objects whose "app"
    label is present but empty. *)
Theorem trace_selectors_agree (obj : ObjectMeta) :
  selected (MetaV1ListOptionsForTrace selection_init) (Labels obj) =
    selected CtrlListOptionsForTrace (Labels obj) /\
  IsTraceWorkload obj =
    selected CtrlListOptionsForTrace (Labels obj)
    && negb (bool_decide (str_at (Labels obj) "app" = "")).
Proof.
  unfold IsTraceWorkload, IsWorkload, selected, str_at. simpl.
  destruct (Labels obj !! "app") as [a|], (Labels obj !! "workload") as [w|]; simpl.
  all: repeat case_bool_decide; simplify_eq; try done.
  all: match goal with H : ~ is_Some (Some _) |- _ => destruct H; eauto | _ => idtac end.
Qed.

(** [init] assigns [MetaV1ListOptionsForTrace] twice and never
    [MetaV1ListOptions], which therefore selects every object, also those the
    selector built for it was meant to exclude. *)
Theorem metav1_list_options_unset (labels : gmap string string) :
  selected (MetaV1ListOptions selection_init) labels = true /\
  selected CtrlListOptions ∅ = false.
Proof. done. Qed.

(** ** Trace translation *)

(** The number of requests of the trace: negative counts run no iteration. *)
Definition total_count (counts : list Z) : nat :=
  fold_right (fun c n => Z.to_nat c + n) 0 counts.

(** How many requests have both an inter-arrival time and a run time. *)
Definition available (raw : FunctionSpecification) : nat :=
  length (IAT raw) `min` length (RuntimeSpecification raw).

Lemma total_count_cons c counts : total_count (c :: counts) = Z.to_nat c + total_count counts.
Proof. done. Qed.

Lemma translate_one_ok raw start st :
  reqIndex st < available raw ->
  exists inv elapsed, translate_one raw start st =
      Ret (mkTranslate (S (reqIndex st)) elapsed (translated st ++ [inv])) /\
    RuntimeSpecification raw !! reqIndex st = Some (RuntimeMilliSec inv) /\
    ArrivalTimeSec inv = f64_add start elapsed.
Proof.
  unfold available. intros H. unfold translate_one.
  destruct (lookup_lt_is_Some_2 (IAT raw) (reqIndex st)) as [iat ->]; [lia|].
  destruct (lookup_lt_is_Some_2 (RuntimeSpecification raw) (reqIndex st)) as [rt ->]; [lia|].
  by eexists (mkInvocation _ _), _.
Qed.

Lemma translate_one_panic raw start st :
  available raw <= reqIndex st -> translate_one raw start st = Panic "index out of range".
Proof.
  unfold available. intros H. unfold translate_one.
  destruct (IAT raw !! reqIndex st) eqn:E1; [|done].
  destruct (RuntimeSpecification raw !! reqIndex st) eqn:E2; [|done].
  apply lookup_lt_Some in E1, E2. lia.
Qed.

Lemma translate_minute_ok n raw start st :
  reqIndex st + n <= available raw ->
  exists st', translate_minute n raw start st = Ret st' /\ reqIndex st' = reqIndex st + n /\
    exists invs, translated st' = translated st ++ invs /\
      map RuntimeMilliSec invs = take n (drop (reqIndex st) (RuntimeSpecification raw)).
Proof.
  revert st. induction n as [|n IH]; intros st H; cbn [translate_minute].
  { exists st. split; [done|]. split; [lia|]. exists []. by rewrite app_nil_r. }
  destruct (translate_one_ok raw start st) as (inv & el & -> & Hrt & _); [lia|]. cbn.
  destruct (IH (mkTranslate (S (reqIndex st)) el (translated st ++ [inv])))
    as (st' & -> & E & invs & Ei & Em); [simpl; lia|]. simpl in *.
  exists st'. split; [done|]. split; [lia|]. exists (inv :: invs).
  split; [by rewrite Ei, <- app_assoc|]. simpl. rewrite Em.
  by rewrite (drop_S _ _ _ Hrt).
Qed.

Lemma translate_minute_panic n raw start st :
  available raw < reqIndex st + n -> reqIndex st <= available raw ->
  translate_minute n raw start st = Panic "index out of range".
Proof.
  revert st. induction n as [|n IH]; intros st H Hle; [lia|]. cbn [translate_minute].
  destruct (decide (available raw <= reqIndex st)).
  { by rewrite translate_one_panic. }
  destruct (translate_one_ok raw start st) as (inv & el & -> & _ & _); [lia|]. cbn.
  apply IH; simpl; lia.
Qed.

Lemma translate_minutes_ok minute counts raw idx acc :
  idx + total_count counts <= available raw ->
  exists invs, translate_minutes minute counts raw idx acc =
      Ret (idx + total_count counts, acc ++ invs) /\
    map RuntimeMilliSec invs = take (total_count counts) (drop idx (RuntimeSpecification raw)).
Proof.
  revert minute idx acc. induction counts as [|c counts IH]; intros minute idx acc H;
    cbn [translate_minutes].
  { exists []. by rewrite app_nil_r, Nat.add_0_r. }
  rewrite total_count_cons in *.
  edestruct (translate_minute_ok (Z.to_nat c) raw
    (f64_mul (f64_of_Z minute) (f64_of_Z 60)) (mkTranslate idx (f64_of_Z 0) acc))
    as (st & -> & Ei & invs & Et & Em); [simpl; lia|]. simpl in *.
  destruct (IH (minute + 1)%Z (reqIndex st) (translated st)) as (invs' & E' & Em'); [lia|].
  exists (invs ++ invs').
  split; [by rewrite E', Et, <- app_assoc, Ei, Nat.add_assoc|].
  by rewrite map_app, Em, Em', Ei, <- drop_drop, take_take_drop.
Qed.

Lemma translate_minutes_panic minute counts raw idx acc :
  available raw < idx + total_count counts -> idx <= available raw ->
  translate_minutes minute counts raw idx acc = Panic "index out of range".
Proof.
  revert minute idx acc. induction counts as [|c counts IH]; intros minute idx acc H Hle;
    cbn [translate_minutes]; [cbn in H; lia|].
  rewrite total_count_cons in *.
  destruct (decide (available raw < idx + Z.to_nat c)).
  { by rewrite translate_minute_panic by (simpl; lia). }
  edestruct (translate_minute_ok (Z.to_nat c) raw
    (f64_mul (f64_of_Z minute) (f64_of_Z 60)) (mkTranslate idx (f64_of_Z 0) acc))
    as (st & -> & Ei & _); [simpl; lia|]. simpl in *.
  apply IH; lia.
Qed.

(** What [TranslateDirigentFunction] returns, for every trace function.  It
    succeeds exactly when the per-minute counts add up to the number of
    inter-arrival times and each has a run time; then the trace has one
    invocation per inter-arrival time, with the run times of the function in
    order.  Too small a total is a fatal error, too large a one an
    out-of-range panic. *)
Lemma translate_outcome (raw : FunctionSpecification) :
  let total := total_count (PerMinuteCount raw) in
  if decide (available raw < total) then
    TranslateDirigentFunction raw = Panic "index out of range"
  else if decide (total = length (IAT raw)) then
    exists spec, TranslateDirigentFunction raw = Ret spec /\
      DurationMinutes spec = Z.of_nat (length (PerMinuteCount raw)) /\
      length (Invocations spec) = length (IAT raw) /\
      map RuntimeMilliSec (Invocations spec) = take total (RuntimeSpecification raw)
  else exists msg, TranslateDirigentFunction raw = Fatal msg.
Proof.
  intros total. unfold TranslateDirigentFunction.
  destruct (decide (available raw < total)).
  { by rewrite translate_minutes_panic by (subst total; lia). }
  destruct (translate_minutes_ok 0 (PerMinuteCount raw) raw 0 []) as (invs & -> & Em); [subst total; lia|].
  fold total in Em |- *. simpl in *. rewrite drop_0 in Em.
  assert (length invs = total) as Hl.
  { rewrite <- (length_map RuntimeMilliSec), Em, length_take. unfold available in *. lia. }
  destruct (decide (total = length (IAT raw))) as [Ht|Ht].
  - rewrite bool_decide_eq_true_2 by lia. eexists. split; [done|]. simpl. auto with lia.
  - rewrite bool_decide_eq_false_2 by lia. eauto.
Qed.

Local Open Scope Z_scope.

(** An invocation that arrives at [start] plus some time no less than [el]. *)
Definition arrives_after (start el : float64) (inv : InvocationSpec) : Prop :=
  exists el', finite64 el' /\ fval el <= fval el' /\ ArrivalTimeSec inv = f64_add start el'.

Definition arrives_before (i j : InvocationSpec) : Prop :=
  f64_le (ArrivalTimeSec i) (ArrivalTimeSec j) = true.

Lemma arrives_after_weaken start el1 el2 inv :
  fval el1 <= fval el2 -> arrives_after start el2 inv -> arrives_after start el1 inv.
Proof. intros H (el' & F & L & E). exists el'. split; [done|]. split; [lia|done]. Qed.

Lemma translate_one_elapsed raw start st st' :
  Forall (fun x => finite64 x /\ 0 <= fval x) (IAT raw) ->
  finite64 start -> finite64 (elapsedInThisMinute st) ->
  translate_one raw start st = Ret st' ->
  exists inv, translated st' = translated st ++ [inv] /\
    (finite64 (ArrivalTimeSec inv) ->
       finite64 (elapsedInThisMinute st') /\
       fval (elapsedInThisMinute st) <= fval (elapsedInThisMinute st') /\
       ArrivalTimeSec inv = f64_add start (elapsedInThisMinute st')).
Proof.
  intros HI Fs Fe. unfold translate_one.
  destruct (IAT raw !! reqIndex st) as [iat|] eqn:E1; [|done].
  destruct (RuntimeSpecification raw !! reqIndex st) as [rt|]; [|done].
  intros [= <-]. simpl. eexists. split; [done|]. simpl. intros Fa.
  destruct (Forall_lookup_1 _ _ _ _ HI E1) as [Fi Hi].
  destruct (f64_of_Z_exact (Z.quot Second Microsecond)) as [Fm Em]; [done|].
  destruct (f64_div_shrink iat micros_per_second Fi Hi Fm) as [Fd [Hd _]].
  { unfold micros_per_second. rewrite Em. pose proof (P_pos 0 ltac:(lia)).
    change (Z.quot Second Microsecond) with 1000000. lia. }
  destruct (f64_add_nonneg (elapsedInThisMinute st) _ Fe Fd Hd) as [E|[F L]]; [|done].
  rewrite E, f64_add_inf_r in Fa by done. done.
Qed.

Lemma translate_minute_extends n raw start st st' :
  translate_minute n raw start st = Ret st' ->
  exists invs, translated st' = translated st ++ invs.
Proof.
  revert st. induction n as [|n IH]; intros st; cbn [translate_minute].
  { intros [= ->]. exists []. by rewrite app_nil_r. }
  unfold translate_one. repeat case_match; try done. simpl. intros E.
  apply IH in E as (invs & ->). simpl. rewrite <- app_assoc. eauto.
Qed.

(** Within one minute the translated invocations arrive in order, none
    before the start of the minute.  For finite, non-negative inter-arrival
    times and arrival times that do not overflow, the [float64] sums that
    [TranslateDirigentFunction] computes are sorted in spite of rounding. *)
Theorem translate_minute_sorted (n : nat) (raw : FunctionSpecification)
    (start : float64) (st st' : translate_state) (invs : list InvocationSpec) :
  Forall (fun x => finite64 x /\ 0 <= fval x) (IAT raw) ->
  finite64 start -> finite64 (elapsedInThisMinute st) ->
  0 <= fval (elapsedInThisMinute st) ->
  translate_minute n raw start st = Ret st' ->
  translated st' = translated st ++ invs ->
  Forall (fun i => finite64 (ArrivalTimeSec i)) invs ->
  Forall (arrives_after start (elapsedInThisMinute st)) invs /\
  Forall (fun i => f64_le start (ArrivalTimeSec i) = true) invs /\
  StronglySorted arrives_before invs.
Proof.
  intros HI Fs. revert st invs. induction n as [|n IH]; intros st invs Fe He; cbn [translate_minute].
  { intros [= ->] E _. symmetry in E. rewrite <- (app_nil_r (translated st')) in E at 2.
    apply app_inv_head in E as ->. repeat split; constructor. }
  destruct (translate_one raw start st) as [st1| |] eqn:E1; [|done|done].
  simpl. intros E Ht Ff.
  destruct (translate_one_elapsed raw start st st1 HI Fs Fe E1) as (inv & T1 & H1).
  destruct (translate_minute_extends _ _ _ _ _ E) as (rest & T2).
  rewrite T2, T1, <- app_assoc in Ht. apply app_inv_head in Ht as <-.
  apply Forall_cons in Ff as [Fi Fr]. destruct (H1 Fi) as (F1 & L1 & A1).
  destruct (IH st1 rest F1 ltac:(lia) E T2 Fr) as (R1 & R2 & R3).
  assert (arrives_after start (elapsedInThisMinute st) inv) as Ra by (by exists (elapsedInThisMinute st1)).
  split; [|split].
  - constructor; [done|]. eapply Forall_impl; [exact R1|]. intros x. by apply arrives_after_weaken.
  - constructor; [|done]. rewrite f64_le_spec by done. apply Z.leb_le.
    rewrite A1 in Fi |- *. destruct (f64_add_nonneg start _ Fs F1 ltac:(lia)) as [C|[_ ?]]; [|done].
    by rewrite C in Fi.
  - constructor; [done|]. apply Forall_forall. intros j Hj.
    rewrite Forall_forall in R1, Fr. destruct (R1 j Hj) as (el & Fl & Ll & Al).
    unfold arrives_before. rewrite A1, Al. apply f64_add_mono; try done; [by rewrite <- A1|].
    rewrite <- Al. by apply Fr.
Qed.

Definition demo_function : FunctionSpecification :=
  mkFunctionSpec [2; 1] [f64_of_Z 1500000; f64_of_Z 333333; f64_of_Z 7] [100; 20; 5].

Lemma translate_minute_sorted_witness :
  match translate_minute 2 demo_function (f64_of_Z 60) (mkTranslate 0 (f64_of_Z 0) []) with
  | Ret st' => StronglySorted arrives_before (translated st')
  | _ => False
  end.
Proof.
  destruct (translate_minute 2 demo_function (f64_of_Z 60) (mkTranslate 0 (f64_of_Z 0) []))
    as [st'| |] eqn:E; [|vm_compute in E; discriminate E|vm_compute in E; discriminate E].
  refine (proj2 (proj2 (translate_minute_sorted 2 demo_function (f64_of_Z 60)
    (mkTranslate 0 (f64_of_Z 0) []) st' (translated st') _ _ _ _ E eq_refl _))).
  - assert (forall z, exact_int z -> 0 <= z ->
      finite64 (f64_of_Z z) /\ 0 <= fval (f64_of_Z z)) as G.
    { intros z Hz H0. destruct (f64_of_Z_exact z Hz) as [F V]. split; [exact F|].
      rewrite V. pose proof (P_pos 0 ltac:(lia)). nia. }
    repeat constructor; apply G; unfold exact_int; lia.
  - exact (f64_of_Z_finite 60 ltac:(unfold exact_int; lia)).
  - exact I.
  - exact (Z.le_refl 0).
  - assert (translated st' = translated match
      translate_minute 2 demo_function (f64_of_Z 60) (mkTranslate 0 (f64_of_Z 0) []) with
      Ret s => s | _ => st' end) as -> by (rewrite E; reflexivity).
    vm_compute. repeat constructor.
Defined.

(** ** Loading a trace *)

Section loading.
Context {F : Type}.
Variable parse : string -> Z -> list F.
Variable generate : nat -> F -> IatDistribution -> bool -> TraceGranularity ->
  FunctionSpecification.

(** What the loader's generator promises of a specification: a run time for
    each inter-arrival time, and as many of them as the minutes count. *)
Definition spec_ok (s : FunctionSpecification) : Prop :=
  length (IAT s) = length (RuntimeSpecification s) /\ total_count (PerMinuteCount s) = length (IAT s).

(** The trace of a specification: its minutes, and its run times in order. *)
Definition trace_of (s : FunctionSpecification) (t : TraceSpec) : Prop :=
  DurationMinutes t = Z.of_nat (length (PerMinuteCount s)) /\
  map RuntimeMilliSec (Invocations t) = RuntimeSpecification s.

Lemma generate_all_ok functions dist shift gran : forall i,
  Forall (fun s => length (IAT s) = length (RuntimeSpecification s))
    (imap (fun j f => generate (i + j) f dist shift gran) functions) ->
  generate_all generate i functions dist shift gran =
    Ret (imap (fun j f => generate (i + j) f dist shift gran) functions).
Proof.
  induction functions as [|f fs IH]; intros i H; cbn [generate_all]; [done|].
  rewrite imap_cons in H |- *. rewrite Nat.add_0_r in H |- *. inversion H as [|? ? H1 H2]; subst.
  rewrite bool_decide_eq_true_2 by done.
  assert (imap ((fun j f => generate (i + j) f dist shift gran) ∘ S) fs =
          imap (fun j f => generate (S i + j) f dist shift gran) fs) as E.
  { apply imap_ext. intros j x _. simpl. by rewrite Nat.add_succ_r. }
  rewrite E in H2 |- *. by rewrite (IH (S i) H2).
Qed.

Lemma translate_all_ok specs :
  Forall spec_ok specs -> exists ts, translate_all specs = Ret ts /\ Forall2 trace_of specs ts.
Proof.
  induction 1 as [|s specs [H1 H2] _ IH]; cbn [translate_all]; [by exists []; repeat constructor|].
  pose proof (translate_outcome s) as T. cbv zeta in T. unfold available in T.
  rewrite decide_False, decide_True in T by lia. destruct T as (t & -> & Hd & Hl & Hm).
  destruct IH as (ts & -> & F2). exists (t :: ts). split; [done|]. constructor; [|done].
  split; [done|]. rewrite Hm. apply take_ge. lia.
Qed.

(** C26: loading a trace succeeds and is complete.  For a valid configuration
    and a generator that gives every function a run time and an inter-arrival
    time per counted invocation, [LoadTraceFromConfig] neither stops nor
    panics: it returns one trace per parsed function, in order, each with the
    minutes of the generated specification and one invocation per generated
    run time, in order. *)
Theorem load_trace_complete (cfg : LoaderConfiguration) dist shift :
  Platform cfg = "Dirigent" -> (1 <= ExperimentDuration cfg)%Z ->
  parseIATDistribution (IATDistribution cfg) = Ret (dist, shift) -> Granularity cfg = "minute" ->
  let functions := parse (TracePath cfg)
    (determineDurationToParse (ExperimentDuration cfg) (WarmupDuration cfg)) in
  let specs := imap (fun i f => generate i f dist shift MinuteGranularity) functions in
  Forall spec_ok specs ->
  exists ts, LoadTraceFromConfig parse generate cfg = Ret ts /\ Forall2 trace_of specs ts /\
    length ts = length functions.
Proof.
  intros Hp Hd Hi Hg functions specs Hok.
  destruct (translate_all_ok specs Hok) as (ts & T & F2). exists ts.
  unfold LoadTraceFromConfig, LoadDirigentTraceFromConfig. rewrite Hp, Hi, Hg.
  rewrite bool_decide_eq_true_2 by done. cbn [negb].
  destruct (Z.ltb_spec (ExperimentDuration cfg) 1); [lia|]. fold functions.
  change (parseTraceGranularity "minute") with (Ret MinuteGranularity). cbn [mbind outcome_bind].
  rewrite bool_decide_eq_true_2 by done. cbn [negb fst snd].
  rewrite generate_all_ok; [|eapply Forall_impl; [exact Hok|]; by intros s [? ?]].
  split_and!; [done|done|]. rewrite <- (Forall2_length _ _ _ F2). subst specs. apply length_imap.
Qed.

End loading.

Lemma load_trace_complete_witness :
  exists ts, LoadTraceFromConfig (fun _ _ => [demo_function]) (fun _ f _ _ _ => f)
      (mkLoaderConfig "Dirigent" 2 0 "data" "equidistant" "minute") = Ret ts /\ length ts = 1%nat.
Proof.
  destruct (load_trace_complete (fun _ _ => [demo_function]) (fun _ f _ _ _ => f)
    (mkLoaderConfig "Dirigent" 2 0 "data" "equidistant" "minute") Equidistant false)
    as (ts & L & _ & Hl); [reflexivity|simpl; lia|reflexivity|reflexivity| |].
  - repeat constructor.
  - exists ts. split; [exact L|exact Hl].
Defined.
