(* ===== verification/Summary.v ===== *)
(** * The texts of package [workload]

    [Response.Summary] and [TraceSpec.String] of [pkg/workload/types.go], with
    the verb [%.3f] of [fmt] on a [float64]: the exact value is rounded to three
    decimals, half to even.  The theorems read the printed latencies back. *)

From Stdlib Require Import Ascii.
From S2P Require Import Prelude GoTypes Float64 Float64Facts Workload.

Local Open Scope Z_scope.

(** ** The verb [%.3f] *)

Definition half_even (a b : Z) : Z :=
  let q := a / b in
  let r := a mod b in
  if 2 * r <? b then q else if b <? 2 * r then q + 1 else if Z.even q then q else q + 1.

(** The thousandths of a magnitude. *)
Definition thousandths (m : positive) (e : Z) : Z :=
  if 0 <=? e then 1000 * Z.pos m * 2 ^ e else half_even (1000 * Z.pos m) (2 ^ (- e)).

Definition digit_char (d : Z) : ascii := pretty_N_char (Z.to_N d).

Definition decimal3 (n : Z) : string :=
  pretty (Z.to_N (n / 1000)) +:+ "." +:+
  String (digit_char (n / 100 mod 10)) (String (digit_char (n / 10 mod 10)) (String (digit_char (n mod 10)) "")).

Definition fmt3 (x : float64) : string :=
  let sign (s : bool) := if s then "-"%string else ""%string in
  match x with
  | S754_nan => "NaN"
  | S754_infinity s => if s then "-Inf" else "+Inf"
  | S754_zero s => sign s +:+ decimal3 0
  | S754_finite s m e => sign s +:+ decimal3 (thousandths m e)
  end.

(** ** [Summary] and [String] *)

(** [latency]: the instant [t] relative to the sending of the request. *)
Definition latency (res : Response) (t : Z) : string :=
  let elapsedMilliseconds :=
    f64_div (f64_of_Z (time_sub t (ClientSendTS (Source res)))) (f64_of_Z 1000000) in
  if f64_lt elapsedMilliseconds (f64_of_Z 0) then "N/A" else "+" +:+ fmt3 elapsedMilliseconds +:+ "ms".

(** The instant of the delay: the end of the execution less its runtime. *)
Definition delay_instant (res : Response) : Z :=
  time_add (ResGatewayRecvTS res) (mul64 (int64_of (- RuntimeMicroSec res)) Microsecond).

Definition newline : string := String (ascii_of_nat 10) "".

Definition Summary (res : Response) : outcome string :=
  let req := Source res in
  let traceTS := fmt3 (dur_seconds (TraceRelTime req)) +:+ "s" in
  let CSendReq := fmt3 (dur_seconds (ClientRelTime req)) +:+ "s" in
  let GrecvReq := latency res (ReqGatewayRecvTS req) in
  let GsendReq := latency res (GatewaySendTS req) in
  let GrecvRes := latency res (ResGatewayRecvTS res) in
  let CRecvRes := latency res (ClientRecvTS res) in
  let delay := latency res (delay_instant res) in
  status ← status_string (ResStatus res);
  Ret ("ID: " +:+ ID req +:+ ", Func: " +:+ Target req +:+ ", Status: " +:+ status +:+ ", TS: " +:+ traceTS
       +:+ ", CSendReq: " +:+ CSendReq +:+ ", GRecvReq: " +:+ GrecvReq +:+ ", GSendReq: " +:+ GsendReq
       +:+ ", GRecvRes: " +:+ GrecvRes +:+ ", CRecvRes: " +:+ CRecvRes +:+ ", Delay: " +:+ delay
       +:+ ", Runtime: " +:+ fmt3 (f64_div (f64_of_Z (RuntimeMicroSec res)) (f64_of_Z 1000)) +:+ "/"
       +:+ pretty (DurationMilliSec req) +:+ "ms" +:+ newline).

Definition TraceSpec_String (t : TraceSpec) : string :=
  "Duration: " +:+ pretty (DurationMinutes t) +:+ "m, Invocations: " +:+ pretty (length (Invocations t)).

(** ** Reading decimals *)

Definition digit_value (c : ascii) : option Z :=
  let n := Z.of_nat (nat_of_ascii c) in
  if (48 <=? n) && (n <=? 57) then Some (n - 48) else None.

(** The number that the digits of a text spell, other characters being skipped. *)
Fixpoint read_digits (acc : Z) (s : string) : Z :=
  match s with
  | EmptyString => acc
  | String c s =>
      match digit_value c with
      | Some d => read_digits (10 * acc + d) s
      | None => read_digits acc s
      end
  end.

Lemma read_digits_app acc s1 s2 : read_digits acc (s1 +:+ s2) = read_digits (read_digits acc s1) s2.
Proof. revert acc. induction s1 as [|c s1 IH]; intros acc; simpl; [done|]. by destruct (digit_value c). Qed.

Lemma digit_value_char (x : N) : (x < 10)%N -> digit_value (pretty_N_char x) = Some (Z.of_N x).
Proof.
  intros H. assert (x = 0 \/ x = 1 \/ x = 2 \/ x = 3 \/ x = 4 \/ x = 5 \/ x = 6 \/ x = 7 \/ x = 8 \/ x = 9)%N
    as D by lia. by repeat destruct D as [->|D]; subst.
Qed.

Lemma read_digits_char acc d s :
  0 <= d < 10 -> read_digits acc (String (digit_char d) s) = read_digits (10 * acc + d) s.
Proof. intros H. unfold digit_char. simpl. rewrite digit_value_char, Z2N.id by lia. done. Qed.

Lemma read_pretty_go (x : N) : forall s, read_digits 0 (pretty_N_go x s) = read_digits (Z.of_N x) s.
Proof.
  induction (N.lt_wf_0 x) as [x _ IH]; intros s. assert (x = 0 \/ 0 < x)%N as [->|Hx] by lia; [done|].
  rewrite pretty_N_go_step, IH by (done || by apply N.div_lt). simpl.
  rewrite digit_value_char by (apply N.mod_lt; lia). f_equal. pose proof (N.div_mod x 10). lia.
Qed.

Lemma read_pretty (x : N) : read_digits 0 (pretty x) = Z.of_N x.
Proof.
  unfold pretty, pretty_N. case_decide as H; [by subst|]. apply (read_pretty_go x "").
Qed.

Lemma read_decimal3 n : 0 <= n -> read_digits 0 (decimal3 n) = n.
Proof.
  intros Hn. unfold decimal3. rewrite !read_digits_app, read_pretty.
  rewrite Z2N.id by (apply Z.div_pos; lia). change (read_digits ?a "."%string) with a.
  rewrite !read_digits_char by (apply Z.mod_pos_bound; lia). simpl.
  pose proof (Z.div_mod n 10). pose proof (Z.div_mod (n / 10) 10). pose proof (Z.div_mod (n / 100) 10).
  rewrite !Z.div_div in * by lia. simpl in *. change (10 * 10) with 100 in *. change (100 * 10) with 1000 in *. lia.
Qed.

(** Rounding half to even is a rounding to nearest. *)
Lemma half_even_near a b : 0 < b -> 2 * Z.abs (half_even a b * b - a) <= b.
Proof.
  intros Hb. unfold half_even. pose proof (Z.div_mod a b ltac:(lia)) as D.
  pose proof (Z.mod_pos_bound a b Hb). set (q := a / b) in *. set (r := a mod b) in *.
  destruct (Z.ltb_spec (2 * r) b); [|destruct (Z.ltb_spec b (2 * r)); [|destruct (Z.even q)]]; nia.
Qed.

Lemma half_even_nonneg a b : 0 < b -> 0 <= a -> 0 <= half_even a b.
Proof.
  intros Hb Ha. unfold half_even. pose proof (Z.div_pos a b Ha Hb).
  repeat case_match; lia.
Qed.

(** The thousandths printed for a number. *)
Definition printed (x : float64) : Z := match x with S754_finite _ m e => thousandths m e | _ => 0 end.

Lemma thousandths_nonneg m e : 0 <= thousandths m e.
Proof.
  unfold thousandths. destruct (Z.leb_spec 0 e).
  - pose proof (Z.pow_nonneg 2 e). nia.
  - apply half_even_nonneg; [|lia]. apply Z.pow_pos_nonneg; lia.
Qed.

Lemma printed_near x :
  finite64 x -> 0 <= fval x -> 0 <= printed x /\ 2 * Z.abs (printed x * P 0 - 1000 * fval x) <= P 0.
Proof.
  pose proof (P_pos 0 ltac:(lia)) as P0. destruct x as [s| | |s m e]; try done; intros F H; [simpl; lia|].
  pose proof (bounded_range _ _ F) as Be. pose proof (P_pos e ltac:(lia)) as Pe. simpl in H |- *.
  destruct s; simpl in H |- *; [nia|]. split; [apply thousandths_nonneg|]. unfold thousandths.
  destruct (Z.leb_spec 0 e).
  - rewrite (P_between 0 e), Z.sub_0_r by lia.
    replace (1000 * Z.pos m * 2 ^ e * P 0 - 1000 * (Z.pos m * (P 0 * 2 ^ e))) with 0 by ring. simpl. lia.
  - assert (0 < 2 ^ (- e)) as Hp by (apply Z.pow_pos_nonneg; lia).
    pose proof (half_even_near (1000 * Z.pos m) (2 ^ (- e)) Hp) as N.
    rewrite (P_between e 0) by lia. replace (0 - e) with (- e) by lia.
    set (n := half_even _ _) in *. set (b := 2 ^ (- e)) in *.
    replace (n * (P e * b) - 1000 * (Z.pos m * P e)) with (P e * (n * b - 1000 * Z.pos m)) by ring.
    rewrite Z.abs_mul, (Z.abs_eq (P e)) by lia. nia.
Qed.

Lemma read_fmt3 x : finite64 x -> 0 <= fval x -> read_digits 0 (fmt3 x) = printed x.
Proof.
  intros F H. destruct x as [s| | |s m e]; try done; [by destruct s|]. simpl. rewrite read_digits_app.
  replace (read_digits 0 (if s then "-" else "")) with 0 by by destruct s.
  apply read_decimal3, thousandths_nonneg.
Qed.

(** A quotient by a million, bounded on the grid of 2^-21. *)
Lemma div_million d lo hi :
  exact_int d -> Z.abs lo <= 2 ^ 53 -> Z.abs hi <= 2 ^ 53 ->
  lo * 1000000 <= d * 2 ^ 21 <= hi * 1000000 ->
  let x := f64_div (f64_of_Z d) (f64_of_Z 1000000) in
  finite64 x /\ lo * P (-21) <= fval x <= hi * P (-21).
Proof.
  intros Hd Hlo Hhi [B1 B2]. pose proof (P_pos (-21) ltac:(lia)) as P21.
  assert (P 0 = P (-21) * 2 ^ 21) as E by (rewrite (P_between (-21) 0) by lia; done).
  destruct (f64_of_Z_exact d Hd) as [Fd Vd].
  apply f64_div_within; [done|unfold exact_int; lia|lia|lia|lia|lia|lia|]. rewrite Vd, E. nia.
Qed.

Lemma latency_na res t :
  t < ClientSendTS (Source res) -> latency res t = "N/A"%string.
Proof.
  intros H. unfold latency. set (d := time_sub _ _).
  assert (min_int64 <= d < 0) as Hd by (unfold d, time_sub, min_int64, max_int64; lia).
  pose proof (P_pos 0 ltac:(lia)) as P0. pose proof (P_pos (-20) ltac:(lia)) as P20.
  assert (P 0 = P (-20) * 2 ^ 20) as E by (rewrite (P_between (-20) 0) by lia; done).
  assert (P 10 = P 0 * 2 ^ 10) as E10 by (rewrite (P_between 0 10) by lia; done).
  destruct (rounds_between _ _ _ (- 2 ^ 53 * P 10) (- 1 * P 0) (f64_of_Z_rounds d)) as [Fd Vd];
    [apply rep_mk; lia|apply rep_mk; lia|unfold min_int64 in Hd; nia|nia|].
  destruct (f64_of_Z_exact 1000000) as [Fm Vm]; [unfold exact_int; lia|].
  pose proof (f64_div_rounds _ _ Fd Fm) as R. rewrite Vm in R.
  rewrite Z.sgn_pos, Z.abs_eq in R by lia. specialize (R ltac:(lia)).
  destruct (rounds_between _ _ _ (- 2 ^ 53 * P 10) (- 1 * P (-20)) R) as [Fx Vx];
    [apply rep_mk; lia|apply rep_mk; lia|nia|nia|].
  destruct (f64_of_Z_exact 0) as [F0 V0]; [unfold exact_int; lia|].
  rewrite f64_lt_spec, V0 by done. destruct (Z.ltb_spec (fval (f64_div (f64_of_Z d) (f64_of_Z 1000000))) (0 * P 0));
    [done|lia].
Qed.

(** C31: the log of a response tells its latencies to the microsecond.  For every
    instant of less than 2^50 nanoseconds (13 days) after the request was sent,
    the printed number of milliseconds, read back in thousandths, is the elapsed
    time rounded to the nearest microsecond, in spite of two roundings in
    floating point; an instant before the request was sent, in particular one
    that was never set, is printed as "N/A". *)
Theorem latency_text_exact res t :
  (t < ClientSendTS (Source res) -> latency res t = "N/A"%string) /\
  (0 <= t - ClientSendTS (Source res) < 2 ^ 50 ->
   let n := read_digits 0 (latency res t) in
   0 <= n /\ 2 * Z.abs (1000 * n - (t - ClientSendTS (Source res))) <= 1000).
Proof.
  split; [apply latency_na|]. set (d := t - ClientSendTS (Source res)). intros Hd. unfold latency.
  replace (time_sub _ _) with d by (unfold d, time_sub, min_int64, max_int64 in *; lia).
  set (lo := d * 2 ^ 21 / 1000000). pose proof (Z.div_mod (d * 2 ^ 21) 1000000 ltac:(lia)) as D.
  pose proof (Z.mod_pos_bound (d * 2 ^ 21) 1000000 ltac:(lia)) as Mb. fold lo in D.
  destruct (div_million d lo (lo + 1)) as (F & L & U); [unfold exact_int; lia|lia|lia|lia|].
  set (x := f64_div (f64_of_Z d) (f64_of_Z 1000000)) in *.
  pose proof (P_pos (-21) ltac:(lia)) as P21.
  assert (P 0 = P (-21) * 2 ^ 21) as E by (rewrite (P_between (-21) 0) by lia; done).
  assert (0 <= lo) as Nl by (apply Z.div_pos; lia). assert (0 <= fval x) as Nx by nia.
  destruct (f64_of_Z_exact 0) as [F0 V0]; [unfold exact_int; lia|].
  rewrite f64_lt_spec, V0 by done. destruct (Z.ltb_spec (fval x) (0 * P 0)); [lia|]. cbv zeta.
  rewrite !read_digits_app. change (read_digits 0 "+"%string) with 0. rewrite read_fmt3 by done.
  change (read_digits ?a "ms"%string) with a. destruct (printed_near x F Nx) as [N1 N2]. split; [done|].
  set (n := printed x) in *. clearbody x n. rewrite E in N2.
  assert (- P (-21) * 2 ^ 21 <= 2 * (n * (P (-21) * 2 ^ 21) - 1000 * fval x) <= P (-21) * 2 ^ 21) as [N3 N4] by lia.
  assert ((2 * n - 1) * 2 ^ 21 <= 2000 * (lo + 1)) by nia.
  assert (2000 * lo <= (2 * n + 1) * 2 ^ 21) by nia.
  lia.
Qed.

(** [Summary] never panics: every status has a name. *)
Lemma Summary_total res : exists text, Summary res = Ret text.
Proof. unfold Summary. destruct (ResStatus res); simpl; eauto. Qed.

(** ** Witnesses *)

Definition demo_timed : Response :=
  mkResponse (mkRequest "ns/app-0/0" "ns/app" 5 (1000 * Second) (1000 * Second + 1500) zero_time (3 * Second / 2)
    (3 * Second / 2)) FAIL_DISPATCH (1002 * Second) (1002 * Second + 12345678) 0.

Example demo_timed_text :
  Summary demo_timed = Ret ("ID: ns/app-0/0, Func: ns/app, Status: FAIL_DISPATCH, TS: 1.500s, CSendReq: 1.500s, " +:+
    "GRecvReq: +0.002ms, GSendReq: N/A, GRecvRes: +2000.000ms, CRecvRes: +2012.346ms, Delay: +2000.000ms, " +:+
    "Runtime: 0.000/5ms" +:+ newline)%string.
Proof. vm_compute. reflexivity. Qed.

Lemma latency_text_exact_witness :
  latency demo_timed zero_time = "N/A"%string /\
  2 * Z.abs (1000 * read_digits 0 (latency demo_timed (1002 * Second + 12345678)) - 2012345678) <= 1000.
Proof.
  split.
  - apply (proj1 (latency_text_exact demo_timed zero_time)). reflexivity.
  - refine (proj2 (proj2 (latency_text_exact demo_timed (1002 * Second + 12345678)) _)).
    vm_compute. split; [discriminate|reflexivity].
Defined.
