(* ===== verification/Metric.v ===== *)
(** * Package [metric]: request statistics and their collection

    Models [pkg/autoscaler/metric/stats.go] ([RequestStats]: the concurrency of
    a target and its time integral since the last report) and [collector.go]
    ([Collector]: the periodic report, recorded into Knative's windows).  The
    instants that the code reads with [time.Now] are arguments.  The theorems
    relate the floating-point counters to an exact account of the requests. *)

From S2P Require Import Prelude GoTypes Float64 Float64Facts Interfaces Workload.

Local Open Scope Z_scope.

(** ** [RequestStats] *)

Record RequestStats : Type := mkStats {
  Key : string;
  concurrency : float64;
  concurrencyIntegral : float64;
  requestCount : float64;
  lastChange : Z;
  secondsInUse : float64
}.

Record RequestStatsReport : Type := mkReport {
  AverageConcurrency : float64;
  RequestCount : float64
}.

Definition NewRequestStats (key : string) : RequestStats :=
  mkStats key (f64_of_Z 0) (f64_of_Z 0) (f64_of_Z 0) zero_time (f64_of_Z 0).

Definition Move (s : RequestStats) (now : Z) : RequestStats :=
  if time_is_zero (lastChange s) then
    mkStats (Key s) (concurrency s) (concurrencyIntegral s) (requestCount s) now (secondsInUse s)
  else
    let durationSinceChange := time_sub now (lastChange s) in
    if 0 <? durationSinceChange then
      let durationSecs := dur_seconds durationSinceChange in
      mkStats (Key s) (concurrency s)
        (f64_add (concurrencyIntegral s) (f64_mul (concurrency s) durationSecs))
        (requestCount s) now (f64_add (secondsInUse s) durationSecs)
    else s.

Definition ReqIn (s : RequestStats) (now : Z) : float64 * RequestStats :=
  let s := Move s now in
  let c := f64_add (concurrency s) (f64_of_Z 1) in
  let s := mkStats (Key s) c (concurrencyIntegral s)
             (f64_add (requestCount s) (f64_of_Z 1)) (lastChange s) (secondsInUse s) in
  (c, s).

Definition ReqOut (s : RequestStats) (now : Z) : float64 * RequestStats :=
  let s := Move s now in
  let c := f64_sub (concurrency s) (f64_of_Z 1) in
  (c, mkStats (Key s) c (concurrencyIntegral s) (requestCount s) (lastChange s) (secondsInUse s)).

Definition reset (s : RequestStats) : RequestStats :=
  mkStats (Key s) (concurrency s) (f64_of_Z 0) (f64_of_Z 0) (lastChange s) (f64_of_Z 0).

(** The deferred [reset] runs after the report is filled in. *)
Definition Report (s : RequestStats) (now : Z) : RequestStatsReport * RequestStats :=
  let s := Move s now in
  let average :=
    if f64_lt (f64_of_Z 0) (secondsInUse s)
    then f64_div (concurrencyIntegral s) (secondsInUse s)
    else f64_of_Z 0 in
  (mkReport average (requestCount s), reset s).

Definition InstantConcurrency (s : RequestStats) : float64 := concurrency s.

(** ** [Collector] *)

Section collector.
Context {B : Type} `{TimedBucketsOps B}.

Record Collector : Type := mkCollector {
  stats : RequestStats;
  concurrencyBuckets : B;
  concurrencyPanicBuckets : B;
  requestCountBuckets : B;
  requestCountPanicBuckets : B;
  collectInterval : Z
}.

Definition NewCollector (key : string) (stableWindow panicWindow granularity : Z) : Collector :=
  mkCollector (NewRequestStats key)
    (tb_new stableWindow granularity) (tb_new panicWindow granularity)
    (tb_new stableWindow granularity) (tb_new panicWindow granularity) granularity.

Definition collect (c : Collector) (now : Z) : Collector :=
  let '(report, st) := Report (stats c) now in
  mkCollector st
    (tb_record (concurrencyBuckets c) now (AverageConcurrency report))
    (tb_record (concurrencyPanicBuckets c) now (AverageConcurrency report))
    (tb_record (requestCountBuckets c) now (RequestCount report))
    (tb_record (requestCountPanicBuckets c) now (RequestCount report))
    (collectInterval c).

Definition StableAndPanicConcurrency (c : Collector) (now : Z) : float64 * float64 :=
  (tb_average (concurrencyBuckets c) now, tb_average (concurrencyPanicBuckets c) now).

Definition StableAndPanicAndInstantConcurrency (c : Collector) (now : Z) :
    float64 * float64 * float64 :=
  (tb_average (concurrencyBuckets c) now, tb_average (concurrencyPanicBuckets c) now,
   InstantConcurrency (stats c)).

Definition StableAndPanicRequestCount (c : Collector) (now : Z) : float64 * float64 :=
  (tb_average (requestCountBuckets c) now, tb_average (requestCountPanicBuckets c) now).

(** [Run]: the loop body for a tick at [now], until the context is done. *)
Fixpoint collector_run (c : Collector) (ticks : list Z) : Collector :=
  match ticks with
  | [] => c
  | now :: rest => collector_run (collect c now) rest
  end.

Definition with_stats (c : Collector) (st : RequestStats) : Collector :=
  mkCollector st (concurrencyBuckets c) (concurrencyPanicBuckets c)
    (requestCountBuckets c) (requestCountPanicBuckets c) (collectInterval c).

End collector.

Arguments Collector B : clear implicits.

(** ** Counting requests exactly *)

(** The calls made on a [RequestStats], each with the instant it reads. *)
Inductive stat_event : Type :=
| EvIn (now : Z)
| EvOut (now : Z)
| EvReport (now : Z).

Definition stat_step (s : RequestStats) (ev : stat_event) : RequestStats :=
  match ev with
  | EvIn now => snd (ReqIn s now)
  | EvOut now => snd (ReqOut s now)
  | EvReport now => snd (Report s now)
  end.

Definition stat_run (s : RequestStats) (evs : list stat_event) : RequestStats :=
  fold_left stat_step evs s.

(** Requests in flight, and requests that came in since the last report. *)
Fixpoint in_flight (evs : list stat_event) : Z :=
  match evs with
  | [] => 0
  | EvIn _ :: evs' => 1 + in_flight evs'
  | EvOut _ :: evs' => -1 + in_flight evs'
  | EvReport _ :: evs' => in_flight evs'
  end.

Definition arrivals_step (n : Z) (ev : stat_event) : Z :=
  match ev with EvIn _ => n + 1 | EvOut _ => n | EvReport _ => 0 end.

Definition arrivals_since_report (evs : list stat_event) : Z := fold_left arrivals_step evs 0.

Lemma Move_concurrency s now :
  concurrency (Move s now) = concurrency s /\ requestCount (Move s now) = requestCount s.
Proof. unfold Move. by repeat case_match. Qed.

Lemma stat_run_counts s evs c n :
  concurrency s = f64_of_Z c -> requestCount s = f64_of_Z n -> 0 <= n ->
  Z.abs c + Z.of_nat (length evs) <= 2 ^ 53 -> n + Z.of_nat (length evs) <= 2 ^ 53 ->
  concurrency (stat_run s evs) = f64_of_Z (c + in_flight evs) /\
  requestCount (stat_run s evs) = f64_of_Z (fold_left arrivals_step evs n).
Proof.
  revert s c n. induction evs as [|ev evs IH]; intros s c n Hc Hn H0 Bc Bn; simpl.
  { by rewrite Z.add_0_r. }
  simpl length in *.
  destruct ev as [now|now|now]; simpl.
  - destruct (Move_concurrency s now) as [E1 E2].
    replace (c + (1 + in_flight evs)) with (c + 1 + in_flight evs) by lia.
    apply IH; simpl; try lia.
    + rewrite E1, Hc. apply f64_add_int; unfold exact_int; lia.
    + rewrite E2, Hn. apply f64_add_int; unfold exact_int; lia.
  - destruct (Move_concurrency s now) as [E1 E2].
    replace (c + (-1 + in_flight evs)) with (c - 1 + in_flight evs) by lia.
    apply IH; simpl; try lia.
    + rewrite E1, Hc. apply f64_sub_int; unfold exact_int; lia.
    + by rewrite E2, Hn.
  - destruct (Move_concurrency s now) as [E1 E2]. apply IH; simpl; try lia; [|done].
    by rewrite E1, Hc.
Qed.

(** C28: the floating-point counters count.  After any sequence of [ReqIn],
    [ReqOut] and [Report] calls (fewer than 2^53 of them), at any instants,
    [InstantConcurrency] is exactly the number of requests in flight and
    [requestCount] exactly the number of arrivals since the last report. *)
Theorem stats_count_exactly (key : string) (evs : list stat_event) :
  Z.of_nat (length evs) <= 2 ^ 53 ->
  InstantConcurrency (stat_run (NewRequestStats key) evs) = f64_of_Z (in_flight evs) /\
  requestCount (stat_run (NewRequestStats key) evs) = f64_of_Z (arrivals_since_report evs).
Proof. intros H. by apply (stat_run_counts (NewRequestStats key) evs 0 0). Qed.

Lemma stats_count_exactly_witness :
  InstantConcurrency (stat_run (NewRequestStats "ns/app") [EvIn 5; EvIn 7; EvReport 8; EvOut 9])
    = f64_of_Z 1.
Proof.
  exact (proj1 (stats_count_exactly "ns/app" [EvIn 5; EvIn 7; EvReport 8; EvOut 9]
    ltac:(simpl; lia))).
Defined.

(** ** The time average, exactly

    The abstract account keeps, in whole seconds and exact integers, what
    [RequestStats] keeps in floating point: the requests in flight, the
    arrivals, the area under the concurrency curve and the seconds covered
    since the last report. *)
Record account : Type := mkAccount {
  acc_flight : Z;
  acc_arrivals : Z;
  acc_area : Z;
  acc_secs : Z;
  acc_last : option Z
}.

Definition new_account : account := mkAccount 0 0 0 0 None.

Definition acc_move (a : account) (t : Z) : account :=
  match acc_last a with
  | None => mkAccount (acc_flight a) (acc_arrivals a) (acc_area a) (acc_secs a) (Some t)
  | Some l =>
      if l <? t then
        mkAccount (acc_flight a) (acc_arrivals a) (acc_area a + acc_flight a * (t - l))
          (acc_secs a + (t - l)) (Some t)
      else a
  end.

Definition acc_step (a : account) (ev : stat_event) : account :=
  match ev with
  | EvIn t =>
      let a := acc_move a t in
      mkAccount (acc_flight a + 1) (acc_arrivals a + 1) (acc_area a) (acc_secs a) (acc_last a)
  | EvOut t =>
      let a := acc_move a t in
      mkAccount (acc_flight a - 1) (acc_arrivals a) (acc_area a) (acc_secs a) (acc_last a)
  | EvReport t =>
      let a := acc_move a t in
      mkAccount (acc_flight a) 0 0 0 (acc_last a)
  end.

Definition ev_time (ev : stat_event) : Z :=
  match ev with EvIn t | EvOut t | EvReport t => t end.

(** The event of the code at the instant of [t] whole seconds. *)
Definition at_seconds (ev : stat_event) : stat_event :=
  match ev with
  | EvIn t => EvIn (t * Second)
  | EvOut t => EvOut (t * Second)
  | EvReport t => EvReport (t * Second)
  end.

(** The account fits: no more departures than arrivals, counters below 2^53,
    and gaps between events that fit a [time.Duration]. *)
Definition acc_fits (a : account) : bool :=
  (0 <=? acc_flight a) && (acc_flight a <? 2 ^ 53) &&
  (0 <=? acc_arrivals a) && (acc_arrivals a <? 2 ^ 53) &&
  (0 <=? acc_area a) && (acc_area a <=? 2 ^ 53) &&
  (0 <=? acc_secs a) && (acc_secs a <=? 2 ^ 53) &&
  match acc_last a with None => true | Some l => 0 <? l end.

Definition gap_fits (a : account) (t : Z) : bool :=
  (0 <? t) && match acc_last a with None => true | Some l => t - l <=? 9 * 10 ^ 9 end.

(** Every intermediate account of a run fits, also after the clock moved. *)
Fixpoint run_fits (a : account) (evs : list stat_event) : bool :=
  acc_fits a &&
  match evs with
  | [] => true
  | ev :: evs' =>
      gap_fits a (ev_time ev) && acc_fits (acc_move a (ev_time ev)) &&
      run_fits (acc_step a ev) evs'
  end.

(** What the code's state says about the account. *)
Record represents (s : RequestStats) (a : account) : Prop := {
  rep_flight : concurrency s = f64_of_Z (acc_flight a);
  rep_arrivals : requestCount s = f64_of_Z (acc_arrivals a);
  rep_area : concurrencyIntegral s = f64_of_Z (acc_area a);
  rep_secs : secondsInUse s = f64_of_Z (acc_secs a);
  rep_last : lastChange s = match acc_last a with None => 0 | Some l => l * Second end
}.

Lemma acc_fits_spec a :
  acc_fits a = true ->
  0 <= acc_flight a < 2 ^ 53 /\ 0 <= acc_arrivals a < 2 ^ 53 /\
  0 <= acc_area a <= 2 ^ 53 /\ 0 <= acc_secs a <= 2 ^ 53 /\
  match acc_last a with None => True | Some l => 0 < l end.
Proof. unfold acc_fits. rewrite !andb_true_iff, !Z.leb_le, !Z.ltb_lt.
  destruct (acc_last a); rewrite ?Z.ltb_lt; intuition lia. Qed.

Lemma Move_represents s a t :
  represents s a -> acc_fits a = true -> gap_fits a t = true ->
  acc_fits (acc_move a t) = true -> represents (Move s (t * Second)) (acc_move a t).
Proof.
  intros [Rf Ra Ri Rs Rl] Fa Fg Fm. apply acc_fits_spec in Fa, Fm.
  unfold gap_fits in Fg. apply andb_true_iff in Fg as [Ht Fg]. apply Z.ltb_lt in Ht.
  unfold Move, acc_move, time_is_zero in *. rewrite Rl.
  destruct (acc_last a) as [l|] eqn:El; [|by constructor].
  apply Z.leb_le in Fg. unfold Second in *.
  destruct (Z.eqb_spec (l * 1000000000) 0); [lia|].
  destruct (Z.ltb_spec l t) as [L|L]; simpl in Fm.
  - rewrite time_sub_exact by (unfold in_int64, min_int64, max_int64; lia).
    destruct (Z.ltb_spec 0 (t * 1000000000 - l * 1000000000)); [|lia].
    replace (t * 1000000000 - l * 1000000000) with ((t - l) * Second) by (unfold Second; lia).
    rewrite dur_seconds_whole by lia.
    constructor; simpl; try done.
    + rewrite Rf, Ri, f64_mul_int by (unfold exact_int; nia).
      apply f64_add_int; unfold exact_int; nia.
    + rewrite Rs. apply f64_add_int; unfold exact_int; lia.
  - destruct (Z.ltb_spec 0 (time_sub (t * 1000000000) (l * 1000000000))) as [C|C].
    + apply (proj1 (time_sub_pos _ _)) in C. lia.
    + constructor; try done. by rewrite El.
Qed.

Lemma stat_step_represents s a ev :
  represents s a -> acc_fits a = true -> gap_fits a (ev_time ev) = true ->
  acc_fits (acc_move a (ev_time ev)) = true ->
  represents (stat_step s (at_seconds ev)) (acc_step a ev).
Proof.
  intros R Fa Fg Fm. pose proof (Move_represents s a (ev_time ev) R Fa Fg Fm) as [Rf Ra Ri Rs Rl].
  apply acc_fits_spec in Fm.
  destruct ev as [t|t|t]; constructor; simpl in *; try done.
  - rewrite Rf. apply f64_add_int; unfold exact_int; lia.
  - rewrite Ra. apply f64_add_int; unfold exact_int; lia.
  - rewrite Rf. apply f64_sub_int; unfold exact_int; lia.
Qed.

Lemma run_represents evs s a :
  represents s a -> run_fits a evs = true ->
  represents (stat_run s (map at_seconds evs)) (fold_left acc_step evs a) /\
  acc_fits (fold_left acc_step evs a) = true.
Proof.
  revert s a. induction evs as [|ev evs IH]; intros s a R; cbn [run_fits].
  - rewrite andb_true_r. done.
  - rewrite !andb_true_iff. intros [Fa [[Fg Fm] Fr]].
    apply (IH (stat_step s (at_seconds ev)) (acc_step a ev)); [|done].
    by apply stat_step_represents.
Qed.

(** C27: the report of a window is the time average of the concurrency.  For
    events at whole seconds (and counters below 2^53), [RequestStats] refines
    the exact account, and [Report] returns the correctly rounded quotient of
    the area under the concurrency curve by the length of the window, or 0 for
    an empty window, then starts a new window. *)
Theorem report_is_time_average (key : string) (evs : list stat_event) (t : Z) :
  run_fits new_account evs = true ->
  let a := fold_left acc_step evs new_account in
  gap_fits a t = true -> acc_fits (acc_move a t) = true ->
  let s := stat_run (NewRequestStats key) (map at_seconds evs) in
  let a' := acc_move a t in
  fst (Report s (t * Second)) =
    mkReport (if 0 <? acc_secs a' then f64_div (f64_of_Z (acc_area a')) (f64_of_Z (acc_secs a'))
              else f64_of_Z 0)
             (f64_of_Z (acc_arrivals a')) /\
  represents (snd (Report s (t * Second))) (acc_step a (EvReport t)).
Proof.
  intros Hr a Hg Hm s a'.
  destruct (run_represents evs (NewRequestStats key) new_account) as [R F]; [by constructor|done|].
  split; [|by apply (stat_step_represents s a (EvReport t))].
  destruct (Move_represents s a t R F Hg Hm) as [Rf Ra Ri Rs Rl].
  apply acc_fits_spec in Hm. unfold Report. simpl. fold a' in Rf, Ra, Ri, Rs, Rl, Hm.
  rewrite Rs, Ri, Ra, f64_lt_int by (unfold exact_int; lia). done.
Qed.

Lemma report_is_time_average_witness :
  fst (Report (stat_run (NewRequestStats "ns/app")
         (map at_seconds [EvIn 10; EvIn 11; EvOut 14; EvReport 15])) (19 * Second))
    = mkReport (f64_div (f64_of_Z 4) (f64_of_Z 4)) (f64_of_Z 0).
Proof.
  exact (proj1 (report_is_time_average "ns/app" [EvIn 10; EvIn 11; EvOut 14; EvReport 15] 19
    eq_refl eq_refl eq_refl)).
Defined.
