(* ===== verification/Decider.v ===== *)
(** * Package [decider]: the KPA scaling decision

    Models [pkg/autoscaler/decider/kpa.go]: the decider of one target, its
    activation, and [Reconcile], which turns the windowed concurrency into a
    number of pods, with the panic mode and the scale-down delay of the Knative
    pod autoscaler.  The windows are interfaces; the arithmetic is [float64]. *)

From Stdlib Require Import Sorted.
From S2P Require Import Prelude GoTypes Float64 Float64Facts Interfaces Workload Metric.

Local Open Scope Z_scope.

Section kpa.
Context {B : Type} `{TimedBucketsOps B}.
Context {W : Type} `{TimeWindowOps W}.

Record KPADecider : Type := mkKPA {
  collector : Collector B;
  active : Z;
  targetValue : float64;
  maxScaleUpRate : float64;
  maxScaleDownRate : float64;
  stableWindow : Z;
  panicWindow : Z;
  panicThreshold : float64;
  delayWindow : option W;
  tickInterval : Z;
  panicTime : Z;
  maxPanicPods : Z;
  desiredScale : Z
}.

Definition NewKPADecider (key : string) (target upRate downRate : float64)
    (stableW panicW : Z) (threshold : float64) (scaleDownDelay tick : Z) : KPADecider :=
  mkKPA (NewCollector key stableW panicW Second) 0 target upRate downRate stableW panicW threshold
    (if 0 <? scaleDownDelay then Some (tw_new scaleDownDelay tick) else None)
    tick zero_time 0 0.

Definition with_collector (k : KPADecider) (c : Collector B) : KPADecider :=
  mkKPA c (active k) (targetValue k) (maxScaleUpRate k) (maxScaleDownRate k) (stableWindow k)
    (panicWindow k) (panicThreshold k) (delayWindow k) (tickInterval k) (panicTime k)
    (maxPanicPods k) (desiredScale k).

Definition with_active (k : KPADecider) (a : Z) : KPADecider :=
  mkKPA (collector k) a (targetValue k) (maxScaleUpRate k) (maxScaleDownRate k) (stableWindow k)
    (panicWindow k) (panicThreshold k) (delayWindow k) (tickInterval k) (panicTime k)
    (maxPanicPods k) (desiredScale k).

Definition with_decision (k : KPADecider) (dw : option W) (pt mp ds : Z) : KPADecider :=
  mkKPA (collector k) (active k) (targetValue k) (maxScaleUpRate k) (maxScaleDownRate k)
    (stableWindow k) (panicWindow k) (panicThreshold k) dw (tickInterval k) pt mp ds.

(** The embedded collector's [ReqIn] and [ReqOut]. *)
Definition decider_ReqIn (k : KPADecider) (now : Z) : float64 * KPADecider :=
  let '(c, st) := ReqIn (stats (collector k)) now in
  (c, with_collector k (with_stats (collector k) st)).

Definition decider_ReqOut (k : KPADecider) (now : Z) : float64 * KPADecider :=
  let '(c, st) := ReqOut (stats (collector k)) now in
  (c, with_collector k (with_stats (collector k) st)).

(** [Activate]: a compare-and-swap; the caller that wins starts the collector. *)
Definition Activate (k : KPADecider) : bool * KPADecider :=
  if active k =? 0 then (true, with_active k 1) else (false, k).

(** The number of ready pods, 1 if there is none. *)
Definition ready_or_one (currentReady : Z) : Z :=
  f64_to_int64 (f64_max (f64_of_Z 1) (f64_of_Z currentReady)).

(** The upper and lower bound of one decision. *)
Definition scale_bounds (k : KPADecider) (isScalingFromZero : bool) (instant : float64)
    (currentReady : Z) : float64 * float64 :=
  let up := f64_ceil (f64_mul (maxScaleUpRate k) (f64_of_Z currentReady)) in
  let low := f64_floor (f64_div (f64_of_Z currentReady) (maxScaleDownRate k)) in
  if isScalingFromZero && f64_lt (f64_of_Z 0) instant
  then (f64_max up (f64_of_Z 1), f64_max low (f64_of_Z 1))
  else (up, low).

(** [int(math.Min(math.Max(pods, lowerbound), upperbound))]. *)
Definition clamp_count (pods lowerbound upperbound : float64) : Z :=
  f64_to_int64 (f64_min (f64_max pods lowerbound) upperbound).

(** Entering, extending and leaving the panic mode. *)
Definition panic_transition (k : KPADecider) (now : Z) (isOverPanicThreshold : bool) : Z * Z :=
  if time_is_zero (panicTime k) && isOverPanicThreshold then (now, maxPanicPods k)
  else if isOverPanicThreshold then (now, maxPanicPods k)
  else if negb (time_is_zero (panicTime k)) && negb isOverPanicThreshold
            && time_before (time_add (panicTime k) (stableWindow k)) now
  then (zero_time, 0)
  else (panicTime k, maxPanicPods k).

(** The pod count of the mode, and the new maximum of the panic mode. *)
Definition mode_count (pt mp desiredStable desiredPanic : Z) : Z * Z :=
  if negb (time_is_zero pt) then
    let desired := if desiredStable <? desiredPanic then desiredPanic else desiredStable in
    let mp := if mp <? desired then desired else mp in
    (mp, mp)
  else (desiredStable, mp).

Definition apply_delay (dw : option W) (now desired : Z) : Z * option W :=
  match dw with
  | None => (desired, None)
  | Some w =>
      let w := tw_record w now (int32_of desired) in
      (tw_current w, Some w)
  end.

(** The error result of [Reconcile] is always nil. *)
Definition Reconcile (k : KPADecider) (now currentReady : Z) : Z * KPADecider :=
  let '(observedStable, observedPanic, observedInstant) :=
    StableAndPanicAndInstantConcurrency (collector k) now in
  let isScalingFromZero := currentReady =? 0 in
  let currentReady := ready_or_one currentReady in
  let '(upperbound, lowerbound) :=
    scale_bounds k isScalingFromZero observedInstant currentReady in
  let dspc := f64_ceil (f64_div observedStable (targetValue k)) in
  let dppc := f64_ceil (f64_div observedPanic (targetValue k)) in
  let desiredStable := clamp_count dspc lowerbound upperbound in
  let desiredPanic := clamp_count dppc lowerbound upperbound in
  let isOver := f64_le (panicThreshold k) (f64_div dppc (f64_of_Z currentReady)) in
  let '(pt, mp) := panic_transition k now isOver in
  let '(desired, mp) := mode_count pt mp desiredStable desiredPanic in
  let '(desired, dw) := apply_delay (delayWindow k) now desired in
  (desired, with_decision k dw pt mp (int32_of desired)).

Definition Desired (k : KPADecider) : Z := desiredScale k.

(** A tick of the running collector. *)
Definition decider_collect (k : KPADecider) (now : Z) : KPADecider :=
  with_collector k (collect (collector k) now).

End kpa.

Arguments KPADecider B W : clear implicits.

(** ** The decision, named piece by piece *)

Section facts.
Context {B : Type} `{TimedBucketsOps B}.
Context {W : Type} `{TimeWindowOps W}.
Implicit Types k : KPADecider B W.

Definition observed_stable k now : float64 := tb_average (concurrencyBuckets (collector k)) now.

Definition observed_panic k now : float64 :=
  tb_average (concurrencyPanicBuckets (collector k)) now.

Definition decision_bounds k (ready : Z) : float64 * float64 :=
  scale_bounds k (ready =? 0) (InstantConcurrency (stats (collector k))) (ready_or_one ready).

(** The clamped pod counts of the two windows. *)
Definition stable_count k now ready : Z :=
  clamp_count (f64_ceil (f64_div (observed_stable k now) (targetValue k)))
    (snd (decision_bounds k ready)) (fst (decision_bounds k ready)).

Definition panic_count k now ready : Z :=
  clamp_count (f64_ceil (f64_div (observed_panic k now) (targetValue k)))
    (snd (decision_bounds k ready)) (fst (decision_bounds k ready)).

Definition over_threshold k now ready : bool :=
  f64_le (panicThreshold k)
    (f64_div (f64_ceil (f64_div (observed_panic k now) (targetValue k)))
       (f64_of_Z (ready_or_one ready))).

(** The count before the scale-down delay, and the new panic state. *)
Definition undelayed k now ready : Z * Z :=
  let '(pt, mp) := panic_transition k now (over_threshold k now ready) in
  mode_count pt mp (stable_count k now ready) (panic_count k now ready).

Definition next_panic_time k now ready : Z :=
  fst (panic_transition k now (over_threshold k now ready)).

Lemma Reconcile_eq k now ready :
  Reconcile k now ready =
    let '(desired, dw) := apply_delay (delayWindow k) now (fst (undelayed k now ready)) in
    (desired, with_decision k dw (next_panic_time k now ready) (snd (undelayed k now ready))
                (int32_of desired)).
Proof.
  unfold Reconcile, undelayed, next_panic_time, over_threshold, stable_count, panic_count,
    decision_bounds. simpl.
  destruct (scale_bounds _ _ _ _) as [up low]. simpl.
  destruct (panic_transition _ _ _) as [pt mp]. simpl.
  destruct (mode_count _ _ _ _) as [d mp']. simpl. by destruct (apply_delay _ _ _).
Qed.

Lemma panic_transition_time k now over :
  fst (panic_transition k now over) =
    if over then now
    else if decide (panicTime k <> 0 /\ panicTime k + stableWindow k < now) then 0
    else panicTime k.
Proof.
  unfold panic_transition, time_is_zero, time_before, time_add, zero_time.
  destruct over; rewrite ?andb_true_r, ?andb_false_r; simpl.
  - by destruct (panicTime k =? 0).
  - destruct (decide _); destruct (Z.eqb_spec (panicTime k) 0),
      (Z.ltb_spec (panicTime k + stableWindow k) now); simpl; try done; lia.
Qed.

Lemma panic_transition_pods k now over :
  (panicTime k = 0 -> maxPanicPods k = 0) -> now <> 0 ->
  snd (panic_transition k now over) =
    if decide (fst (panic_transition k now over) = 0) then 0 else maxPanicPods k.
Proof.
  unfold panic_transition, time_is_zero, zero_time. intros Hi Hn.
  destruct over; rewrite ?andb_true_r, ?andb_false_r; simpl.
  - destruct (panicTime k =? 0); simpl; by case_decide.
  - destruct (Z.eqb_spec (panicTime k) 0) as [E|E], (time_before _ _); simpl;
      repeat case_decide; auto; done.
Qed.

Lemma mode_count_spec pt mp s p :
  mode_count pt mp s p =
    if decide (pt = 0) then (s, mp) else (Z.max mp (Z.max s p), Z.max mp (Z.max s p)).
Proof.
  unfold mode_count, time_is_zero.
  destruct (Z.eqb_spec pt 0); case_decide; try done; simpl.
  destruct (Z.ltb_spec s p).
  - destruct (Z.ltb_spec mp p); f_equal; lia.
  - destruct (Z.ltb_spec mp s); f_equal; lia.
Qed.

(** ** The events of a decider *)

Inductive kpa_event : Type :=
| KReqIn (now : Z)
| KReqOut (now : Z)
| KActivate
| KCollect (now : Z)
| KReconcile (now ready : Z).

Definition kpa_apply k (ev : kpa_event) : KPADecider B W :=
  match ev with
  | KReqIn now => snd (decider_ReqIn k now)
  | KReqOut now => snd (decider_ReqOut k now)
  | KActivate => snd (Activate k)
  | KCollect now => decider_collect k now
  | KReconcile now ready => snd (Reconcile k now ready)
  end.

(** Reconciliations happen after the zero time. *)
Definition ev_after_zero (ev : kpa_event) : Prop :=
  match ev with KReconcile now _ => 0 < now | _ => True end.

Inductive kpa_reach (k0 : KPADecider B W) : KPADecider B W -> Prop :=
| kpa_start : kpa_reach k0 k0
| kpa_event_step k ev :
    kpa_reach k0 k -> ev_after_zero ev -> kpa_reach k0 (kpa_apply k ev).

Record kpa_inv k : Prop := {
  inv_calm : panicTime k = 0 -> maxPanicPods k = 0;
  inv_active : active k = 0 \/ active k = 1;
  inv_desired : in_int32 (desiredScale k);
  inv_panic_time : 0 <= panicTime k
}.

Lemma reconcile_state k now ready :
  panicTime (snd (Reconcile k now ready)) = next_panic_time k now ready /\
  maxPanicPods (snd (Reconcile k now ready)) = snd (undelayed k now ready) /\
  active (snd (Reconcile k now ready)) = active k /\
  collector (snd (Reconcile k now ready)) = collector k /\
  desiredScale (snd (Reconcile k now ready)) = int32_of (fst (Reconcile k now ready)).
Proof. rewrite Reconcile_eq. by destruct (apply_delay _ _ _). Qed.

Lemma undelayed_spec k now ready :
  kpa_inv k -> 0 < now ->
  let pt := next_panic_time k now ready in
  let s := stable_count k now ready in
  let p := panic_count k now ready in
  undelayed k now ready =
    if decide (pt = 0) then (s, 0)
    else (Z.max (maxPanicPods k) (Z.max s p), Z.max (maxPanicPods k) (Z.max s p)).
Proof.
  intros [Hc _ _ _] Hn. unfold next_panic_time, undelayed.
  pose proof (panic_transition_pods k now (over_threshold k now ready) Hc ltac:(lia)) as Hp.
  destruct (panic_transition _ _ _) as [pt mp]. simpl in *. rewrite mode_count_spec, Hp.
  by case_decide.
Qed.

Lemma kpa_inv_apply k ev : kpa_inv k -> ev_after_zero ev -> kpa_inv (kpa_apply k ev).
Proof.
  intros I Hev. pose proof I as [Hc Ha Hd Hp]. destruct ev as [now|now| |now|now ready].
  - by constructor.
  - by constructor.
  - unfold kpa_apply, Activate. destruct (Z.eqb_spec (active k) 0); constructor; simpl; auto.
  - by constructor.
  - simpl in Hev. destruct (reconcile_state k now ready) as (E1 & E2 & E3 & _ & E5).
    constructor; simpl.
    + rewrite E1, E2, undelayed_spec by done. intros ->. by case_decide.
    + by rewrite E3.
    + rewrite E5. auto with kd.
    + rewrite E1. unfold next_panic_time. rewrite panic_transition_time.
      repeat case_match; lia.
Qed.

Lemma kpa_reach_inv k0 k : kpa_inv k0 -> kpa_reach k0 k -> kpa_inv k.
Proof. induction 2; auto using kpa_inv_apply. Qed.

Lemma new_kpa_inv key target up down sw pw th delay tick :
  kpa_inv (NewKPADecider key target up down sw pw th delay tick : KPADecider B W).
Proof. constructor; simpl; auto; done. Qed.

(** C23: invariant of every reachable decider state.  Whatever requests, ticks
    and reconciliations interleave, a decider that is not panicking remembers
    no panic maximum, its activation flag is 0 or 1 and its published decision
    is a 32-bit integer. *)
Theorem kpa_reachable_invariant key target up down sw pw th delay tick k :
  kpa_reach (NewKPADecider key target up down sw pw th delay tick) k -> kpa_inv k.
Proof. apply kpa_reach_inv, new_kpa_inv. Qed.

(** The panic mode.  A reconciliation leaves the decider panicking exactly
    when the panic window is over the threshold, or it was panicking and the
    stable window since the last such observation has not passed; being over
    the threshold restarts that clock. *)
Theorem panic_lifecycle k now ready :
  0 < now ->
  let k' := snd (Reconcile k now ready) in
  (panicTime k' <> 0 <->
     over_threshold k now ready = true \/
     (panicTime k <> 0 /\ now <= panicTime k + stableWindow k)) /\
  (over_threshold k now ready = true -> panicTime k' = now) /\
  (over_threshold k now ready = false -> panicTime k' <> 0 -> panicTime k' = panicTime k).
Proof.
  intros Hn k'. destruct (reconcile_state k now ready) as (E & _). subst k'. rewrite E.
  unfold next_panic_time. rewrite panic_transition_time.
  destruct (over_threshold k now ready); [intuition lia|].
  case_decide; intuition lia.
Qed.

(** ** No scale-down in panic mode *)

Fixpoint kpa_outputs k (evs : list kpa_event) : list Z :=
  match evs with
  | [] => []
  | ev :: evs' =>
      match ev with KReconcile now ready => [fst (Reconcile k now ready)] | _ => [] end
      ++ kpa_outputs (kpa_apply k ev) evs'
  end.

Fixpoint panicking_throughout k (evs : list kpa_event) : Prop :=
  match evs with
  | [] => True
  | ev :: evs' =>
      match ev with KReconcile _ _ => panicTime (kpa_apply k ev) <> 0 | _ => True end
      /\ panicking_throughout (kpa_apply k ev) evs'
  end.

Lemma kpa_apply_delay k ev : delayWindow k = None -> delayWindow (kpa_apply k ev) = None.
Proof.
  intros E. destruct ev; simpl; try done.
  - unfold Activate. by destruct (active k =? 0).
  - rewrite Reconcile_eq, E. done.
Qed.

Lemma panic_reconcile k now ready :
  kpa_inv k -> 0 < now -> delayWindow k = None ->
  panicTime (snd (Reconcile k now ready)) <> 0 ->
  fst (Reconcile k now ready) = maxPanicPods (snd (Reconcile k now ready)) /\
  maxPanicPods k <= maxPanicPods (snd (Reconcile k now ready)).
Proof.
  intros I Hn Hd. destruct (reconcile_state k now ready) as (E1 & E2 & _). rewrite E1, E2.
  intros Hp. rewrite Reconcile_eq, Hd, undelayed_spec by done. simpl.
  case_decide; [done|]. simpl. lia.
Qed.

Lemma kpa_apply_max k ev :
  (forall now ready, ev <> KReconcile now ready) -> maxPanicPods (kpa_apply k ev) = maxPanicPods k.
Proof.
  intros Hne. destruct ev as [| | | |now ready]; try done.
  - simpl. unfold Activate. by destruct (active k =? 0).
  - by destruct (Hne now ready).
Qed.

Lemma panic_outputs_bounded k evs :
  kpa_inv k -> delayWindow k = None -> Forall ev_after_zero evs ->
  panicking_throughout k evs ->
  Forall (fun d => maxPanicPods k <= d) (kpa_outputs k evs) /\
  StronglySorted Z.le (kpa_outputs k evs).
Proof.
  revert k. induction evs as [|ev evs IH]; intros k I Hd Hz Hp; [by repeat constructor|].
  inversion Hz as [|?? Hev Hz']; subst. destruct Hp as [Hp Hps].
  destruct (IH (kpa_apply k ev)) as [F S]; auto using kpa_inv_apply, kpa_apply_delay.
  destruct ev as [| | | |now ready]; cbn [kpa_outputs].
  1-4: rewrite kpa_apply_max in F by done; done.
  destruct (panic_reconcile k now ready I Hev Hd Hp) as [E L].
  rewrite E. simpl in F |- *. split.
  - constructor; [done|]. eapply Forall_impl; [exact F|]. simpl. lia.
  - by constructor.
Qed.

(** C22: no scale-down in panic mode.  As long as a decider without scale-down
    delay is panicking, the decisions of its successive reconciliations never
    decrease, whatever requests, collections and activations come in
    between, and none is below the maximum it started with. *)
Theorem panic_never_scales_down key target up down sw pw th tick k evs :
  kpa_reach (NewKPADecider key target up down sw pw th 0 tick) k ->
  Forall ev_after_zero evs -> panicking_throughout k evs ->
  StronglySorted Z.le (kpa_outputs k evs) /\
  Forall (fun d => maxPanicPods k <= d) (kpa_outputs k evs).
Proof.
  intros R Hz Hp.
  assert (delayWindow k = None) as Hd.
  { clear Hp Hz. induction R as [|k ev R IH]; [done|]. by apply kpa_apply_delay. }
  apply and_comm. apply panic_outputs_bounded; try done.
  eapply kpa_reach_inv; [apply new_kpa_inv|exact R].
Qed.

(** ** The decision in integers *)

Lemma clamp_count_spec x l u X L U :
  finite64 x -> finite64 l -> finite64 u ->
  fval x = X * P 0 -> fval l = L * P 0 -> fval u = U * P 0 ->
  in_int64 (Z.min (Z.max X L) U) -> clamp_count x l u = Z.min (Z.max X L) U.
Proof.
  intros Fx Fl Fu Ex El Eu R. pose proof (P_pos 0 ltac:(lia)). unfold clamp_count.
  destruct (f64_max_spec x l Fx Fl) as [Fm Em].
  destruct (f64_min_spec (f64_max x l) u Fm Fu) as [Fn En].
  apply f64_to_int64_integral; try done. rewrite En, Em, Ex, El, Eu.
  rewrite Z.mul_max_distr_nonneg_r, Z.mul_min_distr_nonneg_r by lia. done.
Qed.

Lemma ready_or_one_spec ready :
  0 <= ready <= 2 ^ 53 -> ready_or_one ready = Z.max 1 ready.
Proof.
  intros Hr. unfold ready_or_one.
  destruct (f64_of_Z_exact 1) as [F1 E1]; [done|].
  destruct (f64_of_Z_exact ready) as [Fr Er]; [unfold exact_int; lia|].
  destruct (f64_max_spec _ _ F1 Fr) as [Fm Em]. pose proof (P_pos 0 ltac:(lia)).
  apply f64_to_int64_integral; [done| |unfold in_int64, min_int64, max_int64; lia].
  rewrite Em, E1, Er, Z.mul_max_distr_nonneg_r by lia. done.
Qed.

(** The quotients and products of a decision do not overflow, the observed
    concurrencies are non-negative and the upper bound fits 31 bits. *)
Record decision_finite k (now ready : Z) : Prop := {
  df_ready : 0 <= ready < 2 ^ 31;
  df_up : finite64 (f64_mul (maxScaleUpRate k) (f64_of_Z (Z.max 1 ready)));
  df_low : finite64 (f64_div (f64_of_Z (Z.max 1 ready)) (maxScaleDownRate k));
  df_stable : finite64 (f64_div (observed_stable k now) (targetValue k));
  df_panic : finite64 (f64_div (observed_panic k now) (targetValue k));
  df_stable_nonneg : 0 <= zceil (f64_div (observed_stable k now) (targetValue k));
  df_panic_nonneg : 0 <= zceil (f64_div (observed_panic k now) (targetValue k));
  df_up_range : 0 <= zceil (f64_mul (maxScaleUpRate k) (f64_of_Z (Z.max 1 ready))) < 2 ^ 31
}.

(** The bounds as integers: at most [rate] times, at least [1/rate] times the
    ready pods, and both at least 1 when a request waits at scale zero. *)
Definition integer_bounds k (ready : Z) : Z * Z :=
  let U := zceil (f64_mul (maxScaleUpRate k) (f64_of_Z (Z.max 1 ready))) in
  let L := zfloor (f64_div (f64_of_Z (Z.max 1 ready)) (maxScaleDownRate k)) in
  if (ready =? 0) && f64_lt (f64_of_Z 0) (InstantConcurrency (stats (collector k)))
  then (Z.max U 1, Z.max L 1) else (U, L).

Definition integer_clamp k (ready pods : Z) : Z :=
  Z.min (Z.max pods (snd (integer_bounds k ready))) (fst (integer_bounds k ready)).

Lemma decision_bounds_spec k now ready :
  decision_finite k now ready ->
  finite64 (fst (decision_bounds k ready)) /\
  fval (fst (decision_bounds k ready)) = fst (integer_bounds k ready) * P 0 /\
  finite64 (snd (decision_bounds k ready)) /\
  fval (snd (decision_bounds k ready)) = snd (integer_bounds k ready) * P 0 /\
  0 <= fst (integer_bounds k ready) < 2 ^ 31.
Proof.
  intros [Hr Fu Fl _ _ _ _ Hu]. unfold decision_bounds, integer_bounds, scale_bounds.
  rewrite ready_or_one_spec by lia. pose proof (P_pos 0 ltac:(lia)).
  destruct (f64_ceil_spec _ Fu) as [Fc Ec]. destruct (f64_floor_spec _ Fl) as [Ff Ef].
  destruct (f64_of_Z_exact 1) as [F1 E1]; [done|].
  destruct (_ && _); simpl; [|repeat split; try done; lia].
  destruct (f64_max_spec _ _ Fc F1) as [? E]. destruct (f64_max_spec _ _ Ff F1) as [? E'].
  rewrite E, E', Ec, Ef, E1, !Z.mul_max_distr_nonneg_r by lia.
  repeat split; try done; lia.
Qed.

Lemma count_spec k now ready x :
  decision_finite k now ready -> finite64 x -> 0 <= zceil x ->
  clamp_count (f64_ceil x) (snd (decision_bounds k ready)) (fst (decision_bounds k ready)) =
    integer_clamp k ready (zceil x) /\
  0 <= integer_clamp k ready (zceil x) < 2 ^ 31.
Proof.
  intros D Fx Hx. destruct (decision_bounds_spec k now ready D) as (F1 & E1 & F2 & E2 & Hb).
  destruct (f64_ceil_spec x Fx) as [Fc Ec]. unfold integer_clamp.
  assert (0 <= Z.min (Z.max (zceil x) (snd (integer_bounds k ready)))
            (fst (integer_bounds k ready)) < 2 ^ 31) by lia.
  split; [|done]. apply clamp_count_spec; try done.
  unfold in_int64, min_int64, max_int64. lia.
Qed.

(** The pod count that one window asks for. *)
Definition pods_for k (observed : float64) (ready : Z) : Z :=
  integer_clamp k ready (zceil (f64_div observed (targetValue k))).

(** Before the delay: the count, and the new panic maximum. *)
Lemma undelayed_decision k now ready :
  kpa_inv k -> 0 < now -> decision_finite k now ready ->
  undelayed k now ready =
    let s := pods_for k (observed_stable k now) ready in
    let p := pods_for k (observed_panic k now) ready in
    if decide (next_panic_time k now ready = 0) then (s, 0)
    else (Z.max (maxPanicPods k) (Z.max s p), Z.max (maxPanicPods k) (Z.max s p)).
Proof.
  intros I Hn D. rewrite undelayed_spec by done.
  unfold stable_count, panic_count, pods_for.
  rewrite (proj1 (count_spec k now ready _ D (df_stable _ _ _ D) (df_stable_nonneg _ _ _ D))).
  by rewrite (proj1 (count_spec k now ready _ D (df_panic _ _ _ D) (df_panic_nonneg _ _ _ D))).
Qed.

(** C12: the floating-point decision is the integer one.  Without scale-down
    delay, [Reconcile] returns the ceiling of the observed concurrency over the
    target, clamped between the scale-down and the scale-up bound; in panic
    mode the larger of the two windows' counts and of the panic maximum. *)
Theorem reconcile_decision k now ready :
  kpa_inv k -> 0 < now -> delayWindow k = None -> decision_finite k now ready ->
  fst (Reconcile k now ready) =
    if decide (panicTime (snd (Reconcile k now ready)) = 0)
    then pods_for k (observed_stable k now) ready
    else Z.max (maxPanicPods k)
           (Z.max (pods_for k (observed_stable k now) ready)
                  (pods_for k (observed_panic k now) ready)).
Proof.
  intros I Hn Hd D. destruct (reconcile_state k now ready) as (E1 & _). rewrite E1.
  rewrite Reconcile_eq, Hd. simpl. rewrite undelayed_decision by done. by case_decide.
Qed.

Lemma integer_clamp_from_zero k pods :
  f64_lt (f64_of_Z 0) (InstantConcurrency (stats (collector k))) = true ->
  1 <= integer_clamp k 0 pods.
Proof. intros H1. unfold integer_clamp, integer_bounds. rewrite H1. simpl. lia. Qed.

Context `{!TimeWindowLaws W}.

Lemma from_zero_range k now :
  kpa_inv k -> 0 < now -> decision_finite k now 0 -> maxPanicPods k < 2 ^ 31 ->
  f64_lt (f64_of_Z 0) (InstantConcurrency (stats (collector k))) = true ->
  1 <= fst (Reconcile k now 0) < 2 ^ 31.
Proof.
  intros I Hn D Hm Hc. rewrite Reconcile_eq, undelayed_spec by done.
  unfold stable_count, panic_count.
  destruct (count_spec k now 0 _ D (df_stable _ _ _ D) (df_stable_nonneg _ _ _ D)) as [-> Hs].
  destruct (count_spec k now 0 _ D (df_panic _ _ _ D) (df_panic_nonneg _ _ _ D)) as [-> Hp].
  pose proof (integer_clamp_from_zero k (zceil (f64_div (observed_stable k now) (targetValue k))) Hc).
  match goal with |- 1 <= fst (let '(_, _) := apply_delay _ _ (fst ?r) in _) < _ =>
    assert (1 <= fst r < 2 ^ 31) as Hd by (case_decide; simpl; lia) end.
  unfold apply_delay. destruct (delayWindow k) as [w|]; simpl; [|lia].
  rewrite int32_of_id by (unfold in_int32; lia). split; [|apply tw_current_int32].
  etransitivity; [|apply tw_current_ge; unfold in_int32; lia]. lia.
Qed.

(** Scaling from zero.  When no pod is ready and a request is in flight,
    [Reconcile] asks for at least one pod (and a number that fits 32 bits), in
    stable and panic mode and with or without a scale-down delay. *)
Theorem scale_from_zero k now :
  kpa_inv k -> 0 < now -> decision_finite k now 0 -> maxPanicPods k < 2 ^ 31 ->
  f64_lt (f64_of_Z 0) (InstantConcurrency (stats (collector k))) = true ->
  1 <= fst (Reconcile k now 0) < 2 ^ 31 /\
  Desired (snd (Reconcile k now 0)) = fst (Reconcile k now 0).
Proof.
  intros I Hn D Hm Hc. pose proof (from_zero_range k now I Hn D Hm Hc) as R. split; [done|].
  destruct (reconcile_state k now 0) as (_ & _ & _ & _ & E). unfold Desired.
  rewrite E. apply int32_of_id. unfold in_int32. lia.
Qed.

(** The scale-down delay only delays scale-downs.  The decision of a
    decider with a delay window is at least the one it would take without,
    for every decision that fits 32 bits. *)
Theorem delay_never_lowers k now ready :
  in_int32 (fst (undelayed k now ready)) ->
  fst (undelayed k now ready) <= fst (Reconcile k now ready) /\
  (delayWindow k = None -> fst (Reconcile k now ready) = fst (undelayed k now ready)) /\
  Desired (snd (Reconcile k now ready)) = int32_of (fst (Reconcile k now ready)).
Proof.
  intros Hd. rewrite Reconcile_eq. unfold apply_delay.
  destruct (delayWindow k) as [w|]; simpl; [|done].
  rewrite int32_of_id by done. split; [by apply tw_current_ge|done].
Qed.

End facts.

(** ** Witnesses *)

(** A decider with target 10, rates 1000 and 2, a 60 s stable and a 6 s panic
    window and a threshold of 2, over buckets that keep the last value. *)
Definition demo_kpa (delay : Z) : KPADecider float64 (Z * list (Z * Z)) :=
  NewKPADecider "ns/app" (f64_of_Z 10) (f64_of_Z 1000) (f64_of_Z 2)
    (60 * Second) (6 * Second) (f64_of_Z 2) delay (2 * Second).

(** The same after a request came in. *)
Definition demo_kpa_busy (delay : Z) : KPADecider float64 (Z * list (Z * Z)) :=
  kpa_apply (demo_kpa delay) (KReqIn (100 * Second)).

(** The same with observed concurrencies of 50 in both windows. *)
Definition demo_kpa_surge : KPADecider float64 (Z * list (Z * Z)) :=
  with_collector (demo_kpa 0)
    (mkCollector (stats (collector (demo_kpa 0))) (f64_of_Z 50) (f64_of_Z 50)
       (f64_of_Z 0) (f64_of_Z 0) Second).

Lemma kpa_reachable_invariant_witness :
  kpa_inv (kpa_apply (demo_kpa_busy 0) (KReconcile (101 * Second) 0)).
Proof.
  apply (kpa_reachable_invariant "ns/app" (f64_of_Z 10) (f64_of_Z 1000) (f64_of_Z 2)
    (60 * Second) (6 * Second) (f64_of_Z 2) 0 (2 * Second)).
  apply kpa_event_step; [apply kpa_event_step; [apply kpa_start|exact I]|reflexivity].
Defined.

Lemma panic_lifecycle_witness :
  over_threshold demo_kpa_surge (101 * Second) 1 = true /\
  panicTime (snd (Reconcile demo_kpa_surge (101 * Second) 1)) = 101 * Second.
Proof.
  split; [reflexivity|].
  exact (proj1 (proj2 (panic_lifecycle demo_kpa_surge (101 * Second) 1 eq_refl)) eq_refl).
Defined.

(** Thirty requests in the first second, a surge, then all but one leave. *)
Definition demo_surge_events : list kpa_event :=
  replicate 30 (KReqIn (100 * Second)) ++
  [KCollect (101 * Second); KReconcile (101 * Second) 1] ++
  replicate 29 (KReqOut (102 * Second)) ++
  [KCollect (103 * Second); KReconcile (103 * Second) 3].

Lemma panic_never_scales_down_witness :
  kpa_outputs (demo_kpa 0) demo_surge_events = [3; 3] /\
  StronglySorted Z.le (kpa_outputs (demo_kpa 0) demo_surge_events).
Proof.
  split; [vm_compute; reflexivity|].
  refine (proj1 (panic_never_scales_down "ns/app" (f64_of_Z 10) (f64_of_Z 1000) (f64_of_Z 2)
    (60 * Second) (6 * Second) (f64_of_Z 2) (2 * Second) (demo_kpa 0) demo_surge_events
    (kpa_start _) _ _)).
  - repeat constructor.
  - vm_compute. repeat split; discriminate.
Defined.

Lemma demo_surge_finite : decision_finite demo_kpa_surge (101 * Second) 1.
Proof.
  constructor; try reflexivity; try lia.
  - change (0 <= zceil (f64_of_Z 5)). rewrite zceil_of_Z by done. lia.
  - change (0 <= zceil (f64_of_Z 5)). rewrite zceil_of_Z by done. lia.
  - change (0 <= zceil (f64_of_Z 1000) < 2 ^ 31). rewrite zceil_of_Z by done. lia.
Qed.

Lemma reconcile_decision_witness :
  fst (Reconcile demo_kpa_surge (101 * Second) 1) = 5 /\
  fst (Reconcile demo_kpa_surge (101 * Second) 1) =
    Z.max (maxPanicPods demo_kpa_surge)
      (Z.max (pods_for demo_kpa_surge (observed_stable demo_kpa_surge (101 * Second)) 1)
             (pods_for demo_kpa_surge (observed_panic demo_kpa_surge (101 * Second)) 1)).
Proof.
  split; [vm_compute; reflexivity|].
  assert (kpa_inv demo_kpa_surge) as I
    by (constructor; simpl; [reflexivity|left; reflexivity|split; [discriminate|reflexivity]|discriminate]).
  assert (panicTime (snd (Reconcile demo_kpa_surge (101 * Second) 1)) <> zero_time) as N
    by (vm_compute; discriminate).
  pose proof (reconcile_decision demo_kpa_surge (101 * Second) 1 I eq_refl eq_refl
    demo_surge_finite) as E.
  case_decide; [contradiction|exact E].
Defined.

Lemma demo_busy_finite delay :
  decision_finite (demo_kpa_busy delay) (101 * Second) 0.
Proof.
  constructor; try reflexivity; try lia.
  change (0 <= zceil (f64_of_Z 1000) < 2 ^ 31). rewrite zceil_of_Z by done. lia.
Qed.

Lemma scale_from_zero_witness :
  1 <= fst (Reconcile (demo_kpa_busy (30 * Second)) (101 * Second) 0) < 2 ^ 31.
Proof.
  apply (scale_from_zero (demo_kpa_busy (30 * Second)) (101 * Second));
    [|reflexivity|apply demo_busy_finite|reflexivity|vm_compute; reflexivity].
  constructor; simpl; [reflexivity|left; reflexivity|split; [discriminate|reflexivity]|discriminate].
Defined.

Lemma delay_never_lowers_witness :
  fst (undelayed (demo_kpa_busy (30 * Second)) (101 * Second) 0) = 1 /\
  fst (undelayed (demo_kpa_busy (30 * Second)) (101 * Second) 0)
    <= fst (Reconcile (demo_kpa_busy (30 * Second)) (101 * Second) 0).
Proof.
  split; [vm_compute; reflexivity|].
  apply (delay_never_lowers (demo_kpa_busy (30 * Second)) (101 * Second) 0).
  split; vm_compute; [discriminate|reflexivity].
Defined.
