(* ===== verification/Convergence.v ===== *)
(** * The autoscaler under a constant load

    The decider of [pkg/autoscaler/decider/kpa.go] in a loop with a cluster that
    has carried out each decision before the next one.  While both windows
    observe the same concurrency, the number of pods grows geometrically, by the
    configured rate, to the number that the load needs, and stays there.  It
    shrinks geometrically too, one division by the rate at each decision without
    a scale-down delay, and with one at least once in every span of the delay
    window.  Neither the panic mode nor the requests, activations and collections
    between two decisions disturb it. *)

From stdpp Require Import sorting.
From S2P Require Import Prelude GoTypes Float64 Float64Facts Interfaces Workload Metric Decider.

Local Open Scope Z_scope.

Section convergence.
Context {B : Type} `{TimedBucketsOps B}.
Context {W : Type} `{TWL : TimeWindowLaws W}.
Implicit Types k : KPADecider B W.

(** The number of pods after [n] decisions ([n] positive): by the rate [up] upwards,
    by the rate [down] downwards. *)
Definition trajectory (need up down ready : Z) (n : nat) : Z :=
  if ready <=? need then Z.min need (up ^ Z.of_nat n * Z.max 1 ready)
  else Z.max need (ready / down ^ Z.of_nat n).

(** Decisions at the given times, the spans of a window of length [span] between
    them: the first decision begins the first span, and the first one at least
    [span] after the beginning of a span begins the next. *)
Definition delay_round (span : Z) (st : option Z * nat) (t : Z) : option Z * nat :=
  match st with
  | (None, l) => (Some t, S l)
  | (Some m, l) => if m + span <=? t then (Some t, S l) else (Some m, l)
  end.

Definition delay_rounds (span : Z) (times : list Z) : option Z * nat := foldl (delay_round span) (None, O) times.

(** How many spans have begun. *)
Definition delays_passed (span : Z) (times : list Z) : nat := snd (delay_rounds span times).

(** The pods after decisions at [times], the last one for [r]: on the way up the
    closed form of their number; on the way down no fewer, and no more than the
    closed form of the spans that have begun. *)
Definition expected (span need up down r0 : Z) (times : list Z) (r : Z) : Prop :=
  (r0 <= need -> r = match times with [] => r0 | _ => trajectory need up down r0 (length times) end) /\
  (need < r0 -> trajectory need up down r0 (length times) <= r <=
                trajectory need up down r0 (delays_passed span times)).

(** A decider with whole rates [up] and [down] above 1 and a panic threshold
    above 1, whose delay window, if there is one, spans at most [span]; at
    concurrency [c] the load needs [need] pods.  [most] bounds the pods of the
    run. *)
Record steady k (c : float64) (need up down most span : Z) : Prop := {
  st_inv : kpa_inv k;
  st_delay : forall w, delayWindow k = Some w -> tw_span w <= span;
  st_span : 0 <= span;
  st_up : maxScaleUpRate k = f64_of_Z up;
  st_down : maxScaleDownRate k = f64_of_Z down;
  st_rates : 1 < up /\ 1 < down <= 2 ^ 20;
  st_quotient : finite64 (f64_div c (targetValue k));
  st_need : zceil (f64_div c (targetValue k)) = need;
  st_range : 0 <= need <= most /\ 1 <= most /\ up * most < 2 ^ 31;
  st_threshold : finite64 (panicThreshold k) /\ P 0 < fval (panicThreshold k)
}.

(** Both windows observe the concurrency [c], and no request waits if the load
    needs no pod. *)
Definition observes k (c : float64) (need now : Z) : Prop :=
  observed_stable k now = c /\ observed_panic k now = c /\
  (need = 0 -> f64_lt (f64_of_Z 0) (InstantConcurrency (stats (collector k))) = false).

Definition is_decision (ev : kpa_event) : bool :=
  match ev with KReconcile _ _ => true | _ => false end.

Section one.
Variables (c : float64) (need up down most span : Z).
Notation steady k := (steady k c need up down most span).

Lemma steady_events k evs : Forall (fun ev => is_decision ev = false) evs -> steady k ->
  steady (foldl kpa_apply k evs) /\
  panicTime (foldl kpa_apply k evs) = panicTime k /\ maxPanicPods (foldl kpa_apply k evs) = maxPanicPods k /\
  delayWindow (foldl kpa_apply k evs) = delayWindow k.
Proof.
  intros F. revert k. induction F as [|ev evs Hev F IH]; intros k S; [done|]. simpl.
  assert (steady (kpa_apply k ev) /\ panicTime (kpa_apply k ev) = panicTime k /\
          maxPanicPods (kpa_apply k ev) = maxPanicPods k /\ delayWindow (kpa_apply k ev) = delayWindow k)
    as (S' & <- & <- & <-); [|by apply IH].
  pose proof (kpa_inv_apply k ev) as I. destruct S.
  destruct ev; simpl in *; try done; unfold Activate in *; try destruct (active k =? 0); simpl in *;
    (split; [|done]; split; auto).
Qed.

Lemma steady_bounds k ready : steady k -> 0 <= ready <= most ->
  finite64 (f64_mul (maxScaleUpRate k) (f64_of_Z (Z.max 1 ready))) /\
  zceil (f64_mul (maxScaleUpRate k) (f64_of_Z (Z.max 1 ready))) = up * Z.max 1 ready /\
  finite64 (f64_div (f64_of_Z (Z.max 1 ready)) (maxScaleDownRate k)) /\
  zfloor (f64_div (f64_of_Z (Z.max 1 ready)) (maxScaleDownRate k)) = Z.max 1 ready / down.
Proof.
  intros [] Hr. assert (exact_int (up * Z.max 1 ready)) as Ei by (unfold exact_int; nia).
  rewrite st_up0, st_down0, f64_mul_int; [|unfold exact_int; nia|unfold exact_int; nia|done|lia|lia].
  destruct (f64_div_floor (Z.max 1 ready) down) as [F ->]; [nia|lia|].
  split_and!; [by apply f64_of_Z_finite|by apply zceil_of_Z|done|done].
Qed.

Lemma steady_finite k now ready : steady k -> observes k c need now -> 0 <= ready <= most ->
  decision_finite k now ready.
Proof.
  intros S (Hs & Hp & _) Hr. destruct (steady_bounds k ready S Hr) as (F1 & E1 & F2 & _). destruct S.
  split; rewrite ?Hs, ?Hp, ?st_need0; try done; try lia. 1: nia. rewrite E1. nia.
Qed.

(** What each window asks for. *)
Lemma steady_pods k now ready : steady k -> observes k c need now -> 0 <= ready <= most ->
  pods_for k c ready = if ready <=? need then Z.min need (up * Z.max 1 ready) else Z.max need (ready / down).
Proof.
  intros S (_ & _ & Ho) Hr. destruct (steady_bounds k ready S Hr) as (_ & E1 & _ & E2). destruct S.
  unfold pods_for, integer_clamp, integer_bounds. rewrite st_need0, E1, E2.
  assert (0 <= Z.max 1 ready / down < Z.max 1 ready) as Q
    by (split; [apply Z.div_pos; lia|apply Z.div_lt; lia]).
  destruct (Z.leb_spec ready need) as [Hl|Hl].
  - destruct (Z.eqb_spec ready 0) as [->|Hz]; simpl; [|lia].
    destruct (f64_lt _ _) eqn:Hi; simpl; [|lia].
    destruct (Z.eq_dec need 0) as [Hn|]; [specialize (Ho Hn); congruence|lia].
  - destruct (Z.eqb_spec ready 0); [lia|]. simpl. assert (Z.max 1 ready = ready) as Em by lia.
    rewrite Em in *. assert (ready <= up * ready) by nia. lia.
Qed.

(** With more pods than needed the panic mode cannot start. *)
Lemma steady_calm k now ready : steady k -> observes k c need now -> need < ready <= most ->
  over_threshold k now ready = false.
Proof.
  intros S (_ & Hp & _) Hr. destruct S. assert (most < 2 ^ 31) by nia.
  unfold over_threshold. rewrite Hp, ready_or_one_spec, Z.max_r by lia.
  destruct (f64_ceil_spec _ st_quotient0) as [Fc Vc]. rewrite st_need0 in Vc.
  pose proof (P_pos 0 ltac:(lia)).
  destruct (f64_div_within (f64_ceil (f64_div c (targetValue k))) ready 0 0 1 0) as (F & _ & U);
    [done|unfold exact_int; nia|lia|lia|lia|lia|lia|rewrite Vc; nia|].
  destruct st_threshold0 as [Ft Ht]. rewrite f64_le_spec by done. apply Z.leb_gt. lia.
Qed.

(** Where the panic mode stands between two decisions. *)
Definition settled k (ready : Z) : Prop :=
  (need < ready /\ panicTime k = 0) \/ (ready <= need /\ maxPanicPods k <= ready).

(** One decision before the delay: a step of the trajectory. *)
Lemma steady_undelayed k now ready : steady k -> observes k c need now -> 0 < now ->
  0 <= ready <= most -> settled k ready ->
  let u := trajectory need up down ready 1 in
  fst (undelayed k now ready) = u /\ 0 <= u <= most /\
  (ready <= need -> ready <= u <= need) /\ (need < ready -> need <= u <= ready) /\
  forall r, (ready <= need -> r = u) -> (need < ready -> u <= r) -> settled (snd (Reconcile k now ready)) r.
Proof.
  intros S O Hn Hr Hs u. pose proof (steady_finite k now ready S O Hr) as D.
  pose proof (steady_pods k now ready S O Hr) as Hp.
  destruct (reconcile_state k now ready) as (E1 & E2 & _). unfold settled. rewrite E1, E2.
  rewrite undelayed_decision by (done || apply S).
  pose proof O as (-> & -> & _). cbv zeta. rewrite Hp. unfold u, trajectory. rewrite !Z.pow_1_r.
  destruct (st_rates _ _ _ _ _ _ _ S), (st_range _ _ _ _ _ _ _ S) as (? & ? & _).
  assert (0 <= ready / down <= ready) by (split; [apply Z.div_pos; lia|apply Z.div_le_upper_bound; nia]).
  destruct Hs as [[Hl Hz]|[Hl Hm]].
  - assert (next_panic_time k now ready = 0) as ->.
    { unfold next_panic_time. rewrite panic_transition_time, Hz, (steady_calm k now ready) by (done || lia).
      by case_decide. }
    rewrite (proj2 (Z.leb_gt ready need)) by lia. case_decide; [|done]. simpl.
    split_and!; try lia. all: intros r _ Hu; specialize (Hu Hl); lia.
  - rewrite (proj2 (Z.leb_le ready need)) by lia.
    assert (ready <= Z.min need (up * Z.max 1 ready)) by nia.
    case_decide; simpl; (split_and!; try lia); intros r Hu _; specialize (Hu Hl); right; lia.
Qed.

(** The delay: the decision is the largest of those in the window. *)
Lemma apply_delay_spec (dw : option W) now u : in_int32 u ->
  let d := fst (apply_delay dw now u) in
  u <= d /\
  (d = u \/ exists w x, dw = Some w /\ (x ∈ tw_entries w) /\ now - tw_span w < fst x /\ d = snd x) /\
  forall w', snd (apply_delay dw now u) = Some w' -> exists w, dw = Some w /\ tw_span w' = tw_span w /\
    forall x, x ∈ tw_entries w' -> snd x <= d /\
      (x = (now, u) \/ ((x ∈ tw_entries w) /\ now - tw_span w < fst x)).
Proof.
  intros Hu. destruct dw as [w|]; simpl; [|split_and!; [lia|by left|done]].
  rewrite int32_of_id by done. split_and!; [by apply tw_current_ge| |].
  - pose proof (tw_entries_last w now u Hu) as Hl.
    destruct (tw_current_entry (tw_record w now u)) as (x & Hx & ->).
    { intros E. rewrite E in Hl. set_solver. }
    apply tw_entries_record in Hx as [->|[Hx Ht]]; [by left| |done]. right. by exists w, x.
  - intros w' [= <-]. exists w. split_and!; [done|apply tw_span_record|].
    intros x Hx. split; [by apply tw_current_max|]. by apply tw_entries_record.
Qed.

Lemma steady_reconcile k now ready : 0 < now -> in_int32 (fst (undelayed k now ready)) -> steady k ->
  steady (snd (Reconcile k now ready)).
Proof.
  intros Hn Hu []. pose proof (kpa_inv_apply k (KReconcile now ready) st_inv0 Hn) as I. simpl in I.
  destruct (apply_delay_spec (delayWindow k) now _ Hu) as (_ & _ & Hw).
  rewrite Reconcile_eq in *. destruct (apply_delay _ _ _) as [d dw]. simpl in *. split; try done.
  intros w' Hw'. destruct (Hw w' Hw') as (w & Ew & -> & _). by apply st_delay0.
Qed.

End one.

(** ** The closed form *)

Lemma pow_ge_1 b (n : nat) : 1 < b -> 1 <= b ^ Z.of_nat n.
Proof. intros Hb. pose proof (Z.pow_pos_nonneg b (Z.of_nat n)). lia. Qed.

Lemma pow_ge_2 b (n : nat) : 1 < b -> 2 ^ Z.of_nat n <= b ^ Z.of_nat n.
Proof. intros Hb. apply Z.pow_le_mono_l. lia. Qed.

Lemma pow_S b (n : nat) : b ^ Z.of_nat (S n) = b * b ^ Z.of_nat n.
Proof. rewrite Nat2Z.inj_succ, Z.pow_succ_r by lia. done. Qed.

Lemma trajectory_S need up down ready n : 1 < up -> 1 < down -> 0 <= need -> 0 <= ready ->
  trajectory need up down (trajectory need up down ready 1) (S n) = trajectory need up down ready (S (S n)).
Proof.
  intros Hu Hd Hn Hr. unfold trajectory. rewrite !Z.pow_1_r, !pow_S.
  pose proof (pow_ge_1 up n Hu) as A. pose proof (pow_ge_1 down n Hd) as D.
  set (a := up ^ Z.of_nat n) in *. set (d := down ^ Z.of_nat n) in *.
  destruct (Z.leb_spec ready need).
  - rewrite (proj2 (Z.leb_le _ need)) by lia.
    assert (1 <= Z.max 1 ready) as M by lia. set (m := Z.max 1 ready) in *.
    assert (1 <= up * a) by nia. destruct (Z.le_gt_cases (up * m) need) as [Hc|Hc].
    + rewrite (Z.min_r need (up * m)), (Z.max_r 1 (up * m)) by nia. f_equal. lia.
    + rewrite (Z.min_l need (up * m)) by lia. rewrite !Z.min_l by nia. done.
  - assert (ready / (down * (down * d)) = ready / down / (down * d)) as -> by (rewrite Z.div_div; nia).
    assert (0 <= ready / down) by (apply Z.div_pos; lia).
    set (q := ready / down) in *. assert (1 <= down * d) by nia.
    assert (0 <= q / (down * d) <= q) by (split; [apply Z.div_pos; lia|apply Z.div_le_upper_bound; nia]).
    destruct (Z.leb_spec (Z.max need q) need).
    + rewrite (Z.max_l need q), (Z.max_l need (_ / _)) by lia. assert (1 <= up * a) by nia. nia.
    + by rewrite (Z.max_r need q) by lia.
Qed.

Lemma trajectory_limit need up down ready most n : 1 < up -> 1 < down -> 0 <= need <= most ->
  0 <= ready <= most -> most < 2 ^ Z.of_nat n -> trajectory need up down ready n = need.
Proof.
  intros Hu Hd Hn Hr Hm. unfold trajectory.
  pose proof (pow_ge_2 up n Hu). pose proof (pow_ge_2 down n Hd).
  destruct (Z.leb_spec ready need); [nia|]. rewrite Z.div_small by lia. lia.
Qed.

Lemma trajectory_snoc need up down ready n : 1 < up -> 1 < down -> 0 <= need -> 0 <= ready ->
  trajectory need up down ready (S (S n)) = trajectory need up down (trajectory need up down ready (S n)) 1.
Proof.
  intros Hu Hd Hn. revert ready. induction n as [|n IH]; intros ready Hr; [by rewrite trajectory_S|].
  assert (0 <= trajectory need up down ready 1).
  { unfold trajectory. destruct (ready <=? need); [rewrite Z.pow_1_r; nia|lia]. }
  rewrite <- (trajectory_S need up down ready (S n)), IH by done. by rewrite trajectory_S.
Qed.

(** On the way down. *)
Lemma trajectory_down need up down r0 n : need < r0 ->
  trajectory need up down r0 n = Z.max need (r0 / down ^ Z.of_nat n).
Proof. intros Hr. unfold trajectory. by rewrite (proj2 (Z.leb_gt _ _) Hr). Qed.

Lemma div_pow_mono need r0 down n m : 1 < down -> 0 <= r0 -> (n <= m)%nat ->
  Z.max need (r0 / down ^ Z.of_nat m) <= Z.max need (r0 / down ^ Z.of_nat n).
Proof.
  intros Hd Hr Hnm. apply Z.max_le_compat_l, Z.div_le_compat_l; [done|].
  pose proof (pow_ge_1 down n Hd). split; [lia|]. apply Z.pow_le_mono_r; lia.
Qed.

(** One division by the rate, from any number of pods between two bounds. *)
Lemma div_pow_step need r0 down n r : 1 < down -> 0 <= need -> 0 <= r0 ->
  r <= Z.max need (r0 / down ^ Z.of_nat n) ->
  Z.max need (r / down) <= Z.max need (r0 / down ^ Z.of_nat (S n)).
Proof.
  intros Hd Hn Hr Hle. pose proof (pow_ge_1 down n Hd).
  rewrite pow_S, (Z.mul_comm down), <- Z.div_div by lia.
  set (q := r0 / _) in *. assert (r / down <= Z.max need q / down) by (apply Z.div_le_mono; lia).
  destruct (Z.max_spec need q) as [[_ E]|[_ E]]; rewrite E in *; [lia|].
  assert (need / down <= need) by (apply Z.div_le_upper_bound; nia). lia.
Qed.

Lemma div_pow_step_ge need r0 down n r : 1 < down -> 0 <= need -> 0 <= r0 ->
  Z.max need (r0 / down ^ Z.of_nat n) <= r ->
  Z.max need (r0 / down ^ Z.of_nat (S n)) <= Z.max need (r / down).
Proof.
  intros Hd Hn Hr Hle. pose proof (pow_ge_1 down n Hd).
  rewrite pow_S, (Z.mul_comm down), <- Z.div_div by lia.
  set (q := r0 / _) in *. assert (q / down <= r / down) by (apply Z.div_le_mono; lia). lia.
Qed.

(** ** The spans of the delay *)

Lemma delay_rounds_snoc span times t :
  delay_rounds span (times ++ [t]) = delay_round span (delay_rounds span times) t.
Proof. unfold delay_rounds. by rewrite foldl_app. Qed.

Lemma delay_rounds_none span times l : delay_rounds span times = (None, l) -> times = [] /\ l = O.
Proof.
  destruct times as [|t times] using rev_ind; [intros [= <-]; done|].
  rewrite delay_rounds_snoc. unfold delay_round. destruct (delay_rounds span times) as [[m|] l']; [|done].
  by destruct (_ <=? _).
Qed.

Lemma delays_passed_le span times : (delays_passed span times <= length times)%nat.
Proof.
  unfold delays_passed. induction times as [|t times IH] using rev_ind; [simpl; lia|].
  rewrite delay_rounds_snoc, length_app. unfold delay_round. simpl.
  destruct (delay_rounds span times) as [[m|] l]; simpl in *; [|lia]. destruct (_ <=? _); simpl; lia.
Qed.

(** Without a delay every decision counts. *)
Lemma delays_passed_all times : StronglySorted Z.le times -> delays_passed 0 times = length times.
Proof.
  intros So.
  enough (snd (delay_rounds 0 times) = length times /\
          forall m, fst (delay_rounds 0 times) = Some m -> m ∈ times) as [E _] by exact E.
  induction times as [|t times IH] using rev_ind; [done|].
  rewrite delay_rounds_snoc, length_app, Nat.add_comm. simpl.
  apply StronglySorted_app in So as (Hle & So & _). destruct (IH So) as [<- Hm].
  destruct (delay_rounds 0 times) as [[m|] l]; simpl in *.
  - rewrite (proj2 (Z.leb_le _ _)); [|specialize (Hle m t (Hm m eq_refl)); set_solver by lia].
    simpl. split; [done|]. intros ? [= <-]. set_solver.
  - split; [done|]. intros ? [= <-]. set_solver.
Qed.

(** ** A course of decisions *)

Section course.
Variables (c : float64) (need up down most span r0 : Z).
Hypothesis Hr0 : 0 <= r0 <= most.
Notation steady k := (steady k c need up down most span).
Notation low n := (Z.max need (r0 / down ^ Z.of_nat n)).

(** Where a decider stands after decisions at [times] from [r0] pods, the last one
    for [r]. *)
Record course k (times : list Z) (r : Z) : Prop := {
  co_steady : steady k;
  co_settled : settled need k r;
  co_range : 0 <= r <= most;
  co_entries : forall w x, delayWindow k = Some w -> x ∈ tw_entries w -> (fst x ∈ times) /\ snd x <= r;
  co_expected : expected span need up down r0 times r;
  co_recent : need < r0 -> forall m w x, fst (delay_rounds span times) = Some m ->
    delayWindow k = Some w -> x ∈ tw_entries w -> m < fst x -> snd x <= low (S (delays_passed span times))
}.

Lemma course_start k : steady k -> panicTime k = 0 ->
  (forall w, delayWindow k = Some w -> tw_entries w = []) -> course k [] r0.
Proof.
  intros S Hp He. split; try done.
  - destruct (decide (need < r0)); [by left|right].
    rewrite (inv_calm _ (st_inv _ _ _ _ _ _ _ S) Hp). lia.
  - intros w x Hw. rewrite (He w Hw). set_solver.
  - split; [done|]. intros Hr. rewrite !trajectory_down by done.
    change (delays_passed span []) with O. simpl. rewrite Z.div_1_r. lia.
Qed.

Lemma course_events k evs times r : Forall (fun ev => is_decision ev = false) evs ->
  course k times r -> course (foldl kpa_apply k evs) times r.
Proof.
  intros F [S Se Hr He Hx Hc]. destruct (steady_events c need up down most span k evs F S) as (S' & E1 & E2 & E3).
  split; rewrite ?E3; try done. unfold settled in *. by rewrite E1, E2.
Qed.

(** The next decision, and what is in the window after it. *)
Lemma course_decision k times r now : course k times r -> observes k c need now -> 0 < now ->
  Forall (fun t => t <= now) times ->
  let u := trajectory need up down r 1 in
  let d := fst (Reconcile k now r) in
  let k' := snd (Reconcile k now r) in
  steady k' /\ settled need k' d /\ 0 <= d <= most /\ u <= d /\ (r <= need -> d = u) /\
  (need < r -> need <= u <= r /\ d <= r) /\
  (d = u \/ exists w x, delayWindow k = Some w /\ (x ∈ tw_entries w) /\ now - span < fst x /\ d = snd x) /\
  forall w' x, delayWindow k' = Some w' -> x ∈ tw_entries w' -> snd x <= d /\
    (x = (now, u) \/ exists w, delayWindow k = Some w /\ (x ∈ tw_entries w) /\ now - span < fst x).
Proof.
  intros [S Se Hr He _ _] O Hn Ht u d k'.
  destruct (steady_undelayed c need up down most span k now r S O Hn Hr Se) as (Eu & Hu & Hup & Hdn & Hs).
  fold u in Eu, Hu, Hup, Hdn, Hs.
  assert (in_int32 u) as Hi by (unfold in_int32; destruct S; nia).
  pose proof (steady_reconcile c need up down most span k now r Hn ltac:(by rewrite Eu) S) as S'.
  destruct (apply_delay_spec (delayWindow k) now u Hi) as (A1 & A2 & A3).
  assert (d = fst (apply_delay (delayWindow k) now u) /\
          delayWindow k' = snd (apply_delay (delayWindow k) now u)) as [Ed Ew].
  { unfold d, k'. rewrite Reconcile_eq, Eu. by destruct (apply_delay _ _ _). }
  rewrite <- Ed, <- Ew in *.
  assert (d = u \/ exists w x, delayWindow k = Some w /\ (x ∈ tw_entries w) /\ now - span < fst x /\ d = snd x) as Hd.
  { destruct A2 as [->|(w & x & Hw & Hx & Hl & ->)]; [by left|]. right. exists w, x.
    pose proof (st_delay _ _ _ _ _ _ _ S w Hw). split_and!; try done. lia. }
  assert (d = u \/ d <= r) as Hdr.
  { destruct Hd as [?|(w & x & Hw & Hx & _ & ->)]; [by left|right]. by apply (He w x). }
  assert (r <= need -> d = u) as Hd1 by lia. assert (need < r -> d <= r) as Hd2 by lia.
  split_and!; try done; try lia.
  - apply Hs; lia.
  - intros w' x Hw' Hx. destruct (A3 w' Hw') as (w & Hw & _ & Hx').
    destruct (Hx' x Hx) as [Hle [->|[Hx2 Hl]]]; (split; [done|]); [by left|right].
    exists w. pose proof (st_delay _ _ _ _ _ _ _ S w Hw). split_and!; try done. lia.
Qed.

(** On the way down, before the delay. *)
Lemma course_down k times r : course k times r -> need < r0 ->
  let u := trajectory need up down r 1 in
  need <= r /\ r <= low (delays_passed span times) /\
  low (S (length times)) <= u <= low (S (delays_passed span times)) /\ u <= r.
Proof.
  intros [S _ Hr _ [_ Hx] _] Hl u. specialize (Hx Hl). rewrite !trajectory_down in Hx by done.
  destruct (st_rates _ _ _ _ _ _ _ S) as [Hup [Hdn _]]. destruct (st_range _ _ _ _ _ _ _ S) as ((Hnd & _) & _ & _).
  assert (need <= r) as Hnr by lia.
  assert (r / down <= r) by (apply Z.div_le_upper_bound; nia).
  assert (u = Z.max need (r / down)) as ->.
  { unfold u, trajectory. rewrite !Z.pow_1_r. destruct (Z.leb_spec r need); [nia|done]. }
  split_and!; [done|lia|apply div_pow_step_ge; lia|apply div_pow_step; lia|lia].
Qed.

(** The entries of the window after a decision were all recorded at decisions. *)
Lemma course_recorded k times r now : course k times r -> observes k c need now -> 0 < now ->
  Forall (fun t => t <= now) times ->
  forall w x, delayWindow (snd (Reconcile k now r)) = Some w -> x ∈ tw_entries w ->
    (fst x ∈ times ++ [now]) /\ fst x <= now.
Proof.
  intros C O Hn Ht w x Hw Hx.
  destruct (course_decision k times r now C O Hn Ht) as (_ & _ & _ & _ & _ & _ & _ & Hent).
  rewrite elem_of_app. destruct (Hent w x Hw Hx) as [_ [->|(w0 & Hw0 & Hx0 & _)]]; [set_solver by simpl; lia|].
  destruct (co_entries _ _ _ C w0 x Hw0 Hx0) as [Hi _]. rewrite Forall_forall in Ht. split; [by left|by apply Ht].
Qed.

(** On the way down, with the delay: what a new span brings. *)
Lemma course_spans k times r now : course k times r -> observes k c need now -> 0 < now ->
  Forall (fun t => t <= now) times -> need < r0 ->
  let passed := delays_passed span (times ++ [now]) in
  fst (Reconcile k now r) <= low passed /\
  forall m w x, fst (delay_rounds span (times ++ [now])) = Some m ->
    delayWindow (snd (Reconcile k now r)) = Some w -> x ∈ tw_entries w -> m < fst x -> snd x <= low (S passed).
Proof.
  intros C O Hn Ht Hl passed. pose proof (course_recorded k times r now C O Hn Ht) as Hle.
  destruct (course_decision k times r now C O Hn Ht) as (_ & _ & _ & _ & Hu1 & Hu2 & Hmax & Hent).
  destruct (course_down k times r C Hl) as (Hnr & Hrl & Hul & Hur).
  assert (fst (Reconcile k now r) <= r) as Hdr.
  { destruct (decide (need < r)) as [Hg|Hg]; [by apply Hu2|]. rewrite Hu1; lia. }
  pose proof (co_recent _ _ _ C Hl) as Hc. unfold passed, delays_passed in *. rewrite delay_rounds_snoc.
  destruct (delay_rounds span times) as [[m|] l] eqn:Er; cbn [delay_round fst snd] in *.
  - destruct (Z.leb_spec (m + span) now) as [Hp|Hp]; cbn [fst snd].
    + split.
      * destruct Hmax as [->|(w & x & Hw & Hx & Hlt & ->)]; [lia|]. apply (Hc m w x); done || lia.
      * intros m' w x [= <-] Hw Hx Hlt. destruct (Hle w x Hw Hx). lia.
    + split; [lia|]. intros m' w x [= <-] Hw Hx Hlt.
      destruct (Hent w x Hw Hx) as [_ [->|(w0 & Hw0 & Hx0 & _)]]; [cbn [snd]; lia|]. by apply (Hc m w0 x).
  - apply delay_rounds_none in Er as [-> ->]. split.
    + destruct Hmax as [->|(w & x & Hw & Hx & _)]; [lia|]. destruct (co_entries _ _ _ C w x Hw Hx). set_solver.
    + intros m' w x [= <-] Hw Hx Hlt. destruct (Hle w x Hw Hx). lia.
Qed.

Lemma course_step k times r now : course k times r -> observes k c need now -> 0 < now ->
  Forall (fun t => t <= now) times ->
  course (snd (Reconcile k now r)) (times ++ [now]) (fst (Reconcile k now r)).
Proof.
  intros C O Hn Ht. destruct (course_decision k times r now C O Hn Ht) as (S' & Se & Hd & Hud & Hu1 & _ & _ & Hent).
  split; try done.
  - intros w x Hw Hx. split; [by eapply course_recorded|by apply (Hent w x)].
  - split; intros Hl.
    + destruct (co_expected _ _ _ C) as [Hx _]. specialize (Hx Hl). destruct (co_steady _ _ _ C).
      assert (r <= need) as Hrn.
      { rewrite Hx. destruct times; [done|]. unfold trajectory. rewrite (proj2 (Z.leb_le _ _) Hl). lia. }
      rewrite (Hu1 Hrn), length_app, Nat.add_comm, Hx.
      destruct times as [|t times]; [done|]. simpl. rewrite trajectory_snoc by lia. done.
    + rewrite !trajectory_down, length_app, Nat.add_comm by done.
      destruct (course_down k times r C Hl) as (_ & _ & Hul & _).
      destruct (course_spans k times r now C O Hn Ht Hl). simpl. lia.
  - intros Hl. by apply course_spans.
Qed.

(** Enough spans of the delay, and the pods are those that are needed. *)
Lemma expected_limit times r : 1 < up -> 1 < down -> 0 <= need <= most ->
  expected span need up down r0 times r -> most < 2 ^ Z.of_nat (delays_passed span times) -> r = need.
Proof.
  intros Hu Hd Hn [Hx1 Hx2] Hm. pose proof (delays_passed_le span times) as Hle.
  assert (most < 2 ^ Z.of_nat (length times)).
  { eapply Z.lt_le_trans; [exact Hm|]. apply Z.pow_le_mono_r; lia. }
  destruct (Z.le_gt_cases r0 need) as [Hl|Hl].
  - rewrite (Hx1 Hl). destruct times as [|t times]; [simpl in *; lia|].
    apply (trajectory_limit need up down r0 most); done.
  - specialize (Hx2 Hl). rewrite !(trajectory_limit need up down r0 most) in Hx2 by done. lia.
Qed.

End course.

End convergence.
