(* ===== verification/Backend.v ===== *)
(** * Package [backend]: executors

    Models [pkg/backend]: the request timeout, the choice of a framework, the
    fake backend, which sleeps for the requested time, and the gRPC backend,
    which multiplexes requests over a pool of connections.  Connections, the
    dialling of an endpoint and the remote call belong to the gRPC library and
    are arguments; the pool is an unbounded channel ([ChannOps]). *)

From S2P Require Import Prelude GoTypes Float64 Float64Facts Interfaces Kube Workload.

Local Open Scope Z_scope.

(** ** Timeouts *)

(** The package variables: [baseTimeout] and the default of [timeoutFactor]. *)
Definition baseTimeout : Z := 15 * Second.

Definition default_timeoutFactor : float64 := f64_of_Z 5.

Definition Timeout (timeoutFactor : float64) (req : Request) : Z :=
  let slo := mul64 (f64_to_int64 (f64_mul (f64_of_Z (DurationMilliSec req)) timeoutFactor))
               Millisecond in
  if baseTimeout <? slo then slo else baseTimeout.

(** ** What one execution reads from its environment

    [Conn] is the type of gRPC connections.  [env_dial] is [grpc.NewClient],
    [env_call] the remote procedure (its runtime in microseconds, a [uint32]),
    and the clock is read before and after the call. *)
Record exec_env (Conn : Type) : Type := mkEnv {
  env_dial : string -> result Conn;
  env_call : Conn -> Z -> result Z;
  env_start : Z;
  env_finish : Z;
  env_elapsed : Z
}.

Arguments mkEnv {Conn}.
Arguments env_dial {Conn}.
Arguments env_call {Conn}.
Arguments env_start {Conn}.
Arguments env_finish {Conn}.
Arguments env_elapsed {Conn}.

(** ** Where an execution stands

    Executions run next to each other and to [Close], which share the executor:
    an execution begins, it may have to wait for a connection that it has added
    itself, and then calls over a connection that it holds. *)
Inductive exec_state (Conn : Type) : Type :=
| ExecBegins (req : Request)
| ExecAwaits (req : Request)
| ExecCalls (conn : Conn) (req : Request).

Arguments ExecBegins {Conn} req.
Arguments ExecAwaits {Conn} req.
Arguments ExecCalls {Conn} conn req.

Definition state_request {Conn} (x : exec_state Conn) : Request :=
  match x with ExecBegins req | ExecAwaits req | ExecCalls _ req => req end.

Definition exec_waits {Conn} (x : exec_state Conn) : bool :=
  match x with ExecAwaits _ => true | _ => false end.

Definition exec_holds {Conn} (x : exec_state Conn) : nat :=
  match x with ExecCalls _ _ => 1 | _ => 0 end.

Definition exec_left {Conn} (x : exec_state Conn) : nat :=
  match x with ExecBegins _ => 3 | ExecAwaits _ => 2 | ExecCalls _ _ => 1 end.

(** ** The interface [Executor]

    [Execute] is an execution that nothing disturbs: it returns a response, or
    waits for ever ([None]).  [ExecTurn] is its next turn among others, to another
    state or to its response, [None] when it waits there.  [Close] runs in a
    goroutine next to executions; [CloseTurn] is a turn of it ([None]: it waits
    or has returned). *)
Class Executor (Conn E : Type) : Type := {
  Execute : E -> exec_env Conn -> Request -> option Response * E;
  ExecTurn : E -> exec_env Conn -> exec_state Conn -> option ((exec_state Conn + Response) * E);
  CloseTurn : E -> option E
}.

(** The turns of an execution that nothing disturbs. *)
Fixpoint exec_alone {Conn E} `{Executor Conn E} (n : nat) (e : E) (env : exec_env Conn) (x : exec_state Conn) :
    option Response * E :=
  match n with
  | O => (None, e)
  | S n =>
      match ExecTurn e env x with
      | None => (None, e)
      | Some (inl x, e) => exec_alone n e env x
      | Some (inr res, e) => (Some res, e)
      end
  end.

Definition same_request (r r' : Request) : Prop :=
  ID r = ID r' /\ Target r = Target r' /\ DurationMilliSec r = DurationMilliSec r' /\
  ClientSendTS r = ClientSendTS r' /\ ReqGatewayRecvTS r = ReqGatewayRecvTS r' /\
  ClientRelTime r = ClientRelTime r' /\ TraceRelTime r = TraceRelTime r'.

(** The promises of an executor.  Undisturbed it returns, with a response for the
    request it was given: of the request it only sets the instant at which the
    gateway sent it on.  Among others an execution waits only where it awaits a
    connection and no spare one ([exec_spare]) is left; it awaits one only after
    it has added [exec_shares] of them, and what it takes ([exec_held]) it gives
    back. *)
Class ExecutorLaws (Conn E : Type) `{Executor Conn E} : Type := {
  exec_spare : E -> nat;
  exec_held : E -> exec_state Conn -> nat;
  exec_shares : nat;
  exec_shares_pos : (0 < exec_shares)%nat;
  Execute_turns : forall e env req, Execute e env req = exec_alone 3 e env (ExecBegins req);
  Execute_returns : forall e env req,
    exists res, fst (Execute e env req) = Some res /\ same_request (Source res) req;
  ExecTurn_waits : forall e env x,
    ExecTurn e env x = None -> exec_waits x = true /\ exec_spare e = O;
  ExecTurn_goes : forall e env x x' e',
    ExecTurn e env x = Some (inl x', e') ->
    same_request (state_request x') (state_request x) /\ (exec_left x' < exec_left x)%nat /\
    (exec_waits x' = true -> exec_shares <= exec_spare e')%nat /\
    (exec_spare e + exec_held e x <= exec_spare e' + exec_held e x')%nat;
  ExecTurn_ends : forall e env x res e',
    ExecTurn e env x = Some (inr res, e') ->
    same_request (Source res) (state_request x) /\ (exec_spare e + exec_held e x <= exec_spare e')%nat;
  exec_held_turn : forall e env x r e' y,
    ExecTurn e env x = Some (r, e') -> exec_held e' y = exec_held e y;
  exec_held_close : forall e e' y, CloseTurn e = Some e' -> exec_held e' y = exec_held e y;
  exec_held_begins : forall e req, exec_held e (ExecBegins req) = O;
  exec_held_awaits : forall e req, exec_held e (ExecAwaits req) = O
}.

(** ** The fake backend *)

Inductive fakeBackend : Type := newFakeBackend.

(** [time.Since(start).Microseconds()] truncates the elapsed nanoseconds. *)
Definition fake_Execute {Conn} (f : fakeBackend) (env : exec_env Conn) (req : Request) :
    option Response * fakeBackend :=
  let req := set_gateway_send req (env_start env) in
  (Some (mkResponse req SUCCESS (env_finish env) zero_time (quo64 (env_elapsed env) 1000)), f).

(** It sleeps in one turn. *)
Definition fake_ExecTurn {Conn} (f : fakeBackend) (env : exec_env Conn) (x : exec_state Conn) :
    option ((exec_state Conn + Response) * fakeBackend) :=
  match fake_Execute f env (state_request x) with
  | (Some res, f) => Some (inr res, f)
  | (None, f) => None
  end.

(** [Close] of the fake backend returns at once. *)
Global Instance fake_executor Conn : Executor Conn fakeBackend :=
  { Execute := fake_Execute; ExecTurn := fake_ExecTurn; CloseTurn := fun _ => None }.

(** ** The gRPC backend *)

Definition grpcExecutorConcurrency : nat := 50.

Section grpc.
Context {C : Type -> Type} `{ChannOps C}.
Context {Conn : Type}.

Record grpcBackend : Type := mkGrpc {
  endpoint : string;
  connectionPool : C Conn
}.

(** [n] times the connection into the pool. *)
Fixpoint pool_fill (n : nat) (pool : C Conn) (conn : Conn) : C Conn :=
  match n with
  | O => pool
  | S n' => pool_fill n' (ch_send pool conn) conn
  end.

Definition newClient (g : grpcBackend) (dial : string -> result Conn) :
    option error * grpcBackend :=
  match dial (endpoint g) with
  | Err e => (Some e, g)
  | Ok conn =>
      (None, mkGrpc (endpoint g) (pool_fill grpcExecutorConcurrency (connectionPool g) conn))
  end.

Definition newGrpcBackend (ep : string) (dial : string -> result Conn) : result grpcBackend :=
  let '(err, g) := newClient (mkGrpc ep ch_new) dial in
  match err with
  | Some e => Err e
  | None => Ok g
  end.

(** What [getOrCreateClient] comes to before its second receive. *)
Inductive acquisition : Type :=
| Acquired (conn : Conn)
| DialFailed (e : error)
| MustWait.

(** The non-blocking receive; on an empty pool a new client is dialled, its 50
    shares go into the pool, ... *)
Definition getOrCreateClient (g : grpcBackend) (dial : string -> result Conn) :
    acquisition * grpcBackend :=
  match ch_recv (connectionPool g) with
  | Some (conn, pool) => (Acquired conn, mkGrpc (endpoint g) pool)
  | None =>
      let '(err, g) := newClient g dial in
      match err with
      | Some e => (DialFailed e, g)
      | None => (MustWait, g)
      end
  end.

(** ... and the second receive waits while the pool is empty ([None]): others may
    have received the new shares before. *)
Definition awaitClient (g : grpcBackend) : option (Conn * grpcBackend) :=
  match ch_recv (connectionPool g) with
  | Some (conn, pool) => Some (conn, mkGrpc (endpoint g) pool)
  | None => None
  end.

(** The code after the connection is acquired: the call and its outcome. *)
Definition grpc_call (conn : Conn) (env : exec_env Conn) (req : Request) : Response :=
  let req := set_gateway_send req (env_start env) in
  match env_call env conn (uint32_of (DurationMilliSec req)) with
  | Err e =>
      let status := if bool_decide (err_is e = KDeadlineExceeded) then FAIL_TIMEOUT else FAIL_SEND in
      mkResponse req status zero_time zero_time 0
  | Ok durationMicroSec => mkResponse req SUCCESS (env_finish env) zero_time durationMicroSec
  end.

(** The deferred send puts the connection back. *)
Definition grpc_release (g : grpcBackend) (conn : Conn) : grpcBackend :=
  mkGrpc (endpoint g) (ch_send (connectionPool g) conn).

Definition grpc_Execute (g : grpcBackend) (env : exec_env Conn) (req : Request) :
    option Response * grpcBackend :=
  match getOrCreateClient g (env_dial env) with
  | (Acquired conn, g) => (Some (grpc_call conn env req), grpc_release g conn)
  | (DialFailed e, g) => (Some (mkResponse req FAIL_CONNECT zero_time zero_time 0), g)
  | (MustWait, g) =>
      match awaitClient g with
      | Some (conn, g) => (Some (grpc_call conn env req), grpc_release g conn)
      | None => (None, g)
      end
  end.

(** The same among others: up to the second receive, that receive, and the call
    with the release of the connection. *)
Definition grpc_ExecTurn (g : grpcBackend) (env : exec_env Conn) (x : exec_state Conn) :
    option ((exec_state Conn + Response) * grpcBackend) :=
  match x with
  | ExecBegins req =>
      match getOrCreateClient g (env_dial env) with
      | (Acquired conn, g) => Some (inl (ExecCalls conn req), g)
      | (DialFailed e, g) => Some (inr (mkResponse req FAIL_CONNECT zero_time zero_time 0), g)
      | (MustWait, g) => Some (inl (ExecAwaits req), g)
      end
  | ExecAwaits req =>
      match awaitClient g with
      | Some (conn, g) => Some (inl (ExecCalls conn req), g)
      | None => None
      end
  | ExecCalls conn req => Some (inr (grpc_call conn env req), grpc_release g conn)
  end.

(** [Close] ranges over the pool before it closes it.  The loop leaves only
    when the channel is closed and drained. *)
Record closing : Type := mkClosing {
  cl_pool : C Conn;
  cl_pool_closed : bool;
  cl_conns_closed : list Conn;
  cl_returned : bool
}.

Definition close_start (g : grpcBackend) : closing := mkClosing (connectionPool g) false [] false.

(** One turn of [Close], [None] when it waits. *)
Definition close_turn (c : closing) : option closing :=
  match ch_recv (cl_pool c) with
  | Some (conn, pool) =>
      Some (mkClosing pool (cl_pool_closed c) (cl_conns_closed c ++ [conn]) (cl_returned c))
  | None =>
      if cl_pool_closed c
      then Some (mkClosing (cl_pool c) true (cl_conns_closed c) true)
      else None
  end.

(** A turn of [Close] as the executions next to it see it: the pool loses a
    connection. *)
Definition grpc_CloseTurn (g : grpcBackend) : option grpcBackend :=
  (fun c => mkGrpc (endpoint g) (cl_pool c)) <$> close_turn (close_start g).

(** [Close] runs next to executions that put their connection back. *)
Inductive close_step : closing -> closing -> Prop :=
| close_turns c c' : close_turn c = Some c' -> close_step c c'
| close_release c conn :
    close_step c (mkClosing (ch_send (cl_pool c) conn) (cl_pool_closed c) (cl_conns_closed c)
                    (cl_returned c)).

End grpc.

Arguments grpcBackend C Conn : clear implicits.
Arguments closing C Conn : clear implicits.
Arguments acquisition Conn : clear implicits.

Global Instance grpc_executor {C} `{ChannOps C} Conn : Executor Conn (grpcBackend C Conn) :=
  { Execute := grpc_Execute; ExecTurn := grpc_ExecTurn; CloseTurn := grpc_CloseTurn }.

(** ** Executions of an executor that is never closed

    An executor that serves several requests at a time, as that of a Knative
    service: [ExecStart] is the part of [Execute] up to the call, [ExecFinish] the
    call and what follows it, and [exec_running] what an execution keeps in
    between.  The acquisition of a connection is one step here.  Without [Close]
    the shares that an execution adds can only go to executions that put them
    back, and a channel serves its receivers in the order in which they wait, so
    the second receive ends. *)
Class ConcurrentExecutor (Conn E : Type) `{Executor Conn E} : Type := {
  exec_running : Type;
  exec_request : exec_running -> Request;
  ExecStart : E -> exec_env Conn -> Request -> option exec_running * E;
  ExecFinish : E -> exec_env Conn -> exec_running -> Response * E
}.

(** Undisturbed, the two halves are [Execute]; each returns, whatever the other
    executions did to the executor in between. *)
Class ConcurrentExecutorLaws (Conn E : Type) `{ConcurrentExecutor Conn E} : Prop := {
  Execute_halves : forall e env req,
    Execute e env req =
      match ExecStart e env req with
      | (None, e) => (None, e)
      | (Some x, e) => let '(res, e) := ExecFinish e env x in (Some res, e)
      end;
  ExecStart_returns : forall e env req,
    exists x, fst (ExecStart e env req) = Some x /\ same_request (exec_request x) req;
  ExecFinish_request : forall e env x,
    same_request (Source (fst (ExecFinish e env x))) (exec_request x)
}.

(** A gRPC execution in progress: it could not connect, or holds a connection. *)
Inductive grpc_running (Conn : Type) : Type :=
| GrpcUnconnected (req : Request)
| GrpcCalling (conn : Conn) (req : Request).

Arguments GrpcUnconnected {Conn} req.
Arguments GrpcCalling {Conn} conn req.

Definition grpc_start {C} `{ChannOps C} {Conn} (g : grpcBackend C Conn) (env : exec_env Conn)
    (req : Request) : option (grpc_running Conn) * grpcBackend C Conn :=
  match getOrCreateClient g (env_dial env) with
  | (Acquired conn, g) => (Some (GrpcCalling conn req), g)
  | (DialFailed _, g) => (Some (GrpcUnconnected req), g)
  | (MustWait, g) =>
      match awaitClient g with
      | Some (conn, g) => (Some (GrpcCalling conn req), g)
      | None => (None, g)
      end
  end.

Definition grpc_finish {C} `{ChannOps C} {Conn} (g : grpcBackend C Conn) (env : exec_env Conn)
    (x : grpc_running Conn) : Response * grpcBackend C Conn :=
  match x with
  | GrpcUnconnected req => (mkResponse req FAIL_CONNECT zero_time zero_time 0, g)
  | GrpcCalling conn req => (grpc_call conn env req, grpc_release g conn)
  end.

Global Instance grpc_concurrent {C} `{ChannOps C} Conn : ConcurrentExecutor Conn (grpcBackend C Conn) := {
  exec_request := fun x => match x with GrpcUnconnected req | GrpcCalling _ req => req end;
  ExecStart := grpc_start;
  ExecFinish := grpc_finish
}.

Global Instance fake_concurrent Conn : ConcurrentExecutor Conn fakeBackend := {
  exec_request := fun req : Request => req;
  ExecStart := fun f env req => (Some req, f);
  ExecFinish := fun f env req =>
    (mkResponse (set_gateway_send req (env_start env)) SUCCESS (env_finish env) zero_time
       (quo64 (env_elapsed env) 1000), f)
}.

(** ** [NewBackend] *)

Inductive backend (C : Type -> Type) (Conn : Type) : Type :=
| FakeBackend (f : fakeBackend)
| GrpcBackend (g : grpcBackend C Conn).

Arguments FakeBackend {C Conn} f.
Arguments GrpcBackend {C Conn} g.

(** The package variable [framework] selects the implementation. *)
Definition NewBackend {C} `{ChannOps C} {Conn} (framework ep : string)
    (dial : string -> result Conn) : outcome (result (backend C Conn)) :=
  if bool_decide (framework = "fake"%string) then Ret (Ok (FakeBackend newFakeBackend))
  else if bool_decide (framework = "grpc"%string) then
    Ret (match newGrpcBackend ep dial with
         | Ok g => Ok (GrpcBackend g)
         | Err e => Err e
         end)
  else Panic ("invalid framework: " +:+ framework).

Global Instance backend_executor {C} `{ChannOps C} Conn : Executor Conn (backend C Conn) := {
  Execute := fun b env req =>
    match b with
    | FakeBackend f =>
        let '(res, f) := fake_Execute f env req in (res, FakeBackend f)
    | GrpcBackend g =>
        let '(res, g) := grpc_Execute g env req in (res, GrpcBackend g)
    end;
  ExecTurn := fun b env x =>
    match b with
    | FakeBackend f => prod_map id FakeBackend <$> fake_ExecTurn f env x
    | GrpcBackend g => prod_map id GrpcBackend <$> grpc_ExecTurn g env x
    end;
  CloseTurn := fun b =>
    match b with
    | FakeBackend f => None
    | GrpcBackend g => GrpcBackend <$> grpc_CloseTurn g
    end
}.

(** ** The timeout *)

(** C30: [Timeout] is never below the base timeout of 15 seconds, whatever the
    SLO factor and the requested duration, overflow and NaN included; with an
    integer SLO factor it is exact: the larger of the base timeout and factor
    times the requested duration, as long as that fits a [time.Duration]. *)
Theorem timeout_exact (req : Request) :
  (forall factor, baseTimeout <= Timeout factor req) /\
  (forall n, 0 < n <= 2 ^ 53 -> 0 <= DurationMilliSec req ->
     DurationMilliSec req * n * Millisecond <= max_int64 ->
     Timeout (f64_of_Z n) req = Z.max baseTimeout (DurationMilliSec req * n * Millisecond)).
Proof.
  split.
  { intros factor. unfold Timeout. cbv zeta.
    case_eq (baseTimeout <? mul64 (f64_to_int64 (f64_mul (f64_of_Z (DurationMilliSec req)) factor))
               Millisecond); intros E; [apply Z.ltb_lt in E|]; lia. }
  intros n Hn Hd Hm. unfold Millisecond, max_int64 in Hm.
  assert (exact_int (DurationMilliSec req)) by (unfold exact_int; nia).
  assert (exact_int n) by (unfold exact_int; nia).
  assert (exact_int (DurationMilliSec req * n)) by (unfold exact_int; nia).
  unfold Timeout. rewrite f64_mul_int, f64_to_int64_of_Z by (done || lia).
  unfold mul64. rewrite int64_of_id.
  2: { unfold in_int64, min_int64, max_int64, Millisecond. nia. }
  cbv zeta. destruct (Z.ltb_spec baseTimeout (DurationMilliSec req * n * Millisecond)); lia.
Qed.

(** ** The connection pool *)

Lemma same_request_send r t : same_request (set_gateway_send r t) r.
Proof. repeat split. Qed.

Lemma same_request_refl r : same_request r r.
Proof. repeat split. Qed.

#[export] Hint Resolve same_request_send same_request_refl : kd.

Global Instance fake_executor_laws Conn : ExecutorLaws Conn fakeBackend.
Proof.
  refine {| exec_spare := fun _ => O; exec_held := fun _ _ => O; exec_shares := 1 |}; try done; [lia| |].
  - intros. eexists. split; [reflexivity|]. apply same_request_send.
  - intros e env x res e' [= <- <-]. split; [apply same_request_send|done].
Defined.

Global Instance fake_concurrent_laws Conn : ConcurrentExecutorLaws Conn fakeBackend.
Proof.
  split; intros; simpl; [done| |apply same_request_send]. eexists. split; [done|]. auto with kd.
Qed.

Section pool.
Context {C : Type -> Type} `{CL : ChannLaws C}.
Context {Conn : Type}.
Implicit Types g : grpcBackend C Conn.

Definition pool_items g : list Conn := ch_items (connectionPool g).

Lemma pool_fill_items n (pool : C Conn) conn :
  ch_items (pool_fill n pool conn) = ch_items pool ++ replicate n conn.
Proof.
  revert pool. induction n as [|n IH]; intros pool; simpl; [by rewrite app_nil_r|].
  rewrite IH, ch_items_send, <- app_assoc. done.
Qed.

Lemma newClient_spec g dial :
  match newClient g dial with
  | (Some e, g') => dial (endpoint g) = Err e /\ g' = g
  | (None, g') => exists conn, dial (endpoint g) = Ok conn /\ endpoint g' = endpoint g /\
      pool_items g' = pool_items g ++ replicate grpcExecutorConcurrency conn
  end.
Proof.
  unfold newClient. destruct (dial (endpoint g)) as [conn|e] eqn:E; [|done].
  exists conn. split_and!; try done. apply pool_fill_items.
Qed.

(** Up to its second receive, the acquisition takes the first pooled connection,
    or finds the pool empty and adds 50 shares of a new one, or reports the dial
    error. *)
Lemma getOrCreateClient_spec g dial :
  match getOrCreateClient g dial with
  | (Acquired conn, g') => endpoint g' = endpoint g /\ pool_items g = conn :: pool_items g'
  | (DialFailed e, g') => g' = g /\ pool_items g = [] /\ dial (endpoint g) = Err e
  | (MustWait, g') => endpoint g' = endpoint g /\ pool_items g = [] /\
      exists conn, dial (endpoint g) = Ok conn /\ pool_items g' = replicate grpcExecutorConcurrency conn
  end.
Proof.
  unfold getOrCreateClient. destruct (ch_recv (connectionPool g)) as [[conn pool]|] eqn:R.
  { apply ch_recv_some in R. by split. }
  apply ch_recv_none in R. pose proof (newClient_spec g dial) as Hn.
  destruct (newClient g dial) as [[e|] g'].
  { destruct Hn as [Hd ->]. split_and!; done. }
  destruct Hn as (conn & Hd & He & Hp). unfold pool_items in Hp. rewrite R in Hp. simpl in Hp.
  split_and!; [done..|]. by exists conn.
Qed.

Lemma awaitClient_spec g :
  match awaitClient g with
  | Some (conn, g') => endpoint g' = endpoint g /\ pool_items g = conn :: pool_items g'
  | None => pool_items g = []
  end.
Proof.
  unfold awaitClient. destruct (ch_recv (connectionPool g)) as [[conn pool]|] eqn:R.
  - apply ch_recv_some in R. by split.
  - by apply ch_recv_none.
Qed.

Lemma release_items g conn : pool_items (grpc_release g conn) = pool_items g ++ [conn].
Proof. apply ch_items_send. Qed.

Lemma grpc_call_request (conn : Conn) env req : same_request (Source (grpc_call conn env req)) req.
Proof. unfold grpc_call. cbv zeta. destruct (env_call _ _ _); simpl; auto with kd. Qed.

Hint Resolve grpc_call_request : kd.

(** Undisturbed, the second receive gets one of the shares just added. *)
Lemma undisturbed_receive g dial g' : getOrCreateClient g dial = (MustWait, g') ->
  exists conn g'', awaitClient g' = Some (conn, g'').
Proof.
  intros E. pose proof (getOrCreateClient_spec g dial) as Hs. rewrite E in Hs.
  destruct Hs as (_ & _ & conn & _ & Hp). pose proof (awaitClient_spec g') as Ha.
  destruct (awaitClient g') as [[c g'']|]; [eauto|]. rewrite Hp in Ha. done.
Qed.

Lemma grpc_Execute_returns g env req :
  exists res, fst (grpc_Execute g env req) = Some res /\ same_request (Source res) req.
Proof.
  unfold grpc_Execute. destruct (getOrCreateClient g _) as [[conn|e|] g'] eqn:E; [eauto with kd..|].
  destruct (undisturbed_receive _ _ _ E) as (conn & g'' & ->). eauto with kd.
Qed.

Lemma grpc_turn_goes g env x x' g' : grpc_ExecTurn g env x = Some (inl x', g') ->
  state_request x' = state_request x /\ (exec_left x' < exec_left x)%nat /\
  (exec_waits x' = true -> grpcExecutorConcurrency <= length (pool_items g'))%nat /\
  (length (pool_items g) + exec_holds x <= length (pool_items g') + exec_holds x')%nat.
Proof.
  destruct x as [req|req|conn req]; simpl; [| |done].
  - pose proof (getOrCreateClient_spec g (env_dial env)) as Hs.
    destruct (getOrCreateClient _ _) as [[conn|e|] g1]; intros [= <- <-]; simpl.
    + destruct Hs as [_ ->]. simpl. split_and!; [done|lia|done|lia].
    + destruct Hs as (_ & -> & conn & _ & ->). rewrite length_replicate. simpl. split_and!; [done|lia|lia|lia].
  - pose proof (awaitClient_spec g) as Hs. destruct (awaitClient g) as [[conn g1]|]; [|done].
    intros [= <- <-]. destruct Hs as [_ ->]. simpl. split_and!; [done|lia|done|lia].
Qed.

Lemma grpc_turn_ends g env x res g' : grpc_ExecTurn g env x = Some (inr res, g') ->
  same_request (Source res) (state_request x) /\
  (length (pool_items g) + exec_holds x <= length (pool_items g'))%nat.
Proof.
  destruct x as [req|req|conn req]; simpl.
  - pose proof (getOrCreateClient_spec g (env_dial env)) as Hs.
    destruct (getOrCreateClient _ _) as [[conn|e|] g1]; [done| |done]. intros [= <- <-].
    destruct Hs as (-> & _). split; [apply same_request_refl|lia].
  - by destruct (awaitClient g) as [[conn g1]|].
  - intros [= <- <-]. rewrite release_items, length_app. simpl. auto with kd.
Qed.

Lemma grpc_turn_waits g env x : grpc_ExecTurn g env x = None ->
  exec_waits x = true /\ length (pool_items g) = O.
Proof.
  destruct x as [req|req|conn req]; simpl; [by destruct (getOrCreateClient _ _) as [[| |] ?]| |done].
  pose proof (awaitClient_spec g) as Hs. destruct (awaitClient g) as [[conn g1]|]; [done|]. by rewrite Hs.
Qed.

Lemma grpc_Execute_turns g env req : grpc_Execute g env req = exec_alone 3 g env (ExecBegins req).
Proof.
  simpl. unfold grpc_Execute. destruct (getOrCreateClient _ _) as [[conn|e|] g1]; [done..|].
  simpl. by destruct (awaitClient g1) as [[conn g2]|].
Qed.

Global Instance grpc_executor_laws : ExecutorLaws Conn (grpcBackend C Conn).
Proof.
  refine {| exec_spare := fun g => length (pool_items g); exec_held := fun _ => exec_holds;
            exec_shares := grpcExecutorConcurrency |}; try done.
  - unfold grpcExecutorConcurrency. lia.
  - apply grpc_Execute_turns.
  - apply grpc_Execute_returns.
  - apply grpc_turn_waits.
  - intros g env x x' g' E. destruct (grpc_turn_goes g env x x' g' E) as (-> & ? & ? & ?). auto with kd.
  - apply grpc_turn_ends.
Defined.

Global Instance grpc_concurrent_laws : ConcurrentExecutorLaws Conn (grpcBackend C Conn).
Proof.
  split.
  - intros g env req. simpl. unfold grpc_Execute, grpc_start, grpc_finish.
    destruct (getOrCreateClient _ _) as [[conn|e|] g1]; [done..|]. by destruct (awaitClient g1) as [[conn g2]|].
  - intros g env req. simpl. unfold grpc_start.
    destruct (getOrCreateClient g _) as [[conn|e|] g'] eqn:E; [eexists; split; [done|]; simpl; auto with kd..|].
    destruct (undisturbed_receive _ _ _ E) as (conn & g'' & ->). eexists. split; [done|]. simpl. auto with kd.
  - intros g env [req|conn req]; simpl; auto with kd.
Qed.

(** The laws of the backend are those of the one that it is. *)
Global Instance backend_executor_laws : ExecutorLaws Conn (backend C Conn).
Proof.
  refine {| exec_spare := fun b => match b with FakeBackend _ => O | GrpcBackend g => length (pool_items g) end;
            exec_held := fun b x => match b with FakeBackend _ => O | GrpcBackend g => exec_holds x end;
            exec_shares := grpcExecutorConcurrency |}.
  - unfold grpcExecutorConcurrency. lia.
  - intros [f|g] env req; [done|]. simpl. rewrite grpc_Execute_turns. simpl.
    destruct (getOrCreateClient _ _) as [[conn|e|] g1]; [done..|]. simpl.
    by destruct (awaitClient g1) as [[conn g2]|].
  - intros [f|g] env req; simpl; [eexists; split; [reflexivity|]; apply same_request_send|].
    destruct (grpc_Execute_returns g env req) as (res & E & S). destruct (grpc_Execute g env req). eauto.
  - intros [f|g] env x; simpl; [done|]. rewrite fmap_None. apply grpc_turn_waits.
  - intros [f|g] env x x' b'; simpl; [done|]. intros ([r g1] & E & X)%fmap_Some. simpl in X. simplify_eq.
    destruct (grpc_turn_goes g env x x' g1 E) as (-> & ? & ? & ?). auto with kd.
  - intros [f|g] env x res b'; simpl.
    + intros [= <- <-]. split; [apply same_request_send|done].
    + intros ([r g1] & E & X)%fmap_Some. simpl in X. simplify_eq. by apply grpc_turn_ends in E.
  - intros [f|g] env x r b' y; simpl; [by intros [= <- <-]|]. intros ([r1 g1] & E & X)%fmap_Some. simpl in X. by simplify_eq.
  - intros [f|g] b' y; simpl; [done|]. by intros (g1 & E & ->)%fmap_Some.
  - by intros [].
  - by intros [].
Defined.

(** *** Interleaved executions

    The pool with the connections held by running executions, the executions at
    the second receive, and the number of clients dialled. *)
Record pool_state : Type := mkPool {
  ps_backend : grpcBackend C Conn;
  ps_held : list Conn;
  ps_waiting : nat;
  ps_clients : nat
}.

Inductive pool_step : pool_state -> pool_state -> Prop :=
| pool_acquire p dial conn g :
    getOrCreateClient (ps_backend p) dial = (Acquired conn, g) ->
    pool_step p (mkPool g (conn :: ps_held p) (ps_waiting p) (ps_clients p))
| pool_dial p dial g :
    getOrCreateClient (ps_backend p) dial = (MustWait, g) ->
    pool_step p (mkPool g (ps_held p) (S (ps_waiting p)) (S (ps_clients p)))
| pool_await p waiting conn g :
    ps_waiting p = S waiting -> awaitClient (ps_backend p) = Some (conn, g) ->
    pool_step p (mkPool g (conn :: ps_held p) waiting (ps_clients p))
| pool_dial_error p dial e g :
    getOrCreateClient (ps_backend p) dial = (DialFailed e, g) ->
    pool_step p (mkPool g (ps_held p) (ps_waiting p) (ps_clients p))
| pool_release p held1 conn held2 :
    ps_held p = held1 ++ conn :: held2 ->
    pool_step p (mkPool (grpc_release (ps_backend p) conn) (held1 ++ held2) (ps_waiting p) (ps_clients p)).

Definition pool_balanced (p : pool_state) : Prop :=
  (length (pool_items (ps_backend p)) + length (ps_held p)
   = grpcExecutorConcurrency * ps_clients p)%nat.

Lemma pool_step_balanced p p' : pool_step p p' -> pool_balanced p -> pool_balanced p'.
Proof.
  unfold pool_balanced. intros [q dial conn g E|q dial g E|q n conn g Hn E|q dial e g E|q h1 conn h2 E] B; simpl.
  - pose proof (getOrCreateClient_spec (ps_backend q) dial) as S. rewrite E in S.
    destruct S as [_ Hp]. rewrite Hp in B. simpl in B. lia.
  - pose proof (getOrCreateClient_spec (ps_backend q) dial) as S. rewrite E in S.
    destruct S as (_ & Hp & conn & _ & ->). rewrite Hp in B. rewrite length_replicate. simpl in B. unfold grpcExecutorConcurrency in *. lia.
  - pose proof (awaitClient_spec (ps_backend q)) as S. rewrite E in S.
    destruct S as [_ Hp]. rewrite Hp in B. simpl in B. lia.
  - pose proof (getOrCreateClient_spec (ps_backend q) dial) as S. rewrite E in S.
    by destruct S as (-> & _ & _).
  - rewrite release_items. rewrite E in B. rewrite !length_app in *. simpl in *. lia.
Qed.

(** C29: connections are conserved.  A new gRPC backend has dialled one client;
    whatever the interleaving of executions that receive, dial, wait and release, the
    pooled and the held connections together are 50 per dialled client, so a
    finished load leaves every connection back in the pool. *)
Theorem grpc_pool_conserved ep dial g p :
  newGrpcBackend ep dial = Ok g ->
  rtc pool_step (mkPool g [] 0 1) p ->
  (length (pool_items (ps_backend p)) + length (ps_held p) = 50 * ps_clients p)%nat.
Proof.
  intros N R. assert (pool_balanced (mkPool g [] 0 1)) as B0.
  { unfold newGrpcBackend in N. pose proof (newClient_spec (mkGrpc ep ch_new) dial) as S.
    destruct (newClient _ _) as [[e|] g']; [done|]. injection N as <-.
    destruct S as (conn & _ & _ & Hp). unfold pool_balanced. simpl.
    unfold pool_items in Hp at 2. simpl in Hp. rewrite ch_items_new in Hp. by rewrite Hp. }
  clear N. induction R as [|q q' r S R IH]; [exact B0|]. eauto using pool_step_balanced.
Qed.

(** A [grpcBackend] that is being closed never returns from [Close]: the
    loop over the pool waits for the channel to be closed, which only the
    statement after the loop does.  Every pooled connection is closed, then
    the goroutine waits for ever. *)
Theorem grpc_close_never_returns g c :
  rtc close_step (close_start g) c ->
  cl_returned c = false /\ cl_pool_closed c = false /\
  (ch_items (cl_pool c) = [] -> close_turn c = None).
Proof.
  intros R. assert (cl_returned c = false /\ cl_pool_closed c = false) as [Hr Hc].
  { assert (cl_returned (close_start g) = false /\ cl_pool_closed (close_start g) = false) as I
      by done.
    revert I. induction R as [|q q' r S R IH]; [done|]. intros [I1 I2]. apply IH.
    destruct S as [q q' T|q conn]; [|done]. unfold close_turn in T.
    rewrite I2 in T. by destruct (ch_recv _) as [[]|]; simplify_eq/=. }
  split_and!; [done|done|]. intros E. unfold close_turn. rewrite Hc.
  apply ch_recv_none in E. by rewrite E.
Qed.

(** What [Execute] of a gRPC backend returns, undisturbed: always a response for the
    request; [FAIL_CONNECT] exactly when the pool is empty and the dial fails,
    and then nothing was sent; otherwise [FAIL_TIMEOUT] when the call reports
    an exceeded deadline, [FAIL_SEND] when it fails otherwise, and [SUCCESS]
    with the handler's runtime.  The call carries the duration as a [uint32]. *)
Theorem grpc_execute_statuses g env req :
  exists res, fst (Execute g env req) = Some res /\ same_request (Source res) req /\
  ((exists e, pool_items g = [] /\ env_dial env (endpoint g) = Err e /\
     res = mkResponse req FAIL_CONNECT zero_time zero_time 0) \/
   (exists conn, GatewaySendTS (Source res) = env_start env /\
     match env_call env conn (uint32_of (DurationMilliSec req)) with
     | Ok d => ResStatus res = SUCCESS /\ RuntimeMicroSec res = d /\
               ResGatewayRecvTS res = env_finish env
     | Err e => ResStatus res = (if decide (err_is e = KDeadlineExceeded)
                                 then FAIL_TIMEOUT else FAIL_SEND) /\
                ResGatewayRecvTS res = zero_time
     end)).
Proof.
  assert (forall conn : Conn, let res := grpc_call conn env req in
    same_request (Source res) req /\ GatewaySendTS (Source res) = env_start env /\
    match env_call env conn (uint32_of (DurationMilliSec req)) with
    | Ok d => ResStatus res = SUCCESS /\ RuntimeMicroSec res = d /\ ResGatewayRecvTS res = env_finish env
    | Err e => ResStatus res = (if decide (err_is e = KDeadlineExceeded) then FAIL_TIMEOUT else FAIL_SEND) /\
               ResGatewayRecvTS res = zero_time
    end) as Called.
  { intros conn res. split; [apply grpc_call_request|]. unfold res, grpc_call. cbv zeta. simpl.
    destruct (env_call _ _ _); simpl; [done|]. split_and!; try done. case_bool_decide; by case_decide. }
  simpl. unfold grpc_Execute. pose proof (getOrCreateClient_spec g (env_dial env)) as Hs.
  destruct (getOrCreateClient g _) as [[conn|e|] g'] eqn:E; [| |].
  - destruct (Called conn) as [A B]. eexists. split; [done|]. split; [exact A|right; exists conn; exact B].
  - eexists. split; [done|]. split; [apply same_request_refl|left; naive_solver].
  - destruct (undisturbed_receive _ _ _ E) as (conn & g'' & ->). destruct (Called conn) as [A B].
    eexists. split; [done|]. split; [exact A|right; exists conn; exact B].
Qed.

End pool.

(** ** Witnesses *)

Definition demo_dial (ep : string) : result nat := Ok 7%nat.

Definition demo_request : Request := mkRequest "0" "ns/app" 4000 0 0 0 0 0.

Lemma timeout_exact_witness : Timeout default_timeoutFactor demo_request = 20 * Second.
Proof.
  exact (proj2 (timeout_exact demo_request) 5 ltac:(lia) ltac:(simpl; lia) ltac:(vm_compute; discriminate)).
Defined.

Definition demo_grpc : grpcBackend list nat :=
  mkGrpc "10.0.0.1:80" (replicate 50 7%nat).

Lemma grpc_pool_conserved_witness :
  (length (pool_items (ps_backend (mkPool (mkGrpc (C := list) "10.0.0.1:80" (replicate 49 7%nat)) [7%nat] 0 1)))
   + length [7%nat] = 50 * 1)%nat.
Proof.
  apply (grpc_pool_conserved (C := list) "10.0.0.1:80" demo_dial demo_grpc
    (mkPool (mkGrpc (C := list) "10.0.0.1:80" (replicate 49 7%nat)) [7%nat] 0 1)); [reflexivity|].
  apply rtc_once.
  exact (pool_acquire (C := list) (mkPool demo_grpc [] 0 1) demo_dial 7%nat
    (mkGrpc (C := list) "10.0.0.1:80" (replicate 49 7%nat)) eq_refl).
Defined.

Lemma grpc_close_never_returns_witness :
  cl_returned (mkClosing (C := list) (replicate 49 7%nat) false [7%nat] false) = false.
Proof.
  apply (grpc_close_never_returns (C := list) demo_grpc). apply rtc_once. apply close_turns. reflexivity.
Defined.
