(* ===== verification/Autoscaler.v ===== *)
(** * Package [autoscaler]: the autoscaling loop

    Models [pkg/autoscaler]: the deployment scaler ([scaler/deployment.go]),
    the loop shared by decider-driven autoscalers ([interface.go]: requests in
    and out, tickers, the work queue and its workers), the Knative autoscaler
    built on it ([kpa.go]) and the one-time autoscaler ([onetime.go]).  The
    loop is defined over the interface of a decider, which the KPA decider
    implements; the API client and the work queue are interfaces as well. *)

From S2P Require Import Prelude GoTypes Float64 Float64Facts Interfaces Kube Workload Metric Decider.

Local Open Scope Z_scope.

(** ** The interface [Decider] *)

(** [dec_collect] is a tick of the collector that [Activate] starts. *)
Class DeciderOps (D : Type) : Type := {
  dec_ReqIn : D -> Z -> float64 * D;
  dec_ReqOut : D -> Z -> float64 * D;
  dec_Activate : D -> bool * D;
  dec_Reconcile : D -> Z -> Z -> result Z * D;
  dec_Desired : D -> Z;
  dec_collect : D -> Z -> D
}.

(** What the loop relies on: [Activate] succeeds once, the load counts the
    requests in and out, and the desired scale is that of the last decision. *)
Class DeciderLaws (D : Type) `{DeciderOps D} : Type := {
  dec_active : D -> bool;
  dec_load : D -> float64;
  dec_Activate_once : forall d, fst (dec_Activate d) = negb (dec_active d);
  dec_Activate_active : forall d, dec_active (snd (dec_Activate d)) = true;
  dec_Activate_load : forall d, dec_load (snd (dec_Activate d)) = dec_load d;
  dec_ReqIn_active : forall d now, dec_active (snd (dec_ReqIn d now)) = dec_active d;
  dec_ReqIn_load : forall d now,
    dec_load (snd (dec_ReqIn d now)) = f64_add (dec_load d) (f64_of_Z 1);
  dec_ReqOut_active : forall d now, dec_active (snd (dec_ReqOut d now)) = dec_active d;
  dec_ReqOut_load : forall d now,
    dec_load (snd (dec_ReqOut d now)) = f64_sub (dec_load d) (f64_of_Z 1);
  dec_Reconcile_active : forall d now n, dec_active (snd (dec_Reconcile d now n)) = dec_active d;
  dec_Reconcile_load : forall d now n, dec_load (snd (dec_Reconcile d now n)) = dec_load d;
  dec_Reconcile_desired : forall d now n desired,
    fst (dec_Reconcile d now n) = Ok desired ->
    dec_Desired (snd (dec_Reconcile d now n)) = int32_of desired;
  dec_collect_active : forall d now, dec_active (dec_collect d now) = dec_active d;
  dec_collect_load : forall d now, dec_load (dec_collect d now) = dec_load d
}.

Global Instance kpa_decider_ops {B W} `{TimedBucketsOps B} `{TimeWindowOps W} :
    DeciderOps (KPADecider B W) := {
  dec_ReqIn := decider_ReqIn;
  dec_ReqOut := decider_ReqOut;
  dec_Activate := Activate;
  dec_Reconcile := fun k now n => let '(desired, k) := Reconcile k now n in (Ok desired, k);
  dec_Desired := Desired;
  dec_collect := decider_collect
}.

(** ** [DeploymentScaler] *)

Section scaler.
Context {S : Type} `{ClientOps S}.

(** The cluster may change between the two API calls: the deployment is read in
    [read], the update meets [cl]. *)
Definition Scale (read cl : S) (key : string) (desired : Z) : outcome (result bool * S) :=
  nn ← NamespacedNameFromKey key;
  match cl_get_deployment read nn with
  | Err e => Ret (Err (errorf ("failed to get deployment " +:+ key +:+ ": " +:+ err_text e)), cl)
  | Ok deployment =>
      match DeletionTimestamp (dep_meta deployment) with
      | Some _ => Ret (Err (errorf ("deployment " +:+ key +:+ " is being deleted")), cl)
      | None =>
          if bool_decide (Replicas deployment = Some (int32_of desired)) then Ret (Ok false, cl)
          else
            match cl_update_scale cl deployment (int32_of desired) with
            | (Err e, cl) => Ret (Err e, cl)
            | (Ok _, cl) => Ret (Ok true, cl)
            end
      end
  end.

End scaler.

(** [strings.Contains]. *)
Fixpoint contains (sub s : string) : bool :=
  String.prefix sub s ||
  match s with
  | EmptyString => false
  | String _ s' => contains sub s'
  end.

(** ** [autoscalerImpl] *)

(** [runCtx] tells whether [Run] was called; [tickers] are the keys of the
    goroutines that run [tickAutoScaler]. *)
Record autoscalerImpl (Q : Type -> Type) (D : Type) : Type := mkAutoscaler {
  as_framework : string;
  as_async : bool;
  as_tickInterval : Z;
  deciders : gmap string D;
  queue : Q string;
  runCtx : bool;
  tickers : list string
}.

Arguments mkAutoscaler {Q D}.
Arguments as_framework {Q D}.
Arguments as_async {Q D}.
Arguments as_tickInterval {Q D}.
Arguments deciders {Q D}.
Arguments queue {Q D}.
Arguments runCtx {Q D}.
Arguments tickers {Q D}.

(** The number of workers that [Run] starts. *)
Definition maxConcurrentScalers : nat := 16.

Section autoscaler.
Context {Q : Type -> Type} `{WorkQueueOps Q}.
Context {D : Type} `{DeciderOps D}.
Context {S : Type} `{ClientOps S}.
(** [kdutil.IsPodReady]. *)
Variable IsPodReady : Pod -> bool.

Definition set_decider (s : autoscalerImpl Q D) (key : string) (d : D) : autoscalerImpl Q D :=
  mkAutoscaler (as_framework s) (as_async s) (as_tickInterval s) (<[key := d]> (deciders s))
    (queue s) (runCtx s) (tickers s).

Definition set_queue (s : autoscalerImpl Q D) (q : Q string) : autoscalerImpl Q D :=
  mkAutoscaler (as_framework s) (as_async s) (as_tickInterval s) (deciders s) q (runCtx s)
    (tickers s).

Definition start_ticker (s : autoscalerImpl Q D) (key : string) : autoscalerImpl Q D :=
  mkAutoscaler (as_framework s) (as_async s) (as_tickInterval s) (deciders s) (queue s) (runCtx s)
    (key :: tickers s).

(** The cluster as each read of one scaling finds it: that of the deployment, of
    the pods, and of the deployment again by the scaler. *)
Record scale_reads : Type := mkReads {
  rd_target : S;
  rd_pods : S;
  rd_scaler : S
}.

(** [scale], with the instant that it hands to the decider; the update of the
    scale meets the cluster [cl].  The log line of a successful scaling
    dereferences the replicas of the deployment it read. *)
Definition scale (s : autoscalerImpl Q D) (rd : scale_reads) (cl : S) (key : string) (now : Z) :
    outcome (option error * autoscalerImpl Q D * S) :=
  match deciders s !! key with
  | None => Panic ("Scaling error: no decider for key " +:+ key)
  | Some d =>
      nn ← NamespacedNameFromKey key;
      match cl_get_deployment (rd_target rd) nn with
      | Err e =>
          Ret (Some (errorf ("failed to get deployment " +:+ key +:+ ": " +:+ err_text e)), s, cl)
      | Ok target =>
          match cl_list_pods (rd_pods rd) (Namespace (dep_meta target)) (TemplateLabels target) with
          | Err e =>
              Ret (Some (errorf ("failed to list pods for key " +:+ key +:+ ": " +:+ err_text e)), s, cl)
          | Ok pods =>
              let nReady := Z.of_nat (count IsPodReady pods) in
              let '(decision, d) := dec_Reconcile d now nReady in
              let s := set_decider s key d in
              match decision with
              | Err e =>
                  Ret (Some (errorf ("failed to get desired scale for key " +:+ key +:+ ": "
                                     +:+ err_text e)), s, cl)
              | Ok desired =>
                  '(scaled, cl) ← Scale (rd_scaler rd) cl key desired;
                  match scaled with
                  | Err e =>
                      Ret (Some (errorf ("failed to scale " +:+ key +:+ ": " +:+ err_text e)), s, cl)
                  | Ok true =>
                      match Replicas target with
                      | Some _ => Ret (None, s, cl)
                      | None => nil_deref
                      end
                  | Ok false => Ret (None, s, cl)
                  end
              end
          end
      end
  end.

(** [Run] starts the workers and publishes the context. *)
Definition as_Run (s : autoscalerImpl Q D) : autoscalerImpl Q D :=
  mkAutoscaler (as_framework s) (as_async s) (as_tickInterval s) (deciders s) (queue s) true
    (tickers s).

(** A worker between [queue.Get] and [queue.Done]. *)
Definition worker_get (s : autoscalerImpl Q D) : option (string * autoscalerImpl Q D) :=
  match wq_get (queue s) with
  | Some (key, q) => Some (key, set_queue s q)
  | None => None
  end.

(** The item itself: an etcd compaction error stops the process, any other
    error is logged, and the key is not requeued. *)
Definition worker_scale (s : autoscalerImpl Q D) (rd : scale_reads) (cl : S) (key : string) (now : Z) :
    outcome (autoscalerImpl Q D * S) :=
  '(err, s, cl) ← scale s rd cl key now;
  let s := set_queue s (wq_done (queue s) key) in
  match err with
  | Some e => if contains "mvcc" (err_text e) then Panic (err_text e) else Ret (s, cl)
  | None => Ret (s, cl)
  end.

Definition processNextItem (s : autoscalerImpl Q D) (rd : scale_reads) (cl : S) (now : Z) :
    option (outcome (autoscalerImpl Q D * S)) :=
  match worker_get s with
  | Some (key, s) => Some (worker_scale s rd cl key now)
  | None => None
  end.

(** A turn of the loop of [tickAutoScaler]. *)
Definition as_tick (s : autoscalerImpl Q D) (key : string) : autoscalerImpl Q D :=
  set_queue s (wq_add (queue s) key).

(** A ticker cannot be made for an interval that is not positive; the panic of
    the goroutine that tries ends the process. *)
Definition start_ticker_checked (s : autoscalerImpl Q D) (key : string) :
    outcome (autoscalerImpl Q D) :=
  if as_tickInterval s <=? 0 then Panic "non-positive interval for NewTicker"
  else Ret (start_ticker s key).

Definition as_ReqIn (s : autoscalerImpl Q D) (req : Request) (now : Z) :
    outcome (autoscalerImpl Q D) :=
  if negb (runCtx s) then Panic "autoscaler not started"
  else
    let key := Target req in
    match deciders s !! key with
    | None => Panic ("Req in id " +:+ ID req +:+ ": no decider for key " +:+ key)
    | Some d =>
        let '(_, d) := dec_ReqIn d now in
        let '(activated, d) := dec_Activate d in
        let s := set_decider s key d in
        s ← (if activated then start_ticker_checked s key else Ret s);
        Ret (if negb (as_async s) && (dec_Desired d =? 0)
             then set_queue s (wq_add (queue s) key) else s)
    end.

Definition as_ReqOut (s : autoscalerImpl Q D) (res : Response) (now : Z) :
    outcome (autoscalerImpl Q D) :=
  if negb (runCtx s) then Panic "autoscaler not started"
  else
    let key := Target (Source res) in
    match deciders s !! key with
    | None => Panic ("Req out id " +:+ ID (Source res) +:+ ": no decider for key " +:+ key)
    | Some d =>
        let '(_, d) := dec_ReqOut d now in
        Ret (set_decider s key d)
    end.

(** A tick of the collector of an active decider. *)
Definition as_collect (s : autoscalerImpl Q D) (key : string) (now : Z) : autoscalerImpl Q D :=
  match deciders s !! key with
  | Some d => set_decider s key (dec_collect d now)
  | None => s
  end.

End autoscaler.

Arguments scale_reads S : clear implicits.
Arguments mkReads {S}.

(** All reads find the same cluster. *)
Definition same_reads {S} (cl : S) : scale_reads S := mkReads cl cl cl.

(** ** [KnativeAutoscaler] *)

Record KnativeAutoscalerConfig : Type := mkKnativeConfig {
  kc_client : bool;
  Async : bool;
  TargetConcurrency : float64;
  MaxScaleUpRate : float64;
  MaxScaleDownRate : float64;
  StableWindowSeconds : float64;
  PanicWindowPercentage : float64;
  PanicThresholdPercentage : float64;
  ScaleDownDelaySeconds : Z;
  TickIntervalSeconds : Z
}.

(** [Complete] on a nil configuration dereferences it. *)
Definition knative_Complete (cfg : option KnativeAutoscalerConfig) :
    outcome KnativeAutoscalerConfig :=
  match cfg with
  | None => nil_deref
  | Some c =>
      Ret (mkKnativeConfig true (Async c)
             (if f64_eq (TargetConcurrency c) (f64_of_Z 0) then f64_of_Z 100 else TargetConcurrency c)
             (MaxScaleUpRate c) (MaxScaleDownRate c) (StableWindowSeconds c)
             (PanicWindowPercentage c) (PanicThresholdPercentage c) (ScaleDownDelaySeconds c)
             (TickIntervalSeconds c))
  end.

Section knative.
Context {Q : Type -> Type} {B W : Type} `{TimedBucketsOps B} `{TimeWindowOps W}.

Definition kpa_stable_window (cfg : KnativeAutoscalerConfig) : Z :=
  mul64 (f64_to_int64 (StableWindowSeconds cfg)) Second.

Definition kpa_panic_window (cfg : KnativeAutoscalerConfig) : Z :=
  mul64 (f64_to_int64 (f64_mul (f64_div (PanicWindowPercentage cfg) (f64_of_Z 100))
                         (StableWindowSeconds cfg))) Second.

Definition new_kpa_for (cfg : KnativeAutoscalerConfig) (key : string) : KPADecider B W :=
  NewKPADecider key (TargetConcurrency cfg) (MaxScaleUpRate cfg) (MaxScaleDownRate cfg)
    (kpa_stable_window cfg) (kpa_panic_window cfg)
    (f64_div (PanicThresholdPercentage cfg) (f64_of_Z 100))
    (mul64 (ScaleDownDelaySeconds cfg) Second) (mul64 (TickIntervalSeconds cfg) Second).

(** [emptyq] is a new work queue.  [NewDeploymentScaler] cannot fail. *)
Definition NewKnativeAutoscaler (emptyq : Q string) (cfg : KnativeAutoscalerConfig)
    (keys : list string) : autoscalerImpl Q (KPADecider B W) :=
  mkAutoscaler "kpa" (Async cfg) (mul64 (TickIntervalSeconds cfg) Second)
    (foldl (fun m key => <[key := new_kpa_for cfg key]> m) ∅ keys) emptyq false [].

End knative.

(** ** [OneTimeAutoscaler] *)

Record OneTimeAutoscalerConfig : Type := mkOneTimeConfig {
  oc_client : bool;
  InitialScale : Z
}.

Definition onetimeInitialScale : Z := 1.

Definition onetime_Complete (cfg : option OneTimeAutoscalerConfig) : OneTimeAutoscalerConfig :=
  match cfg with
  | None => mkOneTimeConfig true onetimeInitialScale
  | Some c => mkOneTimeConfig true (InitialScale c)
  end.

(** [spawned] are the goroutines that [ReqIn] started and that have not yet
    called the scaler. *)
Record OneTimeAutoscaler : Type := mkOneTime {
  ot_started : bool;
  seen : gmap string bool;
  initialScale : Z;
  spawned : list string
}.

Definition NewOneTimeAutoscaler (cfg : OneTimeAutoscalerConfig) (keys : list string) :
    OneTimeAutoscaler :=
  mkOneTime false (foldl (fun m key => <[key := false]> m) ∅ keys) (InitialScale cfg) [].

Definition ot_Run (s : OneTimeAutoscaler) : OneTimeAutoscaler :=
  mkOneTime true (seen s) (initialScale s) (spawned s).

(** Reading an absent key of [seen] gives [false]. *)
Definition ot_ReqIn (s : OneTimeAutoscaler) (req : Request) : OneTimeAutoscaler :=
  let key := Target req in
  if negb (default false (seen s !! key)) then
    mkOneTime (ot_started s) (<[key := true]> (seen s)) (initialScale s) (key :: spawned s)
  else s.

Definition ot_ReqOut (s : OneTimeAutoscaler) (res : Response) : OneTimeAutoscaler := s.

(** The body of the goroutine: an error of the scaler is logged. *)
Definition ot_scale {S} `{ClientOps S} (s : OneTimeAutoscaler) (read cl : S) (key : string) :
    outcome S :=
  '(_, cl) ← Scale read cl key (initialScale s); Ret cl.

(** ** [AutoscalerConfig] *)

Record AutoscalerConfig : Type := mkAutoscalerConfig {
  Knative : option KnativeAutoscalerConfig;
  OneTime : option OneTimeAutoscalerConfig
}.

(** [readFile] is [os.ReadFile], [unmarshal] is [yaml.Unmarshal].  The empty
    path gives a nil configuration and no error. *)
Definition NewAutoscalerConfigFrom (readFile : string -> result string)
    (unmarshal : string -> result AutoscalerConfig) (configPath : string) :
    result (option AutoscalerConfig) :=
  if bool_decide (configPath = ""%string) then Ok None
  else
    match readFile configPath with
    | Err e => Err (errorf ("failed to read gateway YAML config: " +:+ err_text e))
    | Ok text =>
        match unmarshal text with
        | Err e => Err (errorf ("failed to unmarshal YAML config: " +:+ err_text e))
        | Ok config => Ok (Some config)
        end
    end.

(** ** The KPA decider implements the interface *)

Section kpa_laws.
Context {B W : Type} `{TimedBucketsOps B} `{TimeWindowOps W}.

Global Instance kpa_decider_laws : DeciderLaws (KPADecider B W).
Proof.
  refine {| dec_active := fun k => negb (active k =? 0);
            dec_load := fun k => InstantConcurrency (stats (collector k)) |}; simpl.
  - intros k. unfold Activate. by destruct (active k =? 0).
  - intros k. unfold Activate. destruct (active k =? 0) eqn:E; simpl; [done|]. by rewrite E.
  - intros k. unfold Activate. by destruct (active k =? 0).
  - done.
  - intros k now. simpl. unfold InstantConcurrency. simpl. by rewrite (proj1 (Move_concurrency _ _)).
  - done.
  - intros k now. simpl. unfold InstantConcurrency. simpl. by rewrite (proj1 (Move_concurrency _ _)).
  - intros k now n. rewrite Reconcile_eq. by repeat break_goal.
  - intros k now n. rewrite Reconcile_eq. by repeat break_goal.
  - intros k now n desired. rewrite Reconcile_eq. repeat break_goal; simpl; congruence.
  - done.
  - intros k now. unfold decider_collect, collect. simpl. unfold InstantConcurrency.
    unfold Report. simpl. by rewrite (proj1 (Move_concurrency _ _)).
Defined.

End kpa_laws.

(** ** The deployment scaler *)

Section scale_facts.
Context {S : Type} `{ClientOps S}.

(** [Scale] on every branch.  It touches the cluster only to update the
    scale of a deployment that exists, is not being deleted and whose replicas
    differ from [int32(desired)], and it reports [true] exactly when that
    update was accepted. *)
Theorem scale_outcome (read cl : S) (ns app : string) (desired : Z) :
  no_slash ns = true -> no_slash app = true ->
  exists r cl', Scale read cl (ns +:+ "/" +:+ app) desired = Ret (r, cl') /\
  match cl_get_deployment read (mkNamespacedName ns app) with
  | Err _ => is_ok r = false /\ cl' = cl
  | Ok d =>
      if bool_decide (is_Some (DeletionTimestamp (dep_meta d))) then is_ok r = false /\ cl' = cl
      else if bool_decide (Replicas d = Some (int32_of desired)) then r = Ok false /\ cl' = cl
      else cl' = snd (cl_update_scale cl d (int32_of desired)) /\
           match fst (cl_update_scale cl d (int32_of desired)) with
           | Ok _ => r = Ok true
           | Err e => r = Err e
           end
  end.
Proof.
  intros Hn Ha. unfold Scale. rewrite key_parse by done. simpl.
  destruct (cl_get_deployment read _) as [d|e]; [|eauto].
  destruct (DeletionTimestamp (dep_meta d)) as [t|].
  { eexists _, _. split; [done|]. rewrite bool_decide_eq_true_2 by eauto. done. }
  rewrite (bool_decide_eq_false_2 (is_Some None)) by (by intros []).
  destruct (bool_decide (Replicas d = _)); [eauto|].
  destruct (cl_update_scale cl d _) as [[u|e] cl'] eqn:U; simpl; eauto.
Qed.

End scale_facts.

(** ** The loop *)

Section loop.
Context {Q : Type -> Type} `{QL : WorkQueueLaws Q}.
Context {D : Type} `{DL : DeciderLaws D}.
Context {S : Type} `{ClientOps S}.
Variable IsPodReady : Pod -> bool.
Implicit Types s : autoscalerImpl Q D.

(** The autoscaler with its cluster, the keys that its workers are processing,
    and the difference of the requests in and out per target. *)
Record as_world : Type := mkWorld {
  w_as : autoscalerImpl Q D;
  w_cluster : S;
  w_busy : list string;
  w_in_flight : string -> Z
}.

Definition bump (f : string -> Z) (key : string) (n : Z) : string -> Z :=
  fun k => if decide (k = key) then f k + n else f k.

(** One step of a running autoscaler: a request in or out, a turn of a ticker
    or of a collector, one of the workers that takes a key, and a worker that
    finishes its key, in any order; each read of a scaling may have met any
    cluster. *)
Inductive as_step : as_world -> as_world -> Prop :=
| step_in w req now s' :
    as_ReqIn (w_as w) req now = Ret s' ->
    as_step w (mkWorld s' (w_cluster w) (w_busy w) (bump (w_in_flight w) (Target req) 1))
| step_out w res now s' :
    as_ReqOut (w_as w) res now = Ret s' ->
    as_step w (mkWorld s' (w_cluster w) (w_busy w) (bump (w_in_flight w) (Target (Source res)) (-1)))
| step_tick w key :
    key ∈ tickers (w_as w) ->
    as_step w (mkWorld (as_tick (w_as w) key) (w_cluster w) (w_busy w) (w_in_flight w))
| step_collect w key now :
    key ∈ tickers (w_as w) ->
    as_step w (mkWorld (as_collect (w_as w) key now) (w_cluster w) (w_busy w) (w_in_flight w))
| step_get w key s' :
    (length (w_busy w) < maxConcurrentScalers)%nat -> worker_get (w_as w) = Some (key, s') ->
    as_step w (mkWorld s' (w_cluster w) (key :: w_busy w) (w_in_flight w))
| step_scale w busy1 key busy2 rd now s' cl' :
    w_busy w = busy1 ++ key :: busy2 ->
    worker_scale IsPodReady (w_as w) rd (w_cluster w) key now = Ret (s', cl') ->
    as_step w (mkWorld s' cl' (busy1 ++ busy2) (w_in_flight w)).

(** The deciders after an operation: the same targets, and only the decider of
    [key] changed. *)
Definition only_decider (s s' : autoscalerImpl Q D) (key : string) (d d' : D) : Prop :=
  deciders s !! key = Some d /\ deciders s' = <[key := d']> (deciders s) /\
  as_async s' = as_async s /\ runCtx s' = runCtx s.

Lemma as_ReqIn_spec s req now s' :
  as_ReqIn s req now = Ret s' ->
  exists d, let d' := snd (dec_Activate (snd (dec_ReqIn d now))) in
  only_decider s s' (Target req) d d' /\
  tickers s' = (if dec_active d then tickers s else Target req :: tickers s) /\
  wq_processing (queue s') = wq_processing (queue s) /\
  wq_dirty (queue s') = (if negb (as_async s) && (dec_Desired d' =? 0)
                         then {[Target req]} ∪ wq_dirty (queue s) else wq_dirty (queue s)).
Proof.
  unfold as_ReqIn. destruct (runCtx s) eqn:Er; simpl; [|done].
  destruct (deciders s !! Target req) as [d|] eqn:Ed; [|done]. intros E. exists d.
  pose proof (dec_Activate_once (snd (dec_ReqIn d now))) as Ha. rewrite dec_ReqIn_active in Ha.
  destruct (dec_ReqIn d now) as [c d1]. simpl in *.
  destruct (dec_Activate d1) as [a d2]. simpl in *. subst a.
  destruct (dec_active d); simpl in E.
  - injection E as <-. unfold only_decider.
    destruct (negb _ && _); simpl; split_and!; auto using wq_add_processing, wq_add_dirty.
  - unfold start_ticker_checked in E. simpl in E. destruct (as_tickInterval s <=? 0); [done|].
    simpl in E. injection E as <-. unfold only_decider.
    destruct (negb _ && _); simpl; split_and!; auto using wq_add_processing, wq_add_dirty.
Qed.

Lemma as_ReqOut_spec s res now s' :
  as_ReqOut s res now = Ret s' ->
  exists d, only_decider s s' (Target (Source res)) d (snd (dec_ReqOut d now)) /\
  tickers s' = tickers s /\ queue s' = queue s.
Proof.
  unfold as_ReqOut. destruct (runCtx s) eqn:Er; simpl; [|done].
  destruct (deciders s !! _) as [d|] eqn:Ed; [|done]. intros E. exists d.
  destruct (dec_ReqOut d now) as [c d1]. injection E as <-. by unfold only_decider.
Qed.

(** [scale] leaves everything but the decider of its key, and that decider
    keeps its activation and its load. *)
Lemma scale_spec s rd (cl : S) key now err s' cl' :
  scale IsPodReady s rd cl key now = Ret (err, s', cl') ->
  (exists d d', only_decider s s' key d d' /\ dec_active d' = dec_active d /\
                dec_load d' = dec_load d) /\
  tickers s' = tickers s /\ queue s' = queue s.
Proof.
  unfold scale. destruct (deciders s !! key) as [d|] eqn:Ed; [|done].
  assert (exists d0 d', only_decider s s key d0 d' /\ dec_active d' = dec_active d0 /\
            dec_load d' = dec_load d0) as Same.
  { exists d, d. unfold only_decider. rewrite insert_id by done. split_and!; done. }
  destruct (NamespacedNameFromKey key) as [nn| |]; simpl; [|done..].
  destruct (cl_get_deployment _ nn) as [target|e]; [|intros [= <- <- <-]; done].
  destruct (cl_list_pods _ _ _) as [pods|e]; [|intros [= <- <- <-]; done].
  pose proof (dec_Reconcile_active d now (Z.of_nat (count IsPodReady pods))) as Ha.
  pose proof (dec_Reconcile_load d now (Z.of_nat (count IsPodReady pods))) as Hl.
  destruct (dec_Reconcile d now _) as [decision d']. simpl in Ha, Hl.
  assert (forall err' cl0, Ret (err', set_decider s key d', cl0) = Ret (err, s', cl') ->
    (exists d0 d1, only_decider s s' key d0 d1 /\ dec_active d1 = dec_active d0 /\
            dec_load d1 = dec_load d0) /\ tickers s' = tickers s /\ queue s' = queue s) as Upd.
  { intros err' cl0 [= <- <- <-]. split; [|done]. by exists d, d'. }
  destruct decision as [desired|e]; [|apply Upd].
  destruct (Scale _ cl key desired) as [[[[]|e] cl1]| |]; simpl; try done; try apply Upd.
  destruct (Replicas target); [apply Upd|done].
Qed.

Lemma worker_scale_spec s rd (cl : S) key now s' cl' :
  worker_scale IsPodReady s rd cl key now = Ret (s', cl') ->
  (exists d d', only_decider s s' key d d' /\ dec_active d' = dec_active d /\
                dec_load d' = dec_load d) /\
  tickers s' = tickers s /\ queue s' = wq_done (queue s) key.
Proof.
  unfold worker_scale. destruct (scale _ _ _ _ _ _) as [[[err s1] cl1]| |] eqn:E; simpl; [|done..].
  apply scale_spec in E as ((d & d' & (O1 & O2 & O3 & O4) & Ha & Hl) & Ht & Hq).
  intros E. assert (s' = set_queue s1 (wq_done (queue s1) key)) as ->.
  { destruct err as [e|]; [destruct (contains _ _)|]; congruence. }
  simpl. rewrite Ht, Hq. split_and!; try done. exists d, d'. by unfold only_decider.
Qed.

(** *** Invariants of the loop *)

(** Each ticked key has an active decider and conversely; the keys that the
    workers process are distinct. *)
Record as_inv (w : as_world) : Prop := {
  inv_tickers_nodup : NoDup (tickers (w_as w));
  inv_tickers_active : forall key,
    key ∈ tickers (w_as w) <-> exists d, deciders (w_as w) !! key = Some d /\ dec_active d = true;
  inv_busy_nodup : NoDup (w_busy w);
  inv_workers : (length (w_busy w) <= maxConcurrentScalers)%nat;
  inv_busy_processing : forall key, key ∈ w_busy w <-> key ∈ wq_processing (queue (w_as w))
}.

Definition load_exact (w : as_world) : Prop :=
  forall key d, deciders (w_as w) !! key = Some d -> dec_load d = f64_of_Z (w_in_flight w key).

(** A freshly built autoscaler. *)
Record as_fresh (s : autoscalerImpl Q D) : Prop := {
  fresh_tickers : tickers s = [];
  fresh_queue : wq_processing (queue s) = ∅;
  fresh_deciders : forall key d, deciders s !! key = Some d ->
    dec_active d = false /\ dec_load d = f64_of_Z 0
}.

Lemma fresh_inv s (cl : S) :
  as_fresh s -> as_inv (mkWorld s cl [] (fun _ => 0)) /\ load_exact (mkWorld s cl [] (fun _ => 0)).
Proof.
  intros [F1 F2 F3]. split.
  - constructor; simpl; rewrite ?F1, ?F2; [constructor| |constructor|unfold maxConcurrentScalers; lia|set_solver].
    intros key. split; [set_solver|]. intros (d & Hd & Ha). destruct (F3 key d Hd). congruence.
  - intros key d Hd. by apply F3 in Hd as [_ ?].
Qed.

Lemma active_after_update (s s' : autoscalerImpl Q D) key d d' k :
  only_decider s s' key d d' ->
  (exists e, deciders s' !! k = Some e /\ dec_active e = true) <->
  (if decide (k = key) then dec_active d' = true
   else exists e, deciders s !! k = Some e /\ dec_active e = true).
Proof.
  intros (Hd & E & _ & _). rewrite E. case_decide as Hk.
  - subst k. rewrite lookup_insert_eq. naive_solver.
  - rewrite lookup_insert_ne by done. done.
Qed.

Lemma load_after_update (s s' : autoscalerImpl Q D) key d d' (f f' : string -> Z) :
  only_decider s s' key d d' ->
  (forall k e, deciders s !! k = Some e -> dec_load e = f64_of_Z (f k)) ->
  (forall k, k <> key -> f' k = f k) ->
  (dec_load d = f64_of_Z (f key) -> dec_load d' = f64_of_Z (f' key)) ->
  forall k e, deciders s' !! k = Some e -> dec_load e = f64_of_Z (f' k).
Proof.
  intros (Hd & E & _ & _) L Hf Hk k e. rewrite E, lookup_insert_Some.
  intros [[<- <-]|[N Hl]]; [auto|]. rewrite Hf by done. auto.
Qed.

Lemma as_collect_only s key now d :
  deciders s !! key = Some d ->
  only_decider s (as_collect s key now) key d (dec_collect d now).
Proof. intros Hd. unfold as_collect. rewrite Hd. by unfold only_decider. Qed.

Lemma as_collect_same s key now :
  tickers (as_collect s key now) = tickers s /\ queue (as_collect s key now) = queue s.
Proof. unfold as_collect. by destruct (_ !! _). Qed.

Lemma ticked_iff_active w key d :
  as_inv w -> deciders (w_as w) !! key = Some d ->
  (key ∈ tickers (w_as w)) <-> dec_active d = true.
Proof.
  intros [_ I2 _ _ _] Hd. rewrite I2, Hd. split; [|by exists d]. by intros (e & [= <-] & ?).
Qed.

(** An update of one decider that keeps its activation and the tickers. *)
Lemma tickers_same w (s' : autoscalerImpl Q D) key d d' :
  as_inv w -> only_decider (w_as w) s' key d d' -> dec_active d' = dec_active d ->
  forall k, (k ∈ tickers (w_as w)) <-> exists e, deciders s' !! k = Some e /\ dec_active e = true.
Proof.
  intros I O Ha k. rewrite (active_after_update _ _ _ _ _ k O), Ha. case_decide as Hk.
  - subst k. apply (ticked_iff_active w); [done|]. by destruct O.
  - apply I.
Qed.

Lemma as_step_inv w w' : as_step w w' -> as_inv w -> as_inv w'.
Proof.
  intros [w0 req now s' E|w0 res now s' E|w0 key Hk|w0 key now Hk|w0 key s' Hl E|w0 b1 key b2 rd now s' cl' Hb E] I;
    pose proof I as [I1 I2 I3 I5 I4].
  - apply as_ReqIn_spec in E as (d & O & Ht & Hp & _).
    pose proof (ticked_iff_active w0 (Target req) d I (proj1 O)) as Hin.
    constructor; simpl; [| |done|done|by rewrite Hp].
    + rewrite Ht. destruct (dec_active d); [done|]. constructor; [|done]. by intros ?%Hin.
    + intros k. rewrite (active_after_update _ _ _ _ _ k O), dec_Activate_active, Ht.
      destruct (dec_active d); case_decide as Hk; rewrite <- ?(I2 k); set_solver.
  - apply as_ReqOut_spec in E as (d & O & Ht & Hq).
    constructor; simpl; rewrite ?Ht, ?Hq; try done.
    by apply (tickers_same _ _ _ _ _ I O), dec_ReqOut_active.
  - constructor; simpl; try done. intros k. by rewrite wq_add_processing.
  - destruct (proj1 (I2 key) Hk) as (d & Hd & Ha).
    destruct (as_collect_same (w_as w0) key now) as [Ht Hq].
    constructor; simpl; rewrite ?Ht, ?Hq; try done.
    by apply (tickers_same _ _ _ _ _ I (as_collect_only _ _ now _ Hd)), dec_collect_active.
  - unfold worker_get in E. destruct (wq_get (queue (w_as w0))) as [[x q]|] eqn:G; [|done].
    injection E as <- <-. apply wq_get_some in G as (_ & Hn & _ & Hp).
    constructor; simpl; [done..| |lia|].
    + constructor; [|done]. by rewrite I4.
    + intros k. rewrite Hp, elem_of_cons, I4. set_solver.
  - apply worker_scale_spec in E as ((d & d' & O & Ha & _) & Ht & Hq).
    rewrite Hb in I3, I4. apply NoDup_app in I3 as (N1 & N2 & N3). apply NoDup_cons in N3 as [N3 N4].
    constructor; simpl; rewrite ?Ht, ?Hq; [done| | | |].
    + by apply (tickers_same _ _ _ _ _ I O).
    + apply NoDup_app. split_and!; [done| |done]. intros x Hx. specialize (N2 x Hx). set_solver.
    + rewrite Hb, !length_app in I5. rewrite length_app. simpl in I5. lia.
    + intros k. rewrite wq_done_processing, elem_of_difference, <- I4. set_solver.
Qed.

(** The counters stay in the range in which [float64] counts exactly. *)
Definition counts_fit (w : as_world) : Prop := forall key, exact_int (w_in_flight w key).

Lemma as_step_load w w' :
  as_step w w' -> counts_fit w -> counts_fit w' -> as_inv w -> load_exact w -> load_exact w'.
Proof.
  intros [w0 req now s' E|w0 res now s' E|w0 key Hk|w0 key now Hk|w0 key s' _ E|w0 b1 key b2 rd now s' cl' Hb E] F F' I L;
    unfold load_exact in *; simpl in *.
  - apply as_ReqIn_spec in E as (d & O & _). specialize (F (Target req)). specialize (F' (Target req)).
    simpl in F'. unfold bump in F'. rewrite decide_True in F' by done.
    apply (load_after_update _ _ _ _ _ _ _ O L).
    + intros k Hk. unfold bump. by rewrite decide_False.
    + intros Hl. unfold bump. rewrite decide_True by done.
      rewrite dec_Activate_load, dec_ReqIn_load, Hl. by apply f64_add_int.
  - apply as_ReqOut_spec in E as (d & O & _). specialize (F (Target (Source res))).
    specialize (F' (Target (Source res))).
    simpl in F'. unfold bump in F'. rewrite decide_True in F' by done.
    apply (load_after_update _ _ _ _ _ _ _ O L).
    + intros k Hk. unfold bump. by rewrite decide_False.
    + intros Hl. unfold bump. rewrite decide_True by done.
      rewrite dec_ReqOut_load, Hl. by apply f64_sub_int.
  - done.
  - destruct (proj1 (inv_tickers_active _ I key) Hk) as (d & Hd & _).
    apply (load_after_update _ _ _ _ _ _ _ (as_collect_only _ _ now _ Hd) L); [done|].
    by rewrite dec_collect_load.
  - unfold worker_get in E. destruct (wq_get _) as [[x q]|]; [|done]. by injection E as <- <-.
  - apply worker_scale_spec in E as ((d & d' & O & _ & Hl) & _).
    apply (load_after_update _ _ _ _ _ _ _ O L); [done|]. by rewrite Hl.
Qed.

(** C24: the invariant of the autoscaling loop.  However requests, ticks,
    collections and workers interleave, a target has a ticker exactly when its
    decider was activated, it has only one, at most 16 scalings are under way,
    and no two workers ever scale the same target at the same time. *)
Theorem autoscaler_invariant s (cl : S) w :
  as_fresh s -> rtc as_step (mkWorld s cl [] (fun _ => 0)) w -> as_inv w.
Proof.
  intros F R. apply (fresh_inv s cl) in F as [I _].
  induction R as [|w1 w2 w3 St R IH]; [done|]. eauto using as_step_inv.
Qed.

(** C25: the load that a decider sees is the number of its requests in flight.
    In every interleaving in which the number of requests in flight stays
    within 2^53, the floating-point concurrency of each target is exactly the
    requests that came in minus those that went out. *)
Theorem autoscaler_load_exact s (cl : S) w :
  as_fresh s ->
  rtc (fun w w' => as_step w w' /\ counts_fit w') (mkWorld s cl [] (fun _ => 0)) w ->
  forall key d, deciders (w_as w) !! key = Some d -> dec_load d = f64_of_Z (w_in_flight w key).
Proof.
  intros F R. apply (fresh_inv s cl) in F as [I L].
  assert (counts_fit (mkWorld s cl [] (fun _ => 0))) as C by (intros key; unfold exact_int; simpl; lia).
  induction R as [|w1 w2 w3 [St C2] R IH]; [exact L|]. eauto using as_step_inv, as_step_load.
Qed.

Lemma as_ReqIn_ok s req now :
  runCtx s = true -> is_Some (deciders s !! Target req) -> 0 < as_tickInterval s ->
  exists s', as_ReqIn s req now = Ret s'.
Proof.
  intros Hr [d Hd] Ht. unfold as_ReqIn. rewrite Hr, Hd. simpl.
  destruct (dec_ReqIn d now) as [c d1]. destruct (dec_Activate d1) as [[] d2]; simpl; [|eauto].
  unfold start_ticker_checked. simpl. destruct (Z.leb_spec (as_tickInterval s) 0); [lia|]. simpl. eauto.
Qed.

(** A request is accepted exactly when the autoscaler runs and has a
    decider for its target (and, for the first one, a positive tick interval);
    a target whose desired scale is zero is then queued for scaling at once,
    unless the autoscaler is asynchronous. *)
Theorem autoscaler_accepts s req now :
  (runCtx s = true /\ is_Some (deciders s !! Target req) /\ 0 < as_tickInterval s ->
   exists s', as_ReqIn s req now = Ret s') /\
  (forall s', as_ReqIn s req now = Ret s' ->
   runCtx s = true /\
   exists d', deciders s' !! Target req = Some d' /\ dec_active d' = true /\
   (Target req ∈ tickers s' \/ tickers s' = tickers s) /\
   (as_async s = false -> dec_Desired d' = 0 -> Target req ∈ wq_dirty (queue s'))).
Proof.
  split.
  - intros (Hr & Hd & Ht). by apply as_ReqIn_ok.
  - intros s' E. assert (runCtx s = true) as Hr.
    { unfold as_ReqIn in E. by destruct (runCtx s). }
    split; [done|]. apply as_ReqIn_spec in E as (d & (Hd & -> & _) & Ht & _ & Hq).
    eexists. rewrite lookup_insert_eq. split_and!; [done|apply dec_Activate_active| |].
    + rewrite Ht. destruct (dec_active d); set_solver.
    + intros Ha Hz. rewrite Hq, Ha, Hz. simpl. set_solver.
Qed.

(** What the reads of a scaling find: the deployment [target0], whose pods are
    [pods], and by the scaler [target], which is not being deleted. *)
Record reads_find (rd : scale_reads S) (ns app : string) (target0 target : Deployment) (pods : list Pod) : Prop := {
  rf_target : cl_get_deployment (rd_target rd) (mkNamespacedName ns app) = Ok target0;
  rf_replicas : is_Some (Replicas target0);
  rf_pods : cl_list_pods (rd_pods rd) (Namespace (dep_meta target0)) (TemplateLabels target0) = Ok pods;
  rf_scaler : cl_get_deployment (rd_scaler rd) (mkNamespacedName ns app) = Ok target;
  rf_live : DeletionTimestamp (dep_meta target) = None
}.

(** The scaling of a live target whose pods can be listed: the decision is
    taken on the number of ready pods and goes to the scaler. *)
Lemma scale_live s rd (cl : S) ns app d target0 target pods now :
  no_slash ns = true -> no_slash app = true ->
  deciders s !! (ns +:+ "/" +:+ app) = Some d -> reads_find rd ns app target0 target pods ->
  forall desired d',
  dec_Reconcile d now (Z.of_nat (count IsPodReady pods)) = (Ok desired, d') ->
  exists err cl', scale IsPodReady s rd cl (ns +:+ "/" +:+ app) now
    = Ret (err, set_decider s (ns +:+ "/" +:+ app) d', cl') /\
  (if bool_decide (Replicas target = Some (int32_of desired)) then err = None /\ cl' = cl
   else cl' = snd (cl_update_scale cl target (int32_of desired)) /\
        (err = None <-> is_ok (fst (cl_update_scale cl target (int32_of desired))) = true)).
Proof.
  intros Hn Ha Hd [Hg [r Hr] Hl Hg' Hdel] desired d' HR. unfold scale. rewrite Hd, key_parse by done. simpl.
  rewrite Hg, Hl, HR. unfold Scale. rewrite key_parse by done. simpl. rewrite Hg', Hdel.
  destruct (bool_decide _); simpl; [eauto|].
  destruct (cl_update_scale cl target _) as [[[]|e] cl']; simpl; rewrite ?Hr;
    eexists _, _; (split; [done|naive_solver]).
Qed.

(** What a scaling does.  For a target with a decider, a live deployment and
    a readable pod list, [scale] takes the decision of the decider for the
    number of ready pods, leaves the cluster alone when the replicas that the
    scaler reads already agree with it, and otherwise makes exactly the update to
    [int32(desired)]; it succeeds exactly when the update does. *)
Theorem scale_applies_decision s rd (cl : S) ns app d target0 target pods now :
  no_slash ns = true -> no_slash app = true ->
  deciders s !! (ns +:+ "/" +:+ app) = Some d -> reads_find rd ns app target0 target pods ->
  forall desired d',
  dec_Reconcile d now (Z.of_nat (count IsPodReady pods)) = (Ok desired, d') ->
  exists err s' cl', scale IsPodReady s rd cl (ns +:+ "/" +:+ app) now = Ret (err, s', cl') /\
  deciders s' = <[ns +:+ "/" +:+ app := d']> (deciders s) /\ dec_Desired d' = int32_of desired /\
  (if bool_decide (Replicas target = Some (int32_of desired)) then err = None /\ cl' = cl
   else cl' = snd (cl_update_scale cl target (int32_of desired)) /\
        (err = None <-> is_ok (fst (cl_update_scale cl target (int32_of desired))) = true)).
Proof.
  intros Hn Ha Hd Hf desired d' HR.
  destruct (scale_live s rd cl ns app d target0 target pods now Hn Ha Hd Hf desired d' HR)
    as (err & cl' & E & Hc).
  exists err, (set_decider s (ns +:+ "/" +:+ app) d'), cl'. split_and!; try done.
  pose proof (dec_Reconcile_desired d now (Z.of_nat (count IsPodReady pods)) desired) as X.
  rewrite HR in X. by apply X.
Qed.

End loop.

(** ** The Knative autoscaler as a whole *)

Section knative_facts.
Context {Q : Type -> Type} `{QL : WorkQueueLaws Q}.
Context {B W : Type} `{TimedBucketsOps B} `{TWL : TimeWindowLaws W}.
Context {S : Type} `{ClientOps S}.
Variable IsPodReady : Pod -> bool.

Lemma foldl_insert_lookup {V} (f : string -> V) (keys : list string) (m : gmap string V) key :
  foldl (fun m key => <[key := f key]> m) m keys !! key =
    if decide (key ∈ keys) then Some (f key) else m !! key.
Proof.
  revert m. induction keys as [|k keys IH]; intros m; cbn [foldl].
  { rewrite decide_False by set_solver. done. }
  rewrite IH. destruct (decide (key ∈ keys)).
  { by rewrite decide_True by set_solver. }
  destruct (decide (key = k)) as [->|].
  - rewrite lookup_insert_eq, decide_True by set_solver. done.
  - rewrite lookup_insert_ne, decide_False by set_solver. done.
Qed.

Lemma new_knative_fresh (emptyq : Q string) cfg keys :
  wq_processing emptyq = ∅ ->
  as_fresh (as_Run (NewKnativeAutoscaler (B := B) (W := W) emptyq cfg keys)).
Proof.
  intros Hq. constructor; simpl; [done|done|]. intros key d.
  rewrite foldl_insert_lookup. case_decide; [|done]. intros [= <-]. done.
Qed.

(** C14: a cold start.  A synchronous Knative autoscaler receives a request for
    a target that is scaled to zero: the target is queued at once, and a worker
    that takes the key from there, at any later time, asks the API server for
    at least one replica, if its reads still find the target without a ready pod
    and with no replicas asked for, whatever else changes in the cluster between
    them. *)
Theorem cold_start_scales_up (s : autoscalerImpl Q (KPADecider B W)) rd (cl : S) ns app req k target0
    target pods t0 now n :
  no_slash ns = true -> no_slash app = true -> Target req = ns +:+ "/" +:+ app ->
  runCtx s = true -> as_async s = false -> 0 < as_tickInterval s -> 0 < now ->
  deciders s !! Target req = Some k -> Desired k = 0 -> kpa_inv k -> maxPanicPods k < 2 ^ 31 ->
  InstantConcurrency (stats (collector k)) = f64_of_Z n -> 0 <= n < 2 ^ 53 ->
  reads_find rd ns app target0 target pods -> Replicas target = Some 0 ->
  count IsPodReady pods = 0%nat ->
  (forall k', k' = snd (Activate (snd (decider_ReqIn k t0))) -> decision_finite k' now 0) ->
  exists s', as_ReqIn s req t0 = Ret s' /\ Target req ∈ wq_dirty (queue s') /\
  exists replicas err s'' cl', 1 <= replicas < 2 ^ 31 /\
    scale IsPodReady s' rd cl (Target req) now = Ret (err, s'', cl') /\
    cl' = snd (cl_update_scale cl target replicas).
Proof.
  intros Hn Ha Ht Hr Has Hti Hnow Hd HD0 I Hm Hc Hnr Hf Hrep Hp DF.
  set (k1 := snd (decider_ReqIn k t0)) in *. set (k2 := snd (Activate k1)) in *.
  assert (kpa_inv k2) as I2.
  { apply (kpa_inv_apply k1 KActivate); [|done]. by apply (kpa_inv_apply k (KReqIn t0)). }
  destruct (as_ReqIn_ok s req t0 Hr (mk_is_Some _ _ Hd) Hti) as [s' E].
  exists s'. split; [done|]. pose proof E as E'.
  apply (as_ReqIn_spec (D := KPADecider B W)) in E' as (d & (Hd' & Hds & _ & _) & _ & _ & Hq).
  rewrite Hd in Hd'. injection Hd' as <-. change (snd (dec_Activate (snd (dec_ReqIn k t0)))) with k2 in *.
  assert (Desired k2 = 0) as HD2.
  { unfold k2, Activate. destruct (active k1 =? 0); exact HD0. }
  change (dec_Desired k2) with (Desired k2) in Hq. rewrite Has, HD2 in Hq. simpl in Hq.
  split; [set_solver|].
  assert (InstantConcurrency (stats (collector k2)) = f64_of_Z (n + 1)) as Hc2.
  { rewrite <- (f64_add_int n 1) by (unfold exact_int; lia). rewrite <- Hc.
    transitivity (dec_load k1); [exact (dec_Activate_load (D := KPADecider B W) k1)|].
    exact (dec_ReqIn_load (D := KPADecider B W) k t0). }
  assert (1 <= fst (Reconcile k2 now 0) < 2 ^ 31) as HR.
  { apply from_zero_range; [done|done|by apply DF| |].
    - unfold k2, Activate. destruct (active k1 =? 0); exact Hm.
    - rewrite Hc2, f64_lt_int by (unfold exact_int; lia). apply Z.ltb_lt. lia. }
  exists (fst (Reconcile k2 now 0)).
  destruct (Reconcile k2 now 0) as [desired k3] eqn:ER. simpl in HR |- *.
  rewrite Ht in *. rewrite <- Ht in Hds.
  assert (deciders s' !! (ns +:+ "/" +:+ app) = Some k2) as Hk2.
  { rewrite Hds, Ht. apply lookup_insert_eq. }
  destruct (scale_live IsPodReady s' rd cl ns app k2 target0 target pods now Hn Ha Hk2 Hf desired k3) as (err & cl' & Es & Hcl).
  { rewrite Hp. change ((let '(x, y) := Reconcile k2 now 0 in (Ok x, y)) = (Ok desired, k3)).
    by rewrite ER. }
  assert (int32_of desired = desired) as Hi by (apply int32_of_id; unfold in_int32; lia).
  rewrite Hi, Hrep, bool_decide_eq_false_2 in Hcl by (intros [=]; lia).
  exists err, (set_decider s' (ns +:+ "/" +:+ app) k3), cl'. split_and!; try lia; [done|]. apply Hcl.
Qed.

End knative_facts.

(** ** The one-time autoscaler *)

Lemma ot_ReqIn_run s reqs :
  (forall key, default false (seen s !! key) = true <-> key ∈ spawned s) -> NoDup (spawned s) ->
  let s' := foldl ot_ReqIn s reqs in
  NoDup (spawned s') /\ initialScale s' = initialScale s /\
  (forall key, key ∈ spawned s' <-> (key ∈ spawned s) \/ (key ∈ map Target reqs)).
Proof.
  revert s. induction reqs as [|req reqs IH]; intros s Hs Hn; simpl.
  { split_and!; [done..|]. set_solver. }
  pose proof (Hs (Target req)) as Ht. unfold ot_ReqIn at 2 4 6.
  destruct (default false (seen s !! Target req)) eqn:E; simpl.
  - destruct (IH s Hs Hn) as (I1 & I2 & I3). split_and!; [done..|]. intros key. rewrite I3. set_solver.
  - destruct (IH (mkOneTime (ot_started s) (<[Target req := true]> (seen s)) (initialScale s)
      (Target req :: spawned s))) as (I1 & I2 & I3); simpl.
    + intros key. destruct (decide (key = Target req)) as [->|N].
      * rewrite lookup_insert_eq. set_solver.
      * rewrite lookup_insert_ne by done. rewrite Hs. set_solver.
    + constructor; [|done]. rewrite <- Ht. done.
    + simpl in *. split_and!; [done..|]. intros key. rewrite I3. set_solver.
Qed.

(** The one-time autoscaler scales each requested target exactly once.
    Whatever the requests, registered or not, it starts one scaling per target
    that occurs among them, all to the configured initial scale. *)
Theorem onetime_scales_once cfg keys reqs :
  let s := foldl ot_ReqIn (ot_Run (NewOneTimeAutoscaler cfg keys)) reqs in
  NoDup (spawned s) /\ initialScale s = InitialScale cfg /\
  (forall key, key ∈ spawned s <-> exists req, req ∈ reqs /\ Target req = key).
Proof.
  destruct (ot_ReqIn_run (ot_Run (NewOneTimeAutoscaler cfg keys)) reqs) as (I1 & I2 & I3).
  - intros key. simpl. split; [|set_solver]. intros E.
    rewrite (foldl_insert_lookup (fun _ => false) keys ∅ key) in E. by case_decide.
  - constructor.
  - split_and!; [done..|]. intros key. rewrite I3, list_elem_of_fmap. simpl. set_solver.
Qed.

(** The panic window is truncated to whole seconds after a floating-point
    product: 29 percent of 100 seconds is a window of 28 seconds. *)
Theorem panic_window_truncated cfg :
  PanicWindowPercentage cfg = f64_of_Z 29 -> StableWindowSeconds cfg = f64_of_Z 100 ->
  kpa_panic_window cfg = 28 * Second.
Proof. intros H1 H2. unfold kpa_panic_window. rewrite H1, H2. reflexivity. Qed.

(** ** Witnesses *)

Definition demo_config : KnativeAutoscalerConfig :=
  mkKnativeConfig true false (f64_of_Z 10) (f64_of_Z 1000) (f64_of_Z 2) (f64_of_Z 60)
    (f64_of_Z 10) (f64_of_Z 200) 0 2.

Definition demo_as : autoscalerImpl simple_wq (KPADecider float64 (Z * list (Z * Z))) :=
  as_Run (NewKnativeAutoscaler (mk_simple_wq [] []) demo_config ["ns/app"; "ns/web"]).

Definition demo_deployment (app : string) (replicas : Z) : NamespacedName * Deployment :=
  (mkNamespacedName "ns" app,
   mkDeployment (mkMeta "ns" app "u" "1" {["app" := app]} ∅ None) (Some replicas) {["app" := app]}).

Definition demo_cluster : cluster :=
  mkCluster [demo_deployment "app" 0; demo_deployment "web" 3] [] [].

Definition demo_ready (p : Pod) : bool := bool_decide (Phase (Status p) = "Running"%string).

Definition demo_req (id target : string) : Request := mkRequest id target 1000 0 0 0 0 0.

Definition demo_world (busy : list string) (f : string -> Z) s :
    as_world (S := cluster) (Q := simple_wq) (D := KPADecider float64 (Z * list (Z * Z))) :=
  mkWorld s demo_cluster busy f.

Lemma demo_as_fresh : as_fresh demo_as.
Proof. apply new_knative_fresh. reflexivity. Qed.

(** A request comes in and a worker takes the queued key. *)
Definition demo_as_in : autoscalerImpl simple_wq (KPADecider float64 (Z * list (Z * Z))) :=
  match as_ReqIn demo_as (demo_req "0" "ns/app") (100 * Second) with Ret s => s | _ => demo_as end.

Definition demo_as_got : autoscalerImpl simple_wq (KPADecider float64 (Z * list (Z * Z))) :=
  match worker_get demo_as_in with Some (_, s) => s | None => demo_as_in end.

Lemma autoscaler_invariant_witness :
  as_inv (demo_world ["ns/app"] (bump (fun _ => 0) "ns/app" 1) demo_as_got).
Proof.
  apply (autoscaler_invariant demo_ready demo_as demo_cluster); [exact demo_as_fresh|].
  eapply rtc_l; [|apply rtc_once].
  - apply (step_in demo_ready (demo_world [] (fun _ => 0) demo_as) (demo_req "0" "ns/app") (100 * Second)
             demo_as_in). vm_compute. reflexivity.
  - apply (step_get demo_ready (demo_world [] (bump (fun _ => 0) "ns/app" 1) demo_as_in)
             "ns/app" demo_as_got); [unfold maxConcurrentScalers; simpl; lia|vm_compute; reflexivity].
Defined.

Lemma autoscaler_load_exact_witness :
  exists d, deciders demo_as_in !! "ns/app" = Some d /\ dec_load d = f64_of_Z 1.
Proof.
  destruct (deciders demo_as_in !! "ns/app") as [d|] eqn:E; [|vm_compute in E; discriminate].
  exists d. split; [reflexivity|]. revert E.
  apply (autoscaler_load_exact demo_ready demo_as demo_cluster
    (demo_world [] (bump (fun _ => 0) "ns/app" 1) demo_as_in) demo_as_fresh).
  apply rtc_once. split.
  - apply (step_in demo_ready (demo_world [] (fun _ => 0) demo_as) (demo_req "0" "ns/app") (100 * Second)
             demo_as_in). vm_compute. reflexivity.
  - intros key. simpl. unfold bump, exact_int. case_decide; lia.
Defined.

Lemma autoscaler_accepts_witness :
  exists s', as_ReqIn demo_as (demo_req "0" "ns/app") (100 * Second) = Ret s'.
Proof.
  apply (proj1 (autoscaler_accepts demo_as (demo_req "0" "ns/app") (100 * Second))).
  split_and!; [reflexivity|vm_compute; eauto|reflexivity].
Defined.

Lemma scale_outcome_witness :
  exists r cl', Scale demo_cluster demo_cluster ("ns" +:+ "/" +:+ "web") 3 = Ret (r, cl') /\ cl' = demo_cluster.
Proof.
  destruct (scale_outcome demo_cluster demo_cluster "ns" "web" 3 eq_refl eq_refl) as (r & cl' & E & H).
  assert (cl_get_deployment demo_cluster (mkNamespacedName "ns" "web")
          = Ok (demo_deployment "web" 3).2) as Hg by (vm_compute; reflexivity).
  rewrite Hg in H. exists r, cl'. split; [exact E|exact (proj2 H)].
Defined.

Definition demo_new_kpa : KPADecider float64 (Z * list (Z * Z)) := new_kpa_for demo_config "ns/app".

Definition demo_web_kpa : KPADecider float64 (Z * list (Z * Z)) := new_kpa_for demo_config "ns/web".

Lemma scale_applies_decision_witness :
  exists err s' cl', scale demo_ready demo_as (same_reads demo_cluster) demo_cluster ("ns" +:+ "/" +:+ "web") (100 * Second)
      = Ret (err, s', cl') /\
    cl' = snd (cl_update_scale demo_cluster (demo_deployment "web" 3).2 (int32_of 0)).
Proof.
  assert (deciders demo_as !! ("ns" +:+ "/" +:+ "web") = Some demo_web_kpa) as Hd
    by (vm_compute; reflexivity).
  assert (dec_Reconcile demo_web_kpa (100 * Second) (Z.of_nat (count demo_ready []))
          = (Ok 0, snd (Reconcile demo_web_kpa (100 * Second) 0))) as HR by (vm_compute; reflexivity).
  assert (reads_find (same_reads demo_cluster) "ns" "web" (demo_deployment "web" 3).2 (demo_deployment "web" 3).2 [])
    as Hf by (split; try (vm_compute; reflexivity); by exists 3).
  assert (bool_decide (Replicas (demo_deployment "web" 3).2 = Some (int32_of 0)) = false) as HB
    by reflexivity.
  destruct (scale_applies_decision demo_ready demo_as (same_reads demo_cluster) demo_cluster "ns" "web"
    demo_web_kpa (demo_deployment "web" 3).2 (demo_deployment "web" 3).2 [] (100 * Second) eq_refl eq_refl Hd Hf
    0 _ HR) as (err & s' & cl' & E & _ & _ & H).
  rewrite HB in H. exists err, s', cl'. split; [exact E|exact (proj1 H)].
Defined.

Lemma demo_cold_finite :
  decision_finite (snd (Activate (snd (decider_ReqIn demo_new_kpa (100 * Second))))) (101 * Second) 0.
Proof.
  constructor; try reflexivity; try lia.
  change (0 <= zceil (f64_of_Z 1000) < 2 ^ 31). rewrite zceil_of_Z by done. lia.
Qed.

(** The pods change between the reads. *)
Definition demo_reads : scale_reads cluster :=
  mkReads demo_cluster (mkCluster [] [] []) demo_cluster.

Lemma cold_start_scales_up_witness :
  exists s', as_ReqIn demo_as (demo_req "0" "ns/app") (100 * Second) = Ret s' /\
  exists replicas err s'' cl', 1 <= replicas < 2 ^ 31 /\
    scale demo_ready s' demo_reads demo_cluster "ns/app" (101 * Second) = Ret (err, s'', cl') /\
    cl' = snd (cl_update_scale demo_cluster (demo_deployment "app" 0).2 replicas).
Proof.
  destruct (cold_start_scales_up demo_ready demo_as demo_reads demo_cluster "ns" "app" (demo_req "0" "ns/app")
    demo_new_kpa (demo_deployment "app" 0).2 (demo_deployment "app" 0).2 [] (100 * Second) (101 * Second) 0)
    as (s' & E & _ & H).
  1-3: reflexivity.
  1-4: reflexivity.
  1: vm_compute; reflexivity.
  1: reflexivity.
  1: constructor; simpl; [reflexivity|left; reflexivity|split; [discriminate|reflexivity]|discriminate].
  1-2: reflexivity.
  1: lia.
  1: split; [vm_compute; reflexivity|by exists 0|vm_compute; reflexivity..].
  1-2: reflexivity.
  1: intros k' ->; exact demo_cold_finite.
  exists s'. split; [exact E|exact H].
Defined.

Lemma panic_window_truncated_witness :
  kpa_panic_window (mkKnativeConfig true false (f64_of_Z 10) (f64_of_Z 1000) (f64_of_Z 2)
    (f64_of_Z 100) (f64_of_Z 29) (f64_of_Z 200) 0 2) = 28 * Second.
Proof. apply panic_window_truncated; reflexivity. Defined.
