(* ===== verification/ScaleLoop.v ===== *)
(** * The autoscaling loop under a constant load

    Joins [Convergence], the decisions of one decider, with [Autoscaler], the loop
    of [pkg/autoscaler/interface.go] around all of them.  Requests, tickers,
    collectors and workers of every target interleave freely with changes of the
    cluster; as long as each scaling of one target finds the previous one carried
    out, the updates of its deployment are the [expected] ones of [Convergence]. *)

From stdpp Require Import sorting.
From S2P Require Import Prelude GoTypes Float64 Float64Facts Interfaces Kube Workload Metric Decider Convergence Autoscaler.

Local Open Scope Z_scope.

Section loop.
Context {Q : Type -> Type} `{QL : WorkQueueLaws Q}.
Context {B W : Type} `{TimedBucketsOps B} `{TWL : TimeWindowLaws W}.
Context {S : Type} `{ClientOps S}.
Variable IsPodReady : Pod -> bool.
Notation world := (as_world (Q := Q) (D := KPADecider B W) (S := S)).

(** The target that is watched. *)
Variables (ns app : string).
Notation key := (ns +:+ "/" +:+ app).
Hypotheses (Hns : no_slash ns = true) (Happ : no_slash app = true).

(** The concurrency [c] and the pods [need] that it takes, as in [steady]. *)
Variables (c : float64) (need up down most : Z).

(** How far the delay window reaches: the delay and at most one more tick. *)
Definition delay_span (cfg : KnativeAutoscalerConfig) : Z :=
  if 0 <? ScaleDownDelaySeconds cfg then (ScaleDownDelaySeconds cfg + TickIntervalSeconds cfg) * Second else 0.

(** A configuration with whole rates above 1 and a panic threshold above 100
    percent, and any scale-down delay that its duration can hold. *)
Record configured (cfg : KnativeAutoscalerConfig) : Prop := {
  cf_delay : 0 <= ScaleDownDelaySeconds cfg < 2 ^ 32;
  cf_tick : 0 <= TickIntervalSeconds cfg < 2 ^ 32;
  cf_up : MaxScaleUpRate cfg = f64_of_Z up;
  cf_down : MaxScaleDownRate cfg = f64_of_Z down;
  cf_rates : 1 < up /\ 1 < down <= 2 ^ 20;
  cf_quotient : finite64 (f64_div c (TargetConcurrency cfg));
  cf_need : zceil (f64_div c (TargetConcurrency cfg)) = need;
  cf_range : 0 <= need <= most /\ 1 <= most /\ up * most < 2 ^ 31;
  cf_threshold : finite64 (f64_div (PanicThresholdPercentage cfg) (f64_of_Z 100)) /\
    P 0 < fval (f64_div (PanicThresholdPercentage cfg) (f64_of_Z 100))
}.

(** The API shows that the target has the [replicas] it was scaled to, all of
    them ready. *)
Record carried_out (rd : scale_reads S) (replicas : Z) (target0 target : Deployment) (pods : list Pod) : Prop := {
  co_find : reads_find rd ns app target0 target pods;
  co_replicas : Replicas target = Some replicas;
  co_ready : Z.of_nat (count IsPodReady pods) = replicas
}.

(** Runs with scalings of the target at [times], the last one to [replicas]: the
    cluster changes, the loop makes a step that does not end a scaling of the
    target, or it scales it, observing the load. *)
Inductive al_run (w0 : world) (r0 : Z) : list Z -> Z -> world -> Prop :=
| al_start : al_run w0 r0 [] r0 w0
| al_cluster times r w cl :
    al_run w0 r0 times r w -> al_run w0 r0 times r (mkWorld (w_as w) cl (w_busy w) (w_in_flight w))
| al_other times r w w' :
    al_run w0 r0 times r w -> as_step IsPodReady w w' -> (key ∈ w_busy w -> key ∈ w_busy w') ->
    al_run w0 r0 times r w'
| al_scale times r w busy1 busy2 rd now target0 target pods d s' cl' d' :
    al_run w0 r0 times r w -> w_busy w = busy1 ++ key :: busy2 ->
    0 < now -> Forall (fun t => t <= now) times -> carried_out rd r target0 target pods ->
    deciders (w_as w) !! key = Some d -> observes d c need now ->
    worker_scale IsPodReady (w_as w) rd (w_cluster w) key now = Ret (s', cl') ->
    deciders s' !! key = Some d' ->
    al_run w0 r0 (times ++ [now]) (dec_Desired d') (mkWorld s' cl' (busy1 ++ busy2) (w_in_flight w)).

Lemma al_run_sorted w0 r0 times r w : al_run w0 r0 times r w -> StronglySorted Z.le times.
Proof.
  induction 1 as [|?????|???????|times r w b1 b2 rd now target0 target pods d s' cl' d' R IH _ _ Ht]; try done.
  - constructor.
  - apply StronglySorted_app_2; [|done|repeat constructor]. rewrite Forall_forall in Ht. set_solver.
Qed.

Lemma configured_course cfg r0 : configured cfg -> 0 <= r0 <= most ->
  course c need up down most (delay_span cfg) r0 (new_kpa_for cfg key : KPADecider B W) [] r0.
Proof.
  intros Hc Hr. pose proof Hc as []. pose proof (eq_refl : Second = 1000000000) as Es.
  assert (mul64 (ScaleDownDelaySeconds cfg) Second = ScaleDownDelaySeconds cfg * Second) as Ed
    by (apply int64_of_id; unfold in_int64, min_int64, max_int64; nia).
  assert (mul64 (TickIntervalSeconds cfg) Second = TickIntervalSeconds cfg * Second) as Et
    by (apply int64_of_id; unfold in_int64, min_int64, max_int64; nia).
  assert ((0 <? ScaleDownDelaySeconds cfg * Second) = (0 <? ScaleDownDelaySeconds cfg)) as El.
  { destruct (Z.ltb_spec 0 (ScaleDownDelaySeconds cfg)); [apply Z.ltb_lt|apply Z.ltb_ge]; nia. }
  apply course_start; [done| |done|].
  - split; try done; [apply new_kpa_inv| |unfold delay_span; destruct (0 <? ScaleDownDelaySeconds cfg); lia].
    simpl. rewrite Ed, Et, El. unfold delay_span. destruct (0 <? ScaleDownDelaySeconds cfg); [|done].
    intros w [= <-]. pose proof (tw_span_new (W := W) (ScaleDownDelaySeconds cfg * Second)
      (TickIntervalSeconds cfg * Second)) as X.
    rewrite Es in *. lia.
  - simpl. intros w. rewrite Ed, El. destruct (0 <? ScaleDownDelaySeconds cfg); [|done]. intros [= <-]. apply tw_entries_new.
Qed.

(** A step of the loop that does not end a scaling of the target. *)
Lemma other_step w w' d :
  as_step IsPodReady w w' -> as_inv w -> (key ∈ w_busy w -> key ∈ w_busy w') ->
  deciders (w_as w) !! key = Some d ->
  exists evs, Forall (fun ev => is_decision ev = false) evs /\
    deciders (w_as w') !! key = Some (foldl kpa_apply d evs).
Proof.
  intros St I Hb Hd.
  assert (forall (s' : autoscalerImpl Q (KPADecider B W)) key' d0 evs,
    only_decider (w_as w) s' key' d0 (foldl kpa_apply d0 evs) -> Forall (fun ev => is_decision ev = false) evs ->
    exists evs', Forall (fun ev => is_decision ev = false) evs' /\
      deciders s' !! key = Some (foldl kpa_apply d evs')) as One.
  { intros s' key' d0 evs (O1 & O2 & _) F. rewrite O2. destruct (decide (key' = key)) as [->|Ne].
    - exists evs. rewrite lookup_insert_eq. split; [done|]. congruence.
    - exists []. by rewrite lookup_insert_ne. }
  destruct St as [w req now s' E|w res now s' E|w k Hk|w k now Hk|w k s' _ E|w b1 k b2 rd now s' cl' Hw E]; simpl in *.
  - apply as_ReqIn_spec in E as (d0 & O & _). by apply (One s' (Target req) d0 [KReqIn now; KActivate]); [|repeat constructor].
  - apply as_ReqOut_spec in E as (d0 & O & _). by apply (One s' (Target (Source res)) d0 [KReqOut now]); [|repeat constructor].
  - exists []. done.
  - destruct (proj1 (inv_tickers_active _ I k) Hk) as (d0 & Hd0 & _).
    apply (One _ k d0 [KCollect now]); [exact (as_collect_only (w_as w) k now d0 Hd0)|repeat constructor].
  - unfold worker_get in E. destruct (wq_get _) as [[x q]|]; [|done]. injection E as <- <-. by exists [].
  - apply worker_scale_spec in E as ((d0 & d1 & (_ & O2 & _) & _) & _). exists []. split; [done|].
    rewrite O2, lookup_insert_ne; [done|]. intros ->. pose proof (inv_busy_nodup _ I) as N. rewrite Hw in *.
    apply NoDup_app in N as (_ & N2 & [N3 _]%NoDup_cons).
    assert (key ∈ b1 ++ b2) as [X|X]%elem_of_app by (apply Hb; set_solver); [|done]. specialize (N2 _ X). set_solver.
Qed.

(** Where a run stands. *)
Record on_course (span r0 : Z) (times : list Z) (r : Z) (w : world) : Prop := {
  oc_inv : as_inv w;
  oc_decider : exists d, deciders (w_as w) !! key = Some d /\ course c need up down most span r0 d times r
}.

(** A scaling that finds the last one carried out. *)
Lemma on_course_scale span r0 times r w rd now target0 target pods d :
  0 <= r0 <= most -> on_course span r0 times r w -> 0 < now -> Forall (fun t => t <= now) times ->
  carried_out rd r target0 target pods -> deciders (w_as w) !! key = Some d -> observes d c need now ->
  let next := fst (Reconcile d now r) in
  let k' := snd (Reconcile d now r) in
  dec_Desired k' = next /\ course c need up down most span r0 k' (times ++ [now]) next /\
  exists err, scale IsPodReady (w_as w) rd (w_cluster w) key now =
    Ret (err, set_decider (w_as w) key k',
         if r =? next then w_cluster w else snd (cl_update_scale (w_cluster w) target next)).
Proof.
  intros Hr0 [_ (d0 & Hd0 & C)] Hn Ht [Hf Hrep Hready] Hd O next k'. replace d0 with d in * by congruence.
  pose proof (course_step c need up down most span r0 Hr0 d times r now C O Hn Ht) as C'.
  change (course c need up down most span r0 k' (times ++ [now]) next) in C'.
  assert (int32_of next = next) as Ei.
  { apply int32_of_id. unfold in_int32. pose proof (co_range _ _ _ _ _ _ _ _ _ _ C').
    destruct (co_steady _ _ _ _ _ _ _ _ _ _ C'). nia. }
  assert (dec_Reconcile d now (Z.of_nat (count IsPodReady pods)) = (Ok next, k')) as R.
  { rewrite Hready. simpl. unfold k', next. by destruct (Reconcile d now r). }
  assert (dec_Desired k' = next) as Hk.
  { pose proof (dec_Reconcile_desired d now (Z.of_nat (count IsPodReady pods)) next) as X. rewrite R in X.
    specialize (X eq_refl). simpl in X. by rewrite Ei in X. }
  split_and!; try done.
  destruct (scale_live IsPodReady (w_as w) rd (w_cluster w) ns app d target0 target pods now Hns Happ Hd Hf next k' R)
    as (err & cl' & Es & Hcl).
  exists err. rewrite Es, Ei, Hrep in *. do 2 f_equal.
  destruct (Z.eqb_spec r next) as [Eq|Ne]; [by rewrite Eq, bool_decide_eq_true_2 in Hcl by done; destruct Hcl|].
  rewrite bool_decide_eq_false_2 in Hcl by congruence. by destruct Hcl.
Qed.

Lemma al_run_on_course span w0 r0 times r w : 0 <= r0 <= most -> on_course span r0 [] r0 w0 ->
  al_run w0 r0 times r w -> on_course span r0 times r w.
Proof.
  intros Hr Oc Run. induction Run as [|times r w cl _ IH|times r w w' _ IH St Hb|times r w b1 b2 rd now target0 target
    pods d s' cl' d' _ IH Hb Hn Ht Co Hd O Ws Hd']; [done|..].
  - destruct IH as [I D]. split; try done. by destruct I.
  - destruct IH as [I (d & Hd & C)]. destruct (other_step w w' d St I Hb Hd) as (evs & F & Hd').
    split; [by eapply as_step_inv|]. exists (foldl kpa_apply d evs). split; [done|]. by apply course_events.
  - destruct (on_course_scale span r0 times r w rd now target0 target pods d Hr IH Hn Ht Co Hd O) as (Ed & C' & err & Es).
    assert (as_inv (mkWorld s' cl' (b1 ++ b2) (w_in_flight w))) as I'.
    { eapply as_step_inv; [|apply IH]. by eapply step_scale. }
    assert (d' = snd (Reconcile d now r)) as ->.
    { unfold worker_scale in Ws. rewrite Es in Ws. simpl in Ws.
      assert (deciders s' = <[key := snd (Reconcile d now r)]> (deciders (w_as w))) as Eq
        by (destruct err as [e|]; [destruct (contains _ _)|]; [done|by injection Ws as <- _..]).
      rewrite Eq, lookup_insert_eq in Hd'. by injection Hd'. }
    rewrite Ed. split; [done|]. by exists (snd (Reconcile d now r)).
Qed.

(** C13: the autoscaling loop under a constant load.  The Knative autoscaler starts
    with whole scale rates above 1 (that for scaling down at most 2^20) and a panic
    threshold above 100 percent, with or without a scale-down delay (of less than
    2^32 seconds), and no more pods than [most], whose product with the scale-up
    rate fits in 31 bits, as the configurations of the repository have it; requests, ticks, collections, the scalings
    of other targets and changes of the cluster interleave in any way.  While
    every scaling of a target finds the one before carried out and observes a load
    that needs [need] pods, the pods are the [expected] ones.  On the way up they
    are multiplied by the scale-up rate at each scaling until [need] is reached,
    whatever the delay.  On the way down they never fall below [need], nor faster
    than one division by the scale-down rate at each scaling, and they are divided
    at least once in each span of the delay window, so at each scaling without a
    delay.  After a number of spans logarithmic in the pods they are [need], and
    stay so.  Each scaling writes the next such number to the deployment if it
    differs from the one before, and nothing otherwise. *)
Theorem autoscaler_converges (emptyq : Q string) cfg keys (cl : S) r0 times r w :
  wq_processing emptyq = ∅ -> key ∈ keys -> configured cfg -> 0 <= r0 <= most ->
  al_run (mkWorld (as_Run (NewKnativeAutoscaler emptyq cfg keys)) cl [] (fun _ => 0)) r0 times r w ->
  expected (delay_span cfg) need up down r0 times r /\
  (ScaleDownDelaySeconds cfg = 0 -> times <> [] -> r = trajectory need up down r0 (length times)) /\
  (most < 2 ^ Z.of_nat (delays_passed (delay_span cfg) times) -> r = need) /\
  forall rd now target0 target pods d, 0 < now -> Forall (fun t => t <= now) times ->
    carried_out rd r target0 target pods -> deciders (w_as w) !! key = Some d -> observes d c need now ->
    exists next err s', expected (delay_span cfg) need up down r0 (times ++ [now]) next /\
      scale IsPodReady (w_as w) rd (w_cluster w) key now =
      Ret (err, s', if r =? next then w_cluster w else snd (cl_update_scale (w_cluster w) target next)).
Proof.
  intros Hq Hk Hc Hr Run. pose proof (al_run_sorted _ _ _ _ _ Run) as So.
  assert (on_course (delay_span cfg) r0 times r w) as Oc.
  { apply (al_run_on_course (delay_span cfg) _ r0 times r w Hr) in Run; [done|]. split; [|exists (new_kpa_for cfg key); split].
    - apply fresh_inv, new_knative_fresh, Hq.
    - simpl. rewrite foldl_insert_lookup, decide_True by done. done.
    - by apply configured_course. }
  pose proof Oc as [_ (d & _ & C)]. pose proof (co_expected _ _ _ _ _ _ _ _ _ _ C) as X.
  destruct Hc as [? ? ? ? [? [? _]] ? ? [? _] ?]. split_and!; [done| | |].
  - intros Hd Hne. destruct X as [X1 X2]. unfold delay_span in X2. rewrite Hd in X2. simpl in X2.
    rewrite delays_passed_all in X2 by done.
    destruct (Z.le_gt_cases r0 need) as [Hl|Hl]; [rewrite (X1 Hl); by destruct times|specialize (X2 Hl); lia].
  - intros Hm. by apply (expected_limit need up down most (delay_span cfg) r0 Hr times r).
  - intros rd now target0 target pods d' Hn Ht Co Hd O.
    destruct (on_course_scale _ r0 times r w rd now target0 target pods d' Hr Oc Hn Ht Co Hd O) as (_ & C' & err & Es).
    eexists _, err, _. split; [apply (co_expected _ _ _ _ _ _ _ _ _ _ C')|exact Es].
Qed.

End loop.

(** ** Witness *)

(** One request is in flight, which needs one pod; the target has eight.  The
    scale-down delay is 30 seconds, the tick interval 2 seconds: the second of the
    five scalings keeps the pods of the first. *)
Section witness.
Notation demo_decider := (KPADecider float64 (Z * list (Z * Z))).
Notation demo_loop := (as_world (S := cluster) (Q := simple_wq) (D := demo_decider)).
Notation run := (al_run demo_ready "ns" "app" (f64_of_Z 1) 1).

Definition demo_replica : Pod :=
  mkPod (mkMeta "ns" "p" "u" "1" {["app" := "app"]} ∅ None) "node" [] [] []
    (mkPodStatus "Running" [] "" "10.0.0.1" None [] []).

Definition demo_scaled (n : nat) : cluster :=
  mkCluster [demo_deployment "app" (Z.of_nat n)] (replicate n demo_replica) [].

Definition demo_single : KnativeAutoscalerConfig :=
  mkKnativeConfig true false (f64_of_Z 1) (f64_of_Z 1000) (f64_of_Z 2) (f64_of_Z 60) (f64_of_Z 10) (f64_of_Z 200) 30 2.

Definition demo_single_as : autoscalerImpl simple_wq demo_decider :=
  as_Run (NewKnativeAutoscaler (mk_simple_wq [] []) demo_single ["ns/app"; "ns/web"]).

Definition demo_single_in : autoscalerImpl simple_wq demo_decider :=
  match as_ReqIn demo_single_as (demo_req "0" "ns/app") (100 * Second) with Ret s => s | _ => demo_single_as end.

Definition demo_loop0 : demo_loop := mkWorld demo_single_as demo_cluster [] (fun _ => 0).

Definition demo_loop1 : demo_loop := mkWorld demo_single_in demo_cluster [] (bump (fun _ => 0) "ns/app" 1).

(** The autoscaler at the next turn: a tick, a worker, the collector, and the
    cluster has the replicas it was asked for. *)
Definition demo_due (s : autoscalerImpl simple_wq demo_decider) (now : Z) : autoscalerImpl simple_wq demo_decider :=
  match worker_get (as_tick s "ns/app") with Some (_, s) => as_collect s "ns/app" now | None => s end.

Definition demo_done (s : autoscalerImpl simple_wq demo_decider) (n : nat) (now : Z) :
    autoscalerImpl simple_wq demo_decider * cluster :=
  match worker_scale demo_ready (demo_due s now) (same_reads (demo_scaled n)) (demo_scaled n) "ns/app" now with
  | Ret r => r
  | _ => (s, demo_scaled n)
  end.

Definition demo_desired (s : autoscalerImpl simple_wq demo_decider) : option Z :=
  dec_Desired <$> deciders s !! "ns/app".

(** The computed side conditions of a turn. *)
Definition demo_turn_ok (s : autoscalerImpl simple_wq demo_decider) (n : nat) (now : Z) : Prop :=
  "ns/app" ∈ tickers s /\
  (exists s1, worker_get (as_tick s "ns/app") = Some ("ns/app", s1) /\ tickers s1 = tickers s) /\
  (exists d, deciders (demo_due s now) !! "ns/app" = Some d /\ observes d (f64_of_Z 1) 1 now) /\
  worker_scale demo_ready (demo_due s now) (same_reads (demo_scaled n)) (demo_scaled n) "ns/app" now = Ret (demo_done s n now).

Lemma demo_carried_out n : carried_out demo_ready "ns" "app" (same_reads (demo_scaled n)) (Z.of_nat n)
  (demo_deployment "app" (Z.of_nat n)).2 (demo_deployment "app" (Z.of_nat n)).2 (replicate n demo_replica).
Proof.
  split; [split|reflexivity|]; try reflexivity; try (by eexists).
  - simpl. unfold cluster_list. f_equal. induction n as [|n IH]; [reflexivity|].
    cbn [demo_scaled cl_pods replicate]. rewrite filter_cons_True by (split; reflexivity). f_equal. exact IH.
  - f_equal. induction n as [|n IH]; [reflexivity|]. cbn [replicate count]. rewrite IH. reflexivity.
Qed.

Lemma demo_turn times n s cl f now r :
  run demo_loop0 8 times (Z.of_nat n) (mkWorld s cl [] f) -> 0 < now -> Forall (fun t => t <= now) times ->
  demo_turn_ok s n now -> demo_desired (fst (demo_done s n now)) = Some r ->
  run demo_loop0 8 (times ++ [now]) r (mkWorld (fst (demo_done s n now)) (snd (demo_done s n now)) [] f).
Proof.
  intros R Hn Hts (Ht & (s1 & Hg & Ht1) & (d & Hd & O) & Ws) Hr.
  unfold demo_desired in Hr. destruct (deciders (fst (demo_done s n now)) !! "ns/app") as [d'|] eqn:Hd'; [|done].
  injection Hr as <-.
  assert (demo_due s now = as_collect s1 "ns/app" now) as Ed by (unfold demo_due; by rewrite Hg).
  apply (al_scale demo_ready "ns" "app" _ _ demo_loop0 8 times (Z.of_nat n)
    (mkWorld (demo_due s now) (demo_scaled n) ["ns/app"] f) [] [] (same_reads (demo_scaled n)) now
    (demo_deployment "app" (Z.of_nat n)).2 (demo_deployment "app" (Z.of_nat n)).2 (replicate n demo_replica) d); try done.
  - apply (al_cluster _ _ _ _ _ _ _ _ _ (mkWorld (demo_due s now) cl ["ns/app"] f)). rewrite Ed.
    eapply al_other; [|eapply (step_collect _ (mkWorld s1 cl ["ns/app"] f) "ns/app" now); simpl; by rewrite Ht1|done].
    eapply al_other; [|eapply (step_get _ (mkWorld (as_tick s "ns/app") cl [] f) "ns/app" s1 (Nat.lt_0_succ _) Hg)|simpl; set_solver].
    eapply al_other; [|by eapply (step_tick _ (mkWorld s cl [] f) "ns/app")|done]. exact R.
  - apply demo_carried_out.
  - cbn [w_as w_cluster]. etransitivity; [exact Ws|]. by destruct (demo_done s n now).
Qed.

Ltac demo_ok :=
  split; [vm_compute; left|split; [eexists; split; vm_compute; reflexivity|
    split; [eexists; split; [vm_compute; reflexivity|]|vm_compute; reflexivity]]];
  split; [vm_compute; reflexivity|split; [vm_compute; reflexivity|discriminate]].

Definition demo_times : list Z := map (fun t => t * Second) [101; 103; 135; 169; 203].

Lemma demo_loop_run : exists r w, run demo_loop0 8 demo_times r w.
Proof.
  assert (run demo_loop0 8 [] (Z.of_nat 8) demo_loop1) as R0.
  { eapply al_other; [apply al_start| |set_solver].
    apply (step_in demo_ready demo_loop0 (demo_req "0" "ns/app") (100 * Second) demo_single_in). vm_compute. reflexivity. }
  eapply (demo_turn _ 8 _ _ _ (101 * Second) (Z.of_nat 4)) in R0;
    [|reflexivity|repeat constructor; discriminate|demo_ok|vm_compute; reflexivity].
  eapply (demo_turn _ 4 _ _ _ (103 * Second) (Z.of_nat 4)) in R0;
    [|reflexivity|repeat constructor; discriminate|demo_ok|vm_compute; reflexivity].
  eapply (demo_turn _ 4 _ _ _ (135 * Second) (Z.of_nat 2)) in R0;
    [|reflexivity|repeat constructor; discriminate|demo_ok|vm_compute; reflexivity].
  eapply (demo_turn _ 2 _ _ _ (169 * Second) (Z.of_nat 1)) in R0;
    [|reflexivity|repeat constructor; discriminate|demo_ok|vm_compute; reflexivity].
  eapply (demo_turn _ 1 _ _ _ (203 * Second) (Z.of_nat 1)) in R0;
    [|reflexivity|repeat constructor; discriminate|demo_ok|vm_compute; reflexivity].
  eauto.
Qed.

Lemma demo_configured : configured (f64_of_Z 1) 1 1000 2 8 demo_single.
Proof.
  split; try reflexivity; try (simpl; lia).
  - change (zceil (f64_of_Z 1) = 1). apply zceil_of_Z. done.
  - destruct (f64_of_Z_exact 2 ltac:(done)) as [F V]. pose proof (P_pos 0 ltac:(lia)).
    split; [exact F|]. change (P 0 < fval (f64_of_Z 2)). lia.
Qed.

Lemma autoscaler_converges_witness :
  exists w, run demo_loop0 8 demo_times 1 w /\ delays_passed (delay_span demo_single) demo_times = 4%nat.
Proof.
  destruct demo_loop_run as (r & w & R). exists w.
  destruct (autoscaler_converges demo_ready "ns" "app" eq_refl eq_refl (f64_of_Z 1) 1 1000 2 8 (mk_simple_wq [] [])
    demo_single ["ns/app"; "ns/web"] demo_cluster 8 demo_times r w) as (T & _ & E & _);
    [reflexivity|left|exact demo_configured|lia|exact R|].
  rewrite (E ltac:(reflexivity)) in R. split; [exact R|reflexivity].
Defined.

End witness.
