(* ===== verification/Dispatcher.v ===== *)
(** * Package [dispatcher]: sending requests to pods

    Models [pkg/gateway/dispatcher]: [PodDispatcher], which keeps an executor
    and a token per ready pod and hands a request to the pod whose token it
    receives, and [KnServiceDispatcher], which sends every request to the
    Knative gateway.  Executors are shared objects: the endpoints hold pointers
    into a heap of executors, so an execution in flight keeps its executor when
    the endpoint is removed.  The step relation [pd_step] interleaves the
    goroutines of a dispatcher: a turn of [dispatch] (a token is received and
    looked up), the turns of an execution (with the last one its token goes back
    and its response out; both channels are unbounded), each step of a
    reconciliation, and the turns of [Close] of a removed pod's executor. *)

From S2P Require Import Prelude GoTypes Float64 Interfaces Kube Workload Backend.

Local Open Scope nat_scope.

Definition podServiceConcurrency : nat := 1.

(** [handler.WorkloadServicePort]. *)
Definition WorkloadServicePort : string := ":80".

Definition podEndpointKeyFunc (pod : Pod) : string * string :=
  let ep := PodIP (Status pod) +:+ WorkloadServicePort in
  (Name (pod_meta pod) +:+ "@" +:+ ep, ep).

Section pod.
Context {M : Type -> Type} `{SharedMapOps M}.
Context {C : Type -> Type} `{ChannOps C}.
Context {Conn E : Type} `{Executor Conn E}.

(** [pd_heap] are the executors that were created; a pointer is an index.
    [pd_closing] are those whose [Close] was started. *)
Record PodDispatcher : Type := mkPD {
  pd_target : string;
  pd_timeout : Z;
  endpoints : M nat;
  tokens : C string;
  pd_heap : list E;
  pd_closing : list nat
}.

Definition NewPodDispatcher (target : string) (timeout : Z) : PodDispatcher :=
  mkPD target timeout sm_new ch_new [] [].

Definition set_tokens (pd : PodDispatcher) (t : C string) : PodDispatcher :=
  mkPD (pd_target pd) (pd_timeout pd) (endpoints pd) t (pd_heap pd) (pd_closing pd).

Definition set_endpoints (pd : PodDispatcher) (e : M nat) : PodDispatcher :=
  mkPD (pd_target pd) (pd_timeout pd) e (tokens pd) (pd_heap pd) (pd_closing pd).

Definition set_heap (pd : PodDispatcher) (h : list E) : PodDispatcher :=
  mkPD (pd_target pd) (pd_timeout pd) (endpoints pd) (tokens pd) h (pd_closing pd).

Definition set_closing (pd : PodDispatcher) (c : list nat) : PodDispatcher :=
  mkPD (pd_target pd) (pd_timeout pd) (endpoints pd) (tokens pd) (pd_heap pd) c.

(** A turn of the loop in [dispatch]: no token is there, the token of a removed
    pod is discarded, or a live one is taken. *)
Inductive turn : Type :=
| Waits
| Discards (pd : PodDispatcher)
| Takes (key : string) (executor : nat) (pd : PodDispatcher).

Definition dispatch_turn (pd : PodDispatcher) : turn :=
  match ch_recv (tokens pd) with
  | None => Waits
  | Some (key, t) =>
      let pd := set_tokens pd t in
      match sm_get (endpoints pd) key with
      | None => Discards pd
      | Some executor => Takes key executor pd
      end
  end.

(** The loop until it takes a token or has to wait, undisturbed by others. *)
Fixpoint dispatch (fuel : nat) (pd : PodDispatcher) : option (option (string * nat) * PodDispatcher) :=
  match fuel with
  | 0 => None
  | S fuel' =>
      match dispatch_turn pd with
      | Waits => Some (None, pd)
      | Discards pd => dispatch fuel' pd
      | Takes key executor pd => Some (Some (key, executor), pd)
      end
  end.

(** [Dispatch] when the dispatch context expires. *)
Definition Dispatch_expired (req : Request) : Response :=
  mkResponse req FAIL_DISPATCH zero_time zero_time 0.

(** The rest of [Dispatch], a turn of the execution at a time: when it has
    returned, the token is given back and the response is for [resChan] ([None]:
    the execution waits). *)
Definition Dispatch_execute (pd : PodDispatcher) (key : string) (executor : nat)
    (env : exec_env Conn) (x : exec_state Conn) :
    outcome (option ((exec_state Conn + Response) * PodDispatcher)) :=
  match pd_heap pd !! executor with
  | None => nil_deref
  | Some e =>
      match ExecTurn e env x with
      | None => Ret None
      | Some (inl x, e) => Ret (Some (inl x, set_heap pd (<[executor := e]> (pd_heap pd))))
      | Some (inr res, e) =>
          let pd := set_heap pd (<[executor := e]> (pd_heap pd)) in
          Ret (Some (inr res, set_tokens pd (ch_send (tokens pd) key)))
      end
  end.

(** *** [Reconcile] *)

(** The endpoints of the ready pods; a later pod replaces an earlier one with
    the same key. *)
Definition ready_endpoints (readyPods : list Pod) : gmap string string :=
  foldl (fun m pod => <[fst (podEndpointKeyFunc pod) := snd (podEndpointKeyFunc pod)]> m) ∅ readyPods.

Definition endpoints_diff (pd : PodDispatcher) (eps : gmap string string) :
    list string * list string :=
  let existing : gmap string nat := sm_inner (endpoints pd) in
  (filter (fun key => existing !! key = None) (map fst (map_to_list eps)),
   filter (fun key => eps !! key = None) (map fst (map_to_list existing))).

Fixpoint token_fill (n : nat) (t : C string) (key : string) : C string :=
  match n with
  | 0 => t
  | S n' => token_fill n' (ch_send t key) key
  end.

(** The goroutine that adds one endpoint first makes an executor and enters it
    ([newBackend] is [backend.NewBackend] at that moment), ... *)
Definition endpoint_set (newBackend : string -> outcome (result E)) (eps : gmap string string)
    (pd : PodDispatcher) (key : string) : outcome (option error * PodDispatcher) :=
  r ← newBackend (str_at eps key);
  match r with
  | Err e => Ret (Some (errorf ("failed to start backend: " +:+ err_text e)), pd)
  | Ok e =>
      let pd := set_heap pd (pd_heap pd ++ [e]) in
      Ret (None, set_endpoints pd (sm_set (endpoints pd) key (Nat.pred (length (pd_heap pd)))))
  end.

(** ... then sends its tokens. *)
Definition endpoint_tokens (pd : PodDispatcher) (key : string) : PodDispatcher :=
  set_tokens pd (token_fill podServiceConcurrency (tokens pd) key).

Definition add_endpoint (newBackend : string -> outcome (result E)) (eps : gmap string string)
    (pd : PodDispatcher) (key : string) : outcome (option error * PodDispatcher) :=
  '(err, pd) ← endpoint_set newBackend eps pd key;
  match err with
  | Some e => Ret (Some e, pd)
  | None => Ret (None, endpoint_tokens pd key)
  end.

Fixpoint add_endpoints (newBackend : string -> outcome (result E)) (eps : gmap string string)
    (pd : PodDispatcher) (add : list string) : outcome (list error * PodDispatcher) :=
  match add with
  | [] => Ret ([], pd)
  | key :: add =>
      '(err, pd) ← add_endpoint newBackend eps pd key;
      '(errs, pd) ← add_endpoints newBackend eps pd add;
      Ret (match err with Some e => e :: errs | None => errs end, pd)
  end.

(** The removal of one endpoint; its executor is closed in the background. *)
Definition del_endpoint (pd : PodDispatcher) (key : string) : PodDispatcher :=
  let '(executor, m) := sm_del (endpoints pd) key in
  let pd := set_endpoints pd m in
  match executor with
  | Some p => set_closing pd (pd_closing pd ++ [p])
  | None => pd
  end.

Definition del_endpoints (pd : PodDispatcher) (del : list string) : PodDispatcher :=
  foldl del_endpoint pd del.

(** The additions run in parallel and in the order of a Go map iteration:
    [order] is the order in which they take effect.  The errors are joined by
    [NewAggregate], which is nil for no error. *)
Definition pd_Reconcile (newBackend : string -> outcome (result E)) (order : list string -> list string)
    (pd : PodDispatcher) (readyPods : list Pod) : outcome (list error * PodDispatcher) :=
  let eps := ready_endpoints readyPods in
  let '(add, del) := endpoints_diff pd eps in
  '(errs, pd) ← add_endpoints newBackend eps pd (order add);
  Ret (errs, del_endpoints pd del).

End pod.

Arguments PodDispatcher M C E : clear implicits.
Arguments turn M C E : clear implicits.

(** ** [KnServiceDispatcher] *)

Definition kourierGatewayServicePort : string := ":80".

(** [strings.TrimPrefix]. *)
Definition TrimPrefix (s prefix : string) : string :=
  if String.prefix prefix s
  then String.substring (String.length prefix) (String.length s - String.length prefix) s
  else s.

Record KnServiceDispatcher (E : Type) : Type := mkKD {
  kd_target : string;
  kd_timeout : Z;
  kd_endpoint : string;
  kd_executor : E
}.

Arguments mkKD {E}.
Arguments kd_target {E}.
Arguments kd_timeout {E}.
Arguments kd_endpoint {E}.
Arguments kd_executor {E}.

Definition NewKnServiceDispatcher {E} (newBackend : string -> outcome (result E))
    (target : string) (timeout : Z) (url : string) : outcome (result (KnServiceDispatcher E)) :=
  let endpoint := TrimPrefix url "http://" +:+ kourierGatewayServicePort in
  r ← newBackend endpoint;
  Ret (match r with
       | Err e => Err (errorf ("failed to start backend: " +:+ err_text e))
       | Ok executor => Ok (mkKD target timeout endpoint executor)
       end).

(** The time allowed to one execution, and the execution. *)
Definition kd_deadline {E} (timeoutFactor : float64) (kd : KnServiceDispatcher E) (req : Request) : Z :=
  add64 (kd_timeout kd) (Timeout timeoutFactor req).

Definition kd_Dispatch {Conn E} `{Executor Conn E} (kd : KnServiceDispatcher E)
    (env : exec_env Conn) (req : Request) : option Response * KnServiceDispatcher E :=
  let '(res, e) := Execute (kd_executor kd) env req in
  (res, mkKD (kd_target kd) (kd_timeout kd) (kd_endpoint kd) e).

(** ** Facts about one dispatcher *)

Section facts.
Context {M : Type -> Type} `{SharedMapLaws M}.
Context {C : Type -> Type} `{CL : ChannLaws C}.
Context {E : Type}.
Implicit Types pd : PodDispatcher M C E.

Definition live pd (key : string) : bool := bool_decide (is_Some (sm_inner (endpoints pd) !! key)).

Definition token_items pd : list string := ch_items (tokens pd).

Lemma dispatch_turn_spec pd :
  match dispatch_turn pd with
  | Waits => token_items pd = []
  | Discards pd' => exists key, token_items pd = key :: token_items pd' /\ live pd key = false /\
      endpoints pd' = endpoints pd /\ pd_heap pd' = pd_heap pd
  | Takes key e pd' => token_items pd = key :: token_items pd' /\
      sm_inner (endpoints pd) !! key = Some e /\ endpoints pd' = endpoints pd /\ pd_heap pd' = pd_heap pd
  end.
Proof.
  unfold dispatch_turn, token_items, live. destruct (ch_recv (tokens pd)) as [[key t]|] eqn:R.
  - apply ch_recv_some in R. simpl. rewrite sm_get_inner.
    destruct (sm_inner (endpoints pd) !! key) as [e|] eqn:L; simpl; [done|].
    exists key. split_and!; try done. rewrite L. by apply bool_decide_eq_false_2; intros [].
  - by apply ch_recv_none.
Qed.

(** [dispatch] takes the first live token.  Undisturbed, its loop ends
    after at most as many turns as there are tokens: it discards the tokens of
    removed pods in front, takes the first token of a pod that is still an
    endpoint, together with that pod's executor, and leaves the rest in order;
    it has to wait only when no token is live. *)
Theorem dispatch_first_live pd fuel :
  length (token_items pd) < fuel ->
  exists r pd', dispatch fuel pd = Some (r, pd') /\
  match r with
  | Some (key, e) => exists dead rest,
      token_items pd = dead ++ key :: rest /\ Forall (fun k => live pd k = false) dead /\
      sm_inner (endpoints pd) !! key = Some e /\ token_items pd' = rest /\ endpoints pd' = endpoints pd
  | None => Forall (fun k => live pd k = false) (token_items pd) /\ token_items pd' = []
  end.
Proof.
  revert pd. induction fuel as [|fuel IH]; intros pd Hf; [lia|]. simpl.
  pose proof (dispatch_turn_spec pd) as T. destruct (dispatch_turn pd) as [|pd1|key e pd1].
  - exists None, pd. rewrite T. split_and!; done.
  - destruct T as (key & Hi & Hl & He & Hh). rewrite Hi in Hf. simpl in Hf.
    destruct (IH pd1 ltac:(lia)) as (r & pd' & E1 & R). exists r, pd'. split; [done|].
    assert (forall k, live pd1 k = live pd k) as HL by (intros k; unfold live; by rewrite He).
    destruct r as [[k e]|].
    + destruct R as (dead & rest & R1 & R2 & R3 & R4 & R5). exists (key :: dead), rest.
      rewrite Hi, R1, He in *. split_and!; try done. constructor; [done|].
      eapply Forall_impl; [exact R2|]. intros x. simpl. by rewrite HL.
    + destruct R as (R1 & R2). split; [|done]. rewrite Hi. constructor; [done|].
      eapply Forall_impl; [exact R1|]. intros x. simpl. by rewrite HL.
  - destruct T as (Hi & Hl & He & Hh). exists (Some (key, e)), pd1. split; [done|].
    exists [], (token_items pd1). split_and!; done.
Qed.

(** *** Reconciliation *)

Definition ready_keys (pods : list Pod) : list string := map (fun p => fst (podEndpointKeyFunc p)) pods.

Lemma ready_endpoints_lookup pods key :
  is_Some (ready_endpoints pods !! key) <-> key ∈ ready_keys pods.
Proof.
  assert (forall m : gmap string string,
    is_Some (foldl (fun m pod => <[fst (podEndpointKeyFunc pod) := snd (podEndpointKeyFunc pod)]> m)
               m pods !! key) <-> is_Some (m !! key) \/ (key ∈ ready_keys pods)) as G.
  { induction pods as [|p pods IH]; intros m; cbn [foldl ready_keys map]; [set_solver|].
    rewrite IH. destruct (decide (key = fst (podEndpointKeyFunc p))) as [->|N].
    - rewrite lookup_insert_eq. split; [|eauto]. intros _. right. left.
    - rewrite lookup_insert_ne by done. rewrite elem_of_cons. naive_solver. }
  unfold ready_endpoints. rewrite G, lookup_empty. split; [|auto]. intros [[]|]; done.
Qed.

(** The keys of a map that an other map lacks, each once. *)
Lemma missing_keys {A B} (m1 : gmap string A) (m2 : gmap string B) :
  let l := filter (fun key => m2 !! key = None) (map fst (map_to_list m1)) in
  NoDup l /\ (forall key, key ∈ l <-> is_Some (m1 !! key) /\ m2 !! key = None).
Proof.
  split; [apply NoDup_filter, NoDup_fst_map_to_list|]. intros key.
  rewrite list_elem_of_filter, list_elem_of_fmap. split.
  - intros (N & [k v] & -> & Hin). apply elem_of_map_to_list in Hin. eauto.
  - intros ([v Hv] & N). split; [done|]. exists (key, v). by rewrite elem_of_map_to_list.
Qed.

(** The endpoints after the goroutines for [add] ran: those in [added] got a
    new executor and one token, the others failed. *)
Record additions (add : list string) (errs : list error) pd pd' (added : list string) : Prop := {
  ad_sub : added ⊆+ add;
  ad_tokens : token_items pd' = token_items pd ++ added;
  ad_old : forall k, k ∉ added -> sm_inner (endpoints pd') !! k = sm_inner (endpoints pd) !! k;
  ad_new : forall k, k ∈ added -> exists p,
    sm_inner (endpoints pd') !! k = Some p /\ p < length (pd_heap pd');
  ad_heap : pd_heap pd `prefix_of` pd_heap pd';
  ad_count : length errs + length added = length add
}.

Lemma add_endpoints_spec newBackend eps pd add errs pd' :
  NoDup add -> add_endpoints newBackend eps pd add = Ret (errs, pd') ->
  exists added, additions add errs pd pd' added.
Proof.
  revert pd errs. induction add as [|key add IH]; intros pd errs Hn; simpl.
  { intros [= <- <-]. exists []. constructor; try done.
    - by rewrite app_nil_r.
    - set_solver. }
  apply NoDup_cons in Hn as [Hk Hn]. unfold add_endpoint, endpoint_set.
  destruct (newBackend (str_at eps key)) as [[e|e]| |]; simpl; [| |done..].
  - set (pd1 := endpoint_tokens _ _).
    assert (token_items pd1 = token_items pd ++ [key]) as Ht by apply ch_items_send.
    assert (pd_heap pd1 = pd_heap pd ++ [e]) as Hh by done.
    assert (sm_inner (endpoints pd1) = <[key := length (pd_heap pd)]> (sm_inner (endpoints pd))) as He.
    { simpl. rewrite sm_inner_set. f_equal. rewrite length_app. simpl. lia. }
    clearbody pd1. destruct (add_endpoints newBackend eps pd1 add) as [[errs1 pd2]| |] eqn:R; [|done..].
    simpl. intros [= <- <-]. destruct (IH _ _ Hn R) as (added & [A1 A2 A3 A4 A5 A6]).
    exists (key :: added). constructor; simpl.
    + by constructor.
    + by rewrite A2, Ht, <- app_assoc.
    + intros k Hk'. rewrite A3, He, lookup_insert_ne; set_solver.
    + intros k [->|Hin]%elem_of_cons; [|by apply A4]. exists (length (pd_heap pd)). split.
      * rewrite A3, He, lookup_insert_eq; [done|]. intros Hin.
        apply (elem_of_submseteq added add) in Hin; auto.
      * apply prefix_length in A5. rewrite Hh, length_app in A5. simpl in A5. lia.
    + etransitivity; [|exact A5]. rewrite Hh. by apply prefix_app_r.
    + lia.
  - destruct (add_endpoints newBackend eps pd add) as [[errs1 pd2]| |] eqn:R; [|done..].
    simpl. intros [= <- <-]. destruct (IH _ _ Hn R) as (added & [A1 A2 A3 A4 A5 A6]).
    exists added. constructor; simpl; try done; [by apply submseteq_cons|lia].
Qed.

Lemma del_endpoint_spec pd key :
  token_items (del_endpoint pd key) = token_items pd /\ pd_heap (del_endpoint pd key) = pd_heap pd /\
  sm_inner (endpoints (del_endpoint pd key)) = delete key (sm_inner (endpoints pd)) /\
  pd_closing (del_endpoint pd key) = pd_closing pd ++ option_list (sm_inner (endpoints pd) !! key).
Proof.
  unfold del_endpoint. pose proof (sm_del_old _ (endpoints pd) key) as E1.
  pose proof (sm_inner_del _ (endpoints pd) key) as E2.
  destruct (sm_del (endpoints pd) key) as [old m]. simpl in E1, E2. rewrite <- E1.
  destruct old; simpl; [done|]. by rewrite app_nil_r.
Qed.

Lemma del_endpoints_spec pd del :
  token_items (del_endpoints pd del) = token_items pd /\ pd_heap (del_endpoints pd del) = pd_heap pd /\
  (forall k, sm_inner (endpoints (del_endpoints pd del)) !! k =
             if decide (k ∈ del) then None else sm_inner (endpoints pd) !! k).
Proof.
  unfold del_endpoints. revert pd. induction del as [|key del IH]; intros pd; cbn [foldl].
  { split_and!; [done..|]. intros k. rewrite decide_False by set_solver. done. }
  destruct (IH (del_endpoint pd key)) as (I1 & I2 & I3).
  destruct (del_endpoint_spec pd key) as (D1 & D2 & D3 & _).
  rewrite I1, I2, D1, D2. split_and!; [done..|]. intros k. rewrite I3, D3.
  destruct (decide (k ∈ del)); [by rewrite decide_True by set_solver|].
  destruct (decide (k = key)) as [->|].
  - rewrite lookup_delete_eq, decide_True by set_solver. done.
  - rewrite lookup_delete_ne, decide_False by set_solver. done.
Qed.

(** What a reconciliation does, for the theorems below. *)
Lemma reconcile_spec newBackend order pd pods errs pd' :
  (forall l, Permutation (order l) l) ->
  pd_Reconcile newBackend order pd pods = Ret (errs, pd') ->
  exists added,
    NoDup added /\ token_items pd' = token_items pd ++ added /\ pd_heap pd `prefix_of` pd_heap pd' /\
    (forall k, k ∈ added -> (k ∈ ready_keys pods) /\ sm_inner (endpoints pd) !! k = None /\
       exists p, sm_inner (endpoints pd') !! k = Some p /\ p < length (pd_heap pd')) /\
    (forall k, k ∉ added -> sm_inner (endpoints pd') !! k =
       if decide (k ∈ ready_keys pods) then sm_inner (endpoints pd) !! k else None) /\
    (errs = [] -> forall k, k ∈ ready_keys pods -> is_Some (sm_inner (endpoints pd') !! k)).
Proof.
  intros Ho. unfold pd_Reconcile, endpoints_diff.
  destruct (missing_keys (ready_endpoints pods) (sm_inner (endpoints pd))) as [N1 K1].
  destruct (missing_keys (sm_inner (endpoints pd)) (ready_endpoints pods)) as [N2 K2].
  set (add := filter _ _) in *. set (del := filter _ (map fst (map_to_list (sm_inner _)))) in *.
  destruct (add_endpoints _ _ _ _) as [[errs1 pd1]| |] eqn:A; [|done..]. simpl. intros [= <- <-].
  apply add_endpoints_spec in A as (added & [A1 A2 A3 A4 A5 A6]); [|by rewrite Ho].
  destruct (del_endpoints_spec pd1 del) as (D1 & D2 & D3). rewrite (Ho add) in A1, A6.
  destruct (submseteq_Permutation _ _ A1) as [failed Hp].
  assert (forall k, k ∈ add -> k ∉ del) as Hdis.
  { intros k Ha Hd. apply K1 in Ha as [_ Ha]. apply K2 in Hd as [Hd _]. rewrite Ha in Hd. by destruct Hd. }
  assert (forall k, k ∈ added -> k ∈ add) as Hsub by (intros k; rewrite Hp; set_solver).
  exists added. rewrite D1, D2. split_and!; try done.
  - rewrite Hp in N1. apply NoDup_app in N1 as [? _]. done.
  - intros k Hk. specialize (Hsub k Hk). destruct (A4 k Hk) as (p & P1 & P2).
    rewrite D3, decide_False by (by apply Hdis). apply K1 in Hsub as [Hs1 Hs2].
    rewrite ready_endpoints_lookup in Hs1. eauto.
  - intros k Hk. rewrite D3, A3 by done. pose proof (ready_endpoints_lookup pods k) as HR.
    destruct (decide (k ∈ ready_keys pods)) as [Hin|Hout].
    + rewrite decide_False; [done|]. rewrite K2. intros [_ HN]. apply HR in Hin as [v Hv]. congruence.
    + case_decide as Hd; [done|]. rewrite K2 in Hd.
      destruct (sm_inner (endpoints pd) !! k) eqn:Ek; [|done]. exfalso. apply Hd. split; [done|].
      destruct (ready_endpoints pods !! k) eqn:Er; [|done]. exfalso. apply Hout, HR. eauto.
  - intros -> k Hin. assert (k ∉ del) as Hd.
    { rewrite K2. intros [_ HN]. apply ready_endpoints_lookup in Hin as [v Hv]. congruence. }
    rewrite D3, decide_False by done. destruct (decide (k ∈ added)) as [Ha|Ha].
    { destruct (A4 k Ha) as (p & P1 & _). eauto. }
    rewrite A3 by done. destruct (sm_inner (endpoints pd) !! k) eqn:Ek; [done|]. exfalso. apply Ha.
    assert (Permutation added add) as Hall by (apply submseteq_length_Permutation; simpl in *; lia || done).
    rewrite Hall. apply K1. split; [|done]. by apply ready_endpoints_lookup.
Qed.

Lemma reconcile_live newBackend order pd pods errs pd' :
  (forall l, Permutation (order l) l) ->
  pd_Reconcile newBackend order pd pods = Ret (errs, pd') ->
  (forall k, live pd' k = true -> k ∈ ready_keys pods) /\
  (errs = [] -> forall k, k ∈ ready_keys pods -> live pd' k = true).
Proof.
  intros Ho R. destruct (reconcile_spec _ _ _ _ _ _ Ho R) as (added & _ & _ & _ & R1 & R2 & R3).
  unfold live. split.
  - intros k Hl%bool_decide_eq_true. destruct (decide (k ∈ added)) as [Ha|Ha]; [by apply R1|].
    rewrite R2 in Hl by done. case_decide; [done|by destruct Hl].
  - intros He k Hk. apply bool_decide_eq_true. auto.
Qed.

(** ** The goroutines of a dispatcher *)

Context {Conn : Type} `{ExecutorLaws Conn E}.

(** A reconciliation in progress: the keys still to add, those entered whose
    tokens are still to be sent, those still to remove, and those whose backend
    failed.  The ready pods and the endpoints at its start are kept. *)
Record rec_state : Type := mkRec {
  rc_pods : list Pod;
  rc_before : gmap string nat;
  rc_add : list string;
  rc_half : list string;
  rc_del : list string;
  rc_failed : list string
}.

Definition rec_begin pd (readyPods : list Pod) : rec_state :=
  let '(add, del) := endpoints_diff pd (ready_endpoints readyPods) in
  mkRec readyPods (sm_inner (endpoints pd)) add [] del [].

Definition rec_added (rc : rec_state) (key : string) (rest : list string) (err : option error) : rec_state :=
  match err with
  | None => mkRec (rc_pods rc) (rc_before rc) rest (key :: rc_half rc) (rc_del rc) (rc_failed rc)
  | Some _ => mkRec (rc_pods rc) (rc_before rc) rest (rc_half rc) (rc_del rc) (key :: rc_failed rc)
  end.

Definition rec_with_half (rc : rec_state) (half : list string) : rec_state :=
  mkRec (rc_pods rc) (rc_before rc) (rc_add rc) half (rc_del rc) (rc_failed rc).

Definition rec_with_del (rc : rec_state) (del : list string) : rec_state :=
  mkRec (rc_pods rc) (rc_before rc) (rc_add rc) (rc_half rc) del (rc_failed rc).

Definition rec_finished (rc : rec_state) : Prop := rc_add rc = [] /\ rc_half rc = [] /\ rc_del rc = [].

(** [pw_waiting] are the requests whose goroutine is in [dispatch],
    [pw_running] those being executed, with the token, the executor and where the
    execution stands,
    [pw_out] the responses sent, and [pw_rec] the reconciliation in progress
    (the controller never runs two for one key).  The requests that arrived and
    the endpoints that were ever removed are remembered for the statements. *)
Record pd_world : Type := mkPW {
  pw_pd : PodDispatcher M C E;
  pw_waiting : list Request;
  pw_running : list (string * nat * exec_state Conn);
  pw_out : list Response;
  pw_in : list Request;
  pw_removed : gset string;
  pw_rec : option rec_state
}.

Definition with_pd (w : pd_world) pd : pd_world :=
  mkPW pd (pw_waiting w) (pw_running w) (pw_out w) (pw_in w) (pw_removed w) (pw_rec w).

(** A step of the reconciliation; removed endpoints are remembered. *)
Definition rec_step_to (w : pd_world) pd (rc : option rec_state) : pd_world :=
  mkPW pd (pw_waiting w) (pw_running w) (pw_out w) (pw_in w)
    (pw_removed w ∪ (dom (sm_inner (endpoints (pw_pd w))) ∖ dom (sm_inner (endpoints pd)))) rc.

Inductive pd_step : pd_world -> pd_world -> Prop :=
| pd_arrive w req :
    pd_step w (mkPW (pw_pd w) (pw_waiting w ++ [req]) (pw_running w) (pw_out w)
                 (pw_in w ++ [req]) (pw_removed w) (pw_rec w))
| pd_discard w pd' :
    pw_waiting w <> [] -> dispatch_turn (pw_pd w) = Discards pd' ->
    pd_step w (with_pd w pd')
| pd_take w w1 req w2 key e pd' :
    pw_waiting w = w1 ++ req :: w2 -> dispatch_turn (pw_pd w) = Takes key e pd' ->
    pd_step w (mkPW pd' (w1 ++ w2) ((key, e, ExecBegins req) :: pw_running w) (pw_out w) (pw_in w) (pw_removed w)
                 (pw_rec w))
| pd_expire w w1 req w2 :
    pw_waiting w = w1 ++ req :: w2 ->
    pd_step w (mkPW (pw_pd w) (w1 ++ w2) (pw_running w) (pw_out w ++ [Dispatch_expired req])
                 (pw_in w) (pw_removed w) (pw_rec w))
| pd_exec w r1 key e x r2 env x' pd' :
    pw_running w = r1 ++ (key, e, x) :: r2 ->
    Dispatch_execute (pw_pd w) key e env x = Ret (Some (inl x', pd')) ->
    pd_step w (mkPW pd' (pw_waiting w) (r1 ++ (key, e, x') :: r2) (pw_out w) (pw_in w) (pw_removed w) (pw_rec w))
| pd_finish w r1 key e x r2 env res pd' :
    pw_running w = r1 ++ (key, e, x) :: r2 ->
    Dispatch_execute (pw_pd w) key e env x = Ret (Some (inr res, pd')) ->
    pd_step w (mkPW pd' (pw_waiting w) (r1 ++ r2) (pw_out w ++ [res]) (pw_in w) (pw_removed w) (pw_rec w))
| pd_rec_begin w pods :
    pw_rec w = None ->
    pd_step w (rec_step_to w (pw_pd w) (Some (rec_begin (pw_pd w) pods)))
| pd_rec_set w rc a1 key a2 newBackend err pd' :
    pw_rec w = Some rc -> rc_add rc = a1 ++ key :: a2 ->
    endpoint_set newBackend (ready_endpoints (rc_pods rc)) (pw_pd w) key = Ret (err, pd') ->
    pd_step w (rec_step_to w pd' (Some (rec_added rc key (a1 ++ a2) err)))
| pd_rec_token w rc h1 key h2 :
    pw_rec w = Some rc -> rc_half rc = h1 ++ key :: h2 ->
    pd_step w (rec_step_to w (endpoint_tokens (pw_pd w) key) (Some (rec_with_half rc (h1 ++ h2))))
| pd_rec_del w rc d1 key d2 :
    pw_rec w = Some rc -> rc_del rc = d1 ++ key :: d2 ->
    pd_step w (rec_step_to w (del_endpoint (pw_pd w) key) (Some (rec_with_del rc (d1 ++ d2))))
| pd_rec_end w rc :
    pw_rec w = Some rc -> rec_finished rc ->
    pd_step w (rec_step_to w (pw_pd w) None)
| pd_close w p e e' :
    p ∈ pd_closing (pw_pd w) -> pd_heap (pw_pd w) !! p = Some e -> CloseTurn e = Some e' ->
    pd_step w (with_pd w (set_heap (pw_pd w) (<[p := e']> (pd_heap (pw_pd w))))).

Definition pd_init (target : string) (timeout : Z) : pd_world :=
  mkPW (NewPodDispatcher target timeout) [] [] [] [] ∅ None.

Lemma endpoint_set_spec newBackend eps pd key err pd' :
  endpoint_set newBackend eps pd key = Ret (err, pd') ->
  token_items pd' = token_items pd /\ pd_closing pd' = pd_closing pd /\
  match err with
  | Some _ => pd' = pd
  | None => length (pd_heap pd') = S (length (pd_heap pd)) /\
      sm_inner (endpoints pd') = <[key := length (pd_heap pd)]> (sm_inner (endpoints pd))
  end.
Proof.
  unfold endpoint_set. destruct (newBackend _) as [[e|e]| |]; [| |done..]; intros [= <- <-]; [|done].
  simpl. rewrite sm_inner_set, length_app. simpl. split_and!; try done; [lia|]. do 2 f_equal. lia.
Qed.

Lemma live_endpoints pd pd' key :
  sm_inner (endpoints pd') = sm_inner (endpoints pd) -> live pd' key = live pd key.
Proof. unfold live. by intros ->. Qed.

Lemma live_insert pd pd' key p k :
  sm_inner (endpoints pd') = <[key := p]> (sm_inner (endpoints pd)) ->
  live pd' k = if decide (k = key) then true else live pd k.
Proof.
  unfold live. intros ->. case_decide as Hk; [subst; rewrite lookup_insert_eq|by rewrite lookup_insert_ne].
  apply bool_decide_eq_true_2. eauto.
Qed.

Lemma live_delete pd pd' key k :
  sm_inner (endpoints pd') = delete key (sm_inner (endpoints pd)) ->
  live pd' k = if decide (k = key) then false else live pd k.
Proof.
  unfold live. intros ->. case_decide as Hk; [subst; rewrite lookup_delete_eq|by rewrite lookup_delete_ne].
  apply bool_decide_eq_false_2. by intros [].
Qed.

(** What a turn of an execution leaves alone, and what it does. *)
Lemma execute_spec pd key e env x r pd' :
  Dispatch_execute pd key e env x = Ret (Some (r, pd')) ->
  endpoints pd' = endpoints pd /\ pd_closing pd' = pd_closing pd /\
  length (pd_heap pd') = length (pd_heap pd) /\
  match r with
  | inl x' => token_items pd' = token_items pd /\ same_request (state_request x') (state_request x) /\
      exec_left x' < exec_left x
  | inr res => token_items pd' = token_items pd ++ [key] /\ same_request (Source res) (state_request x)
  end.
Proof.
  unfold Dispatch_execute. destruct (pd_heap pd !! e) as [ex|] eqn:Hh; [|done].
  destruct (ExecTurn ex env x) as [[[x'|res] ex']|] eqn:T; [| |done]; intros [= <- <-]; simpl; rewrite length_insert.
  - apply ExecTurn_goes in T as (Hs & Hl & _). done.
  - apply ExecTurn_ends in T as (Hs & _). split_and!; try done. apply ch_items_send.
Qed.

(** *** The reconciliation under interleaving *)

Record rec_inv pd (rc : rec_state) : Prop := {
  ri_add_nodup : NoDup (rc_add rc);
  ri_del_nodup : NoDup (rc_del rc);
  ri_add : forall k, k ∈ rc_add rc -> k ∈ ready_keys (rc_pods rc);
  ri_del : forall k, k ∈ rc_del rc -> k ∉ ready_keys (rc_pods rc);
  ri_failed : forall k, k ∈ rc_failed rc -> k ∉ rc_add rc;
  ri_live : forall k, live pd k = true <->
    (k ∈ ready_keys (rc_pods rc) /\ k ∉ rc_add rc /\ k ∉ rc_failed rc) \/ k ∈ rc_del rc;
  ri_kept : forall k p, rc_before rc !! k = Some p -> k ∈ ready_keys (rc_pods rc) ->
    sm_inner (endpoints pd) !! k = Some p
}.

Definition world_rec_inv (w : pd_world) : Prop :=
  match pw_rec w with Some rc => rec_inv (pw_pd w) rc | None => True end.

Lemma live_is_Some pd k : live pd k = true <-> is_Some (sm_inner (endpoints pd) !! k).
Proof. apply bool_decide_eq_true. Qed.

Lemma rec_begin_inv pd pods : rec_inv pd (rec_begin pd pods).
Proof.
  unfold rec_begin, endpoints_diff.
  destruct (missing_keys (ready_endpoints pods) (sm_inner (endpoints pd))) as [N1 K1].
  destruct (missing_keys (sm_inner (endpoints pd)) (ready_endpoints pods)) as [N2 K2].
  set (add := filter _ _) in *. set (del := filter _ (map fst (map_to_list (sm_inner _)))) in *.
  pose proof (ready_endpoints_lookup pods) as HR.
  constructor; simpl; try done; [| |set_solver|].
  - intros k Hk. apply K1 in Hk as [Hk _]. by apply HR.
  - intros k Hk Hr. apply K2 in Hk as [_ Hk]. apply HR in Hr as [v Hv]. congruence.
  - intros k. rewrite live_is_Some, K1, K2, <- HR.
    destruct (sm_inner (endpoints pd) !! k) eqn:E1, (ready_endpoints pods !! k) eqn:E2;
      rewrite ?is_Some_alt; naive_solver set_solver.
Qed.

Lemma nodup_split (l1 l2 : list string) key :
  NoDup (l1 ++ key :: l2) -> NoDup (l1 ++ l2) /\ key ∉ l1 ++ l2.
Proof. rewrite <- Permutation_middle. intros [? ?]%NoDup_cons. done. Qed.

Lemma elem_split (l1 l2 : list string) key k :
  k ∈ l1 ++ key :: l2 <-> k = key \/ k ∈ l1 ++ l2.
Proof. rewrite <- Permutation_middle. apply elem_of_cons. Qed.

(** Only the reconciliation changes the endpoints. *)
Lemma rec_inv_endpoints pd pd' rc :
  sm_inner (endpoints pd') = sm_inner (endpoints pd) -> rec_inv pd rc -> rec_inv pd' rc.
Proof.
  intros He [I1 I2 I3 I4 I5 I6 I7]. constructor; try done.
  - intros k. by rewrite (live_endpoints pd pd' k He).
  - intros k p. rewrite He. auto.
Qed.

Lemma rec_added_inv pd rc a1 key a2 newBackend err pd' :
  rec_inv pd rc -> rc_add rc = a1 ++ key :: a2 ->
  endpoint_set newBackend (ready_endpoints (rc_pods rc)) pd key = Ret (err, pd') ->
  rec_inv pd' (rec_added rc key (a1 ++ a2) err) /\ live pd key = false.
Proof.
  intros [I1 I2 I3 I4 I5 I6 I7] Ha S. rewrite Ha in *. destruct (nodup_split _ _ _ I1) as [Na Nk].
  assert (key ∈ ready_keys (rc_pods rc)) as Hr by (apply I3, elem_split; auto).
  assert (live pd key = false) as Hl.
  { destruct (live pd key) eqn:L; [|done]. apply I6 in L as [(_ & L & _)|L].
    - destruct L. apply elem_split. auto.
    - by destruct (I4 key L). }
  split; [|done]. apply endpoint_set_spec in S as (_ & _ & S). destruct err as [e|].
  - subst pd'. constructor; simpl; auto.
    + intros k Hk. apply I3, elem_split. auto.
    + intros k [->|Hk]%elem_of_cons; [done|]. intros Hin. apply (I5 k Hk), elem_split. auto.
    + intros k. rewrite I6, elem_split, elem_of_cons.
      destruct (decide (k = key)) as [->|]; [|tauto].
      split; [|intros [(_ & _ & X)|X]; [destruct X; auto|auto]]. intros [(_ & X & _)|X]; [destruct X; auto|auto].
  - destruct S as [_ S]. constructor; simpl; auto.
    + intros k Hk. apply I3, elem_split. auto.
    + intros k Hk Hin. apply (I5 k Hk), elem_split. auto.
    + intros k. rewrite (live_insert _ _ _ _ k S). case_decide as Hk.
      * subst. split; [|done]. intros _. left. split_and!; try done. intros Hf. apply (I5 key Hf), elem_split. auto.
      * rewrite I6, elem_split. tauto.
    + intros k p Hb Hk. rewrite S. destruct (decide (k = key)) as [->|].
      * specialize (I7 key p Hb Hk). unfold live in Hl. apply bool_decide_eq_false in Hl. destruct Hl. eauto.
      * rewrite lookup_insert_ne by done. auto.
Qed.

Lemma rec_del_inv pd rc d1 key d2 :
  rec_inv pd rc -> rc_del rc = d1 ++ key :: d2 ->
  rec_inv (del_endpoint pd key) (rec_with_del rc (d1 ++ d2)).
Proof.
  intros [I1 I2 I3 I4 I5 I6 I7] Hd. rewrite Hd in *. destruct (nodup_split _ _ _ I2) as [Nd Nk].
  assert (key ∉ ready_keys (rc_pods rc)) as Hr by (apply I4, elem_split; auto).
  destruct (del_endpoint_spec pd key) as (_ & _ & D & _). constructor; simpl; auto.
  - intros k Hk. apply I4, elem_split. auto.
  - intros k. rewrite (live_delete _ _ _ k D). case_decide as Hk.
    + subst. split; [done|]. intros [[? _]|]; done.
    + rewrite I6, elem_split. tauto.
  - intros k p Hb Hk. rewrite D. destruct (decide (k = key)) as [->|]; [done|].
    rewrite lookup_delete_ne by done. auto.
Qed.

(** The endpoints after each kind of step. *)
Lemma turn_endpoints pd :
  match dispatch_turn pd with
  | Waits => True
  | Discards pd' | Takes _ _ pd' => endpoints pd' = endpoints pd /\ pd_heap pd' = pd_heap pd /\
      pd_closing pd' = pd_closing pd
  end.
Proof.
  unfold dispatch_turn. destruct (ch_recv (tokens pd)) as [[k t]|]; [|done].
  by destruct (sm_get _ _).
Qed.

Lemma step_rec_inv w w' : pd_step w w' -> world_rec_inv w -> world_rec_inv w'.
Proof.
  unfold world_rec_inv.
  intros [w0 req|w0 pd' Hw T|w0 w1 req w2 k e pd' Hw T|w0 w1 req w2 Hw|w0 r1 k e x r2 env x' pd' Hr X|w0 r1 k e x r2 env res pd' Hr X|
          w0 pods Hn|w0 rc a1 k a2 nb err pd' Hc Ha S|w0 rc h1 k h2 Hc Hh|w0 rc d1 k d2 Hc Hd|w0 rc Hc Hf|
          w0 p e e' Hp Hh Ht] I; simpl in *; try done.
  - pose proof (turn_endpoints (pw_pd w0)) as Te. rewrite T in Te. destruct (pw_rec w0) as [rc|]; [|done].
    eapply rec_inv_endpoints; [|exact I]. by rewrite (proj1 Te).
  - pose proof (turn_endpoints (pw_pd w0)) as Te. rewrite T in Te. destruct (pw_rec w0) as [rc|]; [|done].
    eapply rec_inv_endpoints; [|exact I]. by rewrite (proj1 Te).
  - destruct (pw_rec w0) as [rc|]; [|done]. apply execute_spec in X as (He & _).
    eapply rec_inv_endpoints; [|exact I]. by rewrite He.
  - destruct (pw_rec w0) as [rc|]; [|done]. apply execute_spec in X as (He & _).
    eapply rec_inv_endpoints; [|exact I]. by rewrite He.
  - apply rec_begin_inv.
  - rewrite Hc in I. exact (proj1 (rec_added_inv _ _ _ _ _ _ _ _ I Ha S)).
  - rewrite Hc in I. eapply rec_inv_endpoints in I; [|done]. destruct I. by constructor.
  - rewrite Hc in I. by apply rec_del_inv.
  - destruct (pw_rec w0) as [rc|]; [|done]. by eapply rec_inv_endpoints; [|exact I].
Qed.

Lemma reach_rec_inv target timeout w : rtc pd_step (pd_init target timeout) w -> world_rec_inv w.
Proof.
  revert w. refine (rtc_ind_r world_rec_inv _ _ _); [done|]. intros w1 w2 _ St I. by eapply step_rec_inv.
Qed.

(** C9: a reconciliation makes the ready pods the endpoints.  However its
    parallel additions and its removals interleave with each other and with
    dispatching, when it is done the endpoints are exactly the ready pods
    whose backend could be started, and a pod that was and stays ready has
    kept its executor. *)
Theorem reconcile_matches_ready target timeout w rc :
  rtc pd_step (pd_init target timeout) w -> pw_rec w = Some rc -> rec_finished rc ->
  (forall k, live (pw_pd w) k = true <-> (k ∈ ready_keys (rc_pods rc) /\ k ∉ rc_failed rc)) /\
  (forall k p, k ∈ ready_keys (rc_pods rc) -> rc_before rc !! k = Some p ->
     sm_inner (endpoints (pw_pd w)) !! k = Some p).
Proof.
  intros R Hc (F1 & F2 & F3). apply reach_rec_inv in R. unfold world_rec_inv in R. rewrite Hc in R.
  destruct R as [_ _ _ _ _ I6 I7]. rewrite F1, F3 in I6. split; [|auto].
  intros k. rewrite I6. set_solver.
Qed.

(** *** Tokens *)

Definition run_key (r : string * nat * exec_state Conn) : string := fst (fst r).

Definition is_key (key k : string) : bool := bool_decide (k = key).

Definition half_added (w : pd_world) : list string :=
  match pw_rec w with Some rc => rc_half rc | None => [] end.

(** The tokens of a key: in the channel, held by an execution, or about to be
    sent by the reconciliation that entered the pod. *)
Definition occupancy (w : pd_world) (key : string) : nat :=
  count (is_key key) (token_items (pw_pd w)) + count (fun r => is_key key (run_key r)) (pw_running w) +
  count (is_key key) (half_added w).

Lemma count_is_key_cons key k l :
  count (is_key key) (k :: l) = (if decide (k = key) then 1 else 0) + count (is_key key) l.
Proof. simpl. unfold is_key. case_bool_decide; by case_decide. Qed.

Lemma removed_grows (w w' : pd_world) : pd_step w w' -> pw_removed w ⊆ pw_removed w'.
Proof. intros []; simpl; set_solver. Qed.

(** What a step does to the tokens of a key: it keeps them, or discards one of
    a pod that is no endpoint, or the pod becomes an endpoint with a new one, or
    it stops being one. *)
Lemma step_occupancy w w' key :
  pd_step w w' -> world_rec_inv w ->
  (live (pw_pd w') key = live (pw_pd w) key /\
   (occupancy w' key = occupancy w key \/
    (live (pw_pd w) key = false /\ occupancy w' key <= occupancy w key))) \/
  (live (pw_pd w) key = false /\ live (pw_pd w') key = true /\ occupancy w' key = occupancy w key + 1) \/
  (live (pw_pd w') key = false /\ occupancy w' key = occupancy w key /\
   (live (pw_pd w) key = true -> key ∈ pw_removed w')).
Proof.
  unfold world_rec_inv, occupancy, half_added.
  intros [w0 req|w0 pd' Hw T|w0 w1 req w2 k e pd' Hw T|w0 w1 req w2 Hw|w0 r1 k e x r2 env x' pd' Hr X|w0 r1 k e x r2 env res pd' Hr X|
          w0 pods Hn|w0 rc a1 k a2 nb err pd' Hc Ha S|w0 rc h1 k h2 Hc Hh|w0 rc d1 k d2 Hc Hd|w0 rc Hc Hf|
          w0 p e e' Hp Hh Ht] I; simpl in *.
  - left. auto.
  - left. pose proof (turn_endpoints (pw_pd w0)) as Te. pose proof (dispatch_turn_spec (pw_pd w0)) as Ts.
    rewrite T in Te, Ts. destruct Te as (He & _), Ts as (k & Hi & Hl & _).
    split; [by apply live_endpoints; rewrite He|]. rewrite Hi, count_is_key_cons.
    case_decide; [subst; right; split; [done|lia]|left; lia].
  - left. pose proof (turn_endpoints (pw_pd w0)) as Te. pose proof (dispatch_turn_spec (pw_pd w0)) as Ts.
    rewrite T in Te, Ts. destruct Te as (He & _), Ts as (Hi & _).
    split; [by apply live_endpoints; rewrite He|]. left. rewrite Hi, count_is_key_cons.
    unfold is_key, run_key. simpl. case_bool_decide; case_decide; try done; lia.
  - left. auto.
  - left. apply execute_spec in X as (He & _ & _ & Hi & _). split; [by apply live_endpoints; rewrite He|]. left.
    rewrite Hi, Hr, !count_app. done.
  - left. apply execute_spec in X as (He & _ & _ & Hi & _). split; [by apply live_endpoints; rewrite He|]. left.
    rewrite Hi, Hr, !count_app. simpl. unfold is_key, run_key. simpl. lia.
  - left. rewrite Hn. by split; [|left].
  - rewrite Hc in I |- *. destruct (rec_added_inv _ _ _ _ _ _ _ _ I Ha S) as [_ Hl].
    apply endpoint_set_spec in S as (Hi & _ & S). unfold rec_added.
    destruct err as [er|]; simpl; [subst pd'; left; auto|]. destruct S as [_ S]. rewrite Hi.
    rewrite (live_insert _ _ _ _ key S). 
    destruct (decide (key = k)) as [->|Nk].
    + right. left. split_and!; try done. unfold is_key. rewrite bool_decide_eq_true_2 by done. lia.
    + left. split; [done|]. left. unfold is_key at 3. rewrite bool_decide_eq_false_2 by done. lia.
  - left. rewrite Hc, Hh. split; [done|]. left. simpl. unfold token_items, endpoint_tokens. simpl.
    rewrite ch_items_send, !count_app. simpl. lia.
  - rewrite Hc. simpl. destruct (del_endpoint_spec (pw_pd w0) k) as (Hi & _ & D & _). rewrite Hi.
    rewrite (live_delete _ _ _ key D). case_decide as Hk; [|left; auto]. right. right.
    split_and!; try done. subst. intros Hl%live_is_Some. apply elem_of_union. right.
    rewrite D, dom_delete_L. apply elem_of_difference. split; [by apply elem_of_dom|set_solver].
  - left. rewrite Hc. destruct Hf as (_ & -> & _). auto.
  - left. auto.
Qed.

(** C8: no pod loses its capacity.  However dispatching, expiry, execution,
    reconciliation and closing interleave, every endpoint has its token in the
    channel, with an execution in flight, or about to be sent by the
    reconciliation in progress, so it will be used again; when no
    reconciliation is in progress it is in the channel or with an execution. *)
Theorem pod_capacity_kept target timeout w key :
  rtc pd_step (pd_init target timeout) w -> live (pw_pd w) key = true ->
  1 <= occupancy w key /\
  (pw_rec w = None -> 1 <= count (is_key key) (token_items (pw_pd w)) +
                          count (fun r => is_key key (run_key r)) (pw_running w)).
Proof.
  intros R Hl. assert (1 <= occupancy w key) as G.
  2: { split; [done|]. intros Hn. unfold occupancy, half_added in G. rewrite Hn in G. simpl in G. lia. }
  revert w R Hl. refine (rtc_ind_r (fun w => live (pw_pd w) key = true -> 1 <= occupancy w key) _ _ _).
  - unfold live. simpl. rewrite sm_inner_new, lookup_empty. intros Hl%bool_decide_eq_true. by destruct Hl.
  - intros w1 w2 R1 St IH Hl. destruct (step_occupancy w1 w2 key St (reach_rec_inv _ _ _ R1))
      as [(He & [->|[Hd _]])|[(_ & _ & ->)|(Hd & _)]]; [rewrite He in Hl; auto|congruence|lia|congruence].
Qed.

(** Endpoint keys are never reused: no endpoint is one that was removed. *)
Definition never_reused (w : pd_world) : Prop :=
  forall key, live (pw_pd w) key = true -> key ∉ pw_removed w.

(** C7: a pod executes at most one request at a time.  As long as a pod never
    becomes ready again under a name and address that were removed before,
    there is at most one token per key, in the channel, with an execution or
    about to be sent. *)
Theorem pod_runs_one_request target timeout w key :
  rtc (fun w w' => pd_step w w' /\ never_reused w') (pd_init target timeout) w ->
  count (fun r => is_key key (run_key r)) (pw_running w) <= podServiceConcurrency.
Proof.
  intros R. assert (world_rec_inv w /\ occupancy w key <= 1 /\
    (1 <= occupancy w key -> live (pw_pd w) key = true \/ (key ∈ pw_removed w))) as (_ & G & _).
  2: { unfold occupancy, podServiceConcurrency in *. lia. }
  revert w R. refine (rtc_ind_r (fun w => world_rec_inv w /\ occupancy w key <= 1 /\
    (1 <= occupancy w key -> live (pw_pd w) key = true \/ (key ∈ pw_removed w))) _ _ _).
  - unfold occupancy, token_items. simpl. rewrite ch_items_new. simpl. split; [done|lia].
  - intros w1 w2 R1 [St N] (I0 & I1 & I2). split; [by eapply step_rec_inv|].
    pose proof (removed_grows w1 w2 St) as Rg. specialize (N key).
    destruct (step_occupancy w1 w2 key St I0) as [(He & Ho)|[(L1 & L2 & Ho)|(L & Ho & Hr)]].
    + rewrite He. split; [lia|]. intros Hge. destruct I2 as [|]; [lia|auto|set_solver].
    + specialize (N L2). destruct (Nat.eq_dec (occupancy w1 key) 0); [split; [lia|auto]|].
      destruct I2 as [|]; [lia|congruence|set_solver].
    + rewrite Ho. split; [done|]. intros Hge. destruct (I2 Hge); [auto|set_solver].
Qed.

(** *** Conservation *)

(** Executors in use exist. *)
Definition heap_valid (w : pd_world) : Prop :=
  (forall k p, sm_inner (endpoints (pw_pd w)) !! k = Some p -> p < length (pd_heap (pw_pd w))) /\
  (forall r, r ∈ pw_running w -> snd (fst r) < length (pd_heap (pw_pd w))).

Lemma step_heap_valid w w' : pd_step w w' -> heap_valid w -> heap_valid w'.
Proof.
  unfold heap_valid.
  intros [w0 req|w0 pd' Hw T|w0 w1 req w2 k e pd' Hw T|w0 w1 req w2 Hw|w0 r1 k e x r2 env x' pd' Hr X|w0 r1 k e x r2 env res pd' Hr X|
          w0 pods Hn|w0 rc a1 k a2 nb err pd' Hc Ha S|w0 rc h1 k h2 Hc Hh|w0 rc d1 k d2 Hc Hd|w0 rc Hc Hf|
          w0 p e e' Hp Hh Ht] [V1 V2]; simpl in *; try done.
  - pose proof (turn_endpoints (pw_pd w0)) as Te. rewrite T in Te. by destruct Te as (-> & -> & _).
  - pose proof (turn_endpoints (pw_pd w0)) as Te. pose proof (dispatch_turn_spec (pw_pd w0)) as Ts.
    rewrite T in Te, Ts. destruct Te as (-> & -> & _), Ts as (_ & Hk & _). split; [done|].
    intros r [->|Hin]%elem_of_cons; [|by apply V2]. simpl. eauto.
  - apply execute_spec in X as (-> & _ & -> & _). split; [done|]. rewrite Hr in V2. intros r.
    rewrite elem_of_app, elem_of_cons. intros [Hin|[->|Hin]]; [apply V2; set_solver| |apply V2; set_solver].
    apply (V2 (k, e, x)). set_solver.
  - apply execute_spec in X as (-> & _ & -> & _). split; [done|]. intros r Hin. apply V2.
    rewrite Hr. set_solver.
  - apply endpoint_set_spec in S as (_ & _ & S). destruct err as [er|]; [by subst|].
    destruct S as [Hl He]. rewrite Hl, He. split.
    + intros k' p [[-> <-]|[_ Hk]]%lookup_insert_Some; [lia|]. apply V1 in Hk. lia.
    + intros r Hr. apply V2 in Hr. lia.
  - destruct (del_endpoint_spec (pw_pd w0) k) as (_ & -> & -> & _). split; [|done].
    intros k' p [_ Hk]%lookup_delete_Some. eauto.
  - rewrite length_insert. done.
Qed.

(** The identity of a request. *)
Definition tag (r : Request) : string * string := (ID r, Target r).

Definition pd_tags (w : pd_world) : list (string * string) :=
  map tag (pw_waiting w) ++ map (fun r => tag (state_request (snd r))) (pw_running w) ++
  map (fun res => tag (Source res)) (pw_out w).

Lemma same_request_tag r r' : same_request r r' -> tag r = tag r'.
Proof. intros (E1 & E2 & _). unfold tag. congruence. Qed.

Lemma step_tags w w' :
  pd_step w w' -> Permutation (map tag (pw_in w)) (pd_tags w) ->
  Permutation (map tag (pw_in w')) (pd_tags w').
Proof.
  unfold pd_tags.
  intros [w0 req|w0 pd' Hw T|w0 w1 req w2 k e pd' Hw T|w0 w1 req w2 Hw|w0 r1 k e x r2 env x' pd' Hr X|w0 r1 k e x r2 env res pd' Hr X|
          w0 pods Hn|w0 rc a1 k a2 nb err pd' Hc Ha S|w0 rc h1 k h2 Hc Hh|w0 rc d1 k d2 Hc Hd|w0 rc Hc Hf|
          w0 p e e' Hp Hh Ht] P; simpl; try done; rewrite ?map_app; rewrite P; simpl.
  - perm.
  - rewrite Hw, !map_app. simpl. perm.
  - rewrite Hw, !map_app. simpl. perm.
  - apply execute_spec in X as (_ & _ & _ & _ & Hs & _). rewrite Hr, !map_app. simpl.
    rewrite (same_request_tag _ _ Hs). perm.
  - apply execute_spec in X as (_ & _ & _ & _ & Hs). rewrite Hr, !map_app. simpl.
    rewrite (same_request_tag _ _ Hs). perm.
Qed.

(** *** Connections

    What an executor has to spare, and what the executions that use it hold. *)

Definition spare_at (w : pd_world) (p : nat) : nat :=
  match pd_heap (pw_pd w) !! p with Some e => exec_spare e | None => 0 end.

Definition held_by (w : pd_world) (p : nat) (r : string * nat * exec_state Conn) : nat :=
  if bool_decide (snd (fst r) = p)
  then match pd_heap (pw_pd w) !! p with Some e => exec_held e (snd r) | None => 0 end
  else 0.

Definition held_at (w : pd_world) (p : nat) : nat := sum_list_with (held_by w p) (pw_running w).

(** An execution that awaits a connection of executor [p]. *)
Definition awaits_at (w : pd_world) (p : nat) : Prop :=
  exists r, (r ∈ pw_running w) /\ snd (fst r) = p /\ exec_waits (snd r) = true.

(** As long as an execution awaits a connection of [p], [n] of them are spare or
    held. *)
Definition pooled (n : nat) (w : pd_world) (p : nat) : Prop :=
  awaits_at w p -> n <= spare_at w p + held_at w p.

(** The executions that use [p] at one moment and at another. *)
Lemma held_at_ext w w' p l :
  (forall r, r ∈ l -> snd (fst r) = p -> held_by w' p r = held_by w p r) ->
  sum_list_with (held_by w' p) l = sum_list_with (held_by w p) l.
Proof.
  induction l as [|r l IH]; simpl; [done|]. intros Hl. rewrite IH by (intros; apply Hl; [right|]; done).
  f_equal. destruct (decide (snd (fst r) = p)) as [Hp|Hp]; [apply Hl; [left|done]|].
  unfold held_by. by rewrite !bool_decide_eq_false_2.
Qed.

(** A world with the same executor at [p] and the same executions, or with one
    more that has just begun. *)
Lemma pooled_same n w w' p begun :
  pd_heap (pw_pd w') !! p = pd_heap (pw_pd w) !! p \/ ~ awaits_at w p ->
  pw_running w' = begun ++ pw_running w ->
  Forall (fun r => exec_left (snd r) = 3) begun -> pooled n w p -> pooled n w' p.
Proof.
  intros Hh Hr Hb P (r & Hin & Hp & Hw). rewrite Hr in Hin. apply elem_of_app in Hin as [Hin|Hin].
  { rewrite Forall_forall in Hb. specialize (Hb _ Hin). by destruct (snd r). }
  assert (awaits_at w p) as Ha by (exists r; done). destruct Hh as [Hh|Hh]; [|done].
  specialize (P Ha). unfold spare_at, held_at in *. rewrite Hh, Hr, sum_list_with_app.
  rewrite (held_at_ext w w' p (pw_running w)) by (intros; unfold held_by; by rewrite Hh). lia.
Qed.

(** A turn of an execution: among the connections of its executor nothing is
    lost, and those of the others are untouched. *)
Lemma turn_pooled n w w' p r1 key e x r2 env r ex ex' :
  n <= exec_shares ->
  pw_running w = r1 ++ (key, e, x) :: r2 -> pd_heap (pw_pd w) !! e = Some ex ->
  ExecTurn ex env x = Some (r, ex') ->
  pw_running w' = r1 ++ (match r with inl x' => [(key, e, x')] | inr _ => [] end) ++ r2 ->
  pd_heap (pw_pd w') = <[e := ex']> (pd_heap (pw_pd w)) -> pooled n w p -> pooled n w' p.
Proof.
  intros Hn Hr He T Hr' Hh P (q & Hin & Hp & Hw).
  assert ((q ∈ r1 ++ r2) \/ exists x', r = inl x' /\ q = (key, e, x')) as Hq.
  { rewrite Hr' in Hin. destruct r as [x'|res]; [|by left]. simpl in Hin.
    rewrite elem_of_app, elem_of_cons in Hin. rewrite elem_of_app. naive_solver. }
  assert (q ∈ r1 ++ r2 -> awaits_at w p) as Old.
  { intros Hl. exists q. split_and!; try done. rewrite Hr. set_solver. }
  unfold pooled, spare_at, held_at in *. rewrite Hr, Hr', !sum_list_with_app in *. simpl in *.
  destruct (decide (p = e)) as [->|Hne].
  - assert (forall r, held_by w' e r = held_by w e r) as Hb.
    { intros r0. unfold held_by. rewrite Hh, list_lookup_insert_eq by (by eapply lookup_lt_Some). rewrite He.
      simpl. by rewrite (exec_held_turn _ _ _ _ _ _ T). }
    rewrite Hh, list_lookup_insert_eq, He in * by (by eapply lookup_lt_Some).
    rewrite !(held_at_ext w w' e) by (intros; apply Hb).
    unfold held_by in *. destruct r as [x'|res]; simpl in *; rewrite ?Hh, ?list_lookup_insert_eq, ?He in * by (by eapply lookup_lt_Some);
      rewrite ?bool_decide_eq_true_2 in * by done.
    + apply ExecTurn_goes in T as (_ & _ & Ts & Tc).
      destruct Hq as [Hq|(y & [= <-] & ->)]; [specialize (P (Old Hq)); lia|]. simpl in Hw. specialize (Ts Hw). lia.
    + apply ExecTurn_ends in T as (_ & Tc). destruct Hq as [Hq|(y & [=] & _)]. specialize (P (Old Hq)). lia.
  - assert (q ∈ r1 ++ r2) as Hl by (destruct Hq as [|(x' & _ & ->)]; [done|by simpl in Hp]).
    assert (forall r, held_by w' p r = held_by w p r) as Hb.
    { intros r0. unfold held_by. by rewrite Hh, list_lookup_insert_ne by done. }
    rewrite Hh, list_lookup_insert_ne by done. rewrite !(held_at_ext w w' p) by (intros; apply Hb).
    specialize (P (Old Hl)). unfold held_by at 2 in P. simpl in P. rewrite bool_decide_eq_false_2 in P by done. lia.
Qed.

(** The same for [Dispatch_execute]. *)
Lemma execute_pooled n w w' p r1 key e x r2 env r pd' :
  n <= exec_shares -> pw_running w = r1 ++ (key, e, x) :: r2 ->
  Dispatch_execute (pw_pd w) key e env x = Ret (Some (r, pd')) -> pw_pd w' = pd' ->
  pw_running w' = r1 ++ (match r with inl x' => [(key, e, x')] | inr _ => [] end) ++ r2 ->
  pooled n w p -> pooled n w' p.
Proof.
  intros Hn Hr X Hpd Hr'. unfold Dispatch_execute in X.
  destruct (pd_heap (pw_pd w) !! e) as [ex|] eqn:He; [|done].
  destruct (ExecTurn ex env x) as [[ro ex']|] eqn:T; [|done].
  apply (turn_pooled n w w' p r1 key e x r2 env r ex ex'); try done.
  - by destruct ro; injection X as <- _.
  - rewrite Hpd. by destruct ro; injection X as _ <-.
Qed.

(** An executor that is not being closed keeps the connections that its
    executions await. *)
Definition pools_kept (w : pd_world) : Prop := forall p, p ∉ pd_closing (pw_pd w) -> pooled exec_shares w p.

Lemma step_pools_kept w w' : pd_step w w' -> heap_valid w -> pools_kept w -> pools_kept w'.
Proof.
  intros St [_ V] K p Hp.
  assert (forall r, r ∈ pw_running w -> snd (fst r) < length (pd_heap (pw_pd w))) as V' by done. clear V.
  destruct St as [w0 req|w0 pd' Hw T|w0 w1 req w2 k e pd' Hw T|w0 w1 req w2 Hw|w0 r1 k e x r2 env x' pd' Hr X|
    w0 r1 k e x r2 env res pd' Hr X|
    w0 pods Hn|w0 rc a1 k a2 nb err pd' Hc Ha S|w0 rc h1 k h2 Hc Hh|w0 rc d1 k d2 Hc Hd|w0 rc Hc Hf|
    w0 q e e' Hq Hh Ht]; simpl in *; try (by apply K).
  - pose proof (turn_endpoints (pw_pd w0)) as Te. rewrite T in Te. destruct Te as (_ & Eh & Ec). rewrite Ec in Hp.
    apply (pooled_same _ w0 _ p []); [left; by rewrite <- Eh|done|done|by apply K].
  - pose proof (turn_endpoints (pw_pd w0)) as Te. rewrite T in Te. destruct Te as (_ & Eh & Ec). rewrite Ec in Hp.
    apply (pooled_same _ w0 _ p [(k, e, ExecBegins req)]); [left; by rewrite <- Eh|done|by repeat constructor|by apply K].
  - eapply (execute_pooled _ w0 _ p); [done|exact Hr|exact X|done|done|]. apply K.
    apply execute_spec in X as (_ & <- & _). done.
  - eapply (execute_pooled _ w0 _ p); [done|exact Hr|exact X|done|done|]. apply K.
    apply execute_spec in X as (_ & <- & _). done.
  - pose proof S as S'. apply endpoint_set_spec in S' as (_ & Ec & _). rewrite Ec in Hp.
    apply (pooled_same _ w0 _ p []); [|done|done|by apply K].
    destruct (decide (p < length (pd_heap (pw_pd w0)))) as [Hl|Hl].
    + left. simpl. unfold endpoint_set in S. destruct (nb _) as [[b|er]| |]; simpl in S; [| |done..];
        injection S as _ <-; [|done]. simpl. by rewrite lookup_app_l.
    + right. intros (r & Hin & <- & _). by apply V' in Hin.
  - destruct (del_endpoint_spec (pw_pd w0) k) as (_ & Eh & _ & Ec). rewrite Ec in Hp.
    apply (pooled_same _ w0 _ p []); [left; simpl; by rewrite Eh|done|done|apply K; set_solver].
  - destruct (decide (p = q)) as [->|Hne]; [done|].
    apply (pooled_same _ w0 _ p []); [left; simpl; by rewrite list_lookup_insert_ne|done|done|by apply K].
Qed.

Lemma reach_valid target timeout w : rtc pd_step (pd_init target timeout) w -> heap_valid w /\ pools_kept w.
Proof.
  revert w. refine (rtc_ind_r (fun w => heap_valid w /\ pools_kept w) _ _ _).
  - split; [split; simpl; [|set_solver]; intros k p; by rewrite sm_inner_new, lookup_empty|].
    intros p _ (r & Hr & _). simpl in Hr. set_solver.
  - intros w1 w2 _ St [I1 I2]. eauto using step_heap_valid, step_pools_kept.
Qed.

(** A running execution goes on or ends, unless it awaits a connection and none
    is spare. *)
Lemma execute_goes w key e x (env : exec_env Conn) :
  heap_valid w -> (key, e, x) ∈ pw_running w ->
  (exists r pd', Dispatch_execute (pw_pd w) key e env x = Ret (Some (r, pd'))) \/
  (Dispatch_execute (pw_pd w) key e env x = Ret None /\ exec_waits x = true /\ spare_at w e = 0).
Proof.
  intros [_ V] Hin. specialize (V _ Hin). simpl in V. unfold Dispatch_execute, spare_at.
  destruct (lookup_lt_is_Some_2 _ _ V) as [ex ->].
  destruct (ExecTurn ex env x) as [[[x'|res] ex']|] eqn:T; [left; eauto..|right]. apply ExecTurn_waits in T. done.
Qed.

(** A dispatcher neither loses, duplicates nor invents requests, and no
    execution of it fails.  In every reachable state the requests that arrived
    are those waiting, running and answered, each once; every running execution
    has its executor, and goes on or returns a response, unless it awaits a
    connection and the pool is empty: then the executor is being closed, or other
    executions hold all the connections that it added. *)
Theorem dispatcher_conserves target timeout w :
  rtc pd_step (pd_init target timeout) w ->
  Permutation (map tag (pw_in w)) (pd_tags w) /\
  (forall key e x env, (key, e, x) ∈ pw_running w ->
     (exists r pd', Dispatch_execute (pw_pd w) key e env x = Ret (Some (r, pd'))) \/
     (exec_waits x = true /\ spare_at w e = 0 /\
      ((e ∈ pd_closing (pw_pd w)) \/ exec_shares <= held_at w e))).
Proof.
  intros R. pose proof (reach_valid _ _ _ R) as [V K]. split.
  - clear V K. revert w R. refine (rtc_ind_r (fun w => Permutation (map tag (pw_in w)) (pd_tags w)) _ _ _); [done|].
    intros w1 w2 _ St I. eauto using step_tags.
  - intros key e x env Hin. destruct (execute_goes w key e x env V Hin) as [|(_ & Hw & Hs)]; [by left|right].
    split_and!; [done..|]. destruct (decide (e ∈ pd_closing (pw_pd w))) as [Hc|Hc]; [by left|right].
    specialize (K e Hc). unfold pooled in K. rewrite Hs in K. apply K. by exists (key, e, x).
Qed.

(** *** The sequential reconciliation is one of the interleavings *)

(** The requests of a world and its removals apart. *)
Definition same_requests (w w' : pd_world) : Prop :=
  pw_waiting w' = pw_waiting w /\ pw_running w' = pw_running w /\ pw_out w' = pw_out w /\
  pw_in w' = pw_in w.

Lemma same_requests_trans w1 w2 w3 : same_requests w1 w2 -> same_requests w2 w3 -> same_requests w1 w3.
Proof. unfold same_requests. intuition congruence. Qed.

Lemma add_schedule newBackend add : forall w rc errs pd',
  pw_rec w = Some rc -> Permutation (rc_add rc) add -> rc_half rc = [] ->
  add_endpoints newBackend (ready_endpoints (rc_pods rc)) (pw_pd w) add = Ret (errs, pd') ->
  exists w' rc', rtc pd_step w w' /\ same_requests w w' /\ pw_pd w' = pd' /\ pw_rec w' = Some rc' /\
    rc_add rc' = [] /\ rc_half rc' = [] /\ rc_del rc' = rc_del rc.
Proof.
  induction add as [|key add IH]; intros w rc errs pd' Hc Hp Hh; cbn [add_endpoints].
  { intros [= <- <-]. apply Permutation_nil_r in Hp. exists w, rc. split_and!; done. }
  destruct (list_elem_of_split (rc_add rc) key) as (a1 & a2 & Ha); [rewrite Hp; left|].
  rewrite Ha, <- Permutation_middle in Hp. apply Permutation_cons_inv in Hp.
  unfold add_endpoint.
  destruct (endpoint_set newBackend _ (pw_pd w) key) as [[err pd1]| |] eqn:S; [|done..]. simpl.
  pose proof (pd_rec_set w rc a1 key a2 newBackend err pd1 Hc Ha S) as St1.
  destruct err as [e|]; simpl.
  - destruct (add_endpoints _ _ pd1 add) as [[errs1 pd2]| |] eqn:R; [|done..]. simpl. intros [= <- <-].
    destruct (IH _ _ errs1 pd2 (eq_refl : pw_rec (rec_step_to w pd1 (Some (rec_added rc key (a1 ++ a2) (Some e)))) = _)) as (w' & rc' & I1 & I2 & I3 & I4 & I5 & I6 & I7);
      [exact Hp|exact Hh|exact R|]. exists w', rc'. split_and!; try done. by eapply rtc_l.
  - set (w1 := rec_step_to w pd1 _) in St1.
    pose proof (pd_rec_token w1 _ [] key (rc_half rc) eq_refl eq_refl) as St2.
    set (w2 := rec_step_to w1 _ _) in St2.
    destruct (add_endpoints _ _ (endpoint_tokens pd1 key) add) as [[errs1 pd2]| |] eqn:R; [|done..].
    simpl. intros [= <- <-].
    destruct (IH w2 _ errs1 pd2 eq_refl) as (w' & rc' & I1 & I2 & I3 & I4 & I5 & I6 & I7);
      [exact Hp|exact Hh|exact R|]. exists w', rc'. split_and!; try done.
    eapply rtc_l; [exact St1|]. by eapply rtc_l.
Qed.

Lemma del_schedule del : forall w rc,
  pw_rec w = Some rc -> rc_del rc = del -> rc_add rc = [] -> rc_half rc = [] ->
  exists w', rtc pd_step w w' /\ same_requests w w' /\ pw_pd w' = del_endpoints (pw_pd w) del /\
    pw_rec w' = None.
Proof.
  induction del as [|key del IH]; intros w rc Hc Hd Ha Hh.
  - exists (rec_step_to w (pw_pd w) None). split_and!; try done. apply rtc_once. by eapply pd_rec_end.
  - pose proof (pd_rec_del w rc [] key del Hc Hd) as St.
    destruct (IH _ _ (eq_refl : pw_rec (rec_step_to w (del_endpoint (pw_pd w) key) _) = Some (rec_with_del rc ([] ++ del))))
      as (w' & I1 & I2 & I3 & I4); [done..|].
    exists w'. split_and!; try done. by eapply rtc_l.
Qed.

(** The sequential [Reconcile], one addition after the other and then the
    removals, is one of the interleavings of the step relation: whatever it
    returns, the goroutines can reach the same dispatcher, with the requests
    untouched.  So what holds of every interleaving holds of it. *)
Lemma reconcile_is_interleaving w newBackend order pods errs pd' :
  (forall l, Permutation (order l) l) -> pw_rec w = None ->
  pd_Reconcile newBackend order (pw_pd w) pods = Ret (errs, pd') ->
  exists w', rtc pd_step w w' /\ same_requests w w' /\ pw_pd w' = pd' /\ pw_rec w' = None.
Proof.
  intros Ho Hn. unfold pd_Reconcile. pose proof (pd_rec_begin w pods Hn) as St1. unfold rec_begin in St1.
  destruct (endpoints_diff (pw_pd w) (ready_endpoints pods)) as [add del].
  destruct (add_endpoints _ _ _ _) as [[errs1 pd1]| |] eqn:A; [|done..]. simpl. intros [= <- <-].
  destruct (add_schedule newBackend (order add) _ _ errs1 pd1 (eq_refl : pw_rec (rec_step_to w (pw_pd w)
    (Some (mkRec pods (sm_inner (endpoints (pw_pd w))) add [] del []))) = _))
    as (w1 & rc1 & I1 & I2 & I3 & I4 & I5 & I6 & I7); [simpl; by rewrite Ho|done|exact A|].
  destruct (del_schedule del w1 rc1 I4 I7 I5 I6) as (w2 & J1 & J2 & J3 & J4).
  exists w2. split_and!; [|by eapply same_requests_trans|by rewrite J3, I3|done].
  eapply rtc_l; [exact St1|]. by etransitivity.
Qed.

End facts.

(** ** An execution cut off by [Close]

    The gRPC backend of a removed pod: its [Close] takes connections from the pool
    that the executions in flight use. *)

Section cut_off.
Context {M : Type -> Type} `{SML : SharedMapLaws M}.
Context {C : Type -> Type} `{CL : ChannLaws C}.
Context {Conn : Type}.
Notation world := (pd_world (M := M) (C := C) (Conn := Conn) (E := grpcBackend C Conn)).

(** The turns of [Close] until the pool is empty. *)
Lemma close_drains p n : forall (w : world) g, length (pool_items g) <= n ->
  p ∈ pd_closing (pw_pd w) -> pd_heap (pw_pd w) !! p = Some g ->
  exists g', pool_items g' = [] /\
    rtc pd_step w (with_pd w (set_heap (pw_pd w) (<[p := g']> (pd_heap (pw_pd w))))).
Proof.
  induction n as [|n IH]; intros w g Hn Hp Hg; (destruct (pool_items g) as [|c l] eqn:Ei; [|simpl in Hn; try lia]).
  1-2: exists g; split; [done|]; rewrite list_insert_id by done; by destruct w as [[] ? ? ? ? ? ?].
  destruct (CloseTurn (Conn := Conn) g) as [g1|] eqn:T.
  2: { simpl in T. unfold grpc_CloseTurn, close_turn, close_start in T. simpl in T.
    destruct (ch_recv (connectionPool g)) as [[]|] eqn:R; [done|]. apply ch_recv_none in R.
    unfold pool_items in Ei. congruence. }
  assert (length (pool_items g1) <= n) as Hl.
  { simpl in T. unfold grpc_CloseTurn, close_turn, close_start in T. simpl in T.
    destruct (ch_recv (connectionPool g)) as [[c' pool]|] eqn:R; [|done]. injection T as <-.
    apply ch_recv_some in R. unfold pool_items in *. rewrite R in Ei. injection Ei as -> <-. simpl. lia. }
  pose proof (pd_close w p g g1 Hp Hg T) as St.
  destruct (IH (with_pd w (set_heap (pw_pd w) (<[p := g1]> (pd_heap (pw_pd w))))) g1 Hl) as (g' & He & R).
  - done.
  - simpl. apply list_lookup_insert_eq. by eapply lookup_lt_Some.
  - exists g'. split; [done|]. eapply rtc_l; [exact St|]. simpl in R. by rewrite list_insert_insert_eq in R.
Qed.

(** One execution at [p] awaits a connection, the pool of [p] is empty, and no
    endpoint leads to [p]. *)
Record cut_off (w : world) (key : string) (p : nat) (req : Request) : Prop := {
  co_running : (key, p, ExecAwaits req) ∈ pw_running w;
  co_alone : forall r, r ∈ pw_running w -> snd (fst r) = p -> r = (key, p, ExecAwaits req);
  co_empty : exists g, pd_heap (pw_pd w) !! p = Some g /\ pool_items g = [];
  co_removed : forall k, sm_inner (endpoints (pw_pd w)) !! k <> Some p
}.

(** It has no turn, and a turn of another execution leaves it alone. *)
Lemma cut_off_execute (w : world) key p req r1 k e x r2 env r pd' :
  cut_off w key p req -> pw_running w = r1 ++ (k, e, x) :: r2 ->
  Dispatch_execute (pw_pd w) k e env x = Ret (Some (r, pd')) ->
  e <> p /\ pd_heap pd' !! p = pd_heap (pw_pd w) !! p /\ ((key, p, ExecAwaits req) ∈ r1 ++ r2).
Proof.
  intros [Cr Ca (g & Hg & Hi) _] Hr X.
  assert (e <> p) as Hne.
  { intros ->. assert ((k, p, x) = (key, p, ExecAwaits req)) as [= -> ->] by (apply Ca; [rewrite Hr; set_solver|done]).
    unfold Dispatch_execute in X. rewrite Hg in X. simpl in X. pose proof (awaitClient_spec g) as Ha.
    destruct (awaitClient g) as [[c g']|]; [destruct Ha as [_ Ha]; congruence|done]. }
  split; [done|]. split.
  - unfold Dispatch_execute in X. destruct (pd_heap (pw_pd w) !! e); [|done].
    destruct (ExecTurn _ _ _) as [[[x'|res] e']|]; [..|done]; injection X as _ <-; simpl;
      by rewrite list_lookup_insert_ne.
  - rewrite Hr in Cr. rewrite elem_of_app, elem_of_cons in Cr. rewrite elem_of_app.
    destruct Cr as [|[[= _ -> _]|]]; [by left|done|by right].
Qed.

(** A world with the same requests, executor [p] and, at [p], the same endpoints. *)
Lemma cut_off_same (w w' : world) key p req :
  cut_off w key p req -> pw_running w' = pw_running w -> pd_heap (pw_pd w') !! p = pd_heap (pw_pd w) !! p ->
  (forall k, sm_inner (endpoints (pw_pd w')) !! k = Some p -> sm_inner (endpoints (pw_pd w)) !! k = Some p) ->
  cut_off w' key p req.
Proof.
  intros [Cr Ca Ce Cm] Er Eh Ee. split; rewrite ?Er, ?Eh; try done. intros k Hk. by apply (Cm k), Ee.
Qed.

Lemma cut_off_step (w w' : world) key p req : pd_step w w' -> cut_off w key p req -> cut_off w' key p req.
Proof.
  intros St Co. pose proof Co as [Cr Ca (g & Hg & Hi) Cm].
  destruct St as [w0 rq|w0 pd' Hw T|w0 w1 rq w2 k e pd' Hw T|w0 w1 rq w2 Hw|w0 r1 k e x r2 env x' pd' Hr X|
    w0 r1 k e x r2 env res pd' Hr X|
    w0 pods Hn|w0 rc a1 k a2 nb err pd' Hc Ha S|w0 rc h1 k h2 Hc Hh|w0 rc d1 k d2 Hc Hd|w0 rc Hc Hf|
    w0 q e e' Hq Hh Ht]; try (by apply (cut_off_same w0 _ key p req Co)).
  - pose proof (turn_endpoints (pw_pd w0)) as Te. rewrite T in Te. destruct Te as (Ee & Eh & _).
    apply (cut_off_same w0 _ key p req Co); simpl; rewrite ?Ee, ?Eh; done.
  - pose proof (turn_endpoints (pw_pd w0)) as Te. pose proof (dispatch_turn_spec (pw_pd w0)) as Ts.
    rewrite T in Te, Ts. destruct Te as (Ee & Eh & _), Ts as (_ & Hk & _).
    split; simpl; rewrite ?Ee, ?Eh; [by right| |by exists g|done].
    intros r [->|Hin]%elem_of_cons Hp; [|by apply Ca]. simpl in Hp. subst e. by destruct (Cm k).
  - destruct (cut_off_execute _ _ _ _ _ _ _ _ _ _ _ _ Co Hr X) as (Hne & Eh & Hin).
    apply execute_spec in X as (Ee & _). split; simpl; rewrite ?Ee, ?Eh; [set_solver| |by exists g|done].
    intros r Hrn Hp. rewrite elem_of_app, elem_of_cons in Hrn.
    destruct Hrn as [Hl|[->|Hl]]; [apply Ca; [rewrite Hr; set_solver|done]|by simpl in Hp|apply Ca; [rewrite Hr; set_solver|done]].
  - destruct (cut_off_execute _ _ _ _ _ _ _ _ _ _ _ _ Co Hr X) as (Hne & Eh & Hin).
    apply execute_spec in X as (Ee & _). split; simpl; rewrite ?Ee, ?Eh; [done| |by exists g|done].
    intros r Hl. apply Ca. rewrite Hr. set_solver.
  - pose proof S as S'. apply endpoint_set_spec in S' as (_ & _ & S'). apply lookup_lt_Some in Hg as Hlt.
    apply (cut_off_same w0 _ key p req Co); simpl; [done| |].
    + unfold endpoint_set in S. destruct (nb _) as [[b|er]| |]; [| |done..]; injection S as _ <-; [|done].
      simpl. by rewrite lookup_app_l.
    + destruct err as [er|]; [by subst pd'|]. destruct S' as [_ ->]. intros k'.
      rewrite lookup_insert_Some. intros [[_ <-]|[_ Hk]]; [lia|done].
  - destruct (del_endpoint_spec (pw_pd w0) k) as (_ & Eh & Ee & _).
    apply (cut_off_same w0 _ key p req Co); simpl; [done|by rewrite Eh|]. rewrite Ee.
    intros k' [_ Hk]%lookup_delete_Some. done.
  - assert (q <> p) as Hne.
    { intros ->. rewrite Hg in Hh. injection Hh as <-. simpl in Ht.
      unfold grpc_CloseTurn, close_turn, close_start in Ht. simpl in Ht. apply ch_recv_none in Hi. by rewrite Hi in Ht. }
    apply (cut_off_same w0 _ key p req Co); simpl; [done|by rewrite list_lookup_insert_ne|done].
Qed.

End cut_off.

(** ** Witnesses *)

Definition demo_pod (name ip : string) : Pod :=
  mkPod (mkMeta "ns" name "u" "1" {["app" := "app"]} ∅ None) "node" [] [] []
    (mkPodStatus "Running" [] "" ip None [] []).

Definition demo_key : string := "p0@10.0.0.1:80".

Definition demo_new (ep : string) : outcome (result fakeBackend) := Ret (Ok newFakeBackend).

Definition demo_pd (keys : list string) (toks : list string) (n : nat) :
    PodDispatcher (gmap string) list fakeBackend :=
  mkPD "ns/app" 1%Z (list_to_map (zip keys (seq 0 n))) toks (replicate n newFakeBackend) [].

Definition demo_pd_req (id : string) : Request := mkRequest id "ns/app" 10 0 0 0 0 0.

Lemma dispatch_first_live_witness :
  exists r pd', dispatch 3 (demo_pd [demo_key] ["gone@10.0.0.2:80"; demo_key] 1) = Some (r, pd').
Proof.
  assert (length (token_items (demo_pd [demo_key] ["gone@10.0.0.2:80"; demo_key] 1)) < 3) as L
    by (vm_compute; lia).
  destruct (dispatch_first_live _ 3 L) as (r & pd' & E & _).
  exists r, pd'. exact E.
Defined.

(** A reconciliation that adds a pod, step by step, then a request that takes
    its token. *)
Local Notation demo_pd_world := (pd_world (M := gmap string) (C := list) (Conn := nat) (E := fakeBackend)).

Definition demo_w0 : demo_pd_world := pd_init "ns/app" 1.

Definition demo_rc : rec_state := rec_begin (pw_pd demo_w0) [demo_pod "p0" "10.0.0.1"].

Definition demo_w1 : demo_pd_world := rec_step_to demo_w0 (pw_pd demo_w0) (Some demo_rc).

Definition demo_w2 : demo_pd_world :=
  rec_step_to demo_w1 (demo_pd [demo_key] [] 1) (Some (rec_added demo_rc demo_key [] None)).

Definition demo_w3 : demo_pd_world :=
  rec_step_to demo_w2 (endpoint_tokens (pw_pd demo_w2) demo_key)
    (Some (rec_with_half (rec_added demo_rc demo_key [] None) [])).

Definition demo_w4 : demo_pd_world := rec_step_to demo_w3 (pw_pd demo_w3) None.

Definition demo_arrive (w : demo_pd_world) (req : Request) : demo_pd_world :=
  mkPW (pw_pd w) (pw_waiting w ++ [req]) (pw_running w) (pw_out w) (pw_in w ++ [req]) (pw_removed w) (pw_rec w).

Definition demo_w6 : demo_pd_world :=
  mkPW (set_tokens (pw_pd demo_w4) []) [] [(demo_key, 0, ExecBegins (demo_pd_req "0"))] [] [demo_pd_req "0"] ∅ None.

Definition demo_step (w w' : demo_pd_world) : Prop := pd_step (Conn := nat) w w' /\ never_reused w'.

Lemma demo_fresh (w : demo_pd_world) : pw_removed w = ∅ -> never_reused w.
Proof. intros E key _. rewrite E. apply not_elem_of_empty. Qed.

Lemma demo_reach_w3 : rtc demo_step demo_w0 demo_w3.
Proof.
  apply rtc_l with demo_w1.
  { split; [exact (pd_rec_begin (Conn := nat) demo_w0 _ eq_refl)|apply demo_fresh; vm_compute; reflexivity]. }
  apply rtc_l with demo_w2.
  { split; [|apply demo_fresh; vm_compute; reflexivity].
    refine (pd_rec_set (Conn := nat) demo_w1 demo_rc [] demo_key [] demo_new None _ eq_refl _ _);
      vm_compute; reflexivity. }
  apply rtc_once. split; [|apply demo_fresh; vm_compute; reflexivity].
  exact (pd_rec_token (Conn := nat) demo_w2 _ [] demo_key [] eq_refl eq_refl).
Qed.

Lemma demo_reach_w6 : rtc demo_step demo_w0 demo_w6.
Proof.
  etransitivity; [exact demo_reach_w3|]. apply rtc_l with demo_w4.
  { split; [|apply demo_fresh; vm_compute; reflexivity].
    refine (pd_rec_end (Conn := nat) demo_w3 _ eq_refl _). vm_compute. auto. }
  apply rtc_l with (demo_arrive demo_w4 (demo_pd_req "0")).
  { split; [exact (pd_arrive (Conn := nat) demo_w4 _)|apply demo_fresh; vm_compute; reflexivity]. }
  apply rtc_once. split; [|apply demo_fresh; vm_compute; reflexivity].
  assert (demo_w6 = mkPW (set_tokens (pw_pd demo_w4) []) ([] ++ []) [(demo_key, 0, ExecBegins (demo_pd_req "0"))] []
    [demo_pd_req "0"] (pw_removed demo_w4) None) as -> by (vm_compute; reflexivity).
  refine (pd_take (Conn := nat) (demo_arrive demo_w4 (demo_pd_req "0")) [] (demo_pd_req "0") [] demo_key 0
    _ eq_refl _). vm_compute. reflexivity.
Qed.

Lemma rtc_fst {A} (R : A -> A -> Prop) (P : A -> Prop) x y :
  rtc (fun a b => R a b /\ P b) x y -> rtc R x y.
Proof. induction 1 as [|a b c [] ? IH]; eauto using rtc_refl, rtc_l. Qed.

Lemma reconcile_matches_ready_witness : live (pw_pd demo_w3) demo_key = true.
Proof.
  refine (proj2 (proj1 (reconcile_matches_ready (Conn := nat) "ns/app" 1 demo_w3
    (rec_with_half (rec_added demo_rc demo_key [] None) []) (rtc_fst _ _ _ _ demo_reach_w3) eq_refl _) demo_key) _).
  - vm_compute. auto.
  - split; [change (demo_key ∈ [demo_key]); left|apply not_elem_of_nil].
Defined.

Lemma pod_capacity_kept_witness : 1 <= occupancy demo_w6 demo_key.
Proof.
  apply (pod_capacity_kept (Conn := nat) "ns/app" 1 demo_w6 demo_key); [|vm_compute; reflexivity].
  exact (rtc_fst _ _ _ _ demo_reach_w6).
Defined.

Lemma pod_runs_one_request_witness :
  count (fun r => is_key demo_key (run_key r)) (pw_running demo_w6) <= podServiceConcurrency.
Proof. exact (pod_runs_one_request (Conn := nat) "ns/app" 1 demo_w6 demo_key demo_reach_w6). Defined.

Lemma dispatcher_conserves_witness :
  Permutation (map tag (pw_in demo_w6)) (pd_tags demo_w6).
Proof.
  exact (proj1 (dispatcher_conserves (Conn := nat) "ns/app" 1 demo_w6 (rtc_fst _ _ _ _ demo_reach_w6))).
Defined.

(** C38: the limit of one request per pod fails for a pod that leaves and
    returns under the same name and address: its old token is still queued when
    the reconciliation adds a second one, and the pod then runs two requests at
    once. *)
Theorem readded_pod_runs_two :
  exists w, rtc (pd_step (M := gmap string) (C := list) (Conn := nat) (E := fakeBackend))
              (pd_init "ns/app" 1) w /\
  count (fun r => is_key demo_key (run_key r)) (pw_running w) = 2.
Proof.
  assert (forall l : list string, Permutation (id l) l) as Ho by done.
  destruct (reconcile_is_interleaving (Conn := nat) demo_w0 demo_new id [demo_pod "p0" "10.0.0.1"] []
    (demo_pd [demo_key] [demo_key] 1) Ho eq_refl) as (w1 & R1 & (W1 & X1 & _) & E1 & C1); [vm_compute; reflexivity|].
  destruct (reconcile_is_interleaving (Conn := nat) w1 demo_new id [] []
    (mkPD "ns/app" 1%Z ∅ [demo_key] [newFakeBackend] [0]) Ho C1) as (w2 & R2 & (W2 & X2 & _) & E2 & C2);
    [rewrite E1; vm_compute; reflexivity|].
  destruct (reconcile_is_interleaving (Conn := nat) w2 demo_new id [demo_pod "p0" "10.0.0.1"] []
    (mkPD "ns/app" 1%Z {[demo_key := 1]} [demo_key; demo_key] [newFakeBackend; newFakeBackend] [0]) Ho C2)
    as (w3 & R3 & (W3 & X3 & _) & E3 & C3); [rewrite E2; vm_compute; reflexivity|].
  set (r0 := demo_pd_req "0"). set (r1 := demo_pd_req "1").
  pose (w5 := demo_arrive (demo_arrive w3 r0) r1).
  assert (pw_waiting w5 = [] ++ r0 :: [r1]) as Hw5 by (simpl; by rewrite W3, W2, W1).
  pose proof (pd_take (Conn := nat) w5 [] r0 [r1] demo_key 1
    (mkPD "ns/app" 1%Z {[demo_key := 1]} [demo_key] [newFakeBackend; newFakeBackend] [0]) Hw5) as St1.
  simpl in St1. rewrite E3 in St1. specialize (St1 ltac:(vm_compute; reflexivity)).
  eexists. split.
  - etransitivity; [exact R1|]. etransitivity; [exact R2|]. etransitivity; [exact R3|].
    eapply rtc_l; [apply (pd_arrive (Conn := nat) w3 r0)|].
    eapply rtc_l; [apply (pd_arrive (Conn := nat) (demo_arrive w3 r0) r1)|].
    eapply rtc_l; [exact St1|]. apply rtc_once.
    refine (pd_take (Conn := nat) (mkPW _ [r1] _ _ _ _ _) [] r1 [] demo_key 1
      (mkPD "ns/app" 1%Z {[demo_key := 1]} [] [newFakeBackend; newFakeBackend] [0]) eq_refl _).
    vm_compute. reflexivity.
  - simpl. rewrite X3, X2, X1. vm_compute. reflexivity.
Qed.

(** A removed pod can keep a request for ever.  Its execution has begun when the
    pod is removed; [Close] takes the pooled connections, the execution dials a
    new client, [Close] takes all its shares as well, and the second receive of
    [getOrCreateClient] waits.  In every continuation the request is still there:
    no response is ever sent, whatever else happens. *)
Theorem closed_pod_keeps_request :
  exists (w : pd_world (M := gmap string) (C := list) (Conn := nat) (E := grpcBackend list nat)) req,
    rtc pd_step (pd_init "ns/app" 1) w /\
    forall w', rtc pd_step w w' -> exists key e, (key, e, ExecAwaits req) ∈ pw_running w'.
Proof.
  set (new := fun _ : string => Ret (Ok demo_grpc) : outcome (result (grpcBackend list nat))).
  assert (forall l : list string, Permutation (id l) l) as Ho by done.
  destruct (reconcile_is_interleaving (Conn := nat) (M := gmap string) (C := list) (pd_init "ns/app" 1) new id
    [demo_pod "p0" "10.0.0.1"] [] (mkPD "ns/app" 1%Z {[demo_key := 0]} [demo_key] [demo_grpc] []) Ho eq_refl)
    as (w1 & R1 & (W1 & X1 & _) & E1 & C1); [vm_compute; reflexivity|].
  pose (req := demo_pd_req "0").
  pose proof (pd_arrive w1 req) as St2. set (w2 := mkPW (pw_pd w1) _ _ _ _ _ _) in St2.
  assert (pw_waiting w2 = [] ++ req :: []) as Hw2 by (simpl; by rewrite W1).
  pose proof (pd_take w2 [] req [] demo_key 0 (mkPD "ns/app" 1%Z {[demo_key := 0]} [] [demo_grpc] []) Hw2) as St3.
  simpl in St3. rewrite E1 in St3. specialize (St3 ltac:(vm_compute; reflexivity)). set (w3 := mkPW _ _ _ _ _ _ _) in St3.
  destruct (reconcile_is_interleaving (Conn := nat) w3 new id [] []
    (mkPD "ns/app" 1%Z ∅ [] [demo_grpc] [0]) Ho C1) as (w4 & R4 & (_ & X4 & _) & E4 & C4); [vm_compute; reflexivity|].
  destruct (close_drains 0 50 w4 demo_grpc) as (g5 & P5 & R5); [vm_compute; lia|by rewrite E4; left|by rewrite E4|].
  rewrite E4 in R5. set (w5 := with_pd w4 _) in R5.
  pose (env := mkEnv (fun _ => Ok 8) (fun _ _ => Err (errorf "")) 0 0 0 : exec_env nat).
  assert (exists g6, length (pool_items g6) = 50 /\ Dispatch_execute (pw_pd w5) demo_key 0 env (ExecBegins req) =
    Ret (Some (inl (ExecAwaits req), mkPD "ns/app" 1%Z ∅ [] [g6] [0]))) as (g6 & L6 & X6).
  { unfold Dispatch_execute. simpl. pose proof (getOrCreateClient_spec g5 (fun _ => Ok 8)) as Hs.
    destruct (getOrCreateClient g5 (fun _ => Ok 8)) as [[c|er|] g6]; [destruct Hs as [_ Hs]; congruence|by destruct Hs as (_ & _ & ?)|].
    destruct Hs as (_ & _ & c & _ & Hp). exists g6. split; [exact (f_equal length Hp)|done]. }
  assert (pw_running w5 = [] ++ (demo_key, 0, ExecBegins req) :: []) as Hr5 by (simpl; by rewrite X4; simpl; rewrite X1).
  pose proof (pd_exec w5 [] demo_key 0 (ExecBegins req) [] env (ExecAwaits req) _ Hr5 X6) as St6.
  set (w6 := mkPW _ _ _ _ _ _ _) in St6.
  destruct (close_drains 0 50 w6 g6) as (g7 & P7 & R7); [by rewrite L6|by left|done|].
  set (w7 := with_pd w6 _) in R7. exists w7, req. split.
  - etransitivity; [exact R1|]. eapply rtc_l; [exact St2|]. eapply rtc_l; [exact St3|].
    etransitivity; [exact R4|]. etransitivity; [exact R5|]. eapply rtc_l; [exact St6|]. exact R7.
  - assert (cut_off w7 demo_key 0 req) as Co7.
    { split; simpl; [left|intros r Hr _; set_solver|by exists g7|intros k; by rewrite lookup_empty]. }
    intros w' R. assert (cut_off w' demo_key 0 req) as [Cr _ _ _]; [|eauto].
    clearbody w7. clear -Co7 R. induction R as [|a b c St _ IH]; [done|]. apply IH. by eapply cut_off_step.
Qed.
