(* ===== verification/Gateway.v ===== *)
(** * Package [gateway]: from clients to pods and back

    Models [pkg/gateway]: the channels and the relay of [interface.go], the
    Kubernetes gateway ([k8s.go]: set-up, the choice of an autoscaler, the
    reconciliation of the pods of a target) and the Knative gateway
    ([knative.go]).  The autoscaler that the relay informs is an interface
    ([GatewayHooks]).  What happens while a gateway runs is in [Pipeline.v]. *)

From S2P Require Import Prelude GoTypes Float64 Float64Facts Interfaces Kube Workload Metric.
From S2P Require Import Decider Backend Autoscaler Dispatcher.

Local Open Scope nat_scope.

(** ** The hooks [onReqIn] and [onReqOut] *)

Class GatewayHooks (A : Type) : Type := {
  on_req_in : A -> Request -> Z -> outcome A;
  on_req_out : A -> Response -> Z -> outcome A
}.

(** The Knative gateway does nothing. *)
Global Instance no_hooks : GatewayHooks unit := {
  on_req_in := fun _ _ _ => Ret tt;
  on_req_out := fun _ _ _ => Ret tt
}.

Global Instance autoscaler_hooks {Q D} `{WorkQueueOps Q} `{DeciderOps D} :
    GatewayHooks (autoscalerImpl Q D) := {
  on_req_in := as_ReqIn;
  on_req_out := as_ReqOut
}.

Global Instance onetime_hooks : GatewayHooks OneTimeAutoscaler := {
  on_req_in := fun s req _ => Ret (ot_ReqIn s req);
  on_req_out := fun s res _ => Ret (ot_ReqOut s res)
}.

Lemma is_Some_insert {V} (m : gmap string V) k k' v :
  is_Some (<[k := v]> m !! k') <-> k' = k \/ is_Some (m !! k').
Proof.
  rewrite lookup_insert_is_Some. split; [|intros [->|]]; [naive_solver..|].
  destruct (decide (k = k')); auto.
Qed.

(** Hooks that serve requests without failing: [hooks_ok key a] says that those
    for [key] are served; serving a request keeps that for every key. *)
Class GatewayHooksLaws (A : Type) `{GatewayHooks A} : Type := {
  hooks_ok : string -> A -> Prop;
  hooks_in : forall a req now, hooks_ok (Target req) a ->
    exists a', on_req_in a req now = Ret a' /\ forall key, hooks_ok key a -> hooks_ok key a';
  hooks_out : forall a res now, hooks_ok (Target (Source res)) a ->
    exists a', on_req_out a res now = Ret a' /\ forall key, hooks_ok key a -> hooks_ok key a'
}.

Global Instance no_hooks_laws : GatewayHooksLaws unit.
Proof. exists (fun _ _ => True); intros []; simpl; eauto. Defined.

(** An autoscaler that runs, with a decider for the target. *)
Global Instance autoscaler_hooks_laws {Q D} `{WorkQueueOps Q} `{DeciderOps D} :
  GatewayHooksLaws (autoscalerImpl Q D).
Proof.
  exists (fun key s => runCtx s = true /\ is_Some (deciders s !! key) /\ (0 < as_tickInterval s)%Z).
  - intros s req now (Hr & [d Hd] & Ht). simpl. unfold as_ReqIn. rewrite Hr, Hd. simpl.
    destruct (dec_ReqIn d now) as [c d1], (dec_Activate d1) as [[] d2]; simpl.
    + unfold start_ticker_checked. simpl. destruct (Z.leb_spec (as_tickInterval s) 0); [lia|]. simpl.
      eexists. split; [done|]. intros key (_ & Hk & _).
      case_match; simpl; (split_and!; [done|apply is_Some_insert; auto|done]).
    + eexists. split; [done|]. intros key (_ & Hk & _).
      case_match; simpl; (split_and!; [done|apply is_Some_insert; auto|done]).
  - intros s res now (Hr & [d Hd] & Ht). simpl. unfold as_ReqOut. rewrite Hr, Hd. simpl.
    destruct (dec_ReqOut d now) as [c d1]. eexists. split; [done|]. intros key (_ & Hk & _). simpl.
    split_and!; [done|apply is_Some_insert; auto|done].
Defined.

(** The one-time autoscaler serves every request. *)
Global Instance onetime_hooks_laws : GatewayHooksLaws OneTimeAutoscaler.
Proof. exists (fun _ _ => True); simpl; eauto. Defined.

(** The field [autoscaler] of the Kubernetes gateway may be nil. *)
Global Instance pointer_hooks {A} `{GatewayHooks A} : GatewayHooks (option A) := {
  on_req_in := fun o req now =>
    match o with Some a => Some <$> on_req_in a req now | None => nil_deref end;
  on_req_out := fun o res now =>
    match o with Some a => Some <$> on_req_out a res now | None => nil_deref end
}.

Global Instance pointer_hooks_laws {A} `{GatewayHooksLaws A} : GatewayHooksLaws (option A).
Proof.
  exists (fun key o => match o with Some a => hooks_ok key a | None => False end).
  - intros [a|] req now Ha; [|done]. destruct (hooks_in a req now Ha) as (a' & E & K).
    exists (Some a'). simpl. rewrite E. split; [done|]. exact K.
  - intros [a|] res now Ha; [|done]. destruct (hooks_out a res now Ha) as (a' & E & K).
    exists (Some a'). simpl. rewrite E. split; [done|]. exact K.
Defined.

(** ** [gatewayImpl] *)

Section gateway.
Context {C : Type -> Type} `{ChannOps C}.

Record gatewayImpl : Type := mkGateway {
  externalInputs : gmap string (C Request);
  externalOutput : C Response;
  internalInputBuffers : gmap string (C Request);
  internalOutputBuffers : gmap string (C Response)
}.

Definition newGatewayImpl : gatewayImpl := mkGateway ∅ ch_new ∅ ∅.

Definition register (g : gatewayImpl) (key : string) : gatewayImpl :=
  mkGateway (<[key := ch_new]> (externalInputs g)) (externalOutput g)
    (<[key := ch_new]> (internalInputBuffers g)) (<[key := ch_new]> (internalOutputBuffers g)).

(** [RequestChan] and [internalBuffers] take the ends of a channel of a map,
    which is nil for an unregistered key. *)
Definition RequestChan (g : gatewayImpl) (target : string) : outcome (C Request) :=
  match externalInputs g !! target with Some c => Ret c | None => nil_deref end.

Definition internalBuffers (g : gatewayImpl) (key : string) : outcome (C Request * C Response) :=
  match internalInputBuffers g !! key, internalOutputBuffers g !! key with
  | Some i, Some o => Ret (i, o)
  | _, _ => nil_deref
  end.

(** *** The relay of one key *)

(** The four channel ends of a relay and its counters. *)
Record relay_state : Type := mkRelay {
  rl_ext_in : C Request;
  rl_int_in : C Request;
  rl_int_out : C Response;
  rl_ext_out : C Response;
  nSend : Z;
  nRecv : Z
}.

(** The start of [relay]; the counters start at zero. *)
Definition relay_start (g : gatewayImpl) (key : string) : outcome relay_state :=
  match externalInputs g !! key, internalInputBuffers g !! key, internalOutputBuffers g !! key with
  | Some i, Some ii, Some io => Ret (mkRelay i ii io (externalOutput g) 0 0)
  | _, _, _ => nil_deref
  end.

Context {A : Type} `{GatewayHooks A}.

(** The first case of the select: a request from outside ([None]: there is
    none).  [t1] and [t2] are the instants read by the hook and by the relay. *)
Definition relay_in (key : string) (r : relay_state) (a : A) (t1 t2 : Z) :
    option (outcome (relay_state * A)) :=
  match ch_recv (rl_ext_in r) with
  | None => None
  | Some (req, ext) =>
      if negb (bool_decide (Target req = key)) then
        let res := mkResponse req INVALID_TARGET zero_time zero_time 0 in
        Some (Ret (mkRelay ext (rl_int_in r) (rl_int_out r) (ch_send (rl_ext_out r) res)
                     (nSend r) (nRecv r), a))
      else
        Some (a ← on_req_in a req t1;
              let req := set_gateway_recv req t2 in
              Ret (mkRelay ext (ch_send (rl_int_in r) req) (rl_int_out r) (rl_ext_out r)
                     (nSend r + 1) (nRecv r), a))
  end.

(** The second case: a response from the dispatcher. *)
Definition relay_out (r : relay_state) (a : A) (t1 : Z) : option (outcome (relay_state * A)) :=
  match ch_recv (rl_int_out r) with
  | None => None
  | Some (res, out) =>
      Some (a ← on_req_out a res t1;
            Ret (mkRelay (rl_ext_in r) (rl_int_in r) out (ch_send (rl_ext_out r) res)
                   (nSend r) (nRecv r + 1), a))
  end.

End gateway.

Arguments gatewayImpl C : clear implicits.
Arguments relay_state C : clear implicits.

(** ** The Kubernetes gateway *)

(** The autoscalers that [newAutoscalerFn] can make. *)
Inductive autoscaler (Q : Type -> Type) (D : Type) : Type :=
| KnativeAutoscaler (s : autoscalerImpl Q D)
| OneTimeAS (s : OneTimeAutoscaler).

Arguments KnativeAutoscaler {Q D} s.
Arguments OneTimeAS {Q D} s.

Definition Framework {Q D} (a : autoscaler Q D) : string :=
  match a with
  | KnativeAutoscaler s => as_framework s
  | OneTimeAS _ => "one-time"
  end.

Global Instance some_autoscaler_hooks {Q D} `{WorkQueueOps Q} `{DeciderOps D} :
    GatewayHooks (autoscaler Q D) := {
  on_req_in := fun a req now =>
    match a with
    | KnativeAutoscaler s => KnativeAutoscaler <$> as_ReqIn s req now
    | OneTimeAS s => Ret (OneTimeAS (ot_ReqIn s req))
    end;
  on_req_out := fun a res now =>
    match a with
    | KnativeAutoscaler s => KnativeAutoscaler <$> as_ReqOut s res now
    | OneTimeAS s => Ret (OneTimeAS (ot_ReqOut s res))
    end
}.

Global Instance some_autoscaler_hooks_laws {Q D} `{WorkQueueOps Q} `{DeciderOps D} :
  GatewayHooksLaws (autoscaler Q D).
Proof.
  exists (fun key a => match a with KnativeAutoscaler s => hooks_ok key s | OneTimeAS s => hooks_ok key s end).
  - intros [s|s] req now Ha; [|by exists (OneTimeAS (ot_ReqIn s req))].
    destruct (hooks_in s req now Ha) as (s' & E & K). exists (KnativeAutoscaler s').
    simpl in E |- *. rewrite E. split; [done|]. intros key. apply K.
  - intros [s|s] res now Ha; [|by exists (OneTimeAS (ot_ReqOut s res))].
    destruct (hooks_out s res now Ha) as (s' & E & K). exists (KnativeAutoscaler s').
    simpl in E |- *. rewrite E. split; [done|]. intros key. apply K.
Defined.

Section k8s.
Context {C : Type -> Type} `{ChannOps C}.
Context {M : Type -> Type} `{SharedMapOps M}.
Context {Q : Type -> Type} `{WorkQueueOps Q}.
Context {B W : Type} `{TimedBucketsOps B} `{TimeWindowOps W}.
Context {Conn E : Type} `{Executor Conn E}.
Context {S : Type} `{ClientOps S}.

(** [newAutoscalerFn], as a function of the keys; it dereferences the
    configuration when it is called. *)
Definition newAutoscalerFn_for (emptyq : Q string) (asFramework : string)
    (asConfig : option AutoscalerConfig) :
    option (list string -> outcome (autoscaler Q (KPADecider B W))) :=
  if bool_decide (asFramework = "kpa") then
    Some (fun keys =>
      match asConfig with
      | None => nil_deref
      | Some c =>
          kpaConfig ← knative_Complete (Knative c);
          Ret (KnativeAutoscaler (NewKnativeAutoscaler emptyq kpaConfig keys))
      end)
  else if bool_decide (asFramework = "one-time") then
    Some (fun keys =>
      match asConfig with
      | None => nil_deref
      | Some c => Ret (OneTimeAS (NewOneTimeAutoscaler (onetime_Complete (OneTime c)) keys))
      end)
  else None.

Record k8sGateway : Type := mkK8s {
  k8s_impl : gatewayImpl C;
  dispatchTimeout : Z;
  dispatchers : gmap string (PodDispatcher M C E);
  k8s_autoscaler : option (autoscaler Q (KPADecider B W));
  newAutoscalerFn : option (list string -> outcome (autoscaler Q (KPADecider B W)))
}.

Definition NewK8sGateway (readFile : string -> result string)
    (unmarshal : string -> result AutoscalerConfig) (emptyq : Q string)
    (timeout : Z) (asFramework asConfigPath : string) : result k8sGateway :=
  match NewAutoscalerConfigFrom readFile unmarshal asConfigPath with
  | Err e => Err (errorf ("failed to parse autoscaler config: " +:+ err_text e))
  | Ok asConfig =>
      Ok (mkK8s newGatewayImpl timeout ∅ None (newAutoscalerFn_for emptyq asFramework asConfig))
  end.

(** The loop over the listed deployments: channels and a dispatcher per key. *)
Fixpoint k8s_register (g : k8sGateway) (targets : list Deployment) :
    outcome (list string * k8sGateway) :=
  match targets with
  | [] => Ret ([], g)
  | target :: targets =>
      let key := KeyFromObject (dep_meta target) in
      let impl := register (k8s_impl g) key in
      _ ← internalBuffers impl key;
      let pd := NewPodDispatcher key (dispatchTimeout g) in
      '(keys, g) ← k8s_register
        (mkK8s impl (dispatchTimeout g) (<[key := pd]> (dispatchers g)) (k8s_autoscaler g)
           (newAutoscalerFn g)) targets;
      Ret (key :: keys, g)
  end.

(** [SetUpWithManager]: [listed] is what the temporary client gives, whose creation
    may end the process, and [registering] the error of the registration of the
    controller. *)
Definition k8s_SetUp (g : k8sGateway) (listed : outcome (result (list Deployment)))
    (registering : option error) : outcome (result k8sGateway) :=
  r ← listed;
  match r with
  | Err e => Ret (Err (errorf ("error listing deployments in k8s gateway: " +:+ err_text e)))
  | Ok targets =>
      '(keys, g) ← k8s_register g targets;
      g ← match newAutoscalerFn g with
          | None => Ret g
          | Some new =>
              a ← new keys;
              Ret (mkK8s (k8s_impl g) (dispatchTimeout g) (dispatchers g) (Some a) (newAutoscalerFn g))
          end;
      Ret (match registering with Some e => Err e | None => Ok g end)
  end.

(** [Start]: the keys whose relay and dispatcher are started, and whether [Run] of
    an autoscaler is started next to them. *)
Definition k8s_Start (g : k8sGateway) : list string * bool :=
  (map fst (map_to_list (dispatchers g)),
   match k8s_autoscaler g with Some _ => true | None => false end).

(** The goroutine of the autoscaler, at some moment after [Start]. *)
Definition k8s_autoscaler_Run (g : k8sGateway) : k8sGateway :=
  mkK8s (k8s_impl g) (dispatchTimeout g) (dispatchers g)
    (match k8s_autoscaler g with
     | Some (KnativeAutoscaler s) => Some (KnativeAutoscaler (as_Run s))
     | Some (OneTimeAS s) => Some (OneTimeAS (ot_Run s))
     | None => None
     end) (newAutoscalerFn g).

(** The key that a watched object maps to. *)
Definition enqueueWorkload (obj : ObjectMeta) : outcome NamespacedName :=
  NamespacedNameFromKey (KeyFromObject obj).

Definition FilterEvent (obj : ObjectMeta) : bool := IsTraceWorkload obj.

(** [Reconcile].  A failed pod list is logged and taken as the empty list.
    The errors of the dispatcher are returned, so the key is retried. *)
Definition k8s_Reconcile (IsPodReady : Pod -> bool) (newBackend : string -> outcome (result E))
    (order : list string -> list string) (g : k8sGateway) (cl : S) (req : NamespacedName) :
    outcome (list error * k8sGateway) :=
  match cl_get_deployment cl req with
  | Err e => if IsNotFound e then Ret ([], g) else Ret ([e], g)
  | Ok target =>
      let pods :=
        match cl_list_pods cl (Namespace (dep_meta target)) (TemplateLabels target) with
        | Ok pods => pods
        | Err _ => []
        end in
      let readyPods := filter (fun p => IsPodReady p = true) pods in
      match dispatchers g !! nn_string req with
      | None => Ret ([], g)
      | Some pd =>
          '(errs, pd) ← pd_Reconcile newBackend order pd readyPods;
          Ret (errs, mkK8s (k8s_impl g) (dispatchTimeout g) (<[nn_string req := pd]> (dispatchers g))
                       (k8s_autoscaler g) (newAutoscalerFn g))
      end
  end.

End k8s.

Arguments k8sGateway C M Q B W E : clear implicits.

(** ** The Knative gateway *)

Section knative.
Context {C : Type -> Type} `{ChannOps C}.
Context {E : Type}.

Record knativeGateway : Type := mkKnativeGateway {
  kn_impl : gatewayImpl C;
  kn_timeout : Z;
  kn_dispatchers : gmap string (KnServiceDispatcher E)
}.

Definition NewKnativeGateway (timeout : Z) : knativeGateway :=
  mkKnativeGateway newGatewayImpl timeout ∅.

(** The loop of [SetUpWithManager] over the services and their URLs. *)
Fixpoint kn_SetUp (newBackend : string -> outcome (result E)) (g : knativeGateway)
    (services : list (ObjectMeta * string)) : outcome (result knativeGateway) :=
  match services with
  | [] => Ret (Ok g)
  | (service, url) :: services =>
      let key := KeyFromObject service in
      let impl := register (kn_impl g) key in
      _ ← internalBuffers impl key;
      r ← NewKnServiceDispatcher newBackend key (kn_timeout g) url;
      match r with
      | Err e =>
          Ret (Err (errorf ("failed to create knative service dispatcher for " +:+ Namespace service
                            +:+ "/" +:+ Name service +:+ " (" +:+ url +:+ "): " +:+ err_text e)))
      | Ok kd =>
          kn_SetUp newBackend
            (mkKnativeGateway impl (kn_timeout g) (<[key := kd]> (kn_dispatchers g))) services
      end
  end.

End knative.

Arguments knativeGateway C E : clear implicits.

(** ** Set-up *)

Section setup_facts.
Context {C : Type -> Type} `{CL : ChannLaws C}.
Context {M : Type -> Type} `{SML : SharedMapLaws M}.
Context {Q : Type -> Type} `{QL : WorkQueueLaws Q}.
Context {B W : Type} `{TimedBucketsOps B} `{TimeWindowOps W}.
Context {Conn E : Type} `{Executor Conn E}.
Context {S : Type} `{ClientOps S}.
Implicit Types g : k8sGateway C M Q B W E.

(** All three channels and the dispatcher of a key exist. *)
Definition registered g (key : string) : Prop :=
  is_Some (externalInputs (k8s_impl g) !! key) /\
  is_Some (internalInputBuffers (k8s_impl g) !! key) /\
  is_Some (internalOutputBuffers (k8s_impl g) !! key) /\
  is_Some (dispatchers g !! key).

Lemma k8s_register_spec g targets :
  exists g', k8s_register g targets =
    Ret (map (fun t => KeyFromObject (dep_meta t)) targets, g') /\
  newAutoscalerFn g' = newAutoscalerFn g /\ k8s_autoscaler g' = k8s_autoscaler g /\
  (forall key, registered g' key <->
     registered g key \/ (key ∈ map (fun t => KeyFromObject (dep_meta t)) targets)).
Proof.
  revert g. induction targets as [|t targets IH]; intros g; cbn [k8s_register map].
  { exists g. split_and!; try done. set_solver. }
  unfold internalBuffers. simpl. rewrite !lookup_insert_eq. simpl.
  match goal with |- context [k8s_register ?g1 targets] =>
    destruct (IH g1) as (g' & E1 & E2 & E3 & E4) end.
  rewrite E1. simpl. exists g'. split_and!; try done. intros key. rewrite E4, elem_of_cons.
  unfold registered. simpl. rewrite !is_Some_insert. naive_solver.
Qed.

(** The set-up of the Kubernetes gateway prepares every listed target.
    With a complete configuration the set-up neither fails nor panics, the
    registered keys are exactly those of the listed deployments, each with its
    channels and its dispatcher, and once its goroutine runs the Knative
    autoscaler accepts the requests for all of them. *)
Theorem setup_ready readFile unmarshal (emptyq : Q string) timeout path text cfg kc targets :
  path <> ""%string -> readFile path = Ok text -> unmarshal text = Ok cfg -> Knative cfg = Some kc ->
  (0 < TickIntervalSeconds kc < 2 ^ 31)%Z ->
  exists g0 g, NewK8sGateway readFile unmarshal emptyq timeout "kpa" path = Ok g0 /\
  k8s_SetUp g0 (Ret (Ok targets)) None = Ret (Ok g) /\
  let keys := map (fun t => KeyFromObject (dep_meta t)) targets in
  (forall key, registered g key <-> key ∈ keys) /\
  forall req now, Target req ∈ keys ->
    exists a, on_req_in (k8s_autoscaler (k8s_autoscaler_Run g)) req now = Ret a.
Proof.
  intros Hp Hr Hu Hk Ht. unfold NewK8sGateway, NewAutoscalerConfigFrom.
  rewrite bool_decide_eq_false_2 by done. rewrite Hr, Hu. eexists _. unfold k8s_SetUp. cbn [mbind outcome_bind].
  match goal with |- context [k8s_register ?g0 targets] =>
    destruct (k8s_register_spec g0 targets) as (g & E1 & E2 & E3 & E4) end.
  simpl in E2, E3. rewrite E1. simpl. rewrite E2. unfold newAutoscalerFn_for.
  rewrite bool_decide_eq_true_2 by done. rewrite Hk. simpl.
  eexists. split_and!; [done|done| |].
  - intros key. change (registered _ key) with (registered g key). rewrite E4. split; [|auto].
    intros [(X & _)|]; [|done]. simpl in X. rewrite lookup_empty in X. by destruct X.
  - intros req now Hin. simpl.
    match goal with |- context [as_ReqIn ?s] => destruct (as_ReqIn_ok s req now) as [s' Hs] end.
    + done.
    + simpl. rewrite (foldl_insert_lookup (new_kpa_for _)), decide_True by done. eauto.
    + simpl. unfold mul64. rewrite int64_of_id; [unfold Second; lia|].
      unfold in_int64, min_int64, max_int64, Second. lia.
    + rewrite Hs. simpl. eauto.
Qed.

(** Without an autoscaler configuration file the gateway cannot be set up:
    the constructor accepts the empty path, and the set-up then dereferences
    the nil configuration, for both autoscaler frameworks, although the
    one-time autoscaler has a default configuration. *)
Theorem setup_nil_config_panics readFile unmarshal (emptyq : Q string) timeout framework targets registering :
  framework = "kpa"%string \/ framework = "one-time"%string ->
  exists g0 : k8sGateway C M Q B W E,
    NewK8sGateway readFile unmarshal emptyq timeout framework "" = Ok g0 /\
    k8s_SetUp g0 (Ret (Ok targets)) registering = nil_deref.
Proof.
  intros Hf. unfold NewK8sGateway, NewAutoscalerConfigFrom. rewrite bool_decide_eq_true_2 by done.
  eexists. split; [done|]. unfold k8s_SetUp. cbn [mbind outcome_bind].
  match goal with |- context [k8s_register ?g0 targets] =>
    destruct (k8s_register_spec g0 targets) as (g & E1 & E2 & _) end.
  rewrite E1. simpl. simpl in E2. rewrite E2. by destruct Hf as [->| ->].
Qed.

(** ** Reconciliation of a target *)

Variable IsPodReady : Pod -> bool.

(** The pods that [Reconcile] takes as ready. *)
Definition listed_ready (cl : S) (target : Deployment) : list Pod :=
  match cl_list_pods cl (Namespace (dep_meta target)) (TemplateLabels target) with
  | Ok pods => filter (fun p => IsPodReady p = true) pods
  | Err _ => []
  end.

(** A reconciliation of the gateway changes one dispatcher.  For an existing
    deployment with a dispatcher, its endpoints afterwards are among the ready
    pods listed for the deployment's template labels, all of them if no backend
    failed; a deployment that is not found or not registered changes nothing. *)
Theorem gateway_reconcile_effect newBackend order g (cl : S) req errs g' :
  (forall l, Permutation (order l) l) ->
  k8s_Reconcile IsPodReady newBackend order g cl req = Ret (errs, g') ->
  (forall key, key <> nn_string req -> dispatchers g' !! key = dispatchers g !! key) /\
  match cl_get_deployment cl req with
  | Err e => g' = g /\ errs = (if IsNotFound e then [] else [e])
  | Ok target =>
      match dispatchers g !! nn_string req with
      | None => g' = g /\ errs = []
      | Some pd => exists pd', dispatchers g' !! nn_string req = Some pd' /\
          (forall k, live pd' k = true -> k ∈ ready_keys (listed_ready cl target)) /\
          (errs = [] -> forall k, k ∈ ready_keys (listed_ready cl target) -> live pd' k = true)
      end
  end.
Proof.
  intros Ho. unfold k8s_Reconcile. destruct (cl_get_deployment cl req) as [target|e].
  2: { destruct (IsNotFound e); intros [= <- <-]; done. }
  destruct (dispatchers g !! nn_string req) as [pd|] eqn:Hd; [|by intros [= <- <-]].
  destruct (pd_Reconcile _ _ _ _) as [[errs1 pd1]| |] eqn:R; [|done..]. intros [= <- <-]. simpl.
  split; [intros key Hk; by rewrite lookup_insert_ne|].
  exists pd1. rewrite lookup_insert_eq. split; [done|].
  assert (pd_Reconcile newBackend order pd (listed_ready cl target) = Ret (errs1, pd1)) as R'.
  { rewrite <- R. unfold listed_ready. by destruct (cl_list_pods _ _ _). }
  exact (reconcile_live _ _ _ _ _ _ Ho R').
Qed.

(** C37: a failed pod list empties the dispatcher.  The error of the list call is
    logged but not returned, so the reconciliation goes on with no ready pods:
    it reports no error, the key is not retried, and every endpoint of the
    target is gone although its pods may all be serving. *)
Theorem list_error_drops_endpoints newBackend order g (cl : S) req target pd e errs g' :
  (forall l, Permutation (order l) l) ->
  cl_get_deployment cl req = Ok target -> dispatchers g !! nn_string req = Some pd ->
  cl_list_pods cl (Namespace (dep_meta target)) (TemplateLabels target) = Err e ->
  k8s_Reconcile IsPodReady newBackend order g cl req = Ret (errs, g') ->
  errs = [] /\ exists pd', dispatchers g' !! nn_string req = Some pd' /\
  forall k, live pd' k = false.
Proof.
  intros Ho Hg Hd Hl. unfold k8s_Reconcile. rewrite Hg, Hl, Hd.
  destruct (pd_Reconcile _ _ _ _) as [[errs1 pd1]| |] eqn:R; [|done..]. intros [= <- <-]. simpl.
  assert (errs1 = []) as ->.
  { unfold pd_Reconcile, endpoints_diff, ready_endpoints in R. simpl in R.
    rewrite map_to_list_empty in R. cbn [map] in R. rewrite filter_nil in R.
    pose proof (Ho []) as Hnil. apply Permutation_nil_r in Hnil. rewrite Hnil in R. simpl in R.
    by injection R as <- _. }
  split; [done|]. exists pd1. rewrite lookup_insert_eq. split; [done|]. intros k.
  destruct (reconcile_live _ _ _ _ _ _ Ho R) as [L _]. specialize (L k).
  destruct (live pd1 k); [|done]. specialize (L eq_refl). set_solver.
Qed.

End setup_facts.

(** ** Witnesses *)

Definition demo_k8s : Type := k8sGateway list (gmap string) simple_wq float64 (Z * list (Z * Z)) fakeBackend.

Definition demo_read (path : string) : result string := Ok "kpa: ...".

Definition demo_unmarshal (text : string) : result AutoscalerConfig :=
  Ok (mkAutoscalerConfig (Some demo_config) None).

Lemma setup_ready_witness :
  exists g0 g : demo_k8s,
    NewK8sGateway demo_read demo_unmarshal (mk_simple_wq [] []) (5 * Second)%Z "kpa" "config.yaml" = Ok g0 /\
    k8s_SetUp g0 (Ret (Ok [(demo_deployment "app" 0).2; (demo_deployment "web" 3).2])) None = Ret (Ok g) /\
    registered g "ns/web".
Proof.
  destruct (setup_ready (C := list) (M := gmap string) (E := fakeBackend) (B := float64)
    (W := Z * list (Z * Z)) demo_read demo_unmarshal (mk_simple_wq [] []) (5 * Second)%Z "config.yaml"
    "kpa: ..." (mkAutoscalerConfig (Some demo_config) None) demo_config
    [(demo_deployment "app" 0).2; (demo_deployment "web" 3).2])
    as (g0 & g & E1 & E2 & K & _); [discriminate|reflexivity..|vm_compute; split; reflexivity|].
  exists g0, g. split; [exact E1|]. split; [exact E2|]. apply K. right. left.
Defined.

Lemma setup_nil_config_panics_witness :
  exists g0 : demo_k8s,
    NewK8sGateway demo_read demo_unmarshal (mk_simple_wq [] []) (5 * Second)%Z "one-time" "" = Ok g0 /\
    k8s_SetUp g0 (Ret (Ok [])) None = nil_deref.
Proof. apply setup_nil_config_panics. right. reflexivity. Defined.

(** A cluster with one pod for the target, and one whose pods cannot be listed. *)
Definition demo_cluster_pod : cluster :=
  mkCluster [demo_deployment "app" 1] [demo_pod "p0" "10.0.0.1"] [].

Definition demo_gateway (pd : PodDispatcher (gmap string) list fakeBackend) : demo_k8s :=
  mkK8s newGatewayImpl (5 * Second)%Z {["ns/app" := pd]} None None.

Lemma gateway_reconcile_effect_witness :
  exists g' : demo_k8s,
    k8s_Reconcile demo_ready demo_new id (demo_gateway (demo_pd [] [] 0)) demo_cluster_pod
      (mkNamespacedName "ns" "app") = Ret ([], g') /\
    (forall key, key <> "ns/app"%string ->
       dispatchers g' !! key = dispatchers (demo_gateway (demo_pd [] [] 0)) !! key).
Proof.
  exists (demo_gateway (demo_pd [demo_key] [demo_key] 1)).
  assert (k8s_Reconcile demo_ready demo_new id (demo_gateway (demo_pd [] [] 0)) demo_cluster_pod
      (mkNamespacedName "ns" "app") = Ret ([], demo_gateway (demo_pd [demo_key] [demo_key] 1))) as R
    by (vm_compute; reflexivity).
  split; [exact R|].
  exact (proj1 (gateway_reconcile_effect demo_ready demo_new id _ demo_cluster_pod _ _ _
    (fun l => Permutation_refl l) R)).
Defined.

Record unlistable : Type := mkUnlistable { ul_cluster : cluster }.

Global Instance unlistable_client : ClientOps unlistable := {
  cl_get_deployment := fun s nn => cluster_get (ul_cluster s) nn;
  cl_list_pods := fun s ns sel => Err (errorf "connection refused");
  cl_update_scale := fun s d n =>
    let '(r, c) := cluster_update_scale (ul_cluster s) d n in (r, mkUnlistable c)
}.

Lemma list_error_drops_endpoints_witness :
  exists g' : demo_k8s,
    k8s_Reconcile demo_ready demo_new id (demo_gateway (demo_pd [demo_key] [demo_key] 1))
      (mkUnlistable demo_cluster_pod) (mkNamespacedName "ns" "app") = Ret ([], g') /\
    exists pd', dispatchers g' !! "ns/app" = Some pd' /\ forall k, live pd' k = false.
Proof.
  set (g' := demo_gateway (mkPD "ns/app" 1%Z ∅ [demo_key] [newFakeBackend] [0])).
  assert (k8s_Reconcile demo_ready demo_new id (demo_gateway (demo_pd [demo_key] [demo_key] 1))
      (mkUnlistable demo_cluster_pod) (mkNamespacedName "ns" "app") = Ret ([], g')) as R
    by (vm_compute; reflexivity).
  assert (cl_get_deployment (mkUnlistable demo_cluster_pod) (mkNamespacedName "ns" "app")
          = Ok (demo_deployment "app" 1).2) as Hg by (vm_compute; reflexivity).
  assert (dispatchers (demo_gateway (demo_pd [demo_key] [demo_key] 1)) !! nn_string (mkNamespacedName "ns" "app")
          = Some (demo_pd [demo_key] [demo_key] 1)) as Hd by (vm_compute; reflexivity).
  exists g'. split; [exact R|].
  exact (proj2 (list_error_drops_endpoints demo_ready demo_new id _ (mkUnlistable demo_cluster_pod) _ _ _ _
    [] g' (fun l => Permutation_refl l) Hg Hd eq_refl R)).
Defined.

