(* ===== verification/Controller.v ===== *)
(** * The controller of the Kubernetes gateway

    [SetUpWithManager] of [pkg/gateway/k8s.go] registers the gateway with a
    controller of controller-runtime: the watches of pods and deployments put the
    key of an object into a work queue, and up to 256 workers take keys and call
    [Reconcile], which reads deployment and pods from the cache of the manager.
    Cache, watches and workers run beside each other, so a worker may act on what
    is no longer true, and each of its two reads may fail.  The theorems show that
    the dispatchers still end up with the ready pods of their targets, except
    where the last list of a target's pods failed, which [Reconcile] ignores. *)

From S2P Require Import Prelude GoTypes Float64 Interfaces Kube Workload Backend Dispatcher Autoscaler Gateway.

Local Open Scope nat_scope.

(** [Reconcile] reads the deployment and then the pods: the cache may change in
    between. *)
Global Instance two_reads {S} `{ClientOps S} : ClientOps (S * S) := {
  cl_get_deployment := fun cl => cl_get_deployment (fst cl);
  cl_list_pods := fun cl => cl_list_pods (snd cl);
  cl_update_scale := fun cl d n =>
    let '(r, s) := cl_update_scale (snd cl) d n in (r, (fst cl, s))
}.

Definition MaxConcurrentReconciles : nat := 256.

Section controller.
Context {C : Type -> Type} `{CL : ChannLaws C}.
Context {M : Type -> Type} `{SML : SharedMapLaws M}.
Context {Q : Type -> Type} `{QL : WorkQueueLaws Q}.
Context {B W : Type}.
Context {E : Type}.
Context {S : Type} `{ClientOps S}.
Variable IsPodReady : Pod -> bool.
Notation gateway := (k8sGateway C M Q B W E).

(** How far a worker is with its call of [Reconcile], and what it has read. *)
Inductive reading : Type :=
| Taken
| Got (got : S)
| Listed (got listed : S).

(** The cache, the events of its changes that the handlers have not seen, the
    queue with the keys that wait for a retry, the workers, and the gateway.
    [ct_blind] remembers the requests whose last reconciliation could not list
    the pods. *)
Record controller : Type := mkCT {
  ct_view : S;
  ct_events : list ObjectMeta;
  ct_queue : Q NamespacedName;
  ct_backoff : list NamespacedName;
  ct_busy : list (NamespacedName * reading);
  ct_gateway : gateway;
  ct_blind : gset NamespacedName
}.

(** The event handler behind the filter. *)
Definition ct_handle (q : Q NamespacedName) (obj : ObjectMeta) : outcome (Q NamespacedName) :=
  if FilterEvent obj then req ← enqueueWorkload obj; Ret (wq_add q req) else Ret q.

Definition with_busy (c : controller) (busy : list (NamespacedName * reading)) : controller :=
  mkCT (ct_view c) (ct_events c) (ct_queue c) (ct_backoff c) busy (ct_gateway c) (ct_blind c).

(** The read of the deployment failed, other than by not finding it. *)
Definition get_failed (got : S) (req : NamespacedName) : bool :=
  match cl_get_deployment got req with Ok _ => false | Err e => negb (IsNotFound e) end.

(** The list of the pods of the deployment that was read failed. *)
Definition list_failed (got listed : S) (req : NamespacedName) : bool :=
  match cl_get_deployment got req with
  | Ok target => negb (is_ok (cl_list_pods listed (Namespace (dep_meta target)) (TemplateLabels target)))
  | Err _ => false
  end.

(** What the two reads of a worker can return: what the cache holds, or an
    error. *)
Definition reads_deployment (view got : S) (req : NamespacedName) : Prop :=
  cl_get_deployment got req = cl_get_deployment view req \/ get_failed got req = true.

Definition reads_pods (view got listed : S) (req : NamespacedName) : Prop :=
  list_failed got listed req = true \/
  forall target, cl_get_deployment got req = Ok target ->
    cl_list_pods listed (Namespace (dep_meta target)) (TemplateLabels target) =
    cl_list_pods view (Namespace (dep_meta target)) (TemplateLabels target).

(** The end of a call of [Reconcile]: an error is retried. *)
Definition ct_finish (c : controller) (req : NamespacedName) (rest : list (NamespacedName * reading))
    (errs : list error) (g : gateway) (blind : bool) : controller :=
  mkCT (ct_view c) (ct_events c) (wq_done (ct_queue c) req)
    (match errs with [] => ct_backoff c | _ => ct_backoff c ++ [req] end) rest g
    (if blind then {[req]} ∪ ct_blind c else ct_blind c ∖ {[req]}).

(** A step of the controller, and whether something fails in it: a read, or the
    creation of a backend. *)
Inductive ct_work (c : controller) : bool -> controller -> Prop :=
| ct_event before obj after q :
    ct_events c = before ++ obj :: after -> ct_handle (ct_queue c) obj = Ret q ->
    ct_work c false
      (mkCT (ct_view c) (before ++ after) q (ct_backoff c) (ct_busy c) (ct_gateway c) (ct_blind c))
| ct_take req q :
    length (ct_busy c) < MaxConcurrentReconciles -> wq_get (ct_queue c) = Some (req, q) ->
    ct_work c false
      (mkCT (ct_view c) (ct_events c) q (ct_backoff c) (ct_busy c ++ [(req, Taken)]) (ct_gateway c) (ct_blind c))
| ct_get before req got after :
    ct_busy c = before ++ (req, Taken) :: after -> reads_deployment (ct_view c) got req ->
    ct_work c (get_failed got req) (with_busy c (before ++ (req, Got got) :: after))
| ct_list before req got listed after :
    ct_busy c = before ++ (req, Got got) :: after -> reads_pods (ct_view c) got listed req ->
    ct_work c (list_failed got listed req) (with_busy c (before ++ (req, Listed got listed) :: after))
| ct_apply before req got listed after newBackend order errs g :
    ct_busy c = before ++ (req, Listed got listed) :: after -> (forall l, Permutation (order l) l) ->
    k8s_Reconcile IsPodReady newBackend order (ct_gateway c) (got, listed) req = Ret (errs, g) ->
    ct_work c (match errs with [] => false | _ => negb (get_failed got req) end)
      (ct_finish c req (before ++ after) errs g (list_failed got listed req))
| ct_retry before req after :
    ct_backoff c = before ++ req :: after ->
    ct_work c false (mkCT (ct_view c) (ct_events c) (wq_add (ct_queue c) req) (before ++ after) (ct_busy c)
      (ct_gateway c) (ct_blind c)).

(** ** The surroundings *)

(** Serving requests moves tokens and executors, but no endpoints. *)
Definition same_endpoints (g g' : gateway) : Prop :=
  forall key, match dispatchers g !! key, dispatchers g' !! key with
              | Some pd, Some pd' => forall k, live pd' k = live pd k
              | None, None => True
              | _, _ => False
              end.

(** What [Reconcile] reads for a request is the same in both caches. *)
Definition same_reads (cl cl' : S) (req : NamespacedName) : Prop :=
  cl_get_deployment cl' req = cl_get_deployment cl req /\
  forall target, cl_get_deployment cl req = Ok target ->
    cl_list_pods cl' (Namespace (dep_meta target)) (TemplateLabels target) =
    cl_list_pods cl (Namespace (dep_meta target)) (TemplateLabels target).

(** The object belongs to the workload that the request names: its labels say
    that it is of the trace experiment, and of which application. *)
Definition workload_of (obj : ObjectMeta) (req : NamespacedName) : Prop :=
  Namespace obj = nn_namespace req /\ Labels obj !! "app" = Some (nn_name req) /\
  nn_name req <> ""%string /\ Labels obj !! "workload" = Some "trace"%string.

(** An object of the workload is reported. *)
Definition covers (events : list ObjectMeta) (req : NamespacedName) : Prop :=
  exists obj, obj ∈ events /\ workload_of obj req.

(** Requests have names without separators, as those of Kubernetes are. *)
Definition valid_request (req : NamespacedName) : Prop :=
  no_slash (nn_namespace req) = true /\ no_slash (nn_name req) = true.

(** What the cache holds can be read. *)
Definition readable (cl : S) : Prop :=
  (forall req, get_failed cl req = false) /\ (forall ns sel, is_ok (cl_list_pods cl ns sel) = true).

(** A change of the cache, which the watches report: where it changes what
    [Reconcile] reads for a request, one of the changed objects is a deployment or
    a pod of that workload.  And the gateway at work. *)
Inductive ct_env (c : controller) : controller -> Prop :=
| ct_change cl events :
    readable cl -> (forall req, valid_request req -> same_reads (ct_view c) cl req \/ covers events req) ->
    ct_env c (mkCT cl (ct_events c ++ events) (ct_queue c) (ct_backoff c) (ct_busy c) (ct_gateway c) (ct_blind c))
| ct_serve g :
    same_endpoints (ct_gateway c) g ->
    ct_env c (mkCT (ct_view c) (ct_events c) (ct_queue c) (ct_backoff c) (ct_busy c) g (ct_blind c)).

Definition ct_step (c c' : controller) : Prop := (exists failed, ct_work c failed c') \/ ct_env c c'.

(** ** The invariant *)

(** The endpoints of the target are its ready pods. *)
Definition in_sync {T} `{ClientOps T} (cl : T) (g : gateway) (req : NamespacedName) : Prop :=
  forall target pd, cl_get_deployment cl req = Ok target -> dispatchers g !! nn_string req = Some pd ->
  forall k, live pd k = true <-> k ∈ ready_keys (listed_ready IsPodReady cl target).

(** What a worker has read is still so, or it has read an error. *)
Definition fresh (cl : S) (req : NamespacedName) (r : reading) : Prop :=
  match r with
  | Taken => True
  | Got got => reads_deployment cl got req
  | Listed got listed => reads_deployment cl got req /\ reads_pods cl got listed req
  end.

(** A later reconciliation of the request is under way. *)
Definition scheduled (c : controller) (req : NamespacedName) : Prop :=
  covers (ct_events c) req \/ req ∈ wq_dirty (ct_queue c) \/ req ∈ ct_backoff c.

Record ct_inv (c : controller) : Prop := {
  ci_processing : wq_processing (ct_queue c) = list_to_set (ct_busy c).*1;
  ci_nodup : NoDup (ct_busy c).*1;
  ci_workers : length (ct_busy c) <= MaxConcurrentReconciles;
  ci_valid : forall req, (req ∈ wq_dirty (ct_queue c) \/ req ∈ ct_backoff c \/ req ∈ (ct_busy c).*1) ->
    valid_request req;
  ci_view : readable (ct_view c);
  ci_fresh : forall req r, (req, r) ∈ ct_busy c -> fresh (ct_view c) req r \/ scheduled c req;
  ci_sync : forall req, valid_request req ->
    in_sync (ct_view c) (ct_gateway c) req \/ scheduled c req \/ req ∈ (ct_busy c).*1 \/ req ∈ ct_blind c
}.

Lemma enqueueWorkload_valid obj req : enqueueWorkload obj = Ret req -> valid_request req.
Proof.
  unfold enqueueWorkload. intros Hr. destruct (key_parse_total (KeyFromObject obj)) as [P1 P2].
  destruct (no_slash (KeyFromObject obj)); [by rewrite P1 in Hr|].
  destruct (P2 eq_refl) as (nn & Hn & V). rewrite Hn in Hr. by injection Hr as <-.
Qed.

(** The filter lets the objects of a workload pass, and the handler maps them to
    its request. *)
Lemma workload_enqueued obj req : valid_request req -> workload_of obj req ->
  FilterEvent obj = true /\ enqueueWorkload obj = Ret req.
Proof.
  intros [V1 V2] (Hn & Ha & Hne & Hw). destruct req as [ns name]. simpl in *.
  unfold FilterEvent, IsTraceWorkload, IsWorkload, enqueueWorkload, KeyFromObject, str_at.
  rewrite Ha, Hw, Hn. simpl. rewrite bool_decide_eq_false_2 by done. split; [done|by apply key_parse].
Qed.

Lemma nn_string_inj req req' : valid_request req -> valid_request req' -> nn_string req = nn_string req' -> req = req'.
Proof.
  intros [V1 V2] [V3 V4] E1. destruct req as [a b], req' as [a' b']. simpl in *.
  apply (f_equal NamespacedNameFromKey) in E1. unfold nn_string in E1. simpl in E1.
  rewrite !key_parse in E1 by done. by injection E1 as -> ->.
Qed.

(** A reconciliation without an error synchronises its target with what it
    read, and any touches no other. *)
Lemma reconcile_syncs newBackend order g (cl : S * S) req errs g' :
  (forall l, Permutation (order l) l) ->
  k8s_Reconcile IsPodReady newBackend order g cl req = Ret (errs, g') ->
  (errs = [] -> in_sync cl g' req) /\
  (forall key, key <> nn_string req -> dispatchers g' !! key = dispatchers g !! key).
Proof.
  intros Ho. unfold k8s_Reconcile, in_sync. destruct (cl_get_deployment cl req) as [target|e].
  2: { destruct (IsNotFound e); intros [= <- <-]; done. }
  destruct (dispatchers g !! nn_string req) as [pd|] eqn:Hd.
  2: { intros [= <- <-]. split; [|done]. intros _ t pd _ Hp. congruence. }
  destruct (pd_Reconcile _ _ _ _) as [[errs1 pd1]| |] eqn:R; [|done..]. intros [= <- <-]. simpl.
  split; [|intros key Hk; by rewrite lookup_insert_ne].
  intros -> t pd' [= <-]. rewrite lookup_insert_eq. intros [= <-] k.
  assert (pd_Reconcile newBackend order pd (listed_ready IsPodReady cl target) = Ret ([], pd1)) as R'.
  { rewrite <- R. unfold listed_ready. by destruct (cl_list_pods _ _ _). }
  destruct (reconcile_live _ _ _ _ _ _ Ho R') as [L1 L2]. split; [apply L1|by apply L2].
Qed.

Lemma in_sync_fresh got listed cl g req :
  in_sync (got, listed) g req -> fresh cl req (Listed got listed) ->
  get_failed got req = false -> list_failed got listed req = false -> in_sync cl g req.
Proof.
  intros I [[F1|F1] [F2|F2]] Gf Lf target pd Hg Hd k; simpl in *; try congruence.
  rewrite (I target pd) by (simpl; congruence || done).
  unfold listed_ready. simpl. by rewrite (F2 target) by congruence.
Qed.

Lemma in_sync_same_endpoints cl g g' req : same_endpoints g g' -> in_sync cl g req -> in_sync cl g' req.
Proof.
  intros Sm I target pd' Hg Hd k. specialize (Sm (nn_string req)). rewrite Hd in Sm.
  destruct (dispatchers g !! nn_string req) as [pd|] eqn:Hp; [|done]. rewrite Sm. by apply (I target pd).
Qed.

Lemma in_sync_reads cl cl' g req : same_reads cl cl' req -> in_sync cl g req -> in_sync cl' g req.
Proof.
  intros [R1 R2] I target pd Hg Hd k. rewrite R1 in Hg. rewrite (I target pd Hg Hd).
  unfold listed_ready. by rewrite (R2 target Hg).
Qed.

Lemma fresh_reads cl cl' req r :
  same_reads cl cl' req -> (forall req, get_failed cl req = false) -> fresh cl req r -> fresh cl' req r.
Proof.
  intros [R1 R2] Rd. destruct r as [|got|got listed]; simpl; unfold reads_deployment; rewrite ?R1; [done..|].
  intros [F1 F2]. split; [done|]. destruct F2 as [|F2]; [by left|]. destruct F1 as [F1|F1].
  - right. intros target Ht. rewrite F2, R2 by congruence. done.
  - right. intros target Ht. unfold get_failed in F1. by rewrite Ht in F1.
Qed.

Lemma covers_app events events' req : covers (events ++ events') req <-> covers events req \/ covers events' req.
Proof. unfold covers. setoid_rewrite elem_of_app. naive_solver. Qed.

(** *** Steps that leave the workers alone *)

Lemma quiet_inv c c' :
  ct_inv c -> ct_view c' = ct_view c -> ct_gateway c' = ct_gateway c -> ct_busy c' = ct_busy c ->
  wq_processing (ct_queue c') = wq_processing (ct_queue c) ->
  ct_blind c' = ct_blind c ->
  (forall req, valid_request req -> scheduled c req -> scheduled c' req) ->
  (forall req, (req ∈ wq_dirty (ct_queue c') \/ req ∈ ct_backoff c') -> valid_request req) -> ct_inv c'.
Proof.
  intros [I1 I2 I3 I4 I5 I7 I8] Ev Eg Eb Ep El Sc Va.
  split; rewrite ?Ev, ?Eg, ?Eb, ?Ep, ?El; try done.
  - intros req [?|[?|?]]; auto.
  - intros req r Hr. destruct (I7 req r Hr) as [|Hs]; [auto|right]. apply Sc; [|done]. apply I4. right. right.
    apply list_elem_of_fmap. by exists (req, r).
  - intros req Hv. destruct (I8 req Hv) as [|[|]]; auto.
Qed.

Lemma event_inv c before obj after q :
  ct_inv c -> ct_events c = before ++ obj :: after -> ct_handle (ct_queue c) obj = Ret q ->
  ct_inv (mkCT (ct_view c) (before ++ after) q (ct_backoff c) (ct_busy c) (ct_gateway c) (ct_blind c)).
Proof.
  intros I He Hq. assert (exists reqs, wq_dirty q = reqs ∪ wq_dirty (ct_queue c) /\
    wq_processing q = wq_processing (ct_queue c) /\ (forall req, req ∈ reqs -> valid_request req) /\
    (forall req, valid_request req -> workload_of obj req -> req ∈ reqs)) as (reqs & D & Pr & V & Cv).
  { unfold ct_handle in Hq. destruct (FilterEvent obj) eqn:Fo.
    - destruct (enqueueWorkload obj) as [req| |] eqn:Eo; [|done..]. injection Hq as <-.
      exists {[req]}. rewrite wq_add_dirty, wq_add_processing. split_and!; try done.
      + intros req' ->%elem_of_singleton. by eapply enqueueWorkload_valid.
      + intros req' Hv Hw. destruct (workload_enqueued obj req' Hv Hw) as [_ Er]. rewrite Eo in Er. set_solver.
    - injection Hq as <-. exists ∅. split_and!; try set_solver.
      intros req Hv Hw. destruct (workload_enqueued obj req Hv Hw). congruence. }
  apply (quiet_inv c); try done; simpl.
  - intros req Hv. unfold scheduled. simpl. rewrite He, D.
    intros [(o & [Hi|[->|Hi]%elem_of_cons]%elem_of_app & F)|[?|?]]; [..|set_solver|by right; right].
    + left. exists o. set_solver.
    + right. left. apply elem_of_union_l. by apply Cv.
    + left. exists o. set_solver.
  - intros req. rewrite D, elem_of_union. pose proof (ci_valid c I req). naive_solver.
Qed.

Lemma retry_inv c before req after :
  ct_inv c -> ct_backoff c = before ++ req :: after ->
  ct_inv (mkCT (ct_view c) (ct_events c) (wq_add (ct_queue c) req) (before ++ after) (ct_busy c) (ct_gateway c)
    (ct_blind c)).
Proof.
  intros I Hb. pose proof (ci_valid c I) as V. rewrite Hb in V.
  apply (quiet_inv c); try done; simpl; [by rewrite wq_add_processing|..].
  - intros req' _. unfold scheduled. simpl. rewrite Hb, wq_add_dirty. set_solver.
  - intros req'. rewrite wq_add_dirty. intros Hr. apply V. set_solver.
Qed.

(** *** Steps of a worker *)

Lemma take_inv c req q :
  ct_inv c -> length (ct_busy c) < MaxConcurrentReconciles -> wq_get (ct_queue c) = Some (req, q) ->
  ct_inv (mkCT (ct_view c) (ct_events c) q (ct_backoff c) (ct_busy c ++ [(req, Taken)]) (ct_gateway c) (ct_blind c)).
Proof.
  intros [I1 I2 I3 I4 I5 I7 I8] Hl (G1 & G2 & G3 & G4)%wq_get_some.
  assert (forall req', scheduled c req' -> req' = req \/ scheduled (mkCT (ct_view c) (ct_events c) q (ct_backoff c)
    (ct_busy c ++ [(req, Taken)]) (ct_gateway c) (ct_blind c)) req') as Sc.
  { intros req'. unfold scheduled. simpl. rewrite G3. destruct (decide (req' = req)); set_solver. }
  split; simpl; rewrite ?fmap_app; simpl; [rewrite G4, I1; set_solver|..].
  - apply NoDup_app. split_and!; [done|set_solver|apply NoDup_singleton].
  - rewrite length_app. simpl. lia.
  - intros req'. rewrite G3. pose proof (I4 req') as V. pose proof (I4 req). set_solver.
  - done.
  - intros req' r [Hr|[-> ->]%list_elem_of_singleton%pair_eq]%elem_of_app; [|by left].
    destruct (I7 req' r Hr) as [|Hs]; [auto|]. destruct (Sc req' Hs) as [->|]; [|auto].
    exfalso. apply G2. rewrite I1. apply elem_of_list_to_set, list_elem_of_fmap. by exists (req, r).
  - intros req' Hv. destruct (I8 req' Hv) as [|[Hs|[|]]]; [auto| |set_solver|auto].
    destruct (Sc req' Hs) as [->|]; [set_solver|auto].
Qed.

(** A worker that reads. *)
Lemma read_inv c before req r r' after :
  ct_inv c -> ct_busy c = before ++ (req, r) :: after ->
  (fresh (ct_view c) req r -> fresh (ct_view c) req r') ->
  ct_inv (with_busy c (before ++ (req, r') :: after)).
Proof.
  intros [I1 I2 I3 I4 I5 I7 I8] Hb Fr.
  assert ((before ++ (req, r') :: after).*1 = (ct_busy c).*1) as Ek by by rewrite Hb, !fmap_app.
  split; simpl; rewrite ?Ek; try done.
  - rewrite Hb, length_app in I3. rewrite length_app. done.
  - intros req' r0 [Hr|[[= -> ->]|Hr]%elem_of_cons]%elem_of_app.
    + apply (I7 req' r0). rewrite Hb. set_solver.
    + destruct (I7 req r) as [|]; [rewrite Hb; set_solver|auto|by right].
    + apply (I7 req' r0). rewrite Hb. set_solver.
Qed.

(** What [Reconcile] leaves behind for its own request. *)
Lemma applied_request newBackend order g (got listed cl : S) req errs g' :
  (forall l, Permutation (order l) l) ->
  k8s_Reconcile IsPodReady newBackend order g (got, listed) req = Ret (errs, g') ->
  fresh cl req (Listed got listed) ->
  errs <> [] \/ list_failed got listed req = true \/ in_sync cl g' req.
Proof.
  intros Ho R F. destruct (reconcile_syncs _ _ _ _ _ _ _ Ho R) as [Rs _].
  destruct errs as [|e errs]; [|by left]. right. destruct (list_failed got listed req) eqn:Lf; [by left|right].
  eapply in_sync_fresh; [by apply Rs|done| |done].
  unfold get_failed. unfold k8s_Reconcile in R. simpl in R. destruct (cl_get_deployment got req) as [|e]; [done|].
  by destruct (IsNotFound e).
Qed.

Lemma apply_inv c before req got listed after newBackend order errs g :
  ct_inv c -> ct_busy c = before ++ (req, Listed got listed) :: after -> (forall l, Permutation (order l) l) ->
  k8s_Reconcile IsPodReady newBackend order (ct_gateway c) (got, listed) req = Ret (errs, g) ->
  ct_inv (ct_finish c req (before ++ after) errs g (list_failed got listed req)).
Proof.
  intros [I1 I2 I3 I4 I5 I7 I8] Hb Ho R. destruct (reconcile_syncs _ _ _ _ _ _ _ Ho R) as [_ Ro].
  set (c' := ct_finish _ _ _ _ _ _).
  assert (forall req', scheduled c req' -> scheduled c' req') as Sc.
  { intros req'. unfold scheduled. simpl. rewrite wq_done_dirty. destruct errs; set_solver. }
  rewrite Hb, fmap_app in I2. apply NoDup_app in I2 as (N1 & N2 & N3). apply NoDup_cons in N3 as [N3 N4].
  split; simpl; rewrite ?fmap_app; simpl; try done.
  - rewrite wq_done_processing, I1, Hb, fmap_app, !list_to_set_app_L, fmap_cons, list_to_set_cons. set_solver.
  - apply NoDup_app. split_and!; [done|set_solver|done].
  - rewrite Hb, length_app in I3. rewrite length_app. simpl in I3. lia.
  - intros req'. rewrite wq_done_dirty. rewrite Hb, fmap_app in I4. pose proof (I4 req'). destruct errs; set_solver.
  - intros req' r Hr. destruct (I7 req' r) as [|]; [rewrite Hb; set_solver|auto|auto].
  - intros req' Hv. destruct (decide (req' = req)) as [->|Ne].
    + destruct (I7 req (Listed got listed)) as [F|]; [rewrite Hb; set_solver| |auto].
      destruct (applied_request _ _ _ _ _ _ _ _ _ Ho R F) as [He|[->|]]; [|set_solver|auto].
      right. left. right. right. destruct errs; set_solver.
    + destruct (I8 req' Hv) as [Sy|[|[Hi|Hl]]]; [left|auto|right; right; left|].
      * intros target pd Hg Hd. apply (Sy target pd Hg). rewrite <- Hd. symmetry. apply Ro.
        intros Ek. apply Ne, nn_string_inj; [done| |done]. apply I4. rewrite Hb, fmap_app. set_solver.
      * rewrite Hb, fmap_app in Hi. set_solver.
      * right. right. right. destruct (list_failed got listed req); set_solver.
Qed.

(** *** Every step *)

Lemma ct_work_inv c failed c' : ct_work c failed c' -> ct_inv c -> ct_inv c'.
Proof.
  intros St I. destruct St as [| |before req got after Hb Rd|before req got listed after Hb Rd| |].
  - by eapply event_inv.
  - by apply take_inv.
  - by eapply read_inv.
  - eapply read_inv; [done|done|]. by intros F.
  - by eapply apply_inv.
  - by apply retry_inv.
Qed.

Lemma ct_env_inv c c' : ct_env c c' -> ct_inv c -> ct_inv c'.
Proof.
  intros St [I1 I2 I3 I4 I5 I7 I8]. destruct St as [cl events Rd Rp|g Sm].
  - set (c' := mkCT cl _ _ _ _ _ _).
    assert (forall req, scheduled c req \/ covers events req -> scheduled c' req) as Sc.
    { intros req. unfold scheduled. simpl. rewrite covers_app. naive_solver. }
    split; simpl; try done.
    + intros req r Hr. assert (valid_request req) as Hv.
      { apply I4. right. right. apply list_elem_of_fmap. by exists (req, r). }
      destruct (Rp req Hv) as [Sr|]; [|auto]. destruct (I7 req r Hr); [|auto].
      left. eapply fresh_reads; [done|apply I5|done].
    + intros req Hv. destruct (Rp req Hv) as [Sr|]; [|auto]. destruct (I8 req Hv) as [|[|[|]]]; [|auto..].
      left. by eapply in_sync_reads.
  - split; simpl; try done. intros req Hv. destruct (I8 req Hv) as [|[|[|]]]; [|auto..].
    left. by eapply in_sync_same_endpoints.
Qed.

(** ** The theorems *)

(** A gateway that was set up: the informers report every deployment when they
    start. *)
Definition started (c : controller) : Prop :=
  readable (ct_view c) /\ ct_busy c = [] /\ ct_backoff c = [] /\
  wq_dirty (ct_queue c) = ∅ /\ wq_processing (ct_queue c) = ∅ /\
  forall req, valid_request req -> is_Some (dispatchers (ct_gateway c) !! nn_string req) -> covers (ct_events c) req.

Lemma started_inv c : started c -> ct_inv c.
Proof.
  intros (Rd & Eb & Ef & Ed & Ep & Cv). split; rewrite ?Eb, ?Ef, ?Ed, ?Ep; simpl; try done.
  - constructor.
  - unfold MaxConcurrentReconciles. lia.
  - set_solver.
  - set_solver.
  - intros req Hv. destruct (dispatchers (ct_gateway c) !! nn_string req) as [pd|] eqn:Hd.
    + right. left. left. apply Cv; eauto.
    + left. intros target pd _ Hp. congruence.
Qed.

Lemma ct_reach_inv c0 c : started c0 -> rtc ct_step c0 c -> ct_inv c.
Proof.
  intros I%started_inv R. induction R as [|c0 c1 c2 [[failed St]|St] _ IH]; [done|..]; apply IH.
  - by eapply ct_work_inv.
  - by eapply ct_env_inv.
Qed.

(** C10: the gateway misses no change of its pods.  In every interleaving of the
    cache, the watches, at most 256 workers, which act on what they have read
    before, and the retries, no two workers reconcile the same target, and the
    endpoints of every target are its ready pods, or a reconciliation of it is
    still to come (an event not yet handled, a queued or backed off key) or is
    going on, or the last reconciliation of it failed to list its pods, an error
    that the code swallows.  (Each read of a worker may return an error; the
    watches report a change with an object that has the labels of the workload.) *)
Theorem gateway_misses_no_change c0 c :
  started c0 -> rtc ct_step c0 c ->
  NoDup (ct_busy c).*1 /\ length (ct_busy c) <= MaxConcurrentReconciles /\
  forall req, valid_request req ->
    in_sync (ct_view c) (ct_gateway c) req \/ scheduled c req \/ req ∈ (ct_busy c).*1 \/ req ∈ ct_blind c.
Proof. intros S0 R. destruct (ct_reach_inv c0 c S0 R). done. Qed.

(** *** Catching up *)

(** A failed read of the deployment leads to a retry. *)
Definition reading_left (b : NamespacedName * reading) : nat :=
  match b with
  | (_, Taken) => 3
  | (req, Got got) => if get_failed got req then 7 else 2
  | (req, Listed got _) => if get_failed got req then 6 else 1
  end.

(** The steps that the controller has left while the cluster does not change. *)
Definition ct_todo (c : controller) : nat :=
  5 * length (ct_events c) + 4 * size (wq_dirty (ct_queue c)) + 5 * length (ct_backoff c) +
  sum_list_with reading_left (ct_busy c).

Lemma wq_add_size (q : Q NamespacedName) req : size (wq_dirty (wq_add q req)) <= size (wq_dirty q) + 1.
Proof.
  rewrite wq_add_dirty. pose proof (size_union_alt {[req]} (wq_dirty q)) as Hs.
  rewrite size_singleton in Hs.
  assert (size (wq_dirty q ∖ {[req]}) <= size (wq_dirty q)) by (apply subseteq_size; set_solver). lia.
Qed.

Lemma ct_work_todo c c' : ct_work c false c' -> ct_todo c' < ct_todo c /\ ct_view c' = ct_view c.
Proof.
  intros St. remember false as f eqn:Hf. split; [|by destruct St]. unfold ct_todo.
  destruct St as [before obj after q He Hq|req q _ G|before req got after Hb _|before req got listed after Hb _|
    before req got listed after nb order errs g Hb _ _|before req after Hb]; simpl.
  - rewrite He, !length_app. simpl. unfold ct_handle in Hq. destruct (FilterEvent obj).
    + destruct (enqueueWorkload obj) as [req| |]; [|done..]. injection Hq as <-.
      pose proof (wq_add_size (ct_queue c) req). lia.
    + injection Hq as <-. lia.
  - apply wq_get_some in G as (G1 & _ & -> & _). rewrite sum_list_with_app. simpl.
    rewrite size_difference by set_solver. rewrite size_singleton.
    pose proof (size_non_empty_iff (wq_dirty (ct_queue c))) as Hs. assert (size (wq_dirty (ct_queue c)) <> 0); [|lia].
    apply Hs. set_solver.
  - rewrite Hb, !sum_list_with_app. simpl. rewrite Hf. lia.
  - rewrite Hb, !sum_list_with_app. simpl. destruct (get_failed got req); lia.
  - rewrite Hb, wq_done_dirty, !sum_list_with_app. simpl. destruct errs; rewrite ?length_app; simpl;
      destruct (get_failed got req); lia || done.
  - rewrite Hb, !length_app. simpl. pose proof (wq_add_size (ct_queue c) req). lia.
Qed.

(** Reconciling cannot fail while backends can be made. *)
Lemma add_endpoints_ok (e : E) eps add : forall pd : PodDispatcher M C E,
  exists pd', add_endpoints (fun _ => Ret (Ok e)) eps pd add = Ret ([], pd').
Proof.
  induction add as [|key add IH]; intros pd; simpl; [eauto|].
  match goal with |- context [add_endpoints _ _ ?pd1 add] => destruct (IH pd1) as [pd' ->] end. simpl. eauto.
Qed.

Lemma reconcile_can (e : E) (g : gateway) (got listed : S) req :
  exists errs g', k8s_Reconcile IsPodReady (fun _ => Ret (Ok e)) id g (got, listed) req = Ret (errs, g') /\
    (errs = [] \/ get_failed got req = true).
Proof.
  unfold k8s_Reconcile, get_failed. simpl. destruct (cl_get_deployment got req) as [target|e'].
  2: { destruct (IsNotFound e'); eauto. }
  destruct (dispatchers g !! nn_string req) as [pd|]; [|eauto]. unfold pd_Reconcile.
  destruct (endpoints_diff _ _) as [add del]. unfold id.
  match goal with |- context [add_endpoints _ ?eps pd add] => destruct (add_endpoints_ok e eps add pd) as [pd' ->] end.
  simpl. eauto.
Qed.

Lemma handle_returns q obj : exists q', ct_handle q obj = Ret q'.
Proof.
  unfold ct_handle. destruct (FilterEvent obj); [|eauto]. unfold enqueueWorkload.
  assert (no_slash (KeyFromObject obj) = false) as Hk.
  { unfold KeyFromObject. induction (Namespace obj) as [|ch ns IH]; [done|]. simpl in *. by rewrite IH, andb_false_r. }
  destruct (proj2 (key_parse_total (KeyFromObject obj)) Hk) as (req & -> & _). simpl. eauto.
Qed.

(** The controller has a step, or it has nothing to do. *)
Lemma ct_progress (e : E) c : ct_inv c ->
  (exists c', ct_work c false c') \/
  ct_events c = [] /\ wq_dirty (ct_queue c) = ∅ /\ ct_backoff c = [] /\ ct_busy c = [].
Proof.
  intros I. destruct (ct_events c) as [|obj events] eqn:Ee.
  2: { destruct (handle_returns (ct_queue c) obj) as [q Hq]. left. eexists. by apply (ct_event c [] obj events q). }
  destruct (ct_backoff c) as [|req backoff] eqn:Ef.
  2: { left. eexists. by apply (ct_retry c [] req backoff). }
  destruct (ct_busy c) as [|[req r] busy] eqn:Eb.
  - destruct (wq_get (ct_queue c)) as [[req q]|] eqn:G.
    + left. eexists. apply (ct_take c req q); [|done]. rewrite Eb. unfold MaxConcurrentReconciles. simpl. lia.
    + right. apply wq_get_none in G. rewrite (ci_processing c I), Eb in G. split_and!; [done|set_solver|done..].
  - left. destruct (ci_view c I) as [Rg Rl]. destruct r as [|got|got listed].
    + eexists. rewrite <- (Rg req). apply (ct_get c [] req (ct_view c) busy); [done|by left].
    + assert (list_failed got (ct_view c) req = false) as Lf.
      { unfold list_failed. destruct (cl_get_deployment got req); [|done]. by rewrite Rl. }
      eexists. rewrite <- Lf. apply (ct_list c [] req got (ct_view c) busy); [done|by right].
    + destruct (reconcile_can e (ct_gateway c) got listed req) as (errs & g & R & He).
      pose proof (ct_apply c [] req got listed busy (fun _ => Ret (Ok e)) id errs g Eb (fun l => reflexivity l) R) as St.
      eexists. destruct errs; [exact St|]. destruct He as [|Gf]; [done|]. rewrite Gf in St. exact St.
Qed.

(** A step of the controller in which nothing fails, perhaps after requests were
    served, while the cluster does not change. *)
Definition ct_settle (c c' : controller) : Prop :=
  exists g, same_endpoints (ct_gateway c) g /\
    ct_work (mkCT (ct_view c) (ct_events c) (ct_queue c) (ct_backoff c) (ct_busy c) g (ct_blind c)) false c'.

(** The pods of the request could not be listed, by its last reconciliation or by
    the one that is going on. *)
Definition unlisted (c : controller) (req : NamespacedName) : Prop :=
  req ∈ ct_blind c \/
  exists got listed, (req, Listed got listed) ∈ ct_busy c /\ list_failed got listed req = true.

Lemma ct_work_unlisted c c' req : ct_work c false c' -> unlisted c' req -> unlisted c req.
Proof.
  intros St. remember false as f eqn:Hf. unfold unlisted.
  destruct St as [|req1 q _ _|before req1 got after Hb _|before req1 got listed after Hb _|
    before req1 got listed after nb order errs g Hb _ _|]; simpl; try done;
    (intros [Hl|(got' & listed' & Hi & Lf)]; [|rewrite ?Hb]).
  - by left.
  - right. exists got', listed'. split; [|done]. set_solver.
  - by left.
  - right. exists got', listed'. split; [|done]. set_solver.
  - by left.
  - right. exists got', listed'. split; [|done].
    apply elem_of_app in Hi as [|[[= -> -> ->]|]%elem_of_cons]; [set_solver|congruence|set_solver].
  - destruct (list_failed got listed req1) eqn:Lf; [|left; set_solver].
    apply elem_of_union in Hl as [->%elem_of_singleton|]; [right|by left]. exists got, listed. rewrite Hb. set_solver.
  - right. exists got', listed'. split; [|done]. set_solver.
Qed.

Lemma ct_settle_step c c' : ct_settle c c' ->
  rtc ct_step c c' /\ ct_todo c' < ct_todo c /\ ct_view c' = ct_view c /\
  forall req, unlisted c' req -> unlisted c req.
Proof.
  intros (g & Sm & Wk). destruct (ct_work_todo _ _ Wk) as [T V].
  split; [|split; [done|split; [done|intros req; by apply (ct_work_unlisted _ _ req Wk)]]].
  eapply rtc_l; [right; by apply ct_serve|]. apply rtc_once. left. by exists false.
Qed.

(** C11: the gateway catches up.  From every state that the controller can reach,
    also one in which reads have failed, if from then on the cluster does not
    change, reads succeed and backends can be started, the controller takes a
    bounded number of steps, whatever requests are served in between, and as long
    as the endpoints of some target are not its ready pods there is a step to
    take; excepted are the targets whose pods the last reconciliation, or the one
    going on, had failed to list before. *)
Theorem gateway_catches_up (e : E) c0 c n c' :
  started c0 -> rtc ct_step c0 c -> nsteps ct_settle n c c' ->
  n <= ct_todo c /\ ct_view c' = ct_view c /\
  ((exists c'', ct_settle c' c'') \/
   forall req, valid_request req -> in_sync (ct_view c) (ct_gateway c') req \/ unlisted c req).
Proof.
  intros S0 R St.
  assert (rtc ct_step c c' /\ n + ct_todo c' <= ct_todo c /\ ct_view c' = ct_view c /\
    forall req, unlisted c' req -> unlisted c req) as (R' & T & V & U).
  { clear R. induction St as [|n c c1 c2 St _ (R' & T & V & U)]; [done|].
    destruct (ct_settle_step _ _ St) as (R1 & T1 & V1 & U1). split_and!; [by etransitivity|lia|congruence|auto]. }
  split_and!; [lia|done|]. assert (ct_inv c') as I by (apply (ct_reach_inv c0); [done|by etransitivity]).
  destruct (ct_progress e c' I) as [[c'' Wk]|(Ee & Ed & Ef & Eb)]; [left|right].
  - exists c'', (ct_gateway c'). split; [|by destruct c'].
    intros key. by destruct (dispatchers (ct_gateway c') !! key).
  - intros req Hv. rewrite <- V. destruct (ci_sync c' I req Hv) as [|[Sc|[Hb|Hl]]]; [by left|..].
    + unfold scheduled, covers in Sc. rewrite Ee, Ed, Ef in Sc. set_solver.
    + rewrite Eb in Hb. set_solver.
    + right. apply U. by left.
Qed.

End controller.

(** ** Witnesses *)

Section witness.
Notation demo_ct := (controller (C := list) (M := gmap string) (Q := simple_wq) (B := float64)
  (W := Z * list (Z * Z)) (E := fakeBackend) (S := cluster)).

(** A deployment with no pod, and the same with a ready one. *)
Definition demo_dep : Deployment :=
  mkDeployment (mkMeta "ns" "app" "u" "1" {["app" := "app"; "workload" := "trace"]} ∅ None) (Some 1%Z)
    {["app" := "app"]}.

Definition demo_view (pods : list Pod) : cluster :=
  mkCluster [(mkNamespacedName "ns" "app", demo_dep)] pods [].

Definition demo_trace_pod : Pod :=
  mkPod (mkMeta "ns" "p0" "u" "1" {["app" := "app"; "workload" := "trace"]} ∅ None) "node" [] [] []
    (mkPodStatus "Running" [] "" "10.0.0.1" None [] []).

Definition demo_ct0 : demo_ct :=
  mkCT (demo_view []) [dep_meta demo_dep] (mk_simple_wq [] []) [] [] (demo_gateway (demo_pd [] [] 0)) ∅.

(** The pod appears after the only event was handled and a worker has read that
    there is none. *)
Definition demo_ct1 : demo_ct :=
  mkCT (demo_view [demo_trace_pod]) [pod_meta demo_trace_pod] (mk_simple_wq [] [mkNamespacedName "ns" "app"]) []
    [(mkNamespacedName "ns" "app", Listed (demo_view []) (demo_view []))] (demo_gateway (demo_pd [] [] 0)) ∅.

Lemma demo_view_readable pods : readable (demo_view pods).
Proof.
  split; [|done]. intros req. unfold get_failed. simpl. unfold cluster_get.
  by destruct (list_find _ _) as [[i [n d]]|].
Qed.

Lemma demo_started : started demo_ct0.
Proof.
  split_and!; try done; [apply demo_view_readable|].
  intros req V [pd L]. simpl in L. apply lookup_singleton_Some in L as [Ek _].
  exists (dep_meta demo_dep). split; [left|].
  assert (req = mkNamespacedName "ns" "app") as ->; [symmetry; by apply nn_string_inj|by split_and!].
Qed.

Lemma demo_ct_reached : rtc (ct_step (fun _ => true)) demo_ct0 demo_ct1.
Proof.
  eapply rtc_l; [left; exists false; apply (ct_event _ _ [] (dep_meta demo_dep) []); reflexivity|].
  eapply rtc_l; [left; exists false; eapply ct_take; [unfold MaxConcurrentReconciles; simpl; lia|reflexivity]|].
  eapply rtc_l; [left; eexists; apply (ct_get _ _ [] (mkNamespacedName "ns" "app") (demo_view []) []); [reflexivity|by left]|].
  eapply rtc_l; [left; eexists; apply (ct_list _ _ [] (mkNamespacedName "ns" "app") (demo_view []) (demo_view []) []); [reflexivity|by right]|].
  eapply rtc_l; [right; apply (ct_change _ (demo_view [demo_trace_pod]) [pod_meta demo_trace_pod])|].
  - apply demo_view_readable.
  - intros req _. destruct (decide (req = mkNamespacedName "ns" "app")) as [->|Ne].
    + right. exists (pod_meta demo_trace_pod). split; [left|by split_and!].
    + left. unfold same_reads. split; [reflexivity|]. intros target. simpl. unfold cluster_get. simpl.
      rewrite decide_False by (intros Eq; apply Ne; symmetry; exact Eq). discriminate.
  - apply rtc_refl.
Qed.

Lemma gateway_misses_no_change_witness :
  ~ in_sync (fun _ => true) (ct_view demo_ct1) (ct_gateway demo_ct1) (mkNamespacedName "ns" "app") /\
  (scheduled demo_ct1 (mkNamespacedName "ns" "app") \/ mkNamespacedName "ns" "app" ∈ (ct_busy demo_ct1).*1).
Proof.
  assert (~ in_sync (fun _ => true) (ct_view demo_ct1) (ct_gateway demo_ct1) (mkNamespacedName "ns" "app")) as N.
  { intros I. assert (live (M := gmap string) (C := list) (E := fakeBackend) (demo_pd [] [] 0) demo_key = true) as L
      by (apply (I demo_dep); [reflexivity|reflexivity|vm_compute; left]).
    vm_compute in L. discriminate. }
  split; [exact N|].
  destruct (gateway_misses_no_change (fun _ => true) demo_ct0 demo_ct1 demo_started demo_ct_reached) as (_ & _ & Sy).
  destruct (Sy (mkNamespacedName "ns" "app")) as [I|[K|[K|K]]]; [split; reflexivity|destruct (N I)|left; exact K|
    right; exact K|exfalso; revert K; apply not_elem_of_empty].
Defined.

(** The end of the run: the stale reconciliation has added nothing, and the event
    of the pod has led to another one. *)
Definition demo_ct2 : demo_ct :=
  mkCT (demo_view [demo_trace_pod]) [] (mk_simple_wq [] []) [] []
    (demo_gateway (demo_pd [demo_key] [demo_key] 1)) ∅.

Lemma demo_settle (c c1 c2 : demo_ct) failed :
  ct_work (fun _ => true) c failed c1 -> failed = false -> c1 = c2 -> ct_settle (fun _ => true) c c2.
Proof.
  intros Wk -> ->. exists (ct_gateway c). split; [intros key; by destruct (dispatchers (ct_gateway c) !! key)|].
  by destruct c.
Qed.

Definition demo_mid (events : list ObjectMeta) (q : simple_wq NamespacedName)
    (busy : list (NamespacedName * reading (S := cluster))) : demo_ct :=
  mkCT (demo_view [demo_trace_pod]) events q [] busy (demo_gateway (demo_pd [] [] 0)) ∅.

Lemma demo_settles : nsteps (ct_settle (fun _ => true)) 6 demo_ct1 demo_ct2.
Proof.
  pose (req := mkNamespacedName "ns" "app"). pose (v1 := demo_view [demo_trace_pod]).
  apply (nsteps_l _ _ _ (demo_mid [pod_meta demo_trace_pod] (mk_simple_wq [] []) [])).
  { eapply demo_settle; [apply (ct_apply _ demo_ct1 [] req (demo_view []) (demo_view []) [] demo_new id []
      (demo_gateway (demo_pd [] [] 0))); [reflexivity|intros l; reflexivity|vm_compute; reflexivity]|
      vm_compute; reflexivity..]. }
  apply (nsteps_l _ _ _ (demo_mid [] (mk_simple_wq [req] []) [])).
  { eapply demo_settle; [eapply (ct_event _ _ [] (pod_meta demo_trace_pod) []); reflexivity|vm_compute; reflexivity..]. }
  apply (nsteps_l _ _ _ (demo_mid [] (mk_simple_wq [] [req]) [(req, Taken)])).
  { eapply demo_settle; [eapply ct_take; [unfold MaxConcurrentReconciles; simpl; lia|reflexivity]|vm_compute; reflexivity..]. }
  apply (nsteps_l _ _ _ (demo_mid [] (mk_simple_wq [] [req]) [(req, Got v1)])).
  { eapply demo_settle; [apply (ct_get _ _ [] req v1 []); [reflexivity|by left]|vm_compute; reflexivity..]. }
  apply (nsteps_l _ _ _ (demo_mid [] (mk_simple_wq [] [req]) [(req, Listed v1 v1)])).
  { eapply demo_settle; [apply (ct_list _ _ [] req v1 v1 []); [reflexivity|by right]|vm_compute; reflexivity..]. }
  apply (nsteps_l _ _ _ demo_ct2); [|apply nsteps_O].
  eapply demo_settle; [apply (ct_apply _ _ [] req v1 v1 [] demo_new id []
    (demo_gateway (demo_pd [demo_key] [demo_key] 1))); [reflexivity|intros l; reflexivity|vm_compute; reflexivity]|
    vm_compute; reflexivity..].
Qed.

Lemma gateway_catches_up_witness :
  6 <= ct_todo demo_ct1 /\ ct_view demo_ct2 = ct_view demo_ct1 /\
  ((exists c'', ct_settle (fun _ => true) demo_ct2 c'') \/
   in_sync (fun _ => true) (ct_view demo_ct1) (ct_gateway demo_ct2) (mkNamespacedName "ns" "app")).
Proof.
  destruct (gateway_catches_up (fun _ => true) newFakeBackend demo_ct0 demo_ct1 6 demo_ct2 demo_started demo_ct_reached
    demo_settles) as (A & V & D). split; [exact A|]. split; [exact V|].
  destruct D as [D|D]; [left; exact D|right].
  destruct (D (mkNamespacedName "ns" "app")) as [D'|U]; [split; reflexivity|exact D'|exfalso].
  destruct U as [U|(got & listed & Hi & Lf)]; [revert U; apply not_elem_of_empty|].
  apply list_elem_of_singleton in Hi. injection Hi as -> ->. vm_compute in Lf. discriminate Lf.
Defined.

End witness.
