(* ===== verification/Pipeline.v ===== *)
(** * A running gateway: the pipeline of a target

    From the clients' channel through the relay of [pkg/gateway/interface.go]
    and a dispatcher to the response channel.  The dispatcher is an interface
    ([DispatcherOps], [DispatcherLaws]), against which the pipeline is proved;
    the pod dispatcher and the Knative service dispatcher of
    [pkg/gateway/dispatcher] implement it. *)

From S2P Require Import Prelude GoTypes Float64 Float64Facts Interfaces Kube Workload Metric.
From S2P Require Import Decider Backend Autoscaler Dispatcher Gateway.

Local Open Scope nat_scope.

(** ** What a dispatcher promises to the gateway

    [dp_receive] takes a request from the input channel, [dp_work w rs w'] is a
    step of one of its goroutines that sends the responses [rs], and [dp_fails w m]
    says that one of them can panic with the message [m].  The requests that it
    holds ([dp_held]) leave it only with a response, and from every good state
    ([dp_ok]) in which none of them is cut off from its executor ([dp_clear]) it
    can work them off: [dp_todo] is what is left to do. *)
Class DispatcherOps (W : Type) : Type := {
  dp_receive : W -> Request -> W;
  dp_work : W -> list Response -> W -> Prop;
  dp_fails : W -> string -> Prop
}.

Class DispatcherLaws (W : Type) `{DispatcherOps W} : Type := {
  dp_held : W -> list (string * string);
  dp_ok : W -> Prop;
  dp_clear : W -> Prop;
  dp_todo : W -> nat;
  dp_receive_held : forall w req, Permutation (dp_held (dp_receive w req)) (tag req :: dp_held w);
  dp_receive_ok : forall w req, dp_ok w -> dp_ok (dp_receive w req);
  dp_receive_clear : forall w req, dp_clear w -> dp_clear (dp_receive w req);
  dp_receive_todo : forall w req, dp_todo (dp_receive w req) <= dp_todo w + 3;
  dp_work_held : forall w rs w', dp_work w rs w' ->
    Permutation (dp_held w) (dp_held w' ++ map (fun res => tag (Source res)) rs);
  dp_work_ok : forall w rs w', dp_work w rs w' -> dp_ok w -> dp_ok w';
  dp_progress : forall w, dp_ok w -> dp_clear w -> 0 < dp_todo w ->
    exists rs w', dp_work w rs w' /\ dp_clear w' /\ dp_todo w' + length rs < dp_todo w;
  dp_idle : forall w, dp_todo w = 0 -> dp_held w = []
}.

(** ** The pod dispatcher *)

Section pods.
Context {C : Type -> Type} `{CL : ChannLaws C}.
Context {M : Type -> Type} `{SML : SharedMapLaws M}.
Context {Conn E : Type} `{EL : ExecutorLaws Conn E}.
Notation world := (pd_world (M := M) (C := C) (Conn := Conn) (E := E)).

(** The goroutines of a dispatcher that [Run] was called on. *)
Definition pd_running (pd : PodDispatcher M C E) : world := mkPW pd [] [] [] [] ∅ None.

Definition pd_receive (w : world) (req : Request) : world :=
  mkPW (pw_pd w) (pw_waiting w ++ [req]) (pw_running w) (pw_out w) (pw_in w ++ [req]) (pw_removed w)
    (pw_rec w).

(** A step in which nothing arrives and the responses [rs] leave. *)
Definition pd_work (w : world) (rs : list Response) (w' : world) : Prop :=
  pd_step w w' /\ pw_in w' = pw_in w /\ pw_out w' = pw_out w ++ rs.

(** A goroutine of the reconciliation in progress panics: the creation of the
    backend of a new endpoint does. *)
Definition pd_fails (w : world) (m : string) : Prop :=
  exists rc key newBackend, pw_rec w = Some rc /\ (key ∈ rc_add rc) /\
    endpoint_set newBackend (ready_endpoints (rc_pods rc)) (pw_pd w) key = Panic m.

Definition pd_held (w : world) : list (string * string) :=
  map tag (pw_waiting w) ++ map (fun r => tag (state_request (snd r))) (pw_running w).

Lemma pd_work_held w rs w' :
  pd_work w rs w' -> Permutation (pd_held w) (pd_held w' ++ map (fun r => tag (Source r)) rs).
Proof.
  intros (St & Hi & Ho). unfold pd_held.
  assert (forall l : list Response, l = l ++ rs -> rs = []) as Nil
    by (intros l Hl; rewrite <- (app_nil_r l) in Hl at 1; by apply app_inv_head in Hl).
  destruct St as [w0 req|w0 pd' Hw T|w0 w1 req w2 k e pd' Hw T|w0 w1 req w2 Hw|w0 r1 k e x r2 env x' pd' Hr X|
    w0 r1 k e x r2 env r pd' Hr X| | | | | | ]; simpl in *; try (rewrite (Nil _ Ho); perm).
  - apply (f_equal length) in Hi. rewrite length_app in Hi. simpl in Hi. lia.
  - rewrite (Nil _ Ho), Hw, !map_app. perm.
  - apply app_inv_head in Ho. subst rs. rewrite Hw, !map_app. perm.
  - apply execute_spec in X as (_ & _ & _ & _ & Hs & _).
    rewrite (Nil _ Ho), Hr, !map_app. simpl. rewrite (same_request_tag _ _ Hs). perm.
  - apply app_inv_head in Ho. subst rs. apply execute_spec in X as (_ & _ & _ & _ & Hs).
    rewrite Hr, !map_app. simpl. rewrite (same_request_tag _ _ Hs). perm.
Qed.

Definition no_env : exec_env Conn :=
  mkEnv (fun _ => Err (errorf "")) (fun _ _ => Err (errorf "")) 0 0 0.

(** No execution awaits a connection that nobody can give. *)
Definition pd_clear (w : world) : Prop := forall p, pooled 1 w p.

(** The executors in use exist, and those that are not being closed keep the
    connections that their executions await. *)
Definition pd_ok (w : world) : Prop := heap_valid w /\ pools_kept w.

Definition run_left (r : string * nat * exec_state Conn) : nat := S (exec_left (snd r)).

Definition pd_todo (w : world) : nat :=
  2 * length (pw_waiting w) + sum_list_with run_left (pw_running w).

(** In a clear state some execution goes on: where one awaits a connection,
    another holds it. *)
Lemma clear_runs w : heap_valid w -> pd_clear w -> pw_running w <> [] ->
  exists key e x r pd', ((key, e, x) ∈ pw_running w) /\
    Dispatch_execute (pw_pd w) key e no_env x = Ret (Some (r, pd')).
Proof.
  intros V Cl Hne. destruct (pw_running w) as [|[[k e] x] l] eqn:Hr; [done|]. rewrite <- Hr.
  assert ((k, e, x) ∈ pw_running w) as Hin by (rewrite Hr; left).
  destruct (execute_goes w k e x no_env V Hin) as [(r & pd' & X)|(_ & Hw & Hs)]; [naive_solver|].
  assert (0 < held_at w e) as Hh.
  { specialize (Cl e). unfold pooled in Cl. rewrite Hs in Cl. apply Cl. by exists (k, e, x). }
  assert (exists q, (q ∈ pw_running w) /\ 0 < held_by w e q) as ([[k' e'] y] & Hq & Hy).
  { unfold held_at in Hh. revert Hh. generalize (pw_running w). intros l0. induction l0 as [|q l0 IH]; simpl; [lia|].
    intros Hl. destruct (decide (0 < held_by w e q)); [exists q; split; [left|done]|].
    destruct IH as (q' & ? & ?); [lia|]. exists q'. split; [by right|done]. }
  unfold held_by in Hy. simpl in Hy. case_bool_decide as He; [|lia]. subst e'.
  destruct (execute_goes w k' e y no_env V Hq) as [(r & pd' & X)|(_ & Hw' & _)]; [naive_solver|].
  destruct y as [| |]; try done. destruct (pd_heap (pw_pd w) !! e); [|lia]. rewrite exec_held_awaits in Hy. lia.
Qed.

Lemma pd_progress w :
  heap_valid w -> pd_clear w -> 0 < pd_todo w ->
  exists rs w', pd_work w rs w' /\ pd_clear w' /\ pd_todo w' + length rs < pd_todo w.
Proof.
  intros V Cl Ht. destruct (pw_waiting w) as [|req l] eqn:E3.
  2: { exists [Dispatch_expired req]. eexists. split; [split_and!; [by apply (pd_expire w [] req l)|done|done]|].
    split; [exact Cl|]. unfold pd_todo. rewrite E3. simpl. lia. }
  destruct (clear_runs w V Cl) as (key & e & x & r & pd' & (r1 & r2 & Hr)%list_elem_of_split & X).
  { intros Hn. unfold pd_todo in Ht. rewrite E3, Hn in Ht. simpl in Ht. lia. }
  assert (forall w', pw_pd w' = pd' ->
    pw_running w' = r1 ++ (match r with inl x' => [(key, e, x')] | inr _ => [] end) ++ r2 -> pd_clear w') as Cl'.
  { intros w' Hw Hr' p. apply (execute_pooled 1 w w' p r1 key e x r2 no_env r pd'); try done. apply exec_shares_pos. }
  pose proof (execute_spec _ _ _ _ _ _ _ X) as (_ & _ & _ & Xs). unfold pd_todo. rewrite E3, Hr, sum_list_with_app.
  destruct r as [x'|res].
  - exists []. eexists. split; [split_and!; [by apply (pd_exec w r1 key e x r2 no_env x' pd')|done|by rewrite app_nil_r]|].
    split; [by apply Cl'|]. simpl. rewrite E3, sum_list_with_app. simpl. unfold run_left. simpl. lia.
  - exists [res]. eexists. split; [split_and!; [by apply (pd_finish w r1 key e x r2 no_env res pd')|done|done]|].
    split; [by apply Cl'|]. simpl. rewrite E3, sum_list_with_app. simpl. unfold run_left. destruct x; simpl; lia.
Qed.

Global Instance pod_dispatcher : DispatcherOps world := { dp_receive := pd_receive; dp_work := pd_work; dp_fails := pd_fails }.

Global Instance pod_dispatcher_laws : DispatcherLaws world.
Proof.
  refine {| dp_held := pd_held; dp_ok := pd_ok; dp_clear := pd_clear; dp_todo := pd_todo |}.
  - intros w req. unfold pd_held. simpl. rewrite map_app. simpl. perm.
  - intros w req V. exact V.
  - intros w req Cl. exact Cl.
  - intros w req. unfold pd_todo. simpl. rewrite length_app. simpl. lia.
  - apply pd_work_held.
  - intros w rs w' (St & _ & _) [V K]. split; [by eapply step_heap_valid|by eapply step_pools_kept].
  - intros w [V _]. by apply pd_progress.
  - intros w Hw. unfold pd_todo, pd_held in *.
    rewrite (nil_length_inv (pw_waiting w)) by lia. destruct (pw_running w); [done|]. simpl in Hw. unfold run_left in Hw. lia.
Defined.

Lemma pd_running_ok pd :
  (forall k p, sm_inner (endpoints pd) !! k = Some p -> p < length (pd_heap pd)) -> dp_ok (pd_running pd).
Proof.
  intros Hp. split; [split; [exact Hp|simpl; set_solver]|]. intros p _ (r & Hr & _). simpl in Hr. set_solver.
Qed.

Lemma pd_running_clear pd : dp_clear (pd_running pd).
Proof. intros p (r & Hr & _). simpl in Hr. set_solver. Qed.

Lemma new_pd_ok target timeout : dp_ok (pd_running (NewPodDispatcher target timeout)).
Proof. apply pd_running_ok. intros k e. simpl. by rewrite sm_inner_new, lookup_empty. Qed.

End pods.

(** ** The Knative service dispatcher *)

Section services.
Context {Conn E : Type} `{CEL : ConcurrentExecutorLaws Conn E}.

(** The goroutines that [Run] started: those that have not yet asked the
    executor, and the executions in progress. *)
Record kn_world : Type := mkKW {
  kw_kd : KnServiceDispatcher E;
  kw_spawned : list Request;
  kw_running : list (exec_running (Conn := Conn) (E := E))
}.

Definition kn_running (kd : KnServiceDispatcher E) : kn_world := mkKW kd [] [].

Definition kn_receive (w : kn_world) (req : Request) : kn_world :=
  mkKW (kw_kd w) (kw_spawned w ++ [req]) (kw_running w).

Definition with_executor (kd : KnServiceDispatcher E) (e : E) : KnServiceDispatcher E :=
  mkKD (kd_target kd) (kd_timeout kd) (kd_endpoint kd) e.

(** [Dispatch] of one request, in the two halves of its execution. *)
Inductive kn_work : kn_world -> list Response -> kn_world -> Prop :=
| kn_start w r1 req r2 env x e :
    kw_spawned w = r1 ++ req :: r2 -> ExecStart (kd_executor (kw_kd w)) env req = (Some x, e) ->
    kn_work w [] (mkKW (with_executor (kw_kd w) e) (r1 ++ r2) (x :: kw_running w))
| kn_finish w r1 x r2 env res e :
    kw_running w = r1 ++ x :: r2 -> ExecFinish (kd_executor (kw_kd w)) env x = (res, e) ->
    kn_work w [res] (mkKW (with_executor (kw_kd w) e) (kw_spawned w) (r1 ++ r2)).

Definition kn_held (w : kn_world) : list (string * string) :=
  map tag (kw_spawned w) ++ map (fun x => tag (exec_request x)) (kw_running w).

Definition kn_todo (w : kn_world) : nat := 3 * length (kw_spawned w) + 2 * length (kw_running w).

Lemma kn_work_held w rs w' :
  kn_work w rs w' -> Permutation (kn_held w) (kn_held w' ++ map (fun res => tag (Source res)) rs).
Proof.
  unfold kn_held. intros [w0 r1 req r2 env x e Hs X|w0 r1 x r2 env res e Hr X]; simpl; rewrite ?app_nil_r.
  - destruct (ExecStart_returns (kd_executor (kw_kd w0)) env req) as (x' & Hx & Same).
    rewrite X in Hx. simpl in Hx. injection Hx as <-. rewrite (same_request_tag _ _ Same).
    rewrite Hs, !map_app. simpl. perm.
  - pose proof (ExecFinish_request (kd_executor (kw_kd w0)) env x) as Same. rewrite X in Same.
    simpl in Same. rewrite (same_request_tag _ _ Same), Hr, !map_app. simpl. perm.
Qed.

Lemma kn_progress w : 0 < kn_todo w -> exists rs w', kn_work w rs w' /\ kn_todo w' + length rs < kn_todo w.
Proof.
  unfold kn_todo. destruct (kw_spawned w) as [|req l] eqn:Hs.
  - destruct (kw_running w) as [|x l] eqn:Hr; [simpl; lia|]. intros _.
    destruct (ExecFinish (kd_executor (kw_kd w)) no_env x) as [res e] eqn:X.
    exists [res]. eexists. split; [by apply (kn_finish w [] x l no_env res e)|]. simpl. rewrite Hs. simpl. lia.
  - intros _. destruct (ExecStart_returns (kd_executor (kw_kd w)) no_env req) as (x & Hx & _).
    destruct (ExecStart (kd_executor (kw_kd w)) no_env req) as [ox e] eqn:X. simpl in Hx. subst ox.
    exists []. eexists. split; [by apply (kn_start w [] req l no_env x e)|]. simpl. lia.
Qed.

Global Instance kn_dispatcher : DispatcherOps kn_world := { dp_receive := kn_receive; dp_work := kn_work; dp_fails := fun _ _ => False }.

Global Instance kn_dispatcher_laws : DispatcherLaws kn_world.
Proof.
  refine {| dp_held := kn_held; dp_ok := fun _ => True; dp_clear := fun _ => True; dp_todo := kn_todo |}; try done.
  - intros w req. unfold kn_held. simpl. rewrite map_app. simpl. perm.
  - intros w req. unfold kn_todo. simpl. rewrite length_app. simpl. lia.
  - apply kn_work_held.
  - intros w _ _ Ht. destruct (kn_progress w Ht) as (rs & w' & ? & ?). eauto.
  - intros w Hw. unfold kn_todo, kn_held in *.
    by rewrite (nil_length_inv (kw_spawned w)), (nil_length_inv (kw_running w)) by lia.
Defined.

End services.

(** ** The pipeline of one target *)

Section pipeline.
Context {C : Type -> Type} `{CL : ChannLaws C}.
Context {W : Type} `{WL : DispatcherLaws W}.
Context {A : Type} `{GatewayHooks A}.

(** The relay, the dispatcher with its goroutines, and the hooks; the requests
    that clients sent are remembered. *)
Record pipe : Type := mkPipe {
  pp_relay : relay_state C;
  pp_disp : W;
  pp_hooks : A;
  pp_sent : list Request
}.

Definition with_int_in (r : relay_state C) (c : C Request) : relay_state C :=
  mkRelay (rl_ext_in r) c (rl_int_out r) (rl_ext_out r) (nSend r) (nRecv r).

Definition with_int_out (r : relay_state C) (c : C Response) : relay_state C :=
  mkRelay (rl_ext_in r) (rl_int_in r) c (rl_ext_out r) (nSend r) (nRecv r).

Definition with_ext_in (r : relay_state C) (c : C Request) : relay_state C :=
  mkRelay c (rl_int_in r) (rl_int_out r) (rl_ext_out r) (nSend r) (nRecv r).

(** A client sends on the channel of [RequestChan]. *)
Definition client_send (p : pipe) (req : Request) : pipe :=
  mkPipe (with_ext_in (pp_relay p) (ch_send (rl_ext_in (pp_relay p)) req)) (pp_disp p) (pp_hooks p)
    (pp_sent p ++ [req]).

(** The relay takes either case of its select. *)
Inductive relay_step (key : string) : pipe -> pipe -> Prop :=
| relay_takes_request p t1 t2 r a :
    relay_in key (pp_relay p) (pp_hooks p) t1 t2 = Some (Ret (r, a)) ->
    relay_step key p (mkPipe r (pp_disp p) a (pp_sent p))
| relay_takes_response p t1 r a :
    relay_out (pp_relay p) (pp_hooks p) t1 = Some (Ret (r, a)) ->
    relay_step key p (mkPipe r (pp_disp p) a (pp_sent p)).

Definition send_all (c : C Response) (rs : list Response) : C Response := foldl ch_send c rs.

(** The dispatcher receives from the internal input, or works and sends what it
    answers to the internal output. *)
Inductive disp_step : pipe -> pipe -> Prop :=
| disp_receives p req c :
    ch_recv (rl_int_in (pp_relay p)) = Some (req, c) ->
    disp_step p (mkPipe (with_int_in (pp_relay p) c) (dp_receive (pp_disp p) req) (pp_hooks p) (pp_sent p))
| disp_works p rs w :
    dp_work (pp_disp p) rs w ->
    disp_step p (mkPipe (with_int_out (pp_relay p) (send_all (rl_int_out (pp_relay p)) rs)) w
                   (pp_hooks p) (pp_sent p)).

(** The requests between the two sides of the relay, and those not yet relayed
    or answered. *)
Definition in_flight (p : pipe) : list (string * string) :=
  map tag (ch_items (rl_int_in (pp_relay p))) ++ dp_held (pp_disp p) ++
  map (fun res => tag (Source res)) (ch_items (rl_int_out (pp_relay p))).

Definition unrelayed (p : pipe) : list (string * string) := map tag (ch_items (rl_ext_in (pp_relay p))).

Definition answered (p : pipe) : list (string * string) :=
  map (fun res => tag (Source res)) (ch_items (rl_ext_out (pp_relay p))).

(** The relay counts what is in flight, all of it for its key. *)
Record relay_inv (key : string) (p : pipe) : Prop := {
  pi_counts : (nSend (pp_relay p) - nRecv (pp_relay p) = Z.of_nat (length (in_flight p)))%Z;
  pi_target : Forall (fun t => snd t = key) (in_flight p)
}.

Lemma relay_in_spec key (r : relay_state C) (a : A) t1 t2 r' a' :
  relay_in key r a t1 t2 = Some (Ret (r', a')) ->
  exists req, ch_items (rl_ext_in r) = req :: ch_items (rl_ext_in r') /\
  rl_int_out r' = rl_int_out r /\ nRecv r' = nRecv r /\
  ((Target req <> key /\ a' = a /\ rl_int_in r' = rl_int_in r /\ nSend r' = nSend r /\
    ch_items (rl_ext_out r') =
      ch_items (rl_ext_out r) ++ [mkResponse req INVALID_TARGET zero_time zero_time 0]) \/
   (Target req = key /\ on_req_in a req t1 = Ret a' /\ rl_ext_out r' = rl_ext_out r /\
    nSend r' = (nSend r + 1)%Z /\
    ch_items (rl_int_in r') = ch_items (rl_int_in r) ++ [set_gateway_recv req t2])).
Proof.
  unfold relay_in. destruct (ch_recv (rl_ext_in r)) as [[req ext]|] eqn:R; [|done].
  apply ch_recv_some in R. case_bool_decide as T; simpl.
  - destruct (on_req_in a req t1) as [a1| |] eqn:O; simpl; [|done..]. intros [= <- <-]. simpl.
    exists req. split_and!; try done. right. split_and!; try done. apply ch_items_send.
  - intros [= <- <-]. simpl. exists req. split_and!; try done. left. split_and!; try done.
    apply ch_items_send.
Qed.

Lemma relay_out_spec (r : relay_state C) (a : A) t1 r' a' :
  relay_out r a t1 = Some (Ret (r', a')) ->
  exists res, ch_items (rl_int_out r) = res :: ch_items (rl_int_out r') /\
  on_req_out a res t1 = Ret a' /\ rl_ext_in r' = rl_ext_in r /\ rl_int_in r' = rl_int_in r /\
  ch_items (rl_ext_out r') = ch_items (rl_ext_out r) ++ [res] /\
  nSend r' = nSend r /\ nRecv r' = (nRecv r + 1)%Z.
Proof.
  unfold relay_out. destruct (ch_recv (rl_int_out r)) as [[res out]|] eqn:R; [|done].
  apply ch_recv_some in R. destruct (on_req_out a res t1) as [a1| |] eqn:O; simpl; [|done..].
  intros [= <- <-]. exists res. split_and!; try done. apply ch_items_send.
Qed.

Lemma ch_items_send_all (c : C Response) rs : ch_items (send_all c rs) = ch_items c ++ rs.
Proof.
  revert c. induction rs as [|res rs IH]; intros c; simpl; [by rewrite app_nil_r|].
  unfold send_all in IH. by rewrite IH, ch_items_send, <- app_assoc.
Qed.

(** A relay moves one request: it hands it to the dispatcher, or answers it. *)
Lemma relay_step_moves key p p' :
  relay_step key p p' -> relay_inv key p ->
  relay_inv key p' /\ pp_sent p' = pp_sent p /\ pp_disp p' = pp_disp p /\
  exists res, ch_items (rl_ext_out (pp_relay p')) = ch_items (rl_ext_out (pp_relay p)) ++ res /\
    Permutation (unrelayed p ++ in_flight p)
      (unrelayed p' ++ in_flight p' ++ map (fun r => tag (Source r)) res).
Proof.
  intros [q t1 t2 r a R|q t1 r a R] [I2 I3]; unfold in_flight, unrelayed in *; simpl in *.
  - apply relay_in_spec in R as (req & Hx & Ho & Hr & [(Ht & -> & Hi & Hs & He)|(Ht & Hh & He & Hs & Hi)]).
    + split; [|split_and!; [done..|]].
      * constructor; unfold in_flight; simpl; by rewrite ?Hi, ?Ho, ?Hs, ?Hr.
      * eexists. split; [exact He|]. rewrite Hi, Ho, Hx. simpl. perm.
    + split; [|split_and!; [done..|]].
      * constructor; unfold in_flight; simpl; rewrite ?Hi, ?Ho, ?Hs, ?Hr, ?map_app; simpl.
        -- rewrite !length_app in *. simpl in *. lia.
        -- rewrite !Forall_app in *. simpl. naive_solver.
      * exists []. rewrite He, app_nil_r. split; [done|]. rewrite Hi, Ho, Hx, map_app. simpl.
        change (tag (set_gateway_recv req t2)) with (tag req). perm.
  - apply relay_out_spec in R as (res & Hx & Hh & He & Hi & Ho & Hs & Hr).
    rewrite Hx in I2, I3. simpl in *. split; [|split_and!; [done..|]].
    + constructor; unfold in_flight; simpl; rewrite ?Hi, ?Hs, ?Hr.
      * rewrite !length_app in *. simpl in *. lia.
      * rewrite !Forall_app, Forall_cons in *. naive_solver.
    + exists [res]. split; [exact Ho|]. rewrite Hi, He, Hx. simpl. perm.
Qed.

(** A dispatcher keeps what is in flight. *)
Lemma disp_step_moves p p' :
  disp_step p p' ->
  Permutation (in_flight p) (in_flight p') /\ pp_sent p' = pp_sent p /\ pp_hooks p' = pp_hooks p /\
  rl_ext_in (pp_relay p') = rl_ext_in (pp_relay p) /\ rl_ext_out (pp_relay p') = rl_ext_out (pp_relay p) /\
  nSend (pp_relay p') = nSend (pp_relay p) /\ nRecv (pp_relay p') = nRecv (pp_relay p).
Proof.
  unfold in_flight. intros [q req c R|q rs w Wk]; simpl; (split; [|done]).
  - apply ch_recv_some in R. rewrite R, dp_receive_held. simpl. perm.
  - rewrite ch_items_send_all, map_app, (dp_work_held _ _ _ Wk). perm.
Qed.

Lemma disp_step_inv key p p' : disp_step p p' -> relay_inv key p -> relay_inv key p'.
Proof.
  intros (P & _ & _ & _ & _ & Es & Er)%disp_step_moves [I1 I2]. constructor.
  - by rewrite Es, Er, <- P.
  - by rewrite <- P.
Qed.

Lemma client_send_inv key p req : relay_inv key p -> relay_inv key (client_send p req).
Proof. intros [I1 I2]. by constructor. Qed.

(** The target of a response that leaves the dispatcher. *)
Lemma response_target key p res l :
  relay_inv key p -> ch_items (rl_int_out (pp_relay p)) = res :: l -> Target (Source res) = key.
Proof.
  intros I Hx. pose proof (pi_target _ _ I) as T. unfold in_flight in T. rewrite Hx in T. simpl in T.
  rewrite !Forall_app, Forall_cons in T. by destruct T as (_ & _ & ? & _).
Qed.

(** What else may happen to the state of the hooks: for an autoscaler, its own
    workers and the requests of other targets. *)
Variable background : A -> A -> Prop.
Variable key : string.

Inductive pipe_step : pipe -> pipe -> Prop :=
| pipe_client p req : pipe_step p (client_send p req)
| pipe_relay p p' : relay_step key p p' -> pipe_step p p'
| pipe_disp p p' : disp_step p p' -> pipe_step p p'
| pipe_background p a :
    background (pp_hooks p) a -> pipe_step p (mkPipe (pp_relay p) (pp_disp p) a (pp_sent p)).

Definition relay_empty : relay_state C := mkRelay ch_new ch_new ch_new ch_new 0 0.

Definition pipe_init (w : W) (a : A) : pipe := mkPipe relay_empty w a [].

Record pipe_inv (p : pipe) : Prop := {
  pi_conserved : Permutation (map tag (pp_sent p)) (unrelayed p ++ in_flight p ++ answered p);
  pi_relay : relay_inv key p
}.

Lemma pipe_step_inv p p' : pipe_step p p' -> pipe_inv p -> pipe_inv p'.
Proof.
  intros [q req|q q' R|q q' D|q a Hb] [I1 I2].
  - split; [|by apply client_send_inv]. unfold unrelayed, in_flight, answered in *. simpl.
    rewrite ch_items_send, !map_app, I1. perm.
  - destruct (relay_step_moves _ _ _ R I2) as (I & Hs & _ & res & Ho & P). split; [|done].
    unfold answered in *. rewrite Hs, I1, Ho, map_app, (app_assoc (unrelayed q)), P. perm.
  - pose proof (disp_step_inv key _ _ D I2) as I. split; [|done].
    apply disp_step_moves in D as (P & Hs & _ & Hi & Ho & _). unfold unrelayed, answered in *.
    by rewrite Hs, Hi, Ho, <- P.
  - split; [done|]. destruct I2. by constructor.
Qed.

Lemma relay_empty_inv w a : dp_held w = [] -> relay_inv key (pipe_init w a).
Proof.
  intros Hw. constructor; unfold in_flight; simpl; rewrite !ch_items_new, Hw; simpl; [done|constructor].
Qed.

Lemma pipe_init_inv w a : dp_held w = [] -> pipe_inv (pipe_init w a).
Proof.
  intros Hw. split; [|by apply relay_empty_inv].
  unfold unrelayed, in_flight, answered; simpl. by rewrite !ch_items_new, Hw.
Qed.

Lemma pipe_reach_inv w a p : dp_held w = [] -> rtc pipe_step (pipe_init w a) p -> pipe_inv p.
Proof.
  intros Hw. revert p. refine (rtc_ind_r pipe_inv _ (pipe_init_inv _ _ Hw) _).
  eauto using pipe_step_inv.
Qed.

(** The stages that the requests inside still have to pass. *)
Definition backlog (p : pipe) : nat :=
  5 * length (ch_items (rl_ext_in (pp_relay p))) + 4 * length (ch_items (rl_int_in (pp_relay p))) +
  dp_todo (pp_disp p) + length (ch_items (rl_int_out (pp_relay p))).

Lemma ch_recv_cons {X} (c : C X) x l : ch_items c = x :: l -> exists c', ch_recv c = Some (x, c') /\ ch_items c' = l.
Proof.
  intros E1. destruct (ch_recv c) as [[y c']|] eqn:R.
  - apply ch_recv_some in R. rewrite E1 in R. injection R as -> ->. eauto.
  - apply ch_recv_none in R. congruence.
Qed.

Context `{HL : !GatewayHooksLaws A}.

(** The hooks serve every request of the relay, so it never fails. *)
Lemma relay_step_hooks p p' :
  relay_step key p p' -> relay_inv key p -> hooks_ok key (pp_hooks p) ->
  forall k, hooks_ok k (pp_hooks p) -> hooks_ok k (pp_hooks p').
Proof.
  intros [q t1 t2 r a R|q t1 r a R] I Hk k; simpl.
  - apply relay_in_spec in R as (req & _ & _ & _ & [(_ & -> & _)|(Ht & Hh & _)]); [done|].
    rewrite <- Ht in Hk. destruct (hooks_in (pp_hooks q) req t1 Hk) as (a' & E1 & K). assert (a = a') as -> by congruence. auto.
  - apply relay_out_spec in R as (res & Hx & Hh & _). rewrite <- (response_target _ _ _ _ I Hx) in Hk.
    destruct (hooks_out (pp_hooks q) res t1 Hk) as (a' & E1 & K). assert (a = a') as -> by congruence. auto.
Qed.

Lemma disp_step_ok p p' : disp_step p p' -> dp_ok (pp_disp p) -> dp_ok (pp_disp p').
Proof. intros [q req c R|q rs w Wk] V; simpl; eauto using dp_receive_ok, dp_work_ok. Qed.

(** Neither case of the select fails. *)
Lemma relay_in_enabled p req l :
  ch_items (rl_ext_in (pp_relay p)) = req :: l -> hooks_ok key (pp_hooks p) ->
  exists r a, relay_in key (pp_relay p) (pp_hooks p) 0 0 = Some (Ret (r, a)).
Proof.
  intros E1 Hk. destruct (ch_recv_cons _ _ _ E1) as (c & R & _). unfold relay_in. rewrite R.
  case_bool_decide as Ht; simpl; [|eauto]. rewrite <- Ht in Hk.
  destruct (hooks_in (pp_hooks p) req 0 Hk) as (a' & -> & _). simpl. eauto.
Qed.

Lemma relay_out_enabled p res l :
  relay_inv key p -> ch_items (rl_int_out (pp_relay p)) = res :: l -> hooks_ok key (pp_hooks p) ->
  exists r a, relay_out (pp_relay p) (pp_hooks p) 0 = Some (Ret (r, a)).
Proof.
  intros I E5 Hk. destruct (ch_recv_cons _ _ _ E5) as (c & R & _).
  rewrite <- (response_target _ _ _ _ I E5) in Hk. destruct (hooks_out (pp_hooks p) res 0 Hk) as (a' & Ha & _).
  unfold relay_out. rewrite R, Ha. simpl. eauto.
Qed.

(** With a request inside, some goroutine can move it one stage on. *)
Lemma backlog_moves p :
  relay_inv key p -> dp_ok (pp_disp p) -> dp_clear (pp_disp p) -> hooks_ok key (pp_hooks p) -> 0 < backlog p ->
  exists p', (relay_step key p p' \/ disp_step p p') /\ dp_clear (pp_disp p') /\ backlog p' < backlog p.
Proof.
  intros I V Cl Hk Hb. unfold backlog in *.
  destruct (ch_items (rl_ext_in (pp_relay p))) as [|req l] eqn:E1.
  2: { destruct (relay_in_enabled p req l E1 Hk) as (r & a & Hr).
    eexists. split; [left; by eapply relay_takes_request|]. split; [exact Cl|].
    apply relay_in_spec in Hr as (q & Hx & Ho & _ & [(_ & _ & Hi & _)|(_ & _ & _ & _ & Hi)]); simpl;
      rewrite Ho, Hi; rewrite E1 in Hx; injection Hx as _ Hx; rewrite Hx; simpl;
      rewrite ?length_app; simpl; lia. }
  destruct (ch_items (rl_int_in (pp_relay p))) as [|req l] eqn:E2.
  2: { destruct (ch_recv_cons _ _ _ E2) as (c & R & <-). pose proof (dp_receive_todo (pp_disp p) req).
    eexists. split; [right; by eapply disp_receives|]. split; [by apply dp_receive_clear|]. simpl. rewrite E1. simpl. lia. }
  destruct (decide (dp_todo (pp_disp p) = 0)) as [E3|E3].
  2: { destruct (dp_progress (pp_disp p)) as (rs & w & Wk & Cw & Lt); [done|done|lia|].
    eexists. split; [right; by eapply disp_works|]. split; [exact Cw|]. simpl. rewrite E1, E2, ch_items_send_all, length_app.
    simpl. lia. }
  destruct (ch_items (rl_int_out (pp_relay p))) as [|res l] eqn:E5; [simpl in Hb; lia|].
  destruct (relay_out_enabled p res l I E5 Hk) as (r & a & Hr).
  eexists. split; [left; by eapply relay_takes_response|]. split; [exact Cl|].
  apply relay_out_spec in Hr as (q & Hx & _ & He & Hi & _). simpl. rewrite He, Hi, E1, E2, E3.
  rewrite E5 in Hx. injection Hx as _ ->. simpl. lia.
Qed.

(** Without a backlog nothing is left inside. *)
Lemma no_backlog p : backlog p = 0 -> unrelayed p = [] /\ in_flight p = [].
Proof.
  unfold backlog, unrelayed, in_flight. intros Hb.
  rewrite (nil_length_inv (ch_items (rl_ext_in (pp_relay p)))), (nil_length_inv (ch_items (rl_int_in (pp_relay p)))),
    (nil_length_inv (ch_items (rl_int_out (pp_relay p)))), (dp_idle (pp_disp p)) by lia. done.
Qed.

Hypothesis background_ok : forall a a', background a a' -> hooks_ok key a -> hooks_ok key a'.

Record drainable (p : pipe) : Prop := {
  dr_hooks : hooks_ok key (pp_hooks p);
  dr_inv : pipe_inv p;
  dr_disp : dp_ok (pp_disp p)
}.

Lemma pipe_step_drainable p p' : pipe_step p p' -> drainable p -> drainable p'.
Proof.
  intros St [Hk I V]. pose proof (pipe_step_inv p p' St I) as I'. split; [|done|].
  - destruct St as [q req|q q' R|q q' D|q a Hb]; simpl; try done.
    + eapply relay_step_hooks; eauto using pi_relay.
    + by apply disp_step_moves in D as (_ & _ & -> & _).
    + eauto.
  - destruct St as [q req|q q' R|q q' D|q a Hb]; simpl; try done.
    + by destruct (relay_step_moves _ _ _ R (pi_relay _ I)) as (_ & _ & -> & _).
    + by eapply disp_step_ok.
Qed.

Lemma inner_sent p p' : relay_step key p p' \/ disp_step p p' -> pp_sent p' = pp_sent p.
Proof. intros [[]|[]]; done. Qed.

Lemma drain_all n : forall p, backlog p <= n -> drainable p -> dp_clear (pp_disp p) ->
  exists p', rtc pipe_step p p' /\ drainable p' /\ pp_sent p' = pp_sent p /\ backlog p' = 0.
Proof.
  induction n as [|n IH]; intros p Hn Hd Cl; [exists p; split_and!; try done; lia|].
  destruct (decide (backlog p = 0)) as [Hz|Hz]; [by exists p|].
  pose proof Hd as [Hk I V]. destruct (backlog_moves p) as (p1 & St & Cl1 & Hlt); [apply I|done|done|done|lia|].
  assert (pipe_step p p1) as St1 by (destruct St; eauto using pipe_relay, pipe_disp).
  destruct (IH p1) as (p2 & R & D & Hs2 & Hb); [lia|by eapply pipe_step_drainable|done|].
  exists p2. split_and!; try done; [by eapply rtc_l|]. apply inner_sent in St. congruence.
Qed.

(** Every request gets exactly one response.  For every dispatcher that
    keeps its promise, as the pod and the Knative service dispatcher do: however
    clients, relay, dispatcher goroutines, reconciliations and the autoscaler
    interleave, the requests sent to a target are those not yet relayed, those
    in flight and those answered, each exactly once; the counters of the relay
    differ by the number in flight.  When nothing is left inside, the answered
    requests are exactly the sent ones. *)
Theorem gateway_answers_each_request w a p :
  dp_held w = [] -> rtc pipe_step (pipe_init w a) p ->
  Permutation (map tag (pp_sent p)) (unrelayed p ++ in_flight p ++ answered p) /\
  (nSend (pp_relay p) - nRecv (pp_relay p) = Z.of_nat (length (in_flight p)))%Z /\
  (unrelayed p = [] -> in_flight p = [] -> Permutation (map tag (pp_sent p)) (answered p)).
Proof.
  intros Hw R. destruct (pipe_reach_inv w a p Hw R) as [I1 [I2 _]].
  split_and!; [done|done|]. intros E1 E2. by rewrite I1, E1, E2.
Qed.

(** The gateway does not get stuck.  With hooks that serve the target (a
    running autoscaler with a decider for it, or none), from every state that
    clients, relay, dispatcher, reconciliations and autoscaler can reach and in
    which no request is cut off from its executor, the goroutines can answer every
    request that was sent, without any further help from clients, pods or
    reconciliations. *)
Theorem gateway_can_drain w a p :
  dp_held w = [] -> dp_ok w -> hooks_ok key a -> rtc pipe_step (pipe_init w a) p -> dp_clear (pp_disp p) ->
  exists p', rtc pipe_step p p' /\ pp_sent p' = pp_sent p /\
  Permutation (map tag (pp_sent p)) (answered p').
Proof.
  intros Hw V Hk R Cl. assert (drainable p) as D.
  { clear Cl. revert p R. refine (rtc_ind_r drainable _ _ _); [split; [done|by apply pipe_init_inv|done]|].
    eauto using pipe_step_drainable. }
  destruct (drain_all (backlog p) p) as (p' & R' & [_ I _] & Hs & Hb); [done..|].
  exists p'. split_and!; [done|done|]. rewrite <- Hs, (pi_conserved _ I).
  by destruct (no_backlog p' Hb) as [-> ->].
Qed.

End pipeline.

Arguments pipe C W A : clear implicits.

(** ** The autoscaler in the pipeline *)

Section load.
Context {C : Type -> Type} `{CL : ChannLaws C}.
Context {Wd : Type} `{WL : DispatcherLaws Wd}.
Context {Q : Type -> Type} `{QL : WorkQueueLaws Q}.
Context {D : Type} `{DL : DeciderLaws D}.
Context {S : Type} `{ClientOps S}.
Variable IsPodReady : Pod -> bool.
Variable key : string.

(** The hooks on an autoscaler together with its cluster and its workers. *)
Global Instance world_hooks : GatewayHooks (as_world (Q := Q) (D := D) (S := S)) := {
  on_req_in := fun w req now =>
    s ← as_ReqIn (w_as w) req now;
    Ret (mkWorld s (w_cluster w) (w_busy w) (bump (w_in_flight w) (Target req) 1));
  on_req_out := fun w res now =>
    s ← as_ReqOut (w_as w) res now;
    Ret (mkWorld s (w_cluster w) (w_busy w) (bump (w_in_flight w) (Target (Source res)) (-1)))
}.

(** The autoscaler's own steps and the requests of the other targets. *)
Definition other_steps (w w' : as_world (Q := Q) (D := D) (S := S)) : Prop :=
  as_step IsPodReady w w' /\ w_in_flight w' key = w_in_flight w key.

Lemma on_req_in_step (w w' : as_world (Q := Q) (D := D) (S := S)) req now :
  on_req_in w req now = Ret w' ->
  as_step IsPodReady w w' /\ w_in_flight w' = bump (w_in_flight w) (Target req) 1.
Proof.
  simpl. destruct (as_ReqIn (w_as w) req now) as [s'| |] eqn:R; simpl; [|done..].
  intros [= <-]. split; [by apply (step_in IsPodReady w req now)|done].
Qed.

Lemma on_req_out_step (w w' : as_world (Q := Q) (D := D) (S := S)) res now :
  on_req_out w res now = Ret w' ->
  as_step IsPodReady w w' /\ w_in_flight w' = bump (w_in_flight w) (Target (Source res)) (-1).
Proof.
  simpl. destruct (as_ReqOut (w_as w) res now) as [s'| |] eqn:R; simpl; [|done..].
  intros [= <-]. split; [by apply (step_out IsPodReady w res now)|done].
Qed.

Notation pipe_step' := (pipe_step (C := C) (W := Wd) other_steps key).

(** What a step of the pipeline does to the autoscaler. *)
Lemma pipe_step_world p p' :
  pipe_step' p p' -> relay_inv key p ->
  (pp_hooks p' = pp_hooks p \/ as_step IsPodReady (pp_hooks p) (pp_hooks p')) /\
  (w_in_flight (pp_hooks p') key - w_in_flight (pp_hooks p) key =
     (nSend (pp_relay p') - nRecv (pp_relay p')) - (nSend (pp_relay p) - nRecv (pp_relay p)))%Z.
Proof.
  intros [q req|q q' [q0 t1 t2 r a R|q0 t1 r a R]|q q' Ds|q a [Hb Hf]] I; simpl.
  - split; [by left|lia].
  - apply relay_in_spec in R as (req & _ & _ & Hr & [(Ht & -> & _ & Hs & _)|(Ht & Hh & _ & Hs & _)]).
    + split; [by left|]. lia.
    + apply on_req_in_step in Hh as [St Hf]. split; [by right|].
      rewrite Hf. unfold bump. rewrite Ht, decide_True by done. lia.
  - apply relay_out_spec in R as (res & Hx & Hh & _ & _ & _ & Hs & Hr).
    pose proof (response_target _ _ _ _ I Hx) as Ht.
    apply on_req_out_step in Hh as [St Hf]. split; [by right|].
    rewrite Hf. unfold bump. rewrite Ht, decide_True by done. lia.
  - apply disp_step_moves in Ds as (_ & _ & -> & _ & _ & -> & ->). split; [by left|lia].
  - split; [by right|lia].
Qed.

(** C4: the load that the decider of a target sees is the number of requests in
    the gateway.  In every interleaving of the whole pipeline with the
    autoscaler's own work and the requests of other targets, the floating-point
    concurrency of the decider equals the number of requests between the relay
    and its answer, as long as the numbers of requests stay within 2^53. *)
Theorem gateway_load_is_in_flight w s (cl : S) p d :
  dp_held w = [] -> as_fresh s ->
  rtc (fun p p' => pipe_step' p p' /\ counts_fit (pp_hooks p'))
    (pipe_init w (mkWorld s cl [] (fun _ => 0%Z))) p ->
  deciders (w_as (pp_hooks p)) !! key = Some d ->
  dec_load d = f64_of_Z (Z.of_nat (length (in_flight p))).
Proof.
  intros Hw F R.
  pose (Inv := fun p : pipe C Wd (as_world (Q := Q) (D := D) (S := S)) =>
    pipe_inv key p /\ as_inv (pp_hooks p) /\ load_exact (pp_hooks p) /\
    counts_fit (pp_hooks p) /\ (w_in_flight (pp_hooks p) key = nSend (pp_relay p) - nRecv (pp_relay p))%Z).
  assert (Inv p) as (I & _ & L & _ & Hf).
  2: { intros Hd. rewrite (L key d Hd), Hf. f_equal. apply (pi_counts _ _ (pi_relay _ _ I)). }
  destruct (fresh_inv s cl F) as [FI FL].
  revert p R. refine (rtc_ind_r Inv _ _ _).
  - split_and!; [by apply pipe_init_inv|done|done|intros k; unfold exact_int; simpl; lia|done].
  - intros p1 p2 _ [St Fit] (I & AI & L & Fit1 & Hf).
    pose proof (pipe_step_inv _ _ _ _ St I) as I2.
    destruct (pipe_step_world _ _ St (pi_relay _ _ I)) as [[E1|As] Hd]; (split; [done|]).
    + rewrite E1 in *. split_and!; [done..|lia].
    + split_and!; [by eapply as_step_inv|by eapply as_step_load|done|lia].
Qed.

End load.

(** ** Witnesses *)

(** A pod dispatcher without pods, and a pipeline whose client's request is
    sent and then relayed. *)
Definition demo_idle : pd_world (M := gmap string) (C := list) (Conn := nat) (E := fakeBackend) :=
  pd_running (NewPodDispatcher "ns/app" 1).

Definition demo_pipe (ext int : list Request) (n : Z) {A} (a : A) :
    pipe list (pd_world (M := gmap string) (C := list) (Conn := nat) (E := fakeBackend)) A :=
  mkPipe (mkRelay ext int [] [] n 0%Z) demo_idle a [demo_req "0" "ns/app"].

Definition demo_relayed : list Request := [set_gateway_recv (demo_req "0" "ns/app") 7].

#[local] Instance demo_pods : DispatcherOps (pd_world (M := gmap string) (C := list) (Conn := nat) (E := fakeBackend)) :=
  pod_dispatcher (Conn := nat).

#[local] Instance demo_pods_laws :
  DispatcherLaws (pd_world (M := gmap string) (C := list) (Conn := nat) (E := fakeBackend)) :=
  pod_dispatcher_laws (Conn := nat).

Lemma gateway_answers_each_request_witness :
  (nSend (pp_relay (demo_pipe [] demo_relayed 1 tt)) - nRecv (pp_relay (demo_pipe [] demo_relayed 1 tt)) =
   Z.of_nat (length (in_flight (demo_pipe [] demo_relayed 1 tt))))%Z.
Proof.
  refine (proj1 (proj2 (gateway_answers_each_request (fun _ _ => False) "ns/app" demo_idle tt
    (demo_pipe [] demo_relayed 1 tt) eq_refl _))).
  eapply rtc_l; [|apply rtc_once].
  - exact (pipe_client (fun _ _ => False) "ns/app" (pipe_init demo_idle tt) (demo_req "0" "ns/app")).
  - apply pipe_relay. exact (relay_takes_request "ns/app" (demo_pipe [demo_req "0" "ns/app"] [] 0 tt) 7 7
      (pp_relay (demo_pipe [] demo_relayed 1 tt)) tt eq_refl).
Defined.

Lemma demo_as_in_eq : as_ReqIn demo_as (demo_req "0" "ns/app") (100 * Second)%Z = Ret demo_as_in.
Proof. vm_compute. reflexivity. Qed.

Lemma gateway_load_is_in_flight_witness :
  exists d, deciders demo_as_in !! "ns/app" = Some d /\ dec_load d = f64_of_Z 1.
Proof.
  destruct (deciders demo_as_in !! "ns/app") as [d|] eqn:E; [|vm_compute in E; discriminate].
  exists d. split; [reflexivity|].
  refine (gateway_load_is_in_flight demo_ready "ns/app" demo_idle demo_as demo_cluster
    (demo_pipe [] demo_relayed 1 (demo_world [] (bump (fun _ => 0%Z) "ns/app" 1) demo_as_in)) d eq_refl
    demo_as_fresh _ E).
  assert (forall n, exact_int n -> forall key, exact_int (bump (fun _ => 0%Z) "ns/app" n key)) as F.
  { intros n Hn key. unfold bump. case_decide; [exact Hn|]. unfold exact_int. lia. }
  eapply rtc_l; [split|apply rtc_once; split].
  - exact (pipe_client _ "ns/app" (pipe_init demo_idle (demo_world [] (fun _ => 0%Z) demo_as))
      (demo_req "0" "ns/app")).
  - intros key. unfold exact_int. simpl. lia.
  - apply pipe_relay. refine (relay_takes_request "ns/app"
      (demo_pipe [demo_req "0" "ns/app"] [] 0 (demo_world [] (fun _ => 0%Z) demo_as)) (100 * Second)%Z 7 _ _ _).
    unfold relay_in. simpl. rewrite demo_as_in_eq. reflexivity.
  - intros k. apply (F 1%Z). unfold exact_int. lia.
Defined.

Lemma gateway_can_drain_witness :
  exists p' : pipe list (pd_world (M := gmap string) (C := list) (Conn := nat) (E := fakeBackend))
      (autoscalerImpl simple_wq (KPADecider float64 (Z * list (Z * Z)))),
    pp_sent p' = [demo_req "0" "ns/app"] /\
    Permutation (map tag [demo_req "0" "ns/app"]) (answered p').
Proof.
  assert (hooks_ok "ns/app" demo_as) as Hk by (split_and!; [reflexivity|vm_compute; eauto|reflexivity]).
  destruct (gateway_can_drain (WL := demo_pods_laws) (fun _ _ => False) "ns/app" (fun a a' F _ => match F with end)
    demo_idle demo_as (demo_pipe [] demo_relayed 1 demo_as_in) eq_refl (new_pd_ok _ _) Hk) as (p' & _ & Hs & P).
  - eapply rtc_l; [|apply rtc_once].
    + exact (pipe_client (fun _ _ => False) "ns/app" (pipe_init demo_idle demo_as) (demo_req "0" "ns/app")).
    + apply pipe_relay. refine (relay_takes_request "ns/app" (demo_pipe [demo_req "0" "ns/app"] [] 0 demo_as)
        (100 * Second)%Z 7 _ _ _).
      unfold relay_in. simpl. rewrite demo_as_in_eq. reflexivity.
  - apply pd_running_clear.
  - exists p'. split; [exact Hs|exact P].
Defined.
