(* ===== verification/GatewayRun.v ===== *)
(** * A running gateway: all targets

    The pipelines of [Pipeline.v] side by side, as [Start] of
    [pkg/gateway/k8s.go] and [knative.go] runs them: each target has its own
    channels, relay and dispatcher; the output channel and the autoscaler are
    shared.  The theorems start from the set-up of a gateway. *)

From S2P Require Import Prelude GoTypes Float64 Float64Facts Interfaces Kube Workload Metric.
From S2P Require Import Decider Backend Autoscaler Dispatcher Gateway Pipeline.

Local Open Scope nat_scope.

(** ** Sums over the targets *)

Section total.
Context {X Y : Type}.
Implicit Types (f : X -> list Y) (m : gmap string X).

Definition total f m : list Y := concat (map (fun kx => f kx.2) (map_to_list m)).

Lemma total_empty f : total f ∅ = [].
Proof. unfold total. by rewrite map_to_list_empty. Qed.

Lemma concat_perm (l1 l2 : list (list Y)) : Permutation l1 l2 -> Permutation (concat l1) (concat l2).
Proof. induction 1; simpl; [done|by f_equiv|rewrite !app_assoc; f_equiv; apply Permutation_app_comm|by etrans]. Qed.

Lemma total_fresh f m key x :
  m !! key = None -> Permutation (total f (<[key := x]> m)) (f x ++ total f m).
Proof.
  intros Hm. unfold total. change (f x ++ ?l) with (concat (map (fun kx => f kx.2) ((key, x) :: map_to_list m))).
  apply concat_perm, Permutation_map, map_to_list_insert, Hm.
Qed.

Lemma total_insert f m key x : Permutation (total f (<[key := x]> m)) (f x ++ total f (delete key m)).
Proof. rewrite <- insert_delete_eq. apply total_fresh, lookup_delete_eq. Qed.

Lemma total_split f m key x : m !! key = Some x -> Permutation (total f m) (f x ++ total f (delete key m)).
Proof. intros Hm. rewrite <- (insert_id m key x Hm) at 1. apply total_insert. Qed.

Lemma total_nil f m : (forall key x, m !! key = Some x -> f x = []) -> total f m = [].
Proof.
  induction m as [|key x m Hm IH] using map_ind; intros Hf; [apply total_empty|].
  apply Permutation_nil_r. rewrite total_fresh by done. rewrite (Hf key x) by apply lookup_insert_eq. simpl.
  rewrite IH; [done|]. intros k y Hk. apply (Hf k y). rewrite lookup_insert_ne by congruence. done.
Qed.

End total.

(** ** The state of a running gateway *)

Section targets.
Context {C : Type -> Type} `{CL : ChannLaws C}.
Context {W : Type} `{WL : DispatcherLaws W}.
Context {A : Type} `{GatewayHooks A}.

(** A pipe per target.  Its output channel and its hooks are those that all
    targets share, [gr_out] and [gr_hooks]. *)
Record gateway_run : Type := mkGR {
  gr_pipes : gmap string (pipe C W A);
  gr_out : C Response;
  gr_hooks : A
}.

Definition gr_view (s : gateway_run) (p : pipe C W A) : pipe C W A :=
  mkPipe (mkRelay (rl_ext_in (pp_relay p)) (rl_int_in (pp_relay p)) (rl_int_out (pp_relay p)) (gr_out s)
            (nSend (pp_relay p)) (nRecv (pp_relay p))) (pp_disp p) (gr_hooks s) (pp_sent p).

Definition gr_store (s : gateway_run) (key : string) (p : pipe C W A) : gateway_run :=
  mkGR (<[key := p]> (gr_pipes s)) (rl_ext_out (pp_relay p)) (pp_hooks p).

(** [Start]: a relay and a dispatcher for every key that has a dispatcher. *)
Definition gr_start (g : gatewayImpl C) (dispatchers : gmap string W) (a : A) : outcome gateway_run :=
  pipes ← foldr (fun kw acc =>
            r ← relay_start g kw.1; pipes ← acc; Ret (<[kw.1 := mkPipe r kw.2 a []]> pipes))
          (Ret ∅) (map_to_list dispatchers);
  Ret (mkGR pipes (externalOutput g) a).

(** A step of the goroutines of one target. *)
Inductive gr_inner (s : gateway_run) : string -> gateway_run -> Prop :=
| gr_relay key p p' :
    gr_pipes s !! key = Some p -> relay_step key (gr_view s p) p' -> gr_inner s key (gr_store s key p')
| gr_disp key p p' :
    gr_pipes s !! key = Some p -> disp_step (gr_view s p) p' -> gr_inner s key (gr_store s key p').

(** A client sends to a target. *)
Definition gr_send (s : gateway_run) (key : string) (req : Request) : option gateway_run :=
  match gr_pipes s !! key with
  | Some p => Some (gr_store s key (client_send (gr_view s p) req))
  | None => None
  end.

Variable background : A -> A -> Prop.

Inductive gr_step : gateway_run -> gateway_run -> Prop :=
| gr_client s key req s' : gr_send s key req = Some s' -> gr_step s s'
| gr_target s key s' : gr_inner s key s' -> gr_step s s'
| gr_background s a : background (gr_hooks s) a -> gr_step s (mkGR (gr_pipes s) (gr_out s) a).

(** ** Conservation *)

Definition pipe_inside (p : pipe C W A) : list (string * string) := unrelayed p ++ in_flight p.

Definition gr_sent (s : gateway_run) : list (string * string) :=
  total (fun p => map tag (pp_sent p)) (gr_pipes s).

Definition gr_inside (s : gateway_run) : list (string * string) := total pipe_inside (gr_pipes s).

Definition gr_answered (s : gateway_run) : list (string * string) :=
  map (fun res => tag (Source res)) (ch_items (gr_out s)).

(** Every relay counts right and every dispatcher is in a good state. *)
Definition gr_good (s : gateway_run) : Prop :=
  forall key p, gr_pipes s !! key = Some p -> relay_inv key p /\ dp_ok (pp_disp p).

Lemma view_inv s key p : relay_inv key p -> relay_inv key (gr_view s p).
Proof. intros [I1 I2]. by constructor. Qed.

Lemma store_good s key p : gr_good s -> relay_inv key p -> dp_ok (pp_disp p) -> gr_good (gr_store s key p).
Proof.
  intros G I V k q. simpl. intros [[-> ->]|[_ Hk]]%lookup_insert_Some; [done|by apply G].
Qed.

(** Storing a pipe changes the sums by that pipe. *)
Lemma store_total {Y} (f : pipe C W A -> list Y) s key p p' :
  gr_pipes s !! key = Some p ->
  Permutation (f p ++ total f (gr_pipes (gr_store s key p'))) (f p' ++ total f (gr_pipes s)).
Proof.
  intros Hp. simpl. rewrite total_insert, (total_split f (gr_pipes s) key p Hp). rewrite !app_assoc.
  f_equiv. apply Permutation_app_comm.
Qed.

Lemma gr_send_moves s key req s' :
  gr_send s key req = Some s' -> gr_good s ->
  gr_good s' /\ Permutation (gr_sent s') (tag req :: gr_sent s) /\
  Permutation (gr_inside s') (tag req :: gr_inside s) /\
  ch_items (gr_out s') = ch_items (gr_out s) /\ gr_hooks s' = gr_hooks s /\
  dom (gr_pipes s') = dom (gr_pipes s).
Proof.
  unfold gr_send. destruct (gr_pipes s !! key) as [p|] eqn:Hp; [|done]. intros [= <-] G.
  destruct (G key p Hp) as [I V]. split_and!; try done.
  - apply store_good; [done| |done]. by apply client_send_inv, view_inv.
  - pose proof (store_total (fun p => map tag (pp_sent p)) s key p (client_send (gr_view s p) req) Hp) as P.
    simpl in P. rewrite map_app, <- app_assoc in P. by apply Permutation_app_inv_l in P.
  - pose proof (store_total pipe_inside s key p (client_send (gr_view s p) req) Hp) as P.
    assert (Permutation (pipe_inside (client_send (gr_view s p) req)) (pipe_inside p ++ [tag req])) as Q.
    { unfold pipe_inside, unrelayed, in_flight. simpl. rewrite ch_items_send, map_app. perm. }
    rewrite Q, <- app_assoc in P. by apply Permutation_app_inv_l in P.
  - simpl. rewrite dom_insert_L. apply elem_of_dom_2 in Hp. set_solver.
Qed.

Lemma gr_inner_moves s key s' :
  gr_inner s key s' -> gr_good s ->
  gr_good s' /\ Permutation (gr_sent s') (gr_sent s) /\ dom (gr_pipes s') = dom (gr_pipes s) /\
  exists res, ch_items (gr_out s') = ch_items (gr_out s) ++ res /\
    Permutation (gr_inside s) (gr_inside s' ++ map (fun r => tag (Source r)) res).
Proof.
  intros St G.
  assert (exists p p', gr_pipes s !! key = Some p /\ s' = gr_store s key p' /\ relay_inv key p' /\
    dp_ok (pp_disp p') /\ pp_sent p' = pp_sent p /\ exists res,
    ch_items (rl_ext_out (pp_relay p')) = ch_items (gr_out s) ++ res /\
    Permutation (pipe_inside p) (pipe_inside p' ++ map (fun r => tag (Source r)) res))
    as (p & p' & Hp & -> & I' & V' & Hs & res & Ho & P).
  { destruct St as [key p p' Hp R|key p p' Hp D]; destruct (G key p Hp) as [I V]; exists p, p';
      (split_and!; [done|done|..]); apply (view_inv s) in I.
    1-4: destruct (relay_step_moves _ _ _ R I) as (I' & Hs & Hd & res & Ho & P); try done.
    - by rewrite Hd.
    - exists res. split; [exact Ho|]. unfold pipe_inside. rewrite <- app_assoc. exact P.
    - by eapply disp_step_inv.
    - by apply (disp_step_ok _ _ D).
    - by apply disp_step_moves in D as (_ & Hs & _).
    - apply disp_step_moves in D as (P & _ & _ & Hi & Ho & _). exists []. simpl in Ho.
      rewrite Ho, !app_nil_r. split; [done|]. unfold pipe_inside, unrelayed. rewrite Hi, <- P. done. }
  split_and!; [by apply store_good| | |exists res; split; [exact Ho|]].
  - pose proof (store_total (fun p => map tag (pp_sent p)) s key p p' Hp) as Q. simpl in Q.
    rewrite Hs in Q. by apply Permutation_app_inv_l in Q.
  - simpl. rewrite dom_insert_L. apply elem_of_dom_2 in Hp. set_solver.
  - pose proof (store_total pipe_inside s key p p' Hp) as Q. rewrite P in Q.
    unfold gr_inside. rewrite <- !app_assoc in Q. apply Permutation_app_inv_l in Q. rewrite <- Q.
    apply Permutation_app_comm.
Qed.

Record gr_inv (s : gateway_run) : Prop := {
  gi_good : gr_good s;
  gi_conserved : Permutation (gr_sent s) (gr_inside s ++ gr_answered s)
}.

Lemma gr_step_inv s s' : gr_step s s' -> gr_inv s -> gr_inv s'.
Proof.
  intros [s0 key req s1 Se|s0 key s1 St|s0 a Hb] [G K]; [| |by split].
  - destruct (gr_send_moves _ _ _ _ Se G) as (G' & Ps & Pi & Ho & _). split; [done|].
    unfold gr_answered in *. rewrite Ps, Pi, Ho, K. done.
  - destruct (gr_inner_moves _ _ _ St G) as (G' & Ps & _ & res & Ho & Pi). split; [done|].
    unfold gr_answered in *. rewrite Ps, K, Ho, map_app, Pi. perm.
Qed.

Lemma gr_reach_inv s s' : rtc gr_step s s' -> gr_inv s -> gr_inv s'.
Proof. induction 1; eauto using gr_step_inv. Qed.

(** ** Draining all targets *)

Context `{HL : !GatewayHooksLaws A}.

Definition hooks_serve (s : gateway_run) : Prop :=
  forall key, key ∈ dom (gr_pipes s) -> hooks_ok key (gr_hooks s).

Lemma gr_inner_hooks s key s' : gr_inner s key s' -> gr_good s -> hooks_serve s -> hooks_serve s'.
Proof.
  intros St G Hk k Hd. destruct (gr_inner_moves _ _ _ St G) as (_ & _ & Ed & _). rewrite Ed in Hd.
  destruct St as [key p p' Hp R|key p p' Hp D]; simpl.
  - apply (relay_step_hooks key _ _ R); [by apply view_inv, (G key p)| |by apply Hk].
    apply Hk. by apply elem_of_dom_2 in Hp.
  - apply disp_step_moves in D as (_ & _ & -> & _). by apply Hk.
Qed.

(** No request is cut off from its executor. *)
Definition gr_clear (s : gateway_run) : Prop :=
  forall key p, gr_pipes s !! key = Some p -> dp_clear (pp_disp p).

Lemma store_clear s key p : gr_clear s -> dp_clear (pp_disp p) -> gr_clear (gr_store s key p).
Proof. intros Cl Hp k q. simpl. intros [[-> ->]|[_ Hk]]%lookup_insert_Some; [done|by apply (Cl k)]. Qed.

Lemma gr_send_clear s key req s' : gr_send s key req = Some s' -> gr_clear s -> gr_clear s'.
Proof.
  unfold gr_send. destruct (gr_pipes s !! key) as [p|] eqn:Hp; [|done]. intros [= <-] Cl.
  apply store_clear; [done|]. exact (Cl key p Hp).
Qed.

Definition gr_backlog (s : gateway_run) : nat :=
  length (total (fun p => replicate (backlog p) tt) (gr_pipes s)).

Lemma gr_backlog_moves s :
  gr_good s -> gr_clear s -> hooks_serve s -> 0 < gr_backlog s ->
  exists key s', gr_inner s key s' /\ gr_clear s' /\ gr_backlog s' < gr_backlog s.
Proof.
  intros G Cl Hk Hb.
  destruct (decide (map_Forall (fun _ p => backlog p = 0) (gr_pipes s))) as [Hz|Hz].
  { unfold gr_backlog in Hb. rewrite total_nil in Hb; [simpl in Hb; lia|].
    intros key p Hp. by rewrite (Hz key p Hp). }
  apply map_not_Forall in Hz as (key & p & Hp & Hz); [|apply _]. destruct (G key p Hp) as [I V].
  destruct (backlog_moves key (gr_view s p)) as (p' & St & Cp & Lt).
  - by apply view_inv.
  - done.
  - exact (Cl key p Hp).
  - apply Hk. by apply elem_of_dom_2 in Hp.
  - change (backlog (gr_view s p)) with (backlog p). lia.
  - exists key, (gr_store s key p'). split; [destruct St; [by eapply gr_relay|by eapply gr_disp]|]. split; [by apply store_clear|].
    change (backlog (gr_view s p)) with (backlog p) in Lt.
    pose proof (store_total (fun p => replicate (backlog p) tt) s key p p' Hp) as P.
    apply Permutation_length in P. rewrite !length_app, !length_replicate in P. unfold gr_backlog. lia.
Qed.

Lemma gr_drain n : forall s, gr_backlog s <= n -> gr_good s -> gr_clear s -> hooks_serve s ->
  exists s', rtc (fun s s' => exists key, gr_inner s key s') s s' /\ gr_good s' /\ hooks_serve s' /\
    Permutation (gr_sent s') (gr_sent s) /\ gr_inside s' = [].
Proof.
  induction n as [|n IH]; intros s Hn G Cl Hk;
    (destruct (decide (gr_backlog s = 0)) as [Hz|Hz]; [|try lia]).
  1-2: exists s; split_and!; [done..|]; apply total_nil; intros key p Hp; unfold gr_backlog in Hz;
    rewrite (Permutation_length (total_split _ _ _ _ Hp)), length_app, length_replicate in Hz;
    unfold pipe_inside; destruct (no_backlog p) as [-> ->]; [lia|done].
  destruct (gr_backlog_moves s G Cl Hk) as (key & s1 & St & Cl1 & Lt); [lia|].
  destruct (gr_inner_moves _ _ _ St G) as (G1 & Ps & _).
  destruct (IH s1) as (s2 & R & G2 & K2 & P2 & E2); [lia|done|done|by eapply gr_inner_hooks|].
  exists s2. split_and!; try done; [eapply rtc_l; [by exists key|done]|by rewrite P2].
Qed.

Lemma inner_steps s s' : rtc (fun s s' => exists key, gr_inner s key s') s s' -> rtc gr_step s s'.
Proof. apply rtc_subrel. intros x y [key St]. by eapply gr_target. Qed.

(** A clear state with serving hooks can answer all that was sent. *)
Lemma gr_answer_all s : gr_inv s -> gr_clear s -> hooks_serve s ->
  exists s', rtc gr_step s s' /\ Permutation (gr_sent s') (gr_sent s) /\
  Permutation (gr_sent s) (gr_answered s').
Proof.
  intros I Cl Hk. destruct (gr_drain (gr_backlog s) s) as (s' & R & G & _ & P & E0); [done|apply I|done|done|].
  apply inner_steps in R. exists s'. split_and!; [done|done|].
  by rewrite <- P, (gi_conserved _ (gr_reach_inv _ _ R I)), E0.
Qed.

Hypothesis background_ok : forall a a' key, background a a' -> hooks_ok key a -> hooks_ok key a'.

Lemma gr_step_hooks s s' : gr_step s s' -> gr_good s -> hooks_serve s -> hooks_serve s'.
Proof.
  intros [s0 key req s1 Se|s0 key s1 St|s0 a Hb] G Hk.
  - destruct (gr_send_moves _ _ _ _ Se G) as (_ & _ & _ & _ & Eh & Ed). intros k. rewrite Ed, Eh. apply Hk.
  - by eapply gr_inner_hooks.
  - intros k Hd. eapply background_ok; [exact Hb|]. by apply Hk.
Qed.

Lemma gr_reach_hooks s s' : rtc gr_step s s' -> gr_inv s -> hooks_serve s -> hooks_serve s'.
Proof.
  induction 1 as [|s1 s2 s3 St _ IH]; [done|]. intros I Hk. apply IH; [by eapply gr_step_inv|].
  eapply gr_step_hooks; eauto. apply I.
Qed.

End targets.

Arguments gateway_run C W A : clear implicits.

(** ** Starting a gateway *)

Section start.
Context {C : Type -> Type} `{CL : ChannLaws C}.
Context {W : Type} `{WL : DispatcherLaws W}.
Context {A : Type} `{GatewayHooks A}.

(** Channels that nothing was sent on. *)
Definition relay_fresh (g : gatewayImpl C) (key : string) : Prop :=
  relay_start g key = Ret (mkRelay ch_new ch_new ch_new (externalOutput g) 0 0).

Lemma gr_start_spec (g : gatewayImpl C) (ws : gmap string W) (a : A) :
  (forall key, key ∈ dom ws -> relay_fresh g key) ->
  exists s, gr_start g ws a = Ret s /\ gr_out s = externalOutput g /\ gr_hooks s = a /\
  forall key, gr_pipes s !! key =
    (fun w => mkPipe (mkRelay ch_new ch_new ch_new (externalOutput g) 0 0) w a []) <$> ws !! key.
Proof.
  intros Hf. unfold gr_start.
  assert (forall l : list (string * W), (forall kw, kw ∈ l -> relay_fresh g kw.1) -> NoDup l.*1 ->
    exists pipes : gmap string (pipe C W A), foldr (fun kw acc =>
            r ← relay_start g kw.1; pipes ← acc; Ret (<[kw.1 := mkPipe r kw.2 a []]> pipes))
          (Ret ∅) l = Ret pipes /\
    forall key, pipes !! key = (fun w => mkPipe (mkRelay ch_new ch_new ch_new (externalOutput g) 0 0) w a [])
      <$> (list_to_map l : gmap string W) !! key) as Fold.
  { induction l as [|[k w] l IH]; intros Hl Hn; simpl.
    - exists ∅. split; [done|]. intros key. by rewrite !lookup_empty.
    - apply NoDup_cons in Hn as [_ Hn]. destruct IH as (pipes & E & L); [set_solver|done|].
      pose proof (Hl (k, w) ltac:(left)) as Hk. unfold relay_fresh in Hk. simpl in Hk. rewrite Hk. simpl. rewrite E. simpl. eexists. split; [done|]. intros key.
      destruct (decide (key = k)) as [->|Ne]; [by rewrite !lookup_insert_eq|].
      rewrite !lookup_insert_ne by congruence. apply L. }
  destruct (Fold (map_to_list ws)) as (pipes & E & L).
  - intros [k w] Hin%elem_of_map_to_list. apply Hf. simpl. by apply elem_of_dom_2 in Hin.
  - apply NoDup_fst_map_to_list.
  - rewrite E. simpl. eexists. split; [done|]. simpl. split_and!; [done|done|].
    intros key. by rewrite L, list_to_map_to_list.
Qed.

(** A gateway that just started satisfies the invariant. *)
Lemma gr_start_inv (g : gatewayImpl C) (ws : gmap string W) (a : A) s :
  (forall key, key ∈ dom ws -> relay_fresh g key) ->
  (forall key w, ws !! key = Some w -> dp_held w = [] /\ dp_ok w) ->
  externalOutput g = ch_new -> gr_start g ws a = Ret s ->
  gr_inv s /\ gr_hooks s = a /\ dom (gr_pipes s) = dom ws /\ gr_inside s = [] /\ gr_sent s = [] /\
  gr_out s = ch_new.
Proof.
  intros Hf Hw Ho Hs. destruct (gr_start_spec g ws a Hf) as (s' & E & Eo & Eh & L). rewrite Hs in E.
  injection E as <-.
  assert (forall key p, gr_pipes s !! key = Some p -> exists w, ws !! key = Some w /\
    p = mkPipe (mkRelay ch_new ch_new ch_new ch_new 0 0) w a []) as Lp.
  { intros key p. rewrite L, Ho. destruct (ws !! key) as [w|]; simpl; [intros [= <-]; eauto|done]. }
  assert (forall key p, gr_pipes s !! key = Some p -> pipe_inside p = []) as Hin.
  { intros key p Hp. apply Lp in Hp as (w & Hx & ->). unfold pipe_inside, unrelayed, in_flight. simpl.
    rewrite !ch_items_new. simpl. rewrite (proj1 (Hw key w Hx)). done. }
  assert (gr_inside s = []) as Gi by (apply total_nil; eauto).
  assert (gr_sent s = []) as Gs.
  { apply total_nil. intros key p Hp. by apply Lp in Hp as (w & Hx & ->). }
  split_and!; [split| | | | |]; try done.
  - intros key p Hp. apply Lp in Hp as (w & Hx & ->). destruct (Hw key w Hx) as [Hh V]. split; [|done].
    by apply relay_empty_inv.
  - rewrite Gi, Gs. unfold gr_answered. by rewrite Eo, Ho, ch_items_new.
  - apply set_eq. intros key. rewrite !elem_of_dom, L, fmap_is_Some. done.
  - by rewrite Eo.
Qed.

Lemma gr_start_clear (g : gatewayImpl C) (ws : gmap string W) (a : A) s :
  (forall key, key ∈ dom ws -> relay_fresh g key) -> (forall key w, ws !! key = Some w -> dp_clear w) ->
  gr_start g ws a = Ret s -> gr_clear s.
Proof.
  intros Hf Hc Hs key p. destruct (gr_start_spec g ws a Hf) as (s' & E & _ & _ & L). rewrite Hs in E.
  injection E as <-. rewrite L. destruct (ws !! key) as [w|] eqn:Hw; simpl; [|done]. intros [= <-]. by apply (Hc key).
Qed.

End start.

(** ** The Kubernetes gateway *)

Lemma relay_fresh_register {C} `{ChannOps C} (g : gatewayImpl C) key k :
  k = key \/ relay_fresh g k -> relay_fresh (register g key) k.
Proof.
  unfold relay_fresh, relay_start. simpl. destruct (decide (k = key)) as [->|Hk].
  - by rewrite !lookup_insert_eq.
  - rewrite !lookup_insert_ne by done. by intros [?|].
Qed.

Section k8s_run.
Context {C : Type -> Type} `{CL : ChannLaws C}.
Context {M : Type -> Type} `{SML : SharedMapLaws M}.
Context {Q : Type -> Type} `{QL : WorkQueueLaws Q}.
Context {B Wn : Type} `{TimedBucketsOps B} `{TimeWindowOps Wn}.
Context {Conn E : Type} `{EL : ExecutorLaws Conn E}.
Implicit Types g : k8sGateway C M Q B Wn E.

(** The relays and dispatchers that [Start] runs, before the goroutine that it
    starts for the autoscaler has run, ... *)
Definition k8s_started g : outcome (gateway_run C (pd_world (M := M) (C := C) (Conn := Conn) (E := E))
    (option (autoscaler Q (KPADecider B Wn)))) :=
  gr_start (k8s_impl g) (pd_running <$> dispatchers g) (k8s_autoscaler g).

(** ... and once it has, before any request was sent.  Theorem
    [early_request_panics] is about a request that is relayed in between. *)
Definition k8s_run g : outcome (gateway_run C (pd_world (M := M) (C := C) (Conn := Conn) (E := E))
    (option (autoscaler Q (KPADecider B Wn)))) :=
  k8s_started (k8s_autoscaler_Run g).

(** Nothing was sent, and no pod is known. *)
Definition k8s_fresh g : Prop :=
  externalOutput (k8s_impl g) = ch_new /\
  forall key pd, dispatchers g !! key = Some pd ->
    relay_fresh (k8s_impl g) key /\ pd = NewPodDispatcher key (dispatchTimeout g).

Lemma k8s_register_fresh targets : forall g keys g',
  k8s_register g targets = Ret (keys, g') -> k8s_fresh g -> k8s_fresh g'.
Proof.
  induction targets as [|t targets IH]; intros g keys g'; cbn [k8s_register]; [by intros [= <- <-]|].
  unfold internalBuffers. simpl. rewrite !lookup_insert_eq. simpl.
  match goal with |- context [k8s_register ?g1 targets] =>
    destruct (k8s_register g1 targets) as [[keys1 g2]| |] eqn:R; [|done..] end.
  simpl. intros [= <- <-] [Fo F]. apply (IH _ _ _ R). split; [done|]. simpl.
  intros key pd [[<- <-]|[Hk Hp]]%lookup_insert_Some.
  - split; [apply relay_fresh_register; auto|done].
  - destruct (F key pd Hp) as [Fr ->]. split; [apply relay_fresh_register; auto|done].
Qed.

Definition target_keys (targets : list Deployment) : list string :=
  map (fun t => KeyFromObject (dep_meta t)) targets.

(** What the set-up leaves. *)
Lemma k8s_setup_fresh readFile unmarshal (emptyq : Q string) timeout framework path targets g0 g :
  NewK8sGateway readFile unmarshal emptyq timeout framework path = Ok g0 ->
  k8s_SetUp g0 (Ret (Ok targets)) None = Ret (Ok g) ->
  k8s_fresh g /\ (forall key, key ∈ dom (dispatchers g) <-> key ∈ target_keys targets).
Proof.
  unfold NewK8sGateway. destruct (NewAutoscalerConfigFrom _ _ _) as [cfg|]; [|done]. intros [= <-].
  unfold k8s_SetUp. cbn [mbind outcome_bind].
  match goal with |- context [k8s_register ?g1 targets] =>
    destruct (k8s_register_spec g1 targets) as (g1' & R & _ & _ & Rg);
    assert (k8s_fresh g1') as F by (apply (k8s_register_fresh _ _ _ _ R); by split) end.
  rewrite R. cbn [mbind outcome_bind].
  assert (forall key, key ∈ dom (dispatchers g1') <-> key ∈ target_keys targets) as Dom.
  { intros key. rewrite elem_of_dom. split.
    - intros [pd Hp]. destruct F as [_ F]. destruct (F key pd Hp) as [Fr _].
      assert (registered g1' key) as Hr.
      { unfold registered. rewrite Hp. unfold relay_fresh, relay_start in Fr. by repeat case_match. }
      apply (Rg key) in Hr as [(X & _)|]; [|done]. simpl in X. by destruct X.
    - intros Hk. by apply (Rg key); right. }
  destruct (newAutoscalerFn g1') as [new|]; [|by intros [= <-]].
  destruct (new _) as [a| |]; [|done..]. cbn [mbind outcome_bind]. by intros [= <-].
Qed.

Lemma k8s_fresh_relays g key :
  k8s_fresh g -> key ∈ dom (pd_running (Conn := Conn) <$> dispatchers g) -> relay_fresh (k8s_impl g) key.
Proof. intros [_ F]. rewrite dom_fmap, elem_of_dom. intros [pd Hp]. by apply (F key pd). Qed.

(** The state in which a gateway that was set up starts to run. *)
Lemma k8s_run_start readFile unmarshal (emptyq : Q string) timeout framework path targets g0 g :
  NewK8sGateway readFile unmarshal emptyq timeout framework path = Ok g0 ->
  k8s_SetUp g0 (Ret (Ok targets)) None = Ret (Ok g) ->
  exists s0, k8s_run g = Ret s0 /\ gr_inv s0 /\ gr_hooks s0 = k8s_autoscaler (k8s_autoscaler_Run g) /\
  (forall key, key ∈ dom (gr_pipes s0) <-> key ∈ target_keys targets) /\
  gr_inside s0 = [] /\ gr_sent s0 = [] /\ gr_out s0 = ch_new /\
  (forall key, key ∈ target_keys targets -> exists c, RequestChan (k8s_impl g) key = Ret c) /\
  gr_clear s0.
Proof.
  intros Hn Hs. destruct (k8s_setup_fresh _ _ _ _ _ _ _ _ _ Hn Hs) as [Fg Dom]. pose proof Fg as [Fo F].
  set (a := k8s_autoscaler (k8s_autoscaler_Run g)).
  pose proof (fun key => k8s_fresh_relays g key Fg) as Fr.
  destruct (gr_start_spec (k8s_impl g) _ a Fr) as (s0 & St & _). exists s0. split; [done|].
  destruct (gr_start_inv _ _ a s0 Fr) as (I & Eh & Dm & Gi & Gs & Go); [|done|done|].
  - intros key w. rewrite lookup_fmap. destruct (dispatchers g !! key) as [pd|] eqn:Hp; [|done].
    intros [= <-]. destruct (F key pd Hp) as [_ ->]. split; [done|apply new_pd_ok].
  - split_and!; try done.
    + intros key. by rewrite Dm, dom_fmap.
    + intros key [pd Hp]%Dom%elem_of_dom. destruct (F key pd Hp) as [Fk _].
      unfold relay_fresh, relay_start, RequestChan in *. destruct (externalInputs _ !! key); [eauto|done].
    + eapply gr_start_clear; [exact Fr| |exact St]. intros key w. rewrite lookup_fmap.
      destruct (dispatchers g !! key); [|done]. intros [= <-]. apply pd_running_clear.
Qed.

(** A framework whose autoscaler accepts requests: the Knative one with a
    positive tick interval, or the one-time autoscaler. *)
Definition serving_config (framework : string) (cfg : AutoscalerConfig) : Prop :=
  (framework = "kpa"%string /\ exists kc, Knative cfg = Some kc /\ (0 < TickIntervalSeconds kc < 2 ^ 31)%Z) \/
  framework = "one-time"%string.

(** With such a framework the set-up succeeds. *)
Lemma k8s_setup_ok readFile unmarshal (emptyq : Q string) timeout framework path text cfg targets :
  path <> ""%string -> readFile path = Ok text -> unmarshal text = Ok cfg -> serving_config framework cfg ->
  exists g0 g, NewK8sGateway readFile unmarshal emptyq timeout framework path = Ok g0 /\
    k8s_SetUp g0 (Ret (Ok targets)) None = Ret (Ok g).
Proof.
  intros Hp Hr Hu Hs. unfold NewK8sGateway, NewAutoscalerConfigFrom.
  rewrite bool_decide_eq_false_2, Hr, Hu by done.
  match goal with |- context [Ok ?x = Ok _] => exists x end.
  match goal with |- context [k8s_SetUp ?g0 _ _] =>
    destruct (k8s_register_spec g0 targets) as (g1 & E1 & E2 & _) end.
  unfold k8s_SetUp. cbn [mbind outcome_bind]. rewrite E1. cbn [mbind outcome_bind]. rewrite E2. cbn [newAutoscalerFn].
  unfold newAutoscalerFn_for. destruct Hs as [(-> & kc & Hk & _)| ->].
  - rewrite bool_decide_eq_true_2, Hk by done. eexists. split; reflexivity.
  - rewrite bool_decide_eq_false_2, bool_decide_eq_true_2 by done. eexists. split; reflexivity.
Qed.

Lemma k8s_hooks_serve readFile unmarshal (emptyq : Q string) timeout framework path text cfg targets g0 g :
  path <> ""%string -> readFile path = Ok text -> unmarshal text = Ok cfg -> serving_config framework cfg ->
  NewK8sGateway readFile unmarshal emptyq timeout framework path = Ok g0 ->
  k8s_SetUp g0 (Ret (Ok targets)) None = Ret (Ok g) ->
  forall key, key ∈ target_keys targets -> hooks_ok key (k8s_autoscaler (k8s_autoscaler_Run g)).
Proof.
  intros Hp Hr Hu Hs. unfold NewK8sGateway, NewAutoscalerConfigFrom.
  rewrite bool_decide_eq_false_2, Hr, Hu by done. intros [= <-]. unfold k8s_SetUp. cbn [mbind outcome_bind].
  match goal with |- context [k8s_register ?g0 targets] =>
    destruct (k8s_register_spec g0 targets) as (g1 & E1 & E2 & E3 & E4) end.
  rewrite E1. cbn [mbind outcome_bind]. rewrite E2. cbn [newAutoscalerFn]. unfold newAutoscalerFn_for.
  destruct Hs as [(-> & kc & Hk & Ht)| ->].
  - rewrite bool_decide_eq_true_2, Hk by done. cbn [mbind outcome_bind knative_Complete]. intros [= <-] key Hin.
    cbn. split_and!; [done| |].
    + rewrite (foldl_insert_lookup (new_kpa_for _)), decide_True by done. eauto.
    + unfold mul64. rewrite int64_of_id; [unfold Second; lia|].
      unfold in_int64, min_int64, max_int64, Second. lia.
  - rewrite bool_decide_eq_false_2, bool_decide_eq_true_2 by done. cbn [mbind outcome_bind].
    intros [= <-] key _. done.
Qed.

Variable background : option (autoscaler Q (KPADecider B Wn)) -> option (autoscaler Q (KPADecider B Wn)) -> Prop.

(** C2: a Kubernetes gateway loses no request of any target.  Set up for a list
    of deployments and started, it runs a pipeline for exactly their keys; in
    every interleaving of clients, relays, dispatchers, reconciliations and the
    autoscaler, the requests sent to all targets are those still inside and
    those with a response on the shared output channel, each exactly once. *)
Theorem k8s_gateway_conserves readFile unmarshal (emptyq : Q string) timeout framework path targets g0 g :
  NewK8sGateway readFile unmarshal emptyq timeout framework path = Ok g0 ->
  k8s_SetUp g0 (Ret (Ok targets)) None = Ret (Ok g) ->
  exists s0, k8s_run g = Ret s0 /\
  (forall key, key ∈ dom (gr_pipes s0) <-> key ∈ target_keys targets) /\
  forall s, rtc (gr_step background) s0 s -> Permutation (gr_sent s) (gr_inside s ++ gr_answered s).
Proof.
  intros Hn Hs. destruct (k8s_run_start _ _ _ _ _ _ _ _ _ Hn Hs) as (s0 & R & I & _ & D & _).
  exists s0. split_and!; [done|done|]. intros s Rs. exact (gi_conserved _ (gr_reach_inv _ _ _ Rs I)).
Qed.

(** A Kubernetes gateway does not get stuck.  With the Knative or the one-time
    autoscaler, from every state that a gateway can reach and in which no
    execution awaits a connection of a drained pool, the goroutines of its
    targets can answer all requests that were sent to them, whatever the
    autoscaler did, without any help from clients, pods or reconciliations. *)
Theorem k8s_gateway_drains readFile unmarshal (emptyq : Q string) timeout framework path text cfg targets g0 g s0 s :
  (forall a a' key, background a a' -> hooks_ok key a -> hooks_ok key a') ->
  path <> ""%string -> readFile path = Ok text -> unmarshal text = Ok cfg -> serving_config framework cfg ->
  NewK8sGateway readFile unmarshal emptyq timeout framework path = Ok g0 ->
  k8s_SetUp g0 (Ret (Ok targets)) None = Ret (Ok g) -> k8s_run g = Ret s0 -> rtc (gr_step background) s0 s ->
  gr_clear s ->
  exists s', rtc (gr_step background) s s' /\ Permutation (gr_sent s') (gr_sent s) /\
  Permutation (gr_sent s) (gr_answered s').
Proof.
  intros Hb Hp Hr Hu Hs Hn Hg R0 Rs Cl.
  destruct (k8s_run_start _ _ _ _ _ _ _ _ _ Hn Hg) as (s0' & R & I & Eh & D & _).
  rewrite R0 in R. injection R as <-.
  assert (hooks_serve s0) as Hk0.
  { intros key Hk. rewrite Eh. eapply k8s_hooks_serve; eauto. by apply D. }
  refine (gr_answer_all _ _ _ Cl _); [by eapply gr_reach_inv|by eapply gr_reach_hooks].
Qed.

(** The autoscaler starts next to the relays.  With the Knative autoscaler, a
    request that a relay takes after [Start], before the goroutine of [Run] has
    set the context, makes the relay panic, for every target. *)
Theorem early_request_panics readFile unmarshal (emptyq : Q string) timeout path targets g0 g req t1 t2 :
  NewK8sGateway readFile unmarshal emptyq timeout "kpa" path = Ok g0 ->
  k8s_SetUp g0 (Ret (Ok targets)) None = Ret (Ok g) -> Target req ∈ target_keys targets ->
  k8s_Start g = (fst (k8s_Start g), true) /\
  exists s0 s1 p, k8s_started g = Ret s0 /\ gr_send s0 (Target req) req = Some s1 /\
    gr_pipes s1 !! Target req = Some p /\
    relay_in (Target req) (pp_relay (gr_view s1 p)) (gr_hooks s1) t1 t2 = Some (Panic "autoscaler not started").
Proof.
  intros Hn Hs Ht.
  assert (exists a, k8s_autoscaler g = Some (KnativeAutoscaler a) /\ runCtx a = false) as (a & Ha & Hc).
  { revert Hn Hs. unfold NewK8sGateway. destruct (NewAutoscalerConfigFrom _ _ _) as [cfg|]; [|done].
    intros [= <-]. unfold k8s_SetUp. cbn [mbind outcome_bind].
    match goal with |- context [k8s_register ?g1 targets] =>
      destruct (k8s_register_spec g1 targets) as (g1' & E1 & E2 & _) end.
    rewrite E1. cbn [mbind outcome_bind]. rewrite E2. cbn [newAutoscalerFn]. unfold newAutoscalerFn_for.
    rewrite bool_decide_eq_true_2 by done. destruct cfg as [c|]; [|done].
    destruct (knative_Complete (Knative c)); [|done..]. cbn [mbind outcome_bind]. intros [= <-]. by eexists. }
  split; [unfold k8s_Start; by rewrite Ha|].
  destruct (k8s_setup_fresh _ _ _ _ _ _ _ _ _ Hn Hs) as [Fg Dom].
  destruct (gr_start_spec (k8s_impl g) _ (k8s_autoscaler g) (fun key => k8s_fresh_relays g key Fg))
    as (s0 & St & _ & Hh & L).
  apply Dom, elem_of_dom in Ht as [pd Hp]. specialize (L (Target req)). rewrite lookup_fmap, Hp in L. simpl in L.
  eexists s0, _, _. split; [done|]. unfold gr_send. rewrite L. split; [done|]. simpl.
  rewrite lookup_insert_eq. split; [done|]. unfold relay_in. simpl.
  match goal with |- context [ch_recv ?c] => assert (ch_items c = [req]) as Hi
    by (by rewrite ch_items_send, ch_items_new); destruct (ch_recv_cons c req [] Hi) as (c' & -> & _) end.
  rewrite bool_decide_eq_true_2 by done. rewrite Hh, Ha. simpl. unfold as_ReqIn. by rewrite Hc.
Qed.

End k8s_run.

(** ** The Knative gateway *)

Section kn_run.
Context {C : Type -> Type} `{CL : ChannLaws C}.
Context {Conn E : Type} `{CEL : ConcurrentExecutorLaws Conn E}.
Implicit Types g : knativeGateway C E.

Definition kn_run g : outcome (gateway_run C (kn_world (Conn := Conn) (E := E)) unit) :=
  gr_start (kn_impl g) (kn_running <$> kn_dispatchers g) tt.

Definition kn_fresh g : Prop :=
  externalOutput (kn_impl g) = ch_new /\
  forall key, key ∈ dom (kn_dispatchers g) -> relay_fresh (kn_impl g) key.

Definition service_keys (services : list (ObjectMeta * string)) : list string :=
  map (fun su => KeyFromObject su.1) services.

Lemma kn_SetUp_fresh newBackend services : forall g g',
  kn_SetUp newBackend g services = Ret (Ok g') -> kn_fresh g ->
  kn_fresh g' /\
  forall key, key ∈ dom (kn_dispatchers g') <-> key ∈ dom (kn_dispatchers g) \/ key ∈ service_keys services.
Proof.
  induction services as [|[service url] services IH]; intros g g'; cbn [kn_SetUp].
  { intros [= <-] F. split; [done|]. intros key. set_solver. }
  unfold internalBuffers. simpl. rewrite !lookup_insert_eq. cbn [mbind outcome_bind].
  destruct (NewKnServiceDispatcher _ _ _ _) as [[kd|e]| |]; try done. cbn [mbind outcome_bind].
  intros R [Fo F]. apply IH in R as [F' D].
  - split; [done|]. intros key. rewrite D. simpl. rewrite dom_insert_L. set_solver.
  - split; [done|]. intros key. simpl. rewrite dom_insert_L. intros Hk. apply relay_fresh_register.
    destruct (decide (key = KeyFromObject service)); [by left|]. right. apply F. set_solver.
Qed.

Lemma kn_run_start newBackend timeout services g :
  kn_SetUp newBackend (NewKnativeGateway timeout) services = Ret (Ok g) ->
  exists s0, kn_run g = Ret s0 /\ gr_inv s0 /\
  (forall key, key ∈ dom (gr_pipes s0) <-> key ∈ service_keys services) /\
  gr_inside s0 = [] /\ gr_sent s0 = [] /\ gr_out s0 = ch_new.
Proof.
  intros Hs. apply kn_SetUp_fresh in Hs as [[Fo F] D].
  2: { split; [done|]. simpl. intros key. rewrite dom_empty_L. set_solver. }
  assert (forall key, key ∈ dom (kn_running (Conn := Conn) <$> kn_dispatchers g) ->
    relay_fresh (kn_impl g) key) as Fr by (intros key; rewrite dom_fmap_L; apply F).
  destruct (gr_start_spec (kn_impl g) _ tt Fr) as (s0 & St & _). exists s0. split; [done|].
  destruct (gr_start_inv _ _ tt s0 Fr) as (I & _ & Dm & Gi & Gs & Go); [|done|done|].
  - intros key w. rewrite lookup_fmap. destruct (kn_dispatchers g !! key); [|done]. by intros [= <-].
  - split_and!; try done. intros key. rewrite Dm, dom_fmap_L, D. simpl. rewrite dom_empty_L. set_solver.
Qed.

(** The Knative gateway neither loses a request nor gets stuck.  Set up for a
    list of services and started, it runs a pipeline for exactly their keys; in
    every interleaving of clients, relays and the concurrent executions of the
    shared executors, the requests sent are those still inside and those with a
    response, each exactly once, and from every such state the goroutines can
    answer all of them. *)
Theorem knative_gateway_answers newBackend timeout services g :
  kn_SetUp newBackend (NewKnativeGateway timeout) services = Ret (Ok g) ->
  exists s0, kn_run g = Ret s0 /\
  (forall key, key ∈ dom (gr_pipes s0) <-> key ∈ service_keys services) /\
  forall s, rtc (gr_step (fun _ _ => False)) s0 s ->
    Permutation (gr_sent s) (gr_inside s ++ gr_answered s) /\
    exists s', rtc (gr_step (fun _ _ => False)) s s' /\ Permutation (gr_sent s') (gr_sent s) /\
      Permutation (gr_sent s) (gr_answered s').
Proof.
  intros Hs. destruct (kn_run_start _ _ _ _ Hs) as (s0 & R & I & D & _).
  exists s0. split_and!; [done|done|]. intros s Rs. pose proof (gr_reach_inv _ _ _ Rs I) as I1.
  split; [apply I1|]. refine (gr_answer_all _ _ I1 _ _); [by intros key p _|by intros key].
Qed.

End kn_run.

(** ** Witnesses *)

#[local] Existing Instances demo_pods demo_pods_laws.

Lemma gr_send_known {C W A} `{ChannOps C} (s : gateway_run C W A) key req :
  key ∈ dom (gr_pipes s) -> exists s', gr_send s key req = Some s'.
Proof. rewrite elem_of_dom. intros [p Hp]. unfold gr_send. rewrite Hp. eauto. Qed.

Definition demo_targets : list Deployment := [(demo_deployment "app" 0).2; (demo_deployment "web" 3).2].

Definition demo_new_gateway (framework : string) : demo_k8s :=
  mkK8s newGatewayImpl (5 * Second)%Z ∅ None
    (newAutoscalerFn_for (mk_simple_wq [] []) framework (Some (mkAutoscalerConfig (Some demo_config) None))).

Definition demo_ready_gateway (framework : string) : demo_k8s :=
  match k8s_SetUp (demo_new_gateway framework) (Ret (Ok demo_targets)) None with
  | Ret (Ok g) => g
  | _ => demo_new_gateway framework
  end.

Definition demo_k8s_run : Type :=
  gateway_run list (pd_world (M := gmap string) (C := list) (Conn := nat) (E := fakeBackend))
    (option (autoscaler simple_wq (KPADecider float64 (Z * list (Z * Z))))).

Lemma k8s_gateway_conserves_witness :
  exists s0 s1, k8s_run (Conn := nat) (demo_ready_gateway "kpa") = Ret s0 /\
    gr_send s0 "ns/web" (demo_req "0" "ns/web") = Some s1 /\
    Permutation (gr_sent s1) (gr_inside s1 ++ gr_answered s1).
Proof.
  destruct (k8s_gateway_conserves (Conn := nat) (E := fakeBackend) (C := list) (M := gmap string)
    (fun _ _ => False) demo_read demo_unmarshal (mk_simple_wq [] []) (5 * Second)%Z "kpa" "config.yaml"
    demo_targets (demo_new_gateway "kpa") (demo_ready_gateway "kpa") eq_refl eq_refl) as (s0 & R & D & K).
  destruct (gr_send_known s0 "ns/web" (demo_req "0" "ns/web")) as [s1 S1]; [apply D; right; left|].
  exists s0, s1. split; [exact R|]. split; [exact S1|]. apply K. apply rtc_once. eapply gr_client. exact S1.
Defined.

Lemma k8s_gateway_drains_witness :
  exists s0 s1, k8s_run (Conn := nat) (demo_ready_gateway "one-time") = Ret s0 /\
    gr_send s0 "ns/app" (demo_req "0" "ns/app") = Some s1 /\
    exists s' : demo_k8s_run, Permutation (gr_sent s1) (gr_answered s').
Proof.
  destruct (k8s_run_start (Conn := nat) (E := fakeBackend) demo_read demo_unmarshal (mk_simple_wq [] [])
    (5 * Second)%Z "one-time" "config.yaml" demo_targets (demo_new_gateway "one-time")
    (demo_ready_gateway "one-time") eq_refl eq_refl) as (s0 & R & _ & _ & D & _ & _ & _ & _ & Cl).
  destruct (gr_send_known s0 "ns/app" (demo_req "0" "ns/app")) as [s1 S1]; [apply D; left|].
  destruct (k8s_gateway_drains (Conn := nat) (E := fakeBackend) (fun _ _ => False) demo_read demo_unmarshal
    (mk_simple_wq [] []) (5 * Second)%Z "one-time" "config.yaml" "kpa: ..."
    (mkAutoscalerConfig (Some demo_config) None) demo_targets (demo_new_gateway "one-time")
    (demo_ready_gateway "one-time") s0 s1) as (s' & _ & _ & P).
  - intros a a' key [].
  - discriminate.
  - reflexivity.
  - reflexivity.
  - right. reflexivity.
  - reflexivity.
  - reflexivity.
  - exact R.
  - apply rtc_once. eapply gr_client. exact S1.
  - exact (gr_send_clear s0 "ns/app" (demo_req "0" "ns/app") s1 S1 Cl).
  - exists s0, s1. split; [exact R|]. split; [exact S1|]. exists s'. exact P.
Defined.

Definition demo_services : list (ObjectMeta * string) :=
  [(mkMeta "ns" "app" "u" "1" {["app" := "app"%string]} ∅ None, "http://app.ns.example.com")].

Lemma knative_gateway_answers_witness :
  exists (g : knativeGateway list fakeBackend) s0 s1,
    kn_SetUp demo_new (NewKnativeGateway Second) demo_services = Ret (Ok g) /\
    kn_run (Conn := nat) g = Ret s0 /\ gr_send s0 "ns/app" (demo_req "0" "ns/app") = Some s1 /\
    exists s' : gateway_run list (kn_world (Conn := nat) (E := fakeBackend)) unit,
      Permutation (gr_sent s1) (gr_answered s').
Proof.
  destruct (kn_SetUp (C := list) demo_new (NewKnativeGateway Second) demo_services) as [[g|e]| |] eqn:E;
    [|vm_compute in E; discriminate..].
  destruct (knative_gateway_answers (Conn := nat) demo_new Second demo_services g E) as (s0 & R & D & K).
  destruct (gr_send_known s0 "ns/app" (demo_req "0" "ns/app")) as [s1 S1]; [apply D; vm_compute; left|].
  exists g, s0, s1. split; [reflexivity|]. split; [exact R|]. split; [exact S1|].
  destruct (K s1) as (_ & s' & _ & _ & P); [apply rtc_once; eapply gr_client; exact S1|].
  exists s'. exact P.
Defined.
