(* ===== verification/Fairness.v ===== *)
(** * Fair executions of a gateway

    Infinite executions of the gateways of [GatewayRun.v], in which no goroutine
    is starved: a case of the select of [relay], the receive loop of a
    dispatcher, or the goroutine of a request that can go on from some moment on
    does go on.  In such an execution every request is answered, whatever the
    other requests, clients, reconciliations and the autoscaler do meanwhile,
    except that an execution can be cut off from its executor by the [Close] of a
    removed pod. *)

From S2P Require Import Prelude GoTypes Float64 Float64Facts Interfaces Kube Workload Metric.
From S2P Require Import Decider Backend Autoscaler Dispatcher Gateway Pipeline GatewayRun.

Local Open Scope nat_scope.

(** ** Leads-to *)

Section leads_to.
Context {S : Type}.
Implicit Types P Q R : S -> Prop.

Definition leads_to (e : nat -> S) P Q : Prop := forall n, P (e n) -> exists m, n <= m /\ Q (e m).

Lemma leads_to_trans e P Q R : leads_to e P Q -> leads_to e Q R -> leads_to e P R.
Proof.
  intros H1 H2 n Hn. destruct (H1 n Hn) as (m & L1 & Hm). destruct (H2 m Hm) as (k & L2 & Hk).
  exists k. split; [lia|done].
Qed.

Lemma leads_to_impl e P Q : (forall s, P s -> Q s) -> leads_to e P Q.
Proof. intros H n Hn. exists n. auto. Qed.

Lemma leads_to_or e P Q R : leads_to e P R -> leads_to e Q R -> leads_to e (fun s => P s \/ Q s) R.
Proof. intros H1 H2 n [Hn|Hn]; eauto. Qed.

Lemma leads_to_exists {X} e (P : X -> S -> Prop) Q :
  (forall x, leads_to e (P x) Q) -> leads_to e (fun s => exists x, P x s) Q.
Proof. intros H n [x Hx]. by apply (H x). Qed.

(** What leads to a smaller value leads to the end. *)
Lemma leads_to_measure e (f : S -> nat) P Q :
  (forall k, leads_to e (fun s => P s /\ f s = k) (fun s => Q s \/ (P s /\ f s < k))) -> leads_to e P Q.
Proof.
  intros H n Hn. remember (f (e n)) as k eqn:Hk. revert n Hn Hk.
  induction k as [k IH] using lt_wf_ind. intros n Hn Hk.
  destruct (H k n) as (m & L & [Hm|[Hm Lt]]); [done|eauto|].
  destruct (IH _ Lt m Hm eq_refl) as (m' & L' & Hm'). exists m'. split; [lia|done].
Qed.

(** An execution: a step or nothing at every moment. *)
Definition execution (step : S -> S -> Prop) (e : nat -> S) : Prop :=
  forall n, e (Datatypes.S n) = e n \/ step (e n) (e (Datatypes.S n)).

(** Justice: infinitely often, the action happens or cannot happen. *)
Definition just (act : S -> S -> Prop) (e : nat -> S) : Prop :=
  forall n, exists m, n <= m /\ (act (e m) (e (Datatypes.S m)) \/ ~ exists s', act (e m) s').

Lemma execution_reaches step e n : execution step e -> rtc step (e 0) (e n).
Proof.
  intros He. induction n as [|n IH]; [done|]. destruct (He n) as [->|St]; [done|]. by eapply rtc_r.
Qed.

Lemma execution_from step e n : execution step e -> execution step (fun i => e (n + i)).
Proof. intros He i. rewrite Nat.add_succ_r. apply He. Qed.

Lemma just_from act e n : just act e -> just act (fun i => e (n + i)).
Proof.
  intros J i. destruct (J (n + i)) as (m & L & Hm). exists (m - n). split; [lia|].
  replace (n + Datatypes.S (m - n)) with (Datatypes.S m) by lia. by replace (n + (m - n)) with m by lia.
Qed.

(** A step before an execution. *)
Definition after_step (s : S) (e : nat -> S) (n : nat) : S :=
  match n with 0 => s | Datatypes.S n => e n end.

Lemma after_step_execution step s e : step s (e 0) -> execution step e -> execution step (after_step s e).
Proof. intros St He [|n]; [by right|apply He]. Qed.

Lemma after_step_just act s e : just act e -> just act (after_step s e).
Proof. intros J n. destruct (J n) as (m & L & Hm). exists (Datatypes.S m). split; [lia|exact Hm]. Qed.

(** A finite run, extended by idling. *)
Lemma path_execution step s s' : rtc step s s' ->
  exists e N, execution step e /\ e 0 = s /\ (forall n, N <= n -> e n = s') /\ forall n, rtc step s (e n).
Proof.
  induction 1 as [s|s s1 s2 St _ (e & N & He & H0 & HN & Hr)].
  { exists (fun _ => s), 0. by repeat split; [left|]. }
  exists (after_step s e), (Datatypes.S N). split_and!.
  - apply after_step_execution; [by rewrite H0|done].
  - done.
  - intros [|n] Hn; [lia|]. simpl. apply HN. lia.
  - intros [|n]; [done|]. simpl. by eapply rtc_l.
Qed.

(** If [P] holds until [Q] does, and under [P] the action is possible, unless [Q]
    holds already, and brings about [Q], then justice for the action makes [P]
    lead to [Q]. *)
Lemma ensures step act e P Q :
  execution step e -> just act e ->
  (forall s s', step s s' -> P s -> P s' \/ Q s') ->
  (forall s s', act s s' -> P s -> Q s') ->
  (forall s, P s -> Q s \/ exists s', act s s') ->
  leads_to e P Q.
Proof.
  intros He J Hp Ha Hen n Hn. destruct (J n) as (m & L & Hm).
  assert (forall i, n + i <= m -> P (e (n + i)) \/ exists j, n <= j /\ Q (e j)) as K.
  { induction i as [|i IH]; intros Hi; [rewrite Nat.add_0_r; auto|].
    destruct IH as [IH|IH]; [lia| |auto]. rewrite Nat.add_succ_r.
    destruct (He (n + i)) as [->|St]; [auto|]. destruct (Hp _ _ St IH) as [|HQ]; [auto|].
    right. exists (Datatypes.S (n + i)). split; [lia|done]. }
  destruct (K (m - n)) as [Pm|]; [lia| |done]. replace (n + (m - n)) with m in Pm by lia.
  destruct Hm as [Hm|Hm]; [|destruct (Hen _ Pm) as [HQ|He']; [exists m; split; [lia|done]|done]]. exists (Datatypes.S m). split; [lia|]. by eapply Ha.
Qed.

End leads_to.

(** ** Dispatchers whose goroutines can be told apart *)

(** The occurrences of a request in a list. *)
Definition occ (t : string * string) (l : list (string * string)) : nat := count (fun x => bool_decide (x = t)) l.

Definition res_tag (res : Response) : string * string := tag (Source res).

(** [dp_turn t] is a turn of a goroutine that has a request [t]; it brings the
    request nearer to its response, and no other step of the dispatcher takes it
    further away.  A request whose goroutine has no turn is [dp_blocked]. *)
Class FairDispatcher (W : Type) `{DispatcherLaws W} : Type := {
  dp_turn : string * string -> W -> list Response -> W -> Prop;
  dp_rank : string * string -> W -> nat;
  dp_blocked : string * string -> W -> Prop;
  dp_turn_work : forall t w rs w', dp_turn t w rs w' -> dp_work w rs w';
  dp_turn_enabled : forall t w, dp_ok w -> t ∈ dp_held w ->
    dp_blocked t w \/ exists rs w', dp_turn t w rs w';
  dp_turn_rank : forall t w rs w', dp_turn t w rs w' -> dp_rank t w' + occ t (map res_tag rs) < dp_rank t w;
  dp_work_rank : forall t w rs w', dp_work w rs w' -> dp_rank t w' + 2 * occ t (map res_tag rs) <= dp_rank t w;
  dp_receive_rank : forall t w req, dp_rank t (dp_receive w req) <= dp_rank t w + 5 * occ t [tag req];
  dp_rank_held : forall t w, t ∈ dp_held w <-> 0 < dp_rank t w;
  dp_rank_occ : forall t w, occ t (dp_held w) <= dp_rank t w
}.

Lemma occ_pos t l : t ∈ l <-> 0 < occ t l.
Proof.
  unfold occ. split; [intros Hin; apply (count_pos _ _ t Hin); by apply bool_decide_eq_true_2|].
  induction l as [|x l IH]; simpl; [lia|]. case_bool_decide as E; [subst; left|intros; right; by apply IH].
Qed.

Lemma occ_app t l1 l2 : occ t (l1 ++ l2) = occ t l1 + occ t l2.
Proof. apply count_app. Qed.

(** Counting the occurrences in the lists of a step. *)
Ltac occ :=
  unfold occ, res_tag in *; simpl in *; rewrite ?map_app, ?count_app; simpl; rewrite ?count_app;
  repeat case_bool_decide; simplify_eq/=; try congruence; lia.

Section pods.
Context {C : Type -> Type} `{CL : ChannLaws C}.
Context {M : Type -> Type} `{SML : SharedMapLaws M}.
Context {Conn E : Type} `{EL : ExecutorLaws Conn E}.
Notation world := (pd_world (M := M) (C := C) (Conn := Conn) (E := E)).

(** The goroutine of [Dispatch] for a request: [dispatch] returns a token or
    expires, or the execution goes on or ends. *)
Inductive pd_turn (t : string * string) : world -> list Response -> world -> Prop :=
| turn_take w w1 req w2 key e pd' :
    tag req = t -> pw_waiting w = w1 ++ req :: w2 -> dispatch_turn (pw_pd w) = Takes key e pd' ->
    pd_turn t w [] (mkPW pd' (w1 ++ w2) ((key, e, ExecBegins req) :: pw_running w) (pw_out w) (pw_in w)
                      (pw_removed w) (pw_rec w))
| turn_expire w w1 req w2 :
    tag req = t -> pw_waiting w = w1 ++ req :: w2 ->
    pd_turn t w [Dispatch_expired req]
      (mkPW (pw_pd w) (w1 ++ w2) (pw_running w) (pw_out w ++ [Dispatch_expired req]) (pw_in w) (pw_removed w)
         (pw_rec w))
| turn_exec w r1 key e x r2 env x' pd' :
    tag (state_request x) = t -> pw_running w = r1 ++ (key, e, x) :: r2 ->
    Dispatch_execute (pw_pd w) key e env x = Ret (Some (inl x', pd')) ->
    pd_turn t w []
      (mkPW pd' (pw_waiting w) (r1 ++ (key, e, x') :: r2) (pw_out w) (pw_in w) (pw_removed w) (pw_rec w))
| turn_finish w r1 key e x r2 env res pd' :
    tag (state_request x) = t -> pw_running w = r1 ++ (key, e, x) :: r2 ->
    Dispatch_execute (pw_pd w) key e env x = Ret (Some (inr res, pd')) ->
    pd_turn t w [res]
      (mkPW pd' (pw_waiting w) (r1 ++ r2) (pw_out w ++ [res]) (pw_in w) (pw_removed w) (pw_rec w)).

(** An execution of [t] awaits a connection, none is spare, and the executor is
    being closed or other executions hold all the connections that it added. *)
Definition pd_blocked (t : string * string) (w : world) : Prop :=
  exists key e x, ((key, e, x) ∈ pw_running w) /\ tag (state_request x) = t /\ exec_waits x = true /\
    spare_at w e = 0 /\ ((e ∈ pd_closing (pw_pd w)) \/ exec_shares <= held_at w e).

Definition run_rank (t : string * string) (r : string * nat * exec_state Conn) : nat :=
  if bool_decide (tag (state_request (snd r)) = t) then S (exec_left (snd r)) else 0.

Definition pd_rank (t : string * string) (w : world) : nat :=
  5 * occ t (map tag (pw_waiting w)) + sum_list_with (run_rank t) (pw_running w).

Lemma pd_turn_work t w rs w' : pd_turn t w rs w' -> pd_work w rs w'.
Proof.
  intros [w0 w1 req w2 key e pd' _ Hw T|w0 w1 req w2 _ Hw|w0 r1 key e x r2 env x' pd' _ Hr X|
          w0 r1 key e x r2 env res pd' _ Hr X];
    (split; [|split]); simpl; rewrite ?app_nil_r; try done.
  - by eapply pd_take.
  - by apply pd_expire.
  - by eapply pd_exec.
  - by eapply pd_finish.
Qed.

Lemma pd_turn_enabled t w : pd_ok w -> t ∈ pd_held w -> pd_blocked t w \/ exists rs w', pd_turn t w rs w'.
Proof.
  intros [V K]. unfold pd_held. intros [Hin|Hin]%elem_of_app.
  - right. apply list_elem_of_fmap in Hin as (req & -> & (w1 & w2 & Hw)%list_elem_of_split).
    do 2 eexists. by eapply turn_expire.
  - apply list_elem_of_fmap in Hin as ([[key e] x] & -> & Hin). simpl.
    destruct (execute_goes w key e x no_env V Hin) as [(r & pd' & X)|(_ & Hw & Hs)].
    + right. apply list_elem_of_split in Hin as (r1 & r2 & Hr).
      destruct r; do 2 eexists; [by eapply turn_exec|by eapply turn_finish].
    + left. exists key, e, x. split_and!; try done.
      destruct (decide (e ∈ pd_closing (pw_pd w))) as [Hc|Hc]; [by left|right].
      specialize (K e Hc). unfold pooled in K. rewrite Hs in K. apply K. by exists (key, e, x).
Qed.

(** The ranks that a turn of an execution adds up to. *)
Lemma execute_rank t (pd : PodDispatcher M C E) key e env x r pd' :
  Dispatch_execute pd key e env x = Ret (Some (r, pd')) ->
  match r with
  | inl x' => run_rank t (key, e, x') <= run_rank t (key, e, x) /\
      (tag (state_request x) = t -> run_rank t (key, e, x') < run_rank t (key, e, x))
  | inr res => 2 * occ t [res_tag res] <= run_rank t (key, e, x) /\
      (tag (state_request x) = t -> occ t [res_tag res] < run_rank t (key, e, x))
  end.
Proof.
  intros X. apply execute_spec in X as (_ & _ & _ & Xs). unfold run_rank, occ, res_tag.
  destruct r as [x'|res]; simpl in *.
  - destruct Xs as (_ & Hs%same_request_tag & Hl). rewrite Hs. case_bool_decide; [|done]. lia.
  - destruct Xs as (_ & Hs%same_request_tag). rewrite Hs. assert (1 <= exec_left x) by (destruct x; simpl; lia).
    case_bool_decide; [lia|done].
Qed.

Lemma pd_turn_rank t w rs w' : pd_turn t w rs w' -> pd_rank t w' + occ t (map res_tag rs) < pd_rank t w.
Proof.
  intros [w0 w1 req w2 key e pd' Ht Hw T|w0 w1 req w2 Ht Hw|w0 r1 key e x r2 env x' pd' Ht Hr X|
          w0 r1 key e x r2 env res pd' Ht Hr X];
    unfold pd_rank; simpl; rewrite ?Hw, ?Hr, ?sum_list_with_app; simpl.
  - unfold run_rank at 1. simpl. occ.
  - occ.
  - apply (execute_rank t) in X as [_ Hx]. specialize (Hx Ht). unfold occ in *. simpl in *. lia.
  - apply (execute_rank t) in X as [_ Hx]. specialize (Hx Ht). unfold occ in *. simpl in *. lia.
Qed.

Lemma pd_work_rank t w rs w' : pd_work w rs w' -> pd_rank t w' + 2 * occ t (map res_tag rs) <= pd_rank t w.
Proof.
  intros (St & Hi & Ho). unfold pd_rank.
  assert (forall l : list Response, l = l ++ rs -> rs = []) as Nil
    by (intros l Hl; rewrite <- (app_nil_r l) in Hl at 1; by apply app_inv_head in Hl).
  destruct St as [w0 req|w0 pd' Hw T|w0 w1 req w2 k e pd' Hw T|w0 w1 req w2 Hw|w0 r1 k e x r2 env x' pd' Hr X|
    w0 r1 k e x r2 env r pd' Hr X| | | | | | ]; simpl in *; try (rewrite (Nil _ Ho); unfold occ; simpl; lia).
  - apply (f_equal length) in Hi. rewrite length_app in Hi. simpl in Hi. lia.
  - rewrite (Nil _ Ho), Hw. unfold run_rank at 1. simpl. occ.
  - apply app_inv_head in Ho. subst rs. rewrite Hw. occ.
  - apply (execute_rank t) in X as [Hx _]. rewrite (Nil _ Ho), Hr, !sum_list_with_app. simpl. unfold occ in *. simpl in *. lia.
  - apply app_inv_head in Ho. subst rs. apply (execute_rank t) in X as [Hx _].
    rewrite Hr, !sum_list_with_app. simpl. unfold occ in *. simpl in *. lia.
Qed.

Lemma running_rank t (l : list (string * nat * exec_state Conn)) :
  occ t (map (fun r => tag (state_request (snd r))) l) <= sum_list_with (run_rank t) l /\
  (0 < sum_list_with (run_rank t) l -> 0 < occ t (map (fun r => tag (state_request (snd r))) l)).
Proof.
  unfold occ, run_rank. induction l as [|r l IH]; simpl; [done|]. case_bool_decide; simpl; lia.
Qed.

Global Instance pod_dispatcher_fair : FairDispatcher world.
Proof.
  refine {| dp_turn := pd_turn; dp_rank := pd_rank; dp_blocked := pd_blocked |}.
  - apply pd_turn_work.
  - apply pd_turn_enabled.
  - apply pd_turn_rank.
  - apply pd_work_rank.
  - intros t w req. unfold pd_rank. simpl. rewrite map_app, occ_app. simpl. lia.
  - intros t w. unfold pd_rank. simpl. unfold pd_held. rewrite elem_of_app, !occ_pos.
    pose proof (running_rank t (pw_running w)). lia.
  - intros t w. unfold pd_rank. simpl. unfold pd_held. rewrite occ_app. pose proof (running_rank t (pw_running w)). lia.
Defined.

End pods.

Section services.
Context {Conn E : Type} `{CEL : ConcurrentExecutorLaws Conn E}.

(** The goroutine of [Dispatch] of a Knative service, in its two halves. *)
Inductive kn_turn (t : string * string) : kn_world (Conn := Conn) (E := E) -> list Response -> kn_world -> Prop :=
| turn_start w r1 req r2 env x e :
    tag req = t -> kw_spawned w = r1 ++ req :: r2 -> ExecStart (kd_executor (kw_kd w)) env req = (Some x, e) ->
    kn_turn t w [] (mkKW (with_executor (kw_kd w) e) (r1 ++ r2) (x :: kw_running w))
| turn_end w r1 x r2 env res e :
    tag (exec_request x) = t -> kw_running w = r1 ++ x :: r2 ->
    ExecFinish (kd_executor (kw_kd w)) env x = (res, e) ->
    kn_turn t w [res] (mkKW (with_executor (kw_kd w) e) (kw_spawned w) (r1 ++ r2)).

Definition kn_rank (t : string * string) (w : kn_world) : nat :=
  3 * occ t (map tag (kw_spawned w)) + 2 * occ t (map (fun x => tag (exec_request x)) (kw_running w)).

Lemma kn_turn_enabled t w : t ∈ kn_held w -> exists rs w', kn_turn t w rs w'.
Proof.
  unfold kn_held. intros [Hin|Hin]%elem_of_app.
  - apply list_elem_of_fmap in Hin as (req & -> & (r1 & r2 & Hs)%list_elem_of_split).
    destruct (ExecStart_returns (kd_executor (kw_kd w)) no_env req) as (x & Hx & _).
    destruct (ExecStart (kd_executor (kw_kd w)) no_env req) as [ox e] eqn:X. simpl in Hx. subst ox.
    do 2 eexists. by eapply turn_start.
  - apply list_elem_of_fmap in Hin as (x & -> & (r1 & r2 & Hr)%list_elem_of_split).
    destruct (ExecFinish (kd_executor (kw_kd w)) no_env x) as [res e] eqn:X.
    do 2 eexists. by eapply turn_end.
Qed.

Lemma exec_start_tag e env req x e' :
  ExecStart (Conn := Conn) (E := E) e env req = (Some x, e') -> tag (exec_request x) = tag req.
Proof.
  intros X. destruct (ExecStart_returns e env req) as (x' & Hx & Same). rewrite X in Hx. simpl in Hx.
  injection Hx as <-. by apply same_request_tag.
Qed.

Lemma exec_finish_tag e env x res e' :
  ExecFinish (Conn := Conn) (E := E) e env x = (res, e') -> tag (Source res) = tag (exec_request x).
Proof.
  intros X. pose proof (ExecFinish_request e env x) as Same. rewrite X in Same. by apply same_request_tag.
Qed.

Lemma kn_turn_rank t w rs w' : kn_turn t w rs w' -> kn_rank t w' + occ t (map res_tag rs) < kn_rank t w.
Proof.
  intros [w0 r1 req r2 env x e Ht Hs X%exec_start_tag|w0 r1 x r2 env res e Ht Hr X%exec_finish_tag];
    unfold kn_rank; simpl; rewrite ?Hs, ?Hr; occ.
Qed.

Lemma kn_work_rank t w rs w' : kn_work w rs w' -> kn_rank t w' + 2 * occ t (map res_tag rs) <= kn_rank t w.
Proof.
  intros [w0 r1 req r2 env x e Hs X%exec_start_tag|w0 r1 x r2 env res e Hr X%exec_finish_tag];
    unfold kn_rank; simpl; rewrite ?Hs, ?Hr; occ.
Qed.

Global Instance kn_dispatcher_fair : FairDispatcher (kn_world (Conn := Conn) (E := E)).
Proof.
  refine {| dp_turn := kn_turn; dp_rank := kn_rank; dp_blocked := fun _ _ => False |}.
  - intros t w rs w' [w0 r1 req r2 env x e _ Hs X|w0 r1 x r2 env res e _ Hr X];
      [by eapply kn_start|by eapply kn_finish].
  - intros t w _ Hh. right. by apply kn_turn_enabled.
  - apply kn_turn_rank.
  - apply kn_work_rank.
  - intros t w req. unfold kn_rank. simpl. rewrite map_app, occ_app. simpl. lia.
  - intros t w. unfold kn_rank. simpl. unfold kn_held. rewrite elem_of_app, !occ_pos. lia.
  - intros t w. unfold kn_rank. simpl. unfold kn_held. rewrite occ_app. lia.
Defined.

End services.

(** ** The request goroutines of a gateway *)

Inductive stage : Type := ExternalIn | InternalIn | InternalOut.

Inductive role : Type := RelayIn | RelayOut | Receive | Turn (t : string * string).

Section fair_gateway.
Context {C : Type -> Type} `{CL : ChannLaws C}.
Context {W : Type} `{FD : FairDispatcher W}.
Context {A : Type} `{HL : GatewayHooksLaws A}.
Notation pipe := (pipe C W A).
Notation gateway_run := (gateway_run C W A).

Definition stage_tags (st : stage) (p : pipe) : list (string * string) :=
  match st with
  | ExternalIn => map tag (ch_items (rl_ext_in (pp_relay p)))
  | InternalIn => map tag (ch_items (rl_int_in (pp_relay p)))
  | InternalOut => map res_tag (ch_items (rl_int_out (pp_relay p)))
  end.

(** The goroutine that empties a channel. *)
Definition stage_role (st : stage) : role :=
  match st with ExternalIn => RelayIn | InternalIn => Receive | InternalOut => RelayOut end.

Inductive pipe_act (key : string) (p : pipe) : role -> pipe -> Prop :=
| act_relay_in t1 t2 r a :
    relay_in key (pp_relay p) (pp_hooks p) t1 t2 = Some (Ret (r, a)) ->
    pipe_act key p RelayIn (mkPipe r (pp_disp p) a (pp_sent p))
| act_relay_out t1 r a :
    relay_out (pp_relay p) (pp_hooks p) t1 = Some (Ret (r, a)) ->
    pipe_act key p RelayOut (mkPipe r (pp_disp p) a (pp_sent p))
| act_receive req c :
    ch_recv (rl_int_in (pp_relay p)) = Some (req, c) ->
    pipe_act key p Receive
      (mkPipe (with_int_in (pp_relay p) c) (dp_receive (pp_disp p) req) (pp_hooks p) (pp_sent p))
| act_turn t rs w :
    dp_turn t (pp_disp p) rs w ->
    pipe_act key p (Turn t)
      (mkPipe (with_int_out (pp_relay p) (send_all (rl_int_out (pp_relay p)) rs)) w (pp_hooks p) (pp_sent p)).

Lemma pipe_act_step key p ρ p' : pipe_act key p ρ p' -> relay_step key p p' \/ disp_step p p'.
Proof.
  intros [t1 t2 r a R|t1 r a R|req c R|t rs w T]; [left..|right|right].
  - by eapply relay_takes_request.
  - by eapply relay_takes_response.
  - by apply disp_receives.
  - apply disp_works. by eapply dp_turn_work.
Qed.

Lemma pipe_act_enabled key p st :
  relay_inv key p -> hooks_ok key (pp_hooks p) -> stage_tags st p <> [] ->
  exists p', pipe_act key p (stage_role st) p'.
Proof.
  intros I Hk Hs. destruct st; simpl in *.
  - destruct (ch_items (rl_ext_in (pp_relay p))) as [|req l] eqn:E; [done|].
    destruct (relay_in_enabled key p req l E Hk) as (r & a & R). eexists. by eapply act_relay_in.
  - destruct (ch_items (rl_int_in (pp_relay p))) as [|req l] eqn:E; [done|].
    destruct (ch_recv_cons _ _ _ E) as (c & R & _). eexists. by eapply act_receive.
  - destruct (ch_items (rl_int_out (pp_relay p))) as [|res l] eqn:E; [done|].
    destruct (relay_out_enabled key p res l I E Hk) as (r & a & R). eexists. by eapply act_relay_out.
Qed.

Variable t : string * string.

(** What is left to do for the requests [t] of a target. *)
Definition pipe_todo (p : pipe) : nat :=
  7 * occ t (stage_tags ExternalIn p) + 6 * occ t (stage_tags InternalIn p) + dp_rank t (pp_disp p) +
  occ t (stage_tags InternalOut p).

(** What a step does to a channel: nothing is taken, or the first item.  A
    request [t] that is taken is nearer to its response. *)
Definition stage_moves (st : stage) (p p' : pipe) : Prop :=
  (exists l, stage_tags st p' = stage_tags st p ++ l) \/
  (exists x, stage_tags st p = x :: stage_tags st p' /\ (x = t -> pipe_todo p' < pipe_todo p)).

Lemma stage_kept st p p' : stage_tags st p' = stage_tags st p -> stage_moves st p p'.
Proof. intros E. left. exists []. by rewrite app_nil_r. Qed.

Lemma inner_todo key p p' : relay_step key p p' \/ disp_step p p' ->
  pipe_todo p' <= pipe_todo p /\ (forall st, stage_moves st p p') /\
  (0 < dp_rank t (pp_disp p) -> 0 < dp_rank t (pp_disp p') \/ pipe_todo p' < pipe_todo p).
Proof.
  intros [[q t1 t2 r a R|q t1 r a R]|[q req c R|q rs w Wk]].
  - apply relay_in_spec in R as (req & Hx & Ho & _ & Hi).
    assert (exists l, ch_items (rl_int_in r) = ch_items (rl_int_in (pp_relay q)) ++ l /\
      occ t (map tag l) <= occ t [tag req]) as (l & Hl & Hc).
    { destruct Hi as [(_ & _ & -> & _)|(_ & _ & _ & _ & ->)]; [exists []; rewrite app_nil_r; split; [done|]; occ|].
      eauto. }
    unfold pipe_todo. simpl. rewrite Ho, Hl, Hx. split; [occ|split; [|auto]]. intros [].
    + right. exists (tag req). simpl. rewrite Hx. split; [done|]. intros <-. unfold pipe_todo. simpl.
      rewrite Ho, Hl, Hx. occ.
    + left. exists (map tag l). simpl. by rewrite Hl, map_app.
    + apply stage_kept. simpl. by rewrite Ho.
  - apply relay_out_spec in R as (res & Hx & _ & He & Hi & _).
    unfold pipe_todo. simpl. rewrite He, Hi, Hx. split; [occ|split; [|auto]]. intros [].
    + apply stage_kept. simpl. by rewrite He.
    + apply stage_kept. simpl. by rewrite Hi.
    + right. exists (res_tag res). simpl. rewrite Hx. split; [done|]. intros <-. unfold pipe_todo. simpl.
      rewrite He, Hi, Hx. occ.
  - apply ch_recv_some in R. pose proof (dp_receive_rank t (pp_disp q) req) as Hr.
    unfold pipe_todo. simpl. rewrite R. split; [occ|split; [|]].
    + intros []; [by apply stage_kept| |by apply stage_kept]. right. exists (tag req). simpl. rewrite R.
      split; [done|]. intros <-. unfold pipe_todo. simpl. rewrite R. occ.
    + intros Hp. destruct (decide (0 < dp_rank t (dp_receive (pp_disp q) req))); [auto|right; occ].
  - pose proof (dp_work_rank t _ _ _ Wk) as Hr. unfold pipe_todo. simpl. rewrite ch_items_send_all.
    split; [occ|split; [|]].
    + intros []; [by apply stage_kept..|]. left. exists (map res_tag rs). simpl. by rewrite ch_items_send_all, map_app.
    + intros Hp. destruct (decide (0 < dp_rank t w)); [auto|right; occ].
Qed.

(** The goroutine of a channel takes its first item; the goroutine of a request
    [t] brings it nearer to its response. *)
Lemma act_takes key p st p' :
  pipe_act key p (stage_role st) p' -> exists x, stage_tags st p = x :: stage_tags st p'.
Proof.
  destruct st; simpl; inversion 1 as [t1 t2 r a R|t1 r a R|req c R|]; subst; simpl.
  - apply relay_in_spec in R as (req & -> & _). simpl. eauto.
  - apply ch_recv_some in R as ->. simpl. eauto.
  - apply relay_out_spec in R as (res & -> & _). simpl. eauto.
Qed.

Lemma act_turn_todo key p p' : pipe_act key p (Turn t) p' -> pipe_todo p' < pipe_todo p.
Proof.
  inversion 1 as [| | |t' rs w T]; subst. apply dp_turn_rank in T. unfold pipe_todo. simpl.
  rewrite ch_items_send_all. occ.
Qed.

(** A request [t] inside is in one of the channels or with the dispatcher. *)
Lemma todo_somewhere p : 0 < pipe_todo p ->
  (exists st k, stage_tags st p !! k = Some t) \/ t ∈ dp_held (pp_disp p).
Proof.
  unfold pipe_todo. intros Hp. rewrite dp_rank_held.
  assert (forall st, 0 < occ t (stage_tags st p) -> exists k, stage_tags st p !! k = Some t) as L
    by (intros st Hst; by apply list_elem_of_lookup_1, occ_pos).
  destruct (decide (0 < dp_rank t (pp_disp p))) as [|Hr]; [auto|left].
  destruct (decide (0 < occ t (stage_tags ExternalIn p))); [eauto|].
  destruct (decide (0 < occ t (stage_tags InternalIn p))); [eauto|].
  exists InternalOut. apply L. lia.
Qed.

(** The position of a request in a channel. *)
Lemma moves_position st p p' k : stage_moves st p p' -> stage_tags st p !! k = Some t ->
  (exists k', k' <= k /\ stage_tags st p' !! k' = Some t) \/ pipe_todo p' < pipe_todo p.
Proof.
  intros [[l ->]|(x & E & Hx)] Hk.
  - left. exists k. split; [done|]. by apply lookup_app_l_Some.
  - rewrite E in Hk. destruct k as [|k]; simpl in Hk; [injection Hk as ->; auto|].
    left. exists k. split; [lia|done].
Qed.

(** ** All targets *)

Definition gr_act (key : string) (ρ : role) (s s' : gateway_run) : Prop :=
  exists p p', gr_pipes s !! key = Some p /\ pipe_act key (gr_view s p) ρ p' /\ s' = gr_store s key p'.

Definition gr_todo (s : gateway_run) : nat :=
  length (total (fun p => replicate (pipe_todo p) tt) (gr_pipes s)).

Lemma store_todo s key p p' :
  gr_pipes s !! key = Some p -> pipe_todo p + gr_todo (gr_store s key p') = pipe_todo p' + gr_todo s.
Proof.
  intros Hp. pose proof (Permutation_length (store_total (fun p => replicate (pipe_todo p) tt) s key p p' Hp)) as P.
  by rewrite !length_app, !length_replicate in P.
Qed.

Lemma pipe_todo_inside p : occ t (pipe_inside p) <= pipe_todo p.
Proof.
  unfold pipe_inside, unrelayed, in_flight, pipe_todo. change (fun res => tag (Source res)) with res_tag.
  rewrite !occ_app. simpl. pose proof (dp_rank_occ t (pp_disp p)). lia.
Qed.

Lemma todo_inside s : occ t (gr_inside s) <= gr_todo s.
Proof.
  unfold gr_todo, gr_inside, total. induction (map_to_list (gr_pipes s)) as [|[key p] l IH]; simpl; [done|].
  rewrite occ_app, length_app, length_replicate. pose proof (pipe_todo_inside p). lia.
Qed.

(** Nothing that belongs to a request [t] is lost sight of. *)
Definition keeps (p p' : pipe) : Prop :=
  (forall st k, stage_tags st p !! k = Some t -> exists k', k' <= k /\ stage_tags st p' !! k' = Some t) /\
  (t ∈ dp_held (pp_disp p) -> t ∈ dp_held (pp_disp p')).

Definition keeps_all (s s' : gateway_run) : Prop :=
  forall key p, gr_pipes s !! key = Some p -> exists p', gr_pipes s' !! key = Some p' /\ keeps p p'.

Lemma keeps_refl p : keeps p p.
Proof. split; [|done]. intros st k Hk. by exists k. Qed.

Lemma keeps_store s key p p' : gr_pipes s !! key = Some p -> keeps p p' -> keeps_all s (gr_store s key p').
Proof.
  intros Hp K k q Hq. simpl. destruct (decide (k = key)) as [->|Ne].
  - exists p'. rewrite lookup_insert_eq. by simplify_eq.
  - exists q. rewrite lookup_insert_ne by done. split; [done|apply keeps_refl].
Qed.

Variable background : A -> A -> Prop.
Hypothesis background_ok : forall a a' key, background a a' -> hooks_ok key a -> hooks_ok key a'.

(** A step in which no client sends [t]. *)
Definition step_without (s s' : gateway_run) : Prop :=
  gr_step background s s' /\ occ t (gr_sent s') = occ t (gr_sent s).

Lemma gr_inner_todo s key s' : gr_inner s key s' -> gr_todo s' < gr_todo s \/ gr_todo s' = gr_todo s /\ keeps_all s s'.
Proof.
  intros St. assert (exists p p', gr_pipes s !! key = Some p /\ s' = gr_store s key p' /\
    (relay_step key (gr_view s p) p' \/ disp_step (gr_view s p) p')) as (p & p' & Hp & -> & Sp)
    by (destruct St; eauto 6).
  pose proof (store_todo s key p p' Hp) as K. destruct (inner_todo key _ _ Sp) as (L & Mv & R).
  change (pipe_todo (gr_view s p)) with (pipe_todo p) in *.
  destruct (decide (pipe_todo p' < pipe_todo p)) as [Lt|Ge]; [left; lia|right]. split; [lia|].
  apply (keeps_store s key p p' Hp). split.
  - intros st k Hk. by destruct (moves_position st (gr_view s p) p' k (Mv st)) as [|Lt]; [destruct st| |].
  - rewrite !dp_rank_held. intros Hr. by destruct (R Hr).
Qed.

Lemma step_without_todo s s' :
  step_without s s' -> gr_good s -> gr_todo s' < gr_todo s \/ gr_todo s' = gr_todo s /\ keeps_all s s'.
Proof.
  intros [[s0 key req s1 Se|s0 key s1 St|s0 a Hb] Ho] G.
  - destruct (gr_send_moves _ _ _ _ Se G) as (_ & Ps & _). unfold gr_send in Se.
    destruct (gr_pipes s0 !! key) as [p|] eqn:Hp; [|done]. injection Se as <-. right.
    assert (tag req <> t) as Ne.
    { intros Ht. unfold occ in Ho. rewrite Ps in Ho. simpl in Ho. rewrite bool_decide_eq_true_2 in Ho by done. lia. }
    pose proof (store_todo s0 key p (client_send (gr_view s0 p) req) Hp) as K.
    assert (stage_tags ExternalIn (client_send (gr_view s0 p) req) = stage_tags ExternalIn p ++ [tag req]) as Ee
      by (simpl; by rewrite ch_items_send, map_app).
    split.
    + unfold pipe_todo in K. rewrite Ee, occ_app in K. simpl in K. unfold occ in K. simpl in K.
      rewrite bool_decide_eq_false_2 in K by done. lia.
    + apply (keeps_store _ _ _ _ Hp). split; [|done]. intros st k Hk. exists k. split; [done|].
      destruct st; [rewrite Ee; by apply lookup_app_l_Some|done..].
  - by apply (gr_inner_todo s0 key).
  - right. split; [done|]. intros key p Hp. exists p. split; [done|apply keeps_refl].
Qed.

Definition live (s : gateway_run) : Prop := gr_inv s /\ hooks_serve s.

Lemma live_step s s' : gr_step background s s' -> live s -> live s'.
Proof. intros St [I Hk]. split; [by eapply gr_step_inv|]. eapply gr_step_hooks; eauto. apply I. Qed.

Lemma live_view s key p : live s -> gr_pipes s !! key = Some p ->
  relay_inv key (gr_view s p) /\ dp_ok (pp_disp p) /\ hooks_ok key (gr_hooks s).
Proof.
  intros [[G _] Hk] Hp. destruct (G key p Hp). split_and!; [by apply view_inv|done|].
  apply Hk. by apply elem_of_dom_2 in Hp.
Qed.

(** A request [t] that its executor blocks. *)
Definition gr_blocked (s : gateway_run) : Prop :=
  exists key p, gr_pipes s !! key = Some p /\ dp_blocked t (pp_disp p).

(** ** Fair executions *)

Definition fair (e : nat -> gateway_run) : Prop := forall key ρ, just (gr_act key ρ) e.

Section execution.
Variable e : nat -> gateway_run.
Hypothesis steps : execution step_without e.
Hypothesis fair_e : fair e.

Definition at_stage (n : nat) key st k (s : gateway_run) : Prop :=
  live s /\ gr_todo s = n /\ exists p, gr_pipes s !! key = Some p /\ stage_tags st p !! k = Some t.

Definition at_dispatcher (n : nat) key (s : gateway_run) : Prop :=
  live s /\ gr_todo s = n /\ exists p, gr_pipes s !! key = Some p /\ t ∈ dp_held (pp_disp p).

Definition nearer (n : nat) (s : gateway_run) : Prop := live s /\ gr_todo s < n.


Lemma act_todo s key ρ p p' : gr_pipes s !! key = Some p -> pipe_act key (gr_view s p) ρ p' -> live s ->
  live (gr_store s key p') /\ (gr_todo (gr_store s key p') < gr_todo s \/
    gr_todo (gr_store s key p') = gr_todo s /\ pipe_todo p' = pipe_todo p).
Proof.
  intros Hp Ha Hl. apply pipe_act_step in Ha as Sp. split.
  - apply (live_step s); [|done]. eapply (gr_target _ s key). destruct Sp; [by eapply gr_relay|by eapply gr_disp].
  - pose proof (store_todo s key p p' Hp) as K. destruct (inner_todo key _ _ Sp) as (L & _).
    change (pipe_todo (gr_view s p)) with (pipe_todo p) in L. lia.
Qed.

Lemma stage_ensures n key st k :
  leads_to e (at_stage n key st k) (fun s => nearer n s \/ exists k', k' < k /\ at_stage n key st k' s).
Proof.
  apply (ensures step_without (gr_act key (stage_role st)) e); [done|apply fair_e|..].
  - intros s s' St (Hl & Hn & p & Hp & Hk). assert (live s') as Hl' by (eapply live_step; [apply St|done]).
    destruct (step_without_todo _ _ St) as [Lt|[E K]]; [apply Hl|right; left; split; [done|lia]|].
    destruct (K key p Hp) as (p' & Hp' & Ks & _). destruct (Ks st k Hk) as (k' & Lk & Hk').
    assert (at_stage n key st k' s') by (split; [done|split; [lia|eauto]]).
    destruct (decide (k' = k)) as [->|]; [by left|right; right]. exists k'. split; [lia|done].
  - intros s s' (p0 & p' & Hp0 & Ha & ->) (Hl & Hn & p & Hp & Hk). assert (p0 = p) as -> by congruence.
    destruct (act_todo s key _ p p' Hp Ha Hl) as [Hl' [Lt|[E Et]]]; [left; split; [done|lia]|].
    destruct (act_takes _ _ _ _ Ha) as (x & Hx).
    assert (stage_tags st (gr_view s p) = stage_tags st p) as Ev by by destruct st.
    rewrite Ev in Hx. rewrite Hx in Hk. destruct k as [|k]; simpl in Hk.
    + injection Hk as ->. destruct (inner_todo key (gr_view s p) p') as (_ & Mv & _); [by eapply pipe_act_step|].
      change (pipe_todo (gr_view s p)) with (pipe_todo p) in Mv.
      destruct (Mv st) as [[l Hl0]|(x & Hx' & Hlt)].
      * exfalso. rewrite Ev, Hx in Hl0. apply (f_equal length) in Hl0. rewrite length_app in Hl0. simpl in Hl0. lia.
      * rewrite Ev, Hx in Hx'. injection Hx' as <-. specialize (Hlt eq_refl).
        change (pipe_todo (gr_view s p)) with (pipe_todo p) in Hlt. lia.
    + right. exists k. split; [lia|]. split; [done|]. split; [lia|]. exists p'. simpl. by rewrite lookup_insert_eq.
  - intros s (Hl & _ & p & Hp & Hk). destruct (live_view s key p Hl Hp) as (I & _ & Hh).
    destruct (pipe_act_enabled key (gr_view s p) st I Hh) as (p' & Ha).
    + intros Hnil. assert (stage_tags st (gr_view s p) = stage_tags st p) as Ev by by destruct st.
      rewrite Ev in Hnil. by rewrite Hnil in Hk.
    + right. exists (gr_store s key p'), p, p'. done.
Qed.

Lemma dispatcher_ensures n key : leads_to e (at_dispatcher n key) (fun s => gr_blocked s \/ nearer n s).
Proof.
  apply (ensures step_without (gr_act key (Turn t)) e); [done|apply fair_e|..].
  - intros s s' St (Hl & Hn & p & Hp & Hh). assert (live s') as Hl' by (eapply live_step; [apply St|done]).
    destruct (step_without_todo _ _ St) as [Lt|[E K]]; [apply Hl|right; right; split; [done|lia]|].
    destruct (K key p Hp) as (p' & Hp' & _ & Kd). left. split; [done|]. split; [lia|]. eauto.
  - intros s s' (p0 & p' & Hp0 & Ha & ->) (Hl & Hn & p & Hp & Hh). assert (p0 = p) as -> by congruence.
    right. destruct (act_todo s key _ p p' Hp Ha Hl) as [Hl' [Lt|[E Et]]]; [split; [done|lia]|].
    apply act_turn_todo in Ha. change (pipe_todo (gr_view s p)) with (pipe_todo p) in Ha. lia.
  - intros s (Hl & _ & p & Hp & Hh). destruct (live_view s key p Hl Hp) as (_ & V & _).
    destruct (dp_turn_enabled t (pp_disp p) V Hh) as [Hb|(rs & w & T)]; [left; left; by exists key, p|].
    right. eexists _, p, _. split; [done|]. split; [by apply (act_turn key (gr_view s p))|done].
Qed.

Lemma stage_leads n key st k : leads_to e (at_stage n key st k) (nearer n).
Proof.
  induction k as [k IH] using lt_wf_ind. eapply leads_to_trans; [apply stage_ensures|].
  apply leads_to_or; [by apply leads_to_impl|]. apply leads_to_exists. intros k' m [Lt Hm]. by apply (IH k' Lt m).
Qed.

Definition stopped (s : gateway_run) : Prop := gr_todo s = 0 \/ gr_blocked s.

Lemma todo_leads n : leads_to e (fun s => live s /\ gr_todo s = n) (fun s => stopped s \/ nearer n s).
Proof.
  eapply leads_to_trans with (Q := fun s => gr_todo s = 0 \/
    ((exists key st k, at_stage n key st k s) \/ exists key, at_dispatcher n key s)).
  - apply leads_to_impl. intros s [Hl Hn]. destruct (decide (n = 0)) as [|Hz]; [left; lia|right].
    destruct (decide (map_Forall (fun _ p => pipe_todo p = 0) (gr_pipes s))) as [Hf|Hf].
    { exfalso. unfold gr_todo in Hn. rewrite total_nil in Hn; [simpl in Hn; lia|].
      intros key p Hp. by rewrite (Hf key p Hp). }
    apply map_not_Forall in Hf as (key & p & Hp & Hz'); [|apply _].
    destruct (todo_somewhere p) as [(st & k & Hk)|Hh]; [lia| |].
    + left. exists key, st, k. split; [done|]. eauto.
    + right. exists key. split; [done|]. eauto.
  - apply leads_to_or; [apply leads_to_impl; unfold stopped; auto|].
    apply leads_to_or; repeat (apply leads_to_exists; intros).
    + eapply leads_to_trans; [apply stage_leads|]. apply leads_to_impl. auto.
    + eapply leads_to_trans; [apply dispatcher_ensures|]. apply leads_to_impl. unfold stopped. tauto.
Qed.

(** Eventually nothing is left to do for [t], or it is blocked. *)
Lemma fair_finishes : live (e 0) -> exists m, stopped (e m).
Proof.
  intros Hl. destruct (leads_to_measure e gr_todo live stopped todo_leads 0 Hl) as (m & _ & Hm). eauto.
Qed.

End execution.

(** A request that has been sent, and that nobody sends again, is eventually
    answered as often as it was sent, or blocked, again and again. *)
Lemma fair_answers e n :
  execution (gr_step background) e -> fair e -> live (e 0) ->
  (forall m, n <= m -> occ t (gr_sent (e m)) = occ t (gr_sent (e n))) ->
  forall k, n <= k -> exists m, k <= m /\
    (occ t (gr_answered (e m)) = occ t (gr_sent (e n)) \/ gr_blocked (e m)).
Proof.
  intros He Hf Hl Hs k Hk.
  assert (forall i, live (e i)) as Ha.
  { induction i as [|i IH]; [done|]. destruct (He i) as [->|St]; [done|by eapply live_step]. }
  destruct (fair_finishes (fun i => e (k + i))) as (m & [Hz|Hb]).
  - intros i. rewrite Nat.add_succ_r. destruct (He (k + i)) as [|St]; [auto|right]. split; [done|].
    by rewrite (Hs (S (k + i))), (Hs (k + i)) by lia.
  - intros key ρ. by apply just_from.
  - apply Ha.
  - exists (k + m). split; [lia|left]. rewrite <- (Hs (k + m)) by lia.
    pose proof (todo_inside (e (k + m))) as Hi. destruct (Ha (k + m)) as [[_ P] _].
    apply (count_perm (fun x => bool_decide (x = t))) in P. rewrite count_app in P. fold (occ t) in P.
    unfold occ in *. lia.
  - exists (k + m). split; [lia|by right].
Qed.

(** ** Fair executions exist *)

Lemma idle_pipe key (s : gateway_run) p : gr_inside s = [] -> gr_pipes s !! key = Some p -> pipe_inside p = [].
Proof.
  intros Hi Hp. pose proof (total_split pipe_inside _ _ _ Hp) as P. fold (gr_inside s) in P. rewrite Hi in P.
  symmetry in P. apply Permutation_nil_r in P. by apply app_eq_nil in P as [P _].
Qed.

(** Nobody has anything to do when nothing is inside. *)
Lemma idle_no_act key ρ s s' : gr_inside s = [] -> ~ gr_act key ρ s s'.
Proof.
  intros Hi (p & p' & Hp & Ha & _). pose proof (idle_pipe key s p Hi Hp) as Hn.
  unfold pipe_inside, unrelayed, in_flight in Hn.
  apply app_eq_nil in Hn as [N1 [N2 [N3 N4]%app_eq_nil]%app_eq_nil].
  assert (forall st, stage_tags st p = []) as Hs by (intros []; done).
  assert (forall st, stage_role st <> ρ) as Hr.
  { intros st <-. apply act_takes in Ha as (x & Hx). assert (stage_tags st (gr_view s p) = stage_tags st p) as Ev
      by by destruct st. by rewrite Ev, Hs in Hx. }
  destruct ρ as [| | |t']; [by apply (Hr ExternalIn)|by apply (Hr InternalOut)|by apply (Hr InternalIn)|].
  inversion Ha as [| | |t0 rs w T]; subst. apply dp_turn_rank in T. simpl in T.
  assert (t' ∈ dp_held (pp_disp p)) as Hh by (apply dp_rank_held; lia). rewrite N3 in Hh. by apply not_elem_of_nil in Hh.
Qed.

(** Every clear state that a gateway can reach has a fair continuation, in which
    nothing more is sent. *)
Lemma fair_continuation s : live s -> gr_clear s ->
  exists e, execution (gr_step background) e /\ fair e /\ e 0 = s /\
  (forall n, Permutation (gr_sent (e n)) (gr_sent s)) /\ exists N, forall n, N <= n -> gr_inside (e n) = [].
Proof.
  intros [I Hk] Cl. destruct (gr_drain (gr_backlog s) s) as (s' & R & _ & _ & _ & Hi); [done|apply I|done|done|].
  destruct (path_execution _ _ _ R) as (e & N & He & E0 & HN & Hr). exists e. split_and!.
  - intros n. destruct (He n) as [|[key St]]; [auto|right]. by eapply gr_target.
  - intros key ρ n. exists (n + N). split; [lia|right]. rewrite HN by lia. intros [s2 Ha]. by eapply idle_no_act.
  - done.
  - intros n. specialize (Hr n). destruct I as [G _].
    assert (forall s1, gr_good s1 -> rtc (fun s s' => exists key, gr_inner s key s') s1 (e n) ->
      Permutation (gr_sent (e n)) (gr_sent s1)) as K; [|by apply K].
    intros s1 G1 R1. revert G1. induction R1 as [|s1 s2 s3 [key St] _ IH]; [done|]. intros G1.
    destruct (gr_inner_moves _ _ _ St G1) as (G2 & P & _). rewrite IH by done. done.
  - exists N. intros n Hn. by rewrite HN.
Qed.

(** A gateway to which one request is sent, and which then runs fairly. *)
Lemma fair_after_send s0 key req s1 : live s0 -> gr_clear s0 -> gr_sent s0 = [] -> gr_send s0 key req = Some s1 ->
  exists e, execution (gr_step background) e /\ fair e /\ e 0 = s0 /\
  (forall m, 1 <= m -> Permutation (gr_sent (e m)) [tag req]) /\ exists N, forall n, N <= n -> gr_inside (e n) = [].
Proof.
  intros Hl Cl Hn S1. assert (gr_step background s0 s1) as St by by eapply gr_client.
  destruct (fair_continuation s1) as (e & He & Hf & E0 & Hs & N & HN); [by eapply live_step|by eapply gr_send_clear|].
  exists (after_step s0 e). split_and!.
  - apply after_step_execution; [by rewrite E0|done].
  - intros k ρ. by apply after_step_just.
  - done.
  - intros [|m] Hm; [lia|]. simpl. destruct (gr_send_moves _ _ _ _ S1) as (_ & P & _); [apply Hl|].
    by rewrite Hs, P, Hn.
  - exists (S N). intros [|n] Hm; [lia|]. simpl. apply HN. lia.
Qed.

End fair_gateway.

(** ** The gateways of the repository *)

Section k8s.
Context {C : Type -> Type} `{CL : ChannLaws C}.
Context {M : Type -> Type} `{SML : SharedMapLaws M}.
Context {Q : Type -> Type} `{QL : WorkQueueLaws Q}.
Context {B Wn : Type} `{TimedBucketsOps B} `{TimeWindowOps Wn}.
Context {Conn E : Type} `{EL : ExecutorLaws Conn E}.
Variable background : option (autoscaler Q (KPADecider B Wn)) -> option (autoscaler Q (KPADecider B Wn)) -> Prop.

Lemma k8s_run_live readFile unmarshal (emptyq : Q string) timeout framework path text cfg targets g0 g s0 :
  path <> ""%string -> readFile path = Ok text -> unmarshal text = Ok cfg -> serving_config framework cfg ->
  NewK8sGateway readFile unmarshal emptyq timeout framework path = Ok g0 ->
  k8s_SetUp g0 (Ret (Ok targets)) None = Ret (Ok g) -> k8s_run (C := C) (M := M) (B := B) (Wn := Wn) (Conn := Conn) (E := E) g = Ret s0 ->
  live s0.
Proof.
  intros Hp Hr Hu Hs Hn Hg R0. destruct (k8s_run_start _ _ _ _ _ _ _ _ _ Hn Hg) as (s0' & R & I & Eh & D & _).
  rewrite R0 in R. injection R as <-. split; [done|].
  intros key Hk. rewrite Eh. eapply k8s_hooks_serve; eauto. by apply D.
Qed.

(** C3: every request to a Kubernetes gateway is answered, unless its execution is
    cut off from its executor.  In every execution that starves none of the
    goroutines (relays, receive loops, the dispatch of a request), however many
    requests keep coming and whatever pods, reconciliations and the autoscaler do,
    a request that was sent, and whose identity is not used again, eventually has
    its response on the output channel, as many times as it was sent, or else at
    arbitrarily late moments an execution of it waits for a connection from an
    empty pool of an executor that is being closed, since its pod was removed, or
    of which other executions hold all the connections (fifty of a gRPC one) that
    it added. *)
Theorem k8s_requests_answered readFile unmarshal (emptyq : Q string) timeout framework path text cfg targets g0 g s0
    e t n :
  (forall a a' key, background a a' -> hooks_ok key a -> hooks_ok key a') ->
  path <> ""%string -> readFile path = Ok text -> unmarshal text = Ok cfg -> serving_config framework cfg ->
  NewK8sGateway readFile unmarshal emptyq timeout framework path = Ok g0 ->
  k8s_SetUp g0 (Ret (Ok targets)) None = Ret (Ok g) -> k8s_run (C := C) (M := M) (B := B) (Wn := Wn) (Conn := Conn) (E := E) g = Ret s0 ->
  execution (gr_step background) e -> fair e -> e 0 = s0 ->
  (forall m, n <= m -> occ t (gr_sent (e m)) = occ t (gr_sent (e n))) ->
  forall k, n <= k -> exists m, k <= m /\
    (occ t (gr_answered (e m)) = occ t (gr_sent (e n)) \/
     exists key p, gr_pipes (e m) !! key = Some p /\ pd_blocked t (pp_disp p)).
Proof.
  intros Hb Hp Hr Hu Hs Hn Hg R0 He Hf E0 Ht. apply (fair_answers t background Hb e n He Hf); [|done].
  rewrite E0. by eapply k8s_run_live.
Qed.

End k8s.

Section knative.
Context {C : Type -> Type} `{CL : ChannLaws C}.
Context {Conn E : Type} `{CEL : ConcurrentExecutorLaws Conn E}.

(** C19: every request to a Knative gateway is answered.  Set up for a list of
    services and started, in every execution that starves none of its goroutines,
    whose executors serve many requests at a time, a request that was sent, and
    whose identity is not used again, eventually has its response on the output
    channel, as many times as it was sent. *)
Theorem knative_requests_answered newBackend timeout services (g : knativeGateway C E) s0 e t n :
  kn_SetUp newBackend (NewKnativeGateway timeout) services = Ret (Ok g) -> kn_run (Conn := Conn) g = Ret s0 ->
  execution (gr_step (fun _ _ => False)) e -> fair e -> e 0 = s0 ->
  (forall m, n <= m -> occ t (gr_sent (e m)) = occ t (gr_sent (e n))) ->
  exists m, n <= m /\ occ t (gr_answered (e m)) = occ t (gr_sent (e n)).
Proof.
  intros Hs R0 He Hf E0 Ht.
  destruct (fair_answers t (fun _ _ => False) (fun _ _ _ F => match F with end) e n He Hf) with (k := n)
    as (m & Hm & [Ha|(key & p & _ & [])]); [|done|done|eauto].
  destruct (kn_run_start _ _ _ _ Hs) as (s0' & R & I & _). rewrite R0 in R. injection R as <-.
  rewrite E0. split; [done|]. by intros key _.
Qed.

End knative.

(** ** Witnesses *)

#[local] Existing Instances demo_pods demo_pods_laws.

#[local] Instance demo_pods_fair : FairDispatcher (pd_world (M := gmap string) (C := list) (Conn := nat) (E := fakeBackend)) :=
  pod_dispatcher_fair (Conn := nat).

(** Nothing is blocked where nothing is inside. *)
Lemma idle_not_blocked (s : demo_k8s_run) t key p :
  gr_inside s = [] -> gr_pipes s !! key = Some p -> ~ pd_blocked t (pp_disp p).
Proof.
  intros Hi Hp (k & e & x & Hin & _). pose proof (idle_pipe key s p Hi Hp) as Hn.
  unfold pipe_inside, in_flight in Hn. apply app_eq_nil in Hn as [_ [_ [Hh _]%app_eq_nil]%app_eq_nil].
  apply app_eq_nil in Hh as [_ Hr]. destruct (pw_running (pp_disp p)); [set_solver|discriminate].
Qed.

Lemma k8s_requests_answered_witness :
  exists e : nat -> demo_k8s_run, fair e /\ exists m, occ ("0", "ns/app")%string (gr_answered (e m)) = 1.
Proof.
  destruct (k8s_run_start (Conn := nat) (E := fakeBackend) demo_read demo_unmarshal (mk_simple_wq [] [])
    (5 * Second)%Z "one-time" "config.yaml" demo_targets (demo_new_gateway "one-time")
    (demo_ready_gateway "one-time") eq_refl eq_refl) as (s0 & R & _ & _ & D & _ & Hs & _ & _ & Cl).
  assert (live s0) as Hl.
  { refine (k8s_run_live (Conn := nat) demo_read demo_unmarshal (mk_simple_wq [] []) (5 * Second)%Z "one-time"
      "config.yaml" "kpa: ..." (mkAutoscalerConfig (Some demo_config) None) demo_targets
      (demo_new_gateway "one-time") (demo_ready_gateway "one-time") s0 _ eq_refl eq_refl _ eq_refl eq_refl R);
      [discriminate|right; reflexivity]. }
  destruct (gr_send_known s0 "ns/app" (demo_req "0" "ns/app")) as [s1 S1]; [apply D; left|].
  destruct (fair_after_send (fun _ _ => False) (fun _ _ _ F => match F with end) s0 _ _ s1 Hl Cl Hs S1)
    as (e & He & Hf & E0 & P & N & HN).
  assert (forall m, 1 <= m -> occ ("0", "ns/app")%string (gr_sent (e m)) = 1) as Ho
    by (intros m Hm; unfold occ; rewrite (P m Hm); reflexivity).
  exists e. split; [exact Hf|].
  destruct (k8s_requests_answered (Conn := nat) (fun _ _ => False) demo_read demo_unmarshal (mk_simple_wq [] [])
    (5 * Second)%Z "one-time" "config.yaml" "kpa: ..." (mkAutoscalerConfig (Some demo_config) None) demo_targets
    (demo_new_gateway "one-time") (demo_ready_gateway "one-time") s0 e ("0", "ns/app")%string 1)
    with (k := S N) as (m & HkN & [Hm|(key & p & Hp & Hb)]).
  - intros a a' key [].
  - discriminate.
  - reflexivity.
  - reflexivity.
  - right. reflexivity.
  - reflexivity.
  - reflexivity.
  - exact R.
  - exact He.
  - exact Hf.
  - exact E0.
  - intros m Hm. rewrite (Ho m Hm), (Ho 1 (le_n 1)). reflexivity.
  - lia.
  - exists m. rewrite (Ho 1 (le_n 1)) in Hm. exact Hm.
  - exfalso. exact (idle_not_blocked (e m) _ key p (HN m ltac:(lia)) Hp Hb).
Defined.

Lemma knative_requests_answered_witness :
  exists e : nat -> gateway_run list (kn_world (Conn := nat) (E := fakeBackend)) unit,
    fair e /\ exists m, occ ("0", "ns/app")%string (gr_answered (e m)) = 1.
Proof.
  destruct (kn_SetUp (C := list) demo_new (NewKnativeGateway Second) demo_services) as [[g|err]| |] eqn:E;
    [|vm_compute in E; discriminate..].
  destruct (kn_run_start (Conn := nat) demo_new Second demo_services g E) as (s0 & R & I & D & _ & Hs & _).
  assert (live s0) as Hl by (split; [exact I|intros key _; exact Logic.I]).
  destruct (gr_send_known s0 "ns/app" (demo_req "0" "ns/app")) as [s1 S1]; [apply D; vm_compute; left|].
  destruct (fair_after_send (fun _ _ => False) (fun _ _ _ F => match F with end) s0 _ _ s1 Hl (fun key p _ => Logic.I) Hs S1)
    as (e & He & Hf & E0 & P & _).
  assert (forall m, 1 <= m -> occ ("0", "ns/app")%string (gr_sent (e m)) = 1) as Ho
    by (intros m Hm; unfold occ; rewrite (P m Hm); reflexivity).
  exists e. split; [exact Hf|].
  destruct (knative_requests_answered demo_new Second demo_services g s0 e ("0", "ns/app")%string 1 E R He Hf E0)
    as (m & _ & Hm).
  - intros m Hm. rewrite (Ho m Hm), (Ho 1 (le_n 1)). reflexivity.
  - exists m. rewrite (Ho 1 (le_n 1)) in Hm. exact Hm.
Defined.
