(* ===== verification/Replay.v ===== *)
(** * Package [replay] and the trace experiment

    Models [pkg/replay/worker.go] (the sharding of a trace over senders and the
    requests they send), [pkg/replay/client.go] (set-up, the reception and the
    tally of the responses) and the flags of [experiments/trace/main.go].  The
    goroutines that run them are in [Session.v]. *)

From Stdlib Require Import Ascii.
From S2P Require Import Prelude GoTypes Float64 Float64Facts Interfaces Kube Workload Summary Backend Gateway.

Local Open Scope Z_scope.

(** ** Workers *)

Definition maxInvocationsPerSecondPerSender : float64 := f64_of_Z 1000.

Definition sender_count (n : Z) : Z :=
  f64_to_int64 (f64_ceil (f64_div (f64_div (f64_of_Z n) (f64_of_Z 60)) maxInvocationsPerSecondPerSender)).

Record worker : Type := mkWorker {
  wk_target : string;
  wk_trace : TraceSpec;
  clientStartTime : Z;
  nSenders : Z;
  senderInvocations : list (list InvocationSpec)
}.

(** The loop that appends invocation [i] to bin [i % nSenders]. *)
Fixpoint shard (n i : Z) (invs : list InvocationSpec) (bins : list (list InvocationSpec)) :
    outcome (list (list InvocationSpec)) :=
  match invs with
  | [] => Ret bins
  | inv :: invs =>
      if n =? 0 then Panic "integer divide by zero"
      else
        let senderBin := Z.to_nat (rem64 i n) in
        match bins !! senderBin with
        | None => Panic "index out of range"
        | Some bin => shard n (i + 1) invs (<[senderBin := bin ++ [inv]]> bins)
        end
  end.

(** [make] panics for a negative length. *)
Definition newWorker (target : string) (trace : TraceSpec) : outcome worker :=
  let n := sender_count (Z.of_nat (length (Invocations trace))) in
  if n <? 0 then Panic "makeslice: len out of range"
  else
    bins ← shard n 0 (Invocations trace) (replicate (Z.to_nat n) []);
    Ret (mkWorker target trace zero_time n bins).

(** The instant at which an invocation is due, and its offset in the trace. *)
Definition trace_offset (arrivalTimeSec : float64) : Z :=
  f64_to_int64 (f64_mul arrivalTimeSec (f64_of_Z Second)).

Definition next (w : worker) (arrivalTimeSec : float64) : Z :=
  time_add (clientStartTime w) (trace_offset arrivalTimeSec).

(** [fmt.Sprintf("%s-%d/%d", ...)]. *)
Definition request_id (target : string) (senderID reqID : nat) : string :=
  target +:+ "-" +:+ pretty senderID +:+ "/" +:+ pretty reqID.

(** The requests of one sender; [clock reqID] is what the timer delivers. *)
Fixpoint send_loop (w : worker) (senderID reqID : nat) (clock : nat -> Z)
    (specs : list InvocationSpec) : list Request :=
  match specs with
  | [] => []
  | spec :: specs =>
      let now := clock reqID in
      mkRequest (request_id (wk_target w) senderID reqID) (wk_target w) (RuntimeMilliSec spec)
        now zero_time zero_time (time_sub now (clientStartTime w)) (trace_offset (ArrivalTimeSec spec))
      :: send_loop w senderID (S reqID) clock specs
  end.

Definition send (w : worker) (senderID : nat) (clock : nat -> Z) : outcome (list Request) :=
  match senderInvocations w !! senderID with
  | None => Panic "index out of range"
  | Some specs => Ret (send_loop w senderID 0 clock specs)
  end.

(** [replay] starts [nSenders] senders; these are their requests, by sender. *)
Definition replay (w : worker) (start : Z) (clock : nat -> nat -> Z) : outcome (list (list Request)) :=
  let w := mkWorker (wk_target w) (wk_trace w) start (nSenders w) (senderInvocations w) in
  foldr (fun i acc => reqs ← send w i (clock i); rest ← acc; Ret (reqs :: rest))
    (Ret []) (seq 0 (Z.to_nat (nSenders w))).

(** ** The client *)

(** [SetupWithManager]: the workers by key, in the order of the deployments. *)
Fixpoint assign_workers {C} (g : gatewayImpl C) (targets : list Deployment) (traces : list TraceSpec)
    (workers : gmap string worker) : outcome (gmap string worker) :=
  match targets, traces with
  | [], _ => Ret workers
  | target :: targets, trace :: traces =>
      let key := KeyFromObject (dep_meta target) in
      _ ← RequestChan g key;
      wrk ← newWorker key trace;
      assign_workers g targets traces (<[key := wrk]> workers)
  | _ :: _, [] => Panic "index out of range"
  end.

Definition client_Setup {C} (g : gatewayImpl C) (traces : list TraceSpec)
    (listed : result (list Deployment)) : outcome (result (gmap string worker)) :=
  match listed with
  | Err e => Ret (Err (errorf ("error listing deployments in client: " +:+ err_text e)))
  | Ok targets =>
      if (length traces <? length targets)%nat then
        Ret (Err (errorf ("mismatched deployments and traces: expected " +:+ pretty (length traces)
                          +:+ ", got " +:+ pretty (length targets))))
      else
        workers ← assign_workers g targets traces ∅;
        Ret (Ok workers)
  end.

(** A turn of [recv]. *)
Definition client_recv (res : Response) (now : Z) : Response :=
  mkResponse (Source res) (ResStatus res) (ResGatewayRecvTS res) now (RuntimeMicroSec res).

(** The tally of [write], and the lines it has written. *)
Record tally : Type := mkTally {
  nTotal : Z;
  nFailed : Z;
  written : list string
}.

(** A turn of the loop of [write].  [WriteString] is the method of the output
    file: what it returns may depend on the text and on the lines written so
    far. *)
Definition write_one (sampleOutputFactor : Z) (WriteString : list string -> string -> option error)
    (t : tally) (res : Response) : outcome tally :=
  let total := add64 (nTotal t) 1 in
  let failed := if bool_decide (ResStatus res = SUCCESS) then nFailed t else add64 (nFailed t) 1 in
  if sampleOutputFactor =? 0 then Panic "integer divide by zero"
  else if rem64 total sampleOutputFactor =? 0 then
    text ← Summary res;
    match WriteString (written t) text with
    | Some e => Panic ("Failed to write response: " +:+ err_text e)
    | None => Ret (mkTally total failed (written t ++ [text]))
    end
  else Ret (mkTally total failed (written t)).

(** The loop over the channel; a nil response ([None]) ends it. *)
Fixpoint write_loop (sampleOutputFactor : Z) (WriteString : list string -> string -> option error)
    (t : tally) (responses : list (option Response)) : outcome tally :=
  match responses with
  | [] | None :: _ => Ret t
  | Some res :: responses =>
      t ← write_one sampleOutputFactor WriteString t res;
      write_loop sampleOutputFactor WriteString t responses
  end.

(** The three numbers of the last line: total, success, fail. *)
Definition summary_line (t : tally) : Z * Z * Z := (nTotal t, nTotal t - nFailed t, nFailed t).

Definition summary_text (line : Z * Z * Z) : string :=
  let '(total, success, fail) := line in
  "Summary: total " +:+ pretty total +:+ " success " +:+ pretty success +:+ " fail " +:+ pretty fail +:+ newline.

(** The end of [write]: the last line. *)
Definition write_summary (WriteString : list string -> string -> option error) (t : tally) : outcome (Z * Z * Z) :=
  let line := summary_line t in
  match WriteString (written t) (summary_text line) with
  | Some e => Panic ("Failed to write request summary: " +:+ err_text e)
  | None => Ret line
  end.

Definition write (sampleOutputFactor : Z) (WriteString : list string -> string -> option error)
    (responses : list (option Response)) : outcome (tally * (Z * Z * Z)) :=
  t ← write_loop sampleOutputFactor WriteString (mkTally 0 0 []) responses;
  line ← write_summary WriteString t;
  Ret (t, line).

(** A file that takes all that is written to it. *)
Definition takes_all (_ : list string) (_ : string) : option error := None.

(** ** The flags of the trace experiment *)

Record flags : Type := mkFlags {
  backendFramework : string;
  gatewayFramework : string;
  autoscalerFramework : string;
  autoscalerConfig : string;
  traceLoaderConfig : string
}.

Definition validateFlags (f : flags) : outcome flags :=
  if bool_decide (traceLoaderConfig f = "") then Panic "must provide workload config"
  else if bool_decide (gatewayFramework f = "knative") then
    if bool_decide (backendFramework f = "") then
      Ret (mkFlags "grpc" (gatewayFramework f) "" "" (traceLoaderConfig f))
    else if negb (bool_decide (backendFramework f = "grpc")) then
      Fatal ("Only grpc backend is supported for knative gateway, got " +:+ backendFramework f)
    else Ret (mkFlags (backendFramework f) (gatewayFramework f) "" "" (traceLoaderConfig f))
  else if bool_decide (gatewayFramework f = "k8s") then
    if negb (bool_decide (autoscalerFramework f = "one-time"))
       && bool_decide (autoscalerConfig f = "") then
      Fatal ("Must provide config for " +:+ autoscalerFramework f +:+ " autoscaler")
    else if bool_decide (backendFramework f = "") then
      Ret (mkFlags "fake" (gatewayFramework f) (autoscalerFramework f) (autoscalerConfig f)
             (traceLoaderConfig f))
    else if negb (bool_decide (backendFramework f = "grpc"))
            && negb (bool_decide (backendFramework f = "fake")) then
      Fatal "Only fake/grpc backend is supported for k8s gateway"
    else Ret f
  else Fatal ("Unknown gateway framework " +:+ gatewayFramework f).

(** ** The number of senders *)

Lemma div_between (x : float64) (d lo hi e : Z) :
  finite64 x -> exact_int d -> 0 < d -> -1000 <= e <= 0 ->
  Z.abs lo <= 2 ^ 53 -> Z.abs hi <= 2 ^ 53 ->
  lo * P e * d <= fval x <= hi * P 0 * d ->
  finite64 (f64_div x (f64_of_Z d)) /\ lo * P e <= fval (f64_div x (f64_of_Z d)) <= hi * P 0.
Proof.
  intros Fx Ed Hd He Hlo Hhi Hb. by apply f64_div_within; [..|lia| | |].
Qed.

(** A trace of [n] invocations is spread over [n] divided by 60000, rounded up,
    senders: floating-point rounding never adds or drops one. *)
Lemma sender_count_exact n :
  0 <= n < 2 ^ 40 -> sender_count n = (n + 59999) / 60000.
Proof.
  intros Hn. set (m := (n + 59999) / 60000).
  assert (60000 * m - 60000 < n <= 60000 * m \/ n = 0 /\ m = 0) as Hm.
  { unfold m. pose proof (Z.div_mod (n + 59999) 60000). pose proof (Z.mod_pos_bound (n + 59999) 60000).
    destruct (Z.eq_dec n 0) as [->|]; [right; done|left; lia]. }
  destruct (Z.eq_dec n 0) as [->|N0]; [vm_compute; reflexivity|].
  assert (60000 * m - 60000 < n <= 60000 * m) as Hb by lia. clear Hm.
  pose proof (P_pos 0 ltac:(lia)) as P0. unfold sender_count, maxInvocationsPerSecondPerSender.
  assert (exists q, 0 < q /\ P (-16) = q /\ P (-6) = 1024 * q /\ P 0 = 65536 * q)
    as (q & Hq & Q16 & Q6 & Q0).
  { exists (P (-16)). rewrite (P_between (-16) (-6)), (P_between (-16) 0) by lia.
    pose proof (P_pos (-16) ltac:(lia)). simpl. lia. }
  destruct (f64_of_Z_exact n) as [Fn Vn]; [unfold exact_int; lia|].
  destruct (div_between (f64_of_Z n) 60 (64000 * (m - 1) + 1) (1000 * m) (-6)) as (F1 & L1 & U1);
    try done; try (unfold exact_int; lia); try lia.
  { rewrite Vn, Q6, Q0. nia. }
  set (x1 := f64_div (f64_of_Z n) (f64_of_Z 60)) in *. clearbody x1.
  destruct (div_between x1 1000 (65536 * (m - 1) + 1) m (-16)) as (F2 & L2 & U2);
    try done; try (unfold exact_int; lia); try lia.
  set (x2 := f64_div x1 (f64_of_Z 1000)) in *. clearbody x2.
  assert (zceil x2 = m) as Hz.
  { pose proof (zceil_bounds x2) as Z2. rewrite Q16 in L2. rewrite Q0 in U2, Z2. nia. }
  destruct (f64_ceil_spec x2 F2) as [F3 V3]. rewrite Hz in V3.
  apply f64_to_int64_integral; [done|done|]. unfold in_int64, min_int64, max_int64. lia.
Qed.

(** ** Sharding *)

(** The invocations whose index, counted from [i], is [j] modulo [n]. *)
Fixpoint every (n j i : Z) (invs : list InvocationSpec) : list InvocationSpec :=
  match invs with
  | [] => []
  | inv :: invs =>
      if i mod n =? j then inv :: every n j (i + 1) invs else every n j (i + 1) invs
  end.

Lemma shard_spec n i invs bins :
  0 < n -> 0 <= i -> Z.of_nat (length bins) = n ->
  exists bins', shard n i invs bins = Ret bins' /\ Z.of_nat (length bins') = n /\
  (forall j bin, bins !! j = Some bin -> bins' !! j = Some (bin ++ every n (Z.of_nat j) i invs)) /\
  Permutation (concat bins') (concat bins ++ invs).
Proof.
  intros Hn. revert i bins. induction invs as [|inv invs IH]; intros i bins Hi Hl; cbn [shard every].
  { exists bins. split_and!; try done; [intros j bin; by rewrite app_nil_r|by rewrite app_nil_r]. }
  destruct (Z.eqb_spec n 0); [lia|]. unfold rem64. rewrite Z.rem_mod_nonneg by lia.
  pose proof (Z.mod_pos_bound i n Hn) as Hm.
  destruct (lookup_lt_is_Some_2 bins (Z.to_nat (i mod n))) as [bin Hb]; [lia|]. rewrite Hb.
  destruct (IH (i + 1) (<[Z.to_nat (i mod n) := bin ++ [inv]]> bins)) as (bins' & E & L & S & Pm);
    [lia|by rewrite length_insert|].
  exists bins'. split_and!; [done|done| |].
  - intros j b Hj. destruct (Z.eqb_spec (i mod n) (Z.of_nat j)) as [Ej|Nj].
    + assert (j = Z.to_nat (i mod n)) as -> by lia. rewrite Hb in Hj. injection Hj as <-.
      rewrite (S _ (bin ++ [inv])); [by rewrite <- app_assoc|].
      apply list_lookup_insert_eq. lia.
    + apply S. rewrite list_lookup_insert_ne by lia. done.
  - rewrite Pm. rewrite <- (take_drop_middle _ _ _ Hb) at 2.
    rewrite insert_take_drop by lia. rewrite !concat_app. cbn [concat].
    rewrite <- !app_assoc. apply Permutation_app_head, Permutation_app_head. cbn [app].
    apply Permutation_middle.
Qed.

(** How many of the indices below [x] are [j] modulo [n]. *)
Definition below (n j x : Z) : Z := (x + n - 1 - j) / n.

Lemma below_succ n j x :
  0 <= j < n -> 0 <= x -> below n j (x + 1) = below n j x + (if x mod n =? j then 1 else 0).
Proof.
  intros Hj Hx. unfold below. pose proof (Z.div_mod x n ltac:(lia)) as D.
  pose proof (Z.mod_pos_bound x n ltac:(lia)). set (t := x / n) in *. set (r := x mod n) in *.
  destruct (Z.eqb_spec r j).
  - rewrite <- (Z.div_unique_pos (x + 1 + n - 1 - j) n (t + 1) 0) by lia.
    rewrite <- (Z.div_unique_pos (x + n - 1 - j) n t (n - 1)) by lia. lia.
  - destruct (Z_lt_le_dec r j).
    + rewrite <- (Z.div_unique_pos (x + 1 + n - 1 - j) n t (r + n - j)) by lia.
      rewrite <- (Z.div_unique_pos (x + n - 1 - j) n t (r + n - 1 - j)) by lia. lia.
    + rewrite <- (Z.div_unique_pos (x + 1 + n - 1 - j) n (t + 1) (r - j)) by lia.
      rewrite <- (Z.div_unique_pos (x + n - 1 - j) n (t + 1) (r - 1 - j)) by lia. lia.
Qed.

Lemma every_length n j i invs :
  0 <= j < n -> 0 <= i ->
  Z.of_nat (length (every n j i invs)) = below n j (i + Z.of_nat (length invs)) - below n j i.
Proof.
  intros Hj. revert i. induction invs as [|inv invs IH]; intros i Hi; cbn [every length].
  { rewrite Z.add_0_r. lia. }
  pose proof (below_succ n j i Hj Hi) as B. specialize (IH (i + 1) ltac:(lia)).
  replace (i + Z.of_nat (S (length invs))) with (i + 1 + Z.of_nat (length invs)) by lia.
  destruct (i mod n =? j); cbn [length]; lia.
Qed.

Lemma newWorker_ok target trace :
  Z.of_nat (length (Invocations trace)) < 2 ^ 40 ->
  exists w, newWorker target trace = Ret w /\
  nSenders w = (Z.of_nat (length (Invocations trace)) + 59999) / 60000 /\
  Z.of_nat (length (senderInvocations w)) = nSenders w /\
  (forall j bin, senderInvocations w !! j = Some bin ->
     bin = every (nSenders w) (Z.of_nat j) 0 (Invocations trace) /\
     Z.of_nat (length bin) <= 60000) /\
  Permutation (concat (senderInvocations w)) (Invocations trace).
Proof.
  intros Hlen. unfold newWorker. set (len := Z.of_nat (length (Invocations trace))) in *.
  rewrite sender_count_exact by lia. set (n := (len + 59999) / 60000).
  assert (0 <= n /\ len <= 60000 * n /\ (n = 0 -> len = 0)) as (Hn0 & Hcap & Hz).
  { unfold n. pose proof (Z.div_mod (len + 59999) 60000). pose proof (Z.mod_pos_bound (len + 59999) 60000).
    pose proof (Z.div_pos (len + 59999) 60000). lia. }
  destruct (Z.ltb_spec n 0); [lia|]. destruct (Z.eq_dec n 0) as [E0|N0].
  { specialize (Hz E0). assert (Invocations trace = []) as E by (apply length_zero_iff_nil; lia).
    rewrite E, E0. simpl. eexists. split; [done|]. simpl. split_and!; try done. }
  destruct (shard_spec n 0 (Invocations trace) (replicate (Z.to_nat n) [])) as (bins & E & L & S & Pm);
    [lia|lia|rewrite length_replicate; lia|].
  rewrite E. simpl. eexists. split; [done|]. simpl. split_and!; [done|done| |].
  - intros j bin Hj. pose proof (lookup_lt_Some _ _ _ Hj) as Hlt.
    assert (replicate (Z.to_nat n) ([] : list InvocationSpec) !! j = Some []) as Hr
      by (apply lookup_replicate; split; [done|lia]).
    specialize (S j [] Hr). rewrite Hj in S. injection S as ->. split; [done|].
    simpl. rewrite every_length by lia. fold len. unfold below.
    rewrite (Z.div_small (0 + n - 1 - Z.of_nat j)) by lia.
    assert ((0 + len + n - 1 - Z.of_nat j) / n <= 60000); [|lia].
    apply Z.lt_succ_r, Z.div_lt_upper_bound; lia.
  - rewrite Pm. replace (concat (replicate (Z.to_nat n) [])) with ([] : list InvocationSpec); [done|].
    clear. induction (Z.to_nat n); simpl; auto.
Qed.

(** A worker shards its trace over just enough senders.  For every trace of
    less than 2^40 invocations, [newWorker] succeeds with one sender per 60000
    invocations, rounded up; sender [j] gets the invocations with index [j]
    modulo the number of senders, in their order, at most 60000 of them, and
    together the senders have every invocation exactly once. *)
Theorem worker_shards_trace target trace :
  Z.of_nat (length (Invocations trace)) < 2 ^ 40 ->
  exists w, newWorker target trace = Ret w /\
  nSenders w = (Z.of_nat (length (Invocations trace)) + 59999) / 60000 /\
  Z.of_nat (length (senderInvocations w)) = nSenders w /\
  (forall j bin, senderInvocations w !! j = Some bin ->
     bin = every (nSenders w) (Z.of_nat j) 0 (Invocations trace) /\
     Z.of_nat (length bin) <= 60000) /\
  Permutation (concat (senderInvocations w)) (Invocations trace).
Proof. apply newWorker_ok. Qed.

(** ** The requests of a worker *)

Lemma pretty_N_char_no_slash n : Ascii.eqb (pretty_N_char n) "/" = false.
Proof. unfold pretty_N_char. by repeat case_match. Qed.

Lemma no_slash_pretty (n : nat) : no_slash (pretty n) = true.
Proof.
  assert (forall x s, no_slash s = true -> no_slash (pretty_N_go x s) = true) as G.
  { intros x. induction (N.lt_wf_0 x) as [x _ IH]; intros s Hs.
    assert (x = 0 \/ 0 < x)%N as [->|Hx] by lia; [done|].
    rewrite pretty_N_go_step by done. apply IH; [by apply N.div_lt|].
    simpl. by rewrite pretty_N_char_no_slash. }
  unfold pretty, pretty_nat, pretty, pretty_N. case_decide; [done|]. by apply G.
Qed.

Lemma request_id_inj target s1 r1 s2 r2 :
  request_id target s1 r1 = request_id target s2 r2 -> s1 = s2 /\ r1 = r2.
Proof.
  unfold request_id. intros E. apply (inj (String.append target)) in E.
  apply (inj (String.append "-")) in E.
  apply (f_equal split_slash) in E. rewrite !split_app in E by apply no_slash_pretty.
  rewrite !split_no_slash in E by apply no_slash_pretty. injection E as E1 E2.
  split; by apply (inj pretty).
Qed.

Lemma send_loop_spec w sid rid clock specs :
  let reqs := send_loop w sid rid clock specs in
  map ID reqs = map (request_id (wk_target w) sid) (seq rid (length specs)) /\
  map (fun r => (DurationMilliSec r, TraceRelTime r)) reqs =
    map (fun i => (RuntimeMilliSec i, trace_offset (ArrivalTimeSec i))) specs /\
  Forall (fun r => Target r = wk_target w) reqs.
Proof.
  revert rid. induction specs as [|spec specs IH]; intros rid; simpl; [split_and!; [done..|constructor]|].
  destruct (IH (S rid)) as (I1 & I2 & I3). split_and!; [by f_equal|by f_equal|by constructor].
Qed.

(** The senders from [i] on. *)
Lemma replay_senders w clock k i :
  (i + k = length (senderInvocations w))%nat ->
  exists reqss,
    foldr (fun i acc => reqs ← send w i (clock i); rest ← acc; Ret (reqs :: rest)) (Ret [])
      (seq i k) = Ret reqss /\
    Permutation (map (fun r => (DurationMilliSec r, TraceRelTime r)) (concat reqss))
      (map (fun v => (RuntimeMilliSec v, trace_offset (ArrivalTimeSec v)))
         (concat (drop i (senderInvocations w)))) /\
    Forall (fun r => Target r = wk_target w) (concat reqss) /\
    NoDup (map ID (concat reqss)) /\ length reqss = k /\
    (forall x, x ∈ map ID (concat reqss) -> exists s r, (i <= s)%nat /\ x = request_id (wk_target w) s r).
Proof.
  revert i. induction k as [|k IH]; intros i Hk; simpl.
  { exists []. rewrite drop_ge by lia. simpl. split_and!; try done; [constructor|set_solver]. }
  destruct (lookup_lt_is_Some_2 (senderInvocations w) i) as [specs Hs]; [lia|].
  assert (send w i (clock i) = Ret (send_loop w i 0 (clock i) specs)) as Hd
    by (unfold send; by rewrite Hs).
  rewrite Hd. simpl. destruct (IH (S i) ltac:(lia)) as (rest & E & Pm & Tg & Nd & Ln & Fr).
  rewrite E. simpl. eexists. split; [done|]. rewrite (drop_S _ _ _ Hs). simpl.
  destruct (send_loop_spec w i 0 (clock i) specs) as (L1 & L2 & L3).
  assert (forall x, x ∈ map ID (send_loop w i 0 (clock i) specs) ->
    exists r, x = request_id (wk_target w) i r) as Own.
  { intros x. rewrite L1, list_elem_of_fmap. intros (r & -> & _). eauto. }
  rewrite !map_app. split_and!.
  - by rewrite L2, Pm.
  - by apply Forall_app.
  - apply NoDup_app. split_and!; [| |done].
    + rewrite L1. apply NoDup_fmap_2; [|apply NoDup_seq]. intros a b [_ ?]%request_id_inj. done.
    + intros x Hx Hy. apply Own in Hx as [r ->]. apply Fr in Hy as (s & r' & Hle & Heq).
      apply request_id_inj in Heq as [-> _]. lia.
  - simpl. by rewrite Ln.
  - intros x [Hx|Hx]%elem_of_app.
    + apply Own in Hx as [r ->]. eauto.
    + apply Fr in Hx as (s & r & Hle & ->). exists s, r. split; [lia|done].
Qed.

Lemma replay_sends target trace start clock :
  Z.of_nat (length (Invocations trace)) < 2 ^ 40 ->
  exists w reqss, newWorker target trace = Ret w /\ replay w start clock = Ret reqss /\
  Z.of_nat (length reqss) = nSenders w /\
  Permutation (map (fun r => (DurationMilliSec r, TraceRelTime r)) (concat reqss))
    (map (fun v => (RuntimeMilliSec v, trace_offset (ArrivalTimeSec v))) (Invocations trace)) /\
  Forall (fun r => Target r = target) (concat reqss) /\
  NoDup (map ID (concat reqss)).
Proof.
  intros Hl. destruct (newWorker_ok target trace Hl) as (w & E & _ & L & _ & Pm).
  exists w. unfold replay. set (w' := mkWorker _ _ _ _ _).
  destruct (replay_senders w' clock (Z.to_nat (nSenders w)) 0) as (reqss & R & P1 & T1 & N1 & L1 & _);
    [simpl; lia|].
  exists reqss. assert (wk_target w = target) as Ht.
  { unfold newWorker in E. destruct (_ <? 0); [done|]. destruct (shard _ _ _ _); [|done..].
    by injection E as <-. }
  split_and!; [done|exact R| | |by rewrite <- Ht|done].
  - lia.
  - rewrite P1. simpl. by rewrite Pm.
Qed.

(** C21: a replay sends every invocation of the trace exactly once.  The senders
    of a worker together send one request per invocation, with its runtime and
    its offset in the trace and for the worker's target, and no two requests of
    a target have the same ID. *)
Theorem replay_sends_trace target trace start clock :
  Z.of_nat (length (Invocations trace)) < 2 ^ 40 ->
  exists w reqss, newWorker target trace = Ret w /\ replay w start clock = Ret reqss /\
  Z.of_nat (length reqss) = nSenders w /\
  Permutation (map (fun r => (DurationMilliSec r, TraceRelTime r)) (concat reqss))
    (map (fun v => (RuntimeMilliSec v, trace_offset (ArrivalTimeSec v))) (Invocations trace)) /\
  Forall (fun r => Target r = target) (concat reqss) /\
  NoDup (map ID (concat reqss)).
Proof. apply replay_sends. Qed.

(** ** The tally of the responses *)

Definition failed (res : Response) : bool := negb (bool_decide (ResStatus res = SUCCESS)).

Lemma add64_small a : 0 <= a < 2 ^ 62 -> add64 a 1 = a + 1.
Proof. intros H. unfold add64. apply int64_of_id. unfold in_int64, min_int64, max_int64. lia. Qed.

Lemma multiples_succ f x :
  0 < f -> 0 <= x -> (x + 1) / f = x / f + (if Z.rem (x + 1) f =? 0 then 1 else 0).
Proof.
  intros Hf Hx. rewrite Z.rem_mod_nonneg by lia.
  pose proof (Z.div_mod (x + 1) f ltac:(lia)) as D. pose proof (Z.mod_pos_bound (x + 1) f Hf).
  destruct (Z.eqb_spec ((x + 1) mod f) 0).
  - rewrite <- (Z.div_unique_pos x f ((x + 1) / f - 1) (f - 1)); lia.
  - rewrite <- (Z.div_unique_pos x f ((x + 1) / f) ((x + 1) mod f - 1)); lia.
Qed.

(** A turn counts its response, unless the file does not take the text of it. *)
Lemma write_one_spec f ws t res :
  0 < f -> 0 <= nFailed t <= nTotal t -> nTotal t + 1 < 2 ^ 62 ->
  Z.of_nat (length (written t)) = nTotal t / f ->
  (exists t', write_one f ws t res = Ret t' /\ nTotal t' = nTotal t + 1 /\
     nFailed t' = nFailed t + (if failed res then 1 else 0) /\
     Z.of_nat (length (written t')) = nTotal t' / f) \/
  (exists text e, ws (written t) text = Some e /\
     write_one f ws t res = Panic ("Failed to write response: " +:+ err_text e)).
Proof.
  intros Hf Hn Hl Hw. pose proof (multiples_succ f (nTotal t) Hf ltac:(lia)) as Q.
  unfold write_one, failed, rem64. destruct (Z.eqb_spec f 0); [lia|]. rewrite !add64_small by lia.
  destruct (Summary_total res) as [text ->]. cbn [mbind outcome_bind].
  destruct (Z.rem (nTotal t + 1) f =? 0) eqn:R.
  - destruct (ws (written t) text) as [e|] eqn:Ws; [right; eauto|left]. eexists. split; [done|]. simpl.
    rewrite length_app. simpl. destruct (bool_decide _); simpl; split_and!; lia.
  - left. eexists. split; [done|]. simpl. destruct (bool_decide _); simpl; split_and!; lia.
Qed.

Lemma write_spec f ws t responses :
  0 < f -> 0 <= nFailed t <= nTotal t -> nTotal t + Z.of_nat (length responses) < 2 ^ 62 ->
  Z.of_nat (length (written t)) = nTotal t / f ->
  (exists t', write_loop f ws t (Some <$> responses) = Ret t' /\
     nTotal t' = nTotal t + Z.of_nat (length responses) /\
     nFailed t' = nFailed t + Z.of_nat (count failed responses) /\
     Z.of_nat (length (written t')) = nTotal t' / f) \/
  (exists lines text e, ws lines text = Some e /\
     write_loop f ws t (Some <$> responses) = Panic ("Failed to write response: " +:+ err_text e)).
Proof.
  intros Hf. revert t. induction responses as [|res responses IH]; intros t Hn Hl Hw; cbn [write_loop fmap list_fmap].
  { left. exists t. simpl. split_and!; [done|lia|lia|done]. }
  cbn [length] in Hl. destruct (write_one_spec f ws t res Hf Hn ltac:(lia) Hw)
    as [(t1 & -> & T1 & T2 & T3)|(text & e & Ws & ->)]; [|right; eauto].
  cbn [mbind outcome_bind].
  destruct (IH t1) as [(t' & E & U1 & U2 & U3)|F]; [destruct (failed res); lia|lia|done| |by right].
  left. exists t'. cbn [length count]. destruct (failed res); split_and!; [done|lia|lia|done|done|lia|lia|done].
Qed.

(** The summary line counts every response.  For a positive sampling factor
    [write] panics only when the file does not take a line; otherwise its last
    line reports the number of responses, of successes and of failures, and one
    response in [factor] is written out. *)
Theorem summary_counts_responses f ws responses :
  0 < f -> Z.of_nat (length responses) < 2 ^ 62 ->
  (exists t, write f ws (Some <$> responses) =
     Ret (t, (Z.of_nat (length responses),
              Z.of_nat (length responses) - Z.of_nat (count failed responses),
              Z.of_nat (count failed responses))) /\
   Z.of_nat (length (written t)) = Z.of_nat (length responses) / f) \/
  (exists lines text e, ws lines text = Some e /\
     (write f ws (Some <$> responses) = Panic ("Failed to write response: " +:+ err_text e) \/
      write f ws (Some <$> responses) = Panic ("Failed to write request summary: " +:+ err_text e))).
Proof.
  intros Hf Hl. unfold write.
  destruct (write_spec f ws (mkTally 0 0 []) responses) as [(t & -> & T1 & T2 & T3)|(ls & x & e & Ws & ->)];
    [done|simpl; lia|simpl; lia|done| |right; naive_solver].
  cbn [mbind outcome_bind]. unfold write_summary.
  destruct (ws (written t) _) as [e|] eqn:Ws; [right; naive_solver|left].
  exists t. simpl in *. unfold summary_line. rewrite T3, T1, T2, !Z.add_0_l. done.
Qed.

(** ** Set-up of the client *)

Section client.
Context {C : Type -> Type}.
Implicit Types g : gatewayImpl C.

Lemma assign_workers_spec g targets traces ws :
  (length targets <= length traces)%nat ->
  Forall (fun t => exists c, RequestChan g (KeyFromObject (dep_meta t)) = Ret c) targets ->
  Forall (fun tr => Z.of_nat (length (Invocations tr)) < 2 ^ 40) traces ->
  NoDup (map (fun t => KeyFromObject (dep_meta t)) targets) ->
  exists ws', assign_workers g targets traces ws = Ret ws' /\
  (forall key, key ∉ map (fun t => KeyFromObject (dep_meta t)) targets -> ws' !! key = ws !! key) /\
  (forall i t tr, targets !! i = Some t -> traces !! i = Some tr ->
     exists w, ws' !! KeyFromObject (dep_meta t) = Some w /\ newWorker (KeyFromObject (dep_meta t)) tr = Ret w).
Proof.
  revert traces ws. induction targets as [|t targets IH]; intros traces ws Hl Hc Ht Hn.
  { exists ws. destruct traces; simpl; split_and!; done. }
  destruct traces as [|tr traces]; [simpl in Hl; lia|].
  apply Forall_cons in Hc as [[c Hc] Hcs]. apply Forall_cons in Ht as [Htr Hts].
  apply NoDup_cons in Hn as [Hk Hn]. cbn [assign_workers]. rewrite Hc. simpl.
  destruct (newWorker_ok (KeyFromObject (dep_meta t)) tr Htr) as (w & E & _). rewrite E. simpl.
  destruct (IH traces (<[KeyFromObject (dep_meta t) := w]> ws)) as (ws' & E' & K1 & K2);
    [simpl in Hl; lia|done..|].
  exists ws'. split_and!; [done| |].
  - intros key Hkey. simpl in Hkey. rewrite K1 by set_solver. apply lookup_insert_ne. set_solver.
  - intros [|i] t' tr'; simpl; [|apply K2].
    intros [= <-] [= <-]. exists w. split; [|done]. rewrite K1 by done. apply lookup_insert_eq.
Qed.

(** The client gives every deployment its own trace.  With more deployments
    than traces the set-up reports an error; otherwise, for registered targets
    with distinct keys, it succeeds, and the [i]-th deployment is replayed from
    the [i]-th trace, further traces being unused. *)
Theorem client_assigns_traces g traces targets :
  ((length traces < length targets)%nat ->
   exists e, client_Setup g traces (Ok targets) = Ret (Err e)) /\
  ((length targets <= length traces)%nat ->
   Forall (fun t => exists c, RequestChan g (KeyFromObject (dep_meta t)) = Ret c) targets ->
   Forall (fun tr => Z.of_nat (length (Invocations tr)) < 2 ^ 40) traces ->
   NoDup (map (fun t => KeyFromObject (dep_meta t)) targets) ->
   exists ws, client_Setup g traces (Ok targets) = Ret (Ok ws) /\
   (forall key, is_Some (ws !! key) <-> key ∈ map (fun t => KeyFromObject (dep_meta t)) targets) /\
   (forall i t tr, targets !! i = Some t -> traces !! i = Some tr ->
      exists w, ws !! KeyFromObject (dep_meta t) = Some w /\
                newWorker (KeyFromObject (dep_meta t)) tr = Ret w)).
Proof.
  unfold client_Setup. split.
  { intros Hl. apply Nat.ltb_lt in Hl. rewrite Hl. eauto. }
  intros Hl Hc Ht Hn. destruct (Nat.ltb_spec (length traces) (length targets)); [lia|].
  destruct (assign_workers_spec g targets traces ∅ Hl Hc Ht Hn) as (ws & E & K1 & K2).
  rewrite E. simpl. exists ws. split_and!; [done| |done].
  intros key. split.
  - intros [w Hw]. destruct (decide (key ∈ map (fun t => KeyFromObject (dep_meta t)) targets)) as [|N]; [done|].
    rewrite K1, lookup_empty in Hw by done. done.
  - rewrite list_elem_of_fmap. intros (t & -> & [i Hi]%list_elem_of_lookup).
    pose proof (lookup_lt_Some _ _ _ Hi). destruct (lookup_lt_is_Some_2 traces i) as [tr Htr]; [lia|].
    destruct (K2 i t tr Hi Htr) as (w & Hw & _). eauto.
Qed.

End client.

(** ** Flags *)

(** Flags that pass the validation name existing frameworks.  The gateway is
    one that the program knows, the backend one that [NewBackend] knows, so
    creating an executor never panics, and the Knative gateway is used with the
    gRPC backend and without autoscaler options. *)
Theorem validated_flags_exist f f' :
  validateFlags f = Ret f' ->
  (gatewayFramework f' = "k8s"%string \/
   gatewayFramework f' = "knative"%string /\ backendFramework f' = "grpc"%string /\
   autoscalerFramework f' = ""%string /\ autoscalerConfig f' = ""%string) /\
  (forall (C : Type -> Type) (HC : ChannOps C) (Conn : Type) (ep : string) (dial : string -> result Conn),
     exists r, NewBackend (C := C) (backendFramework f') ep dial = Ret r).
Proof.
  intros V. assert ((gatewayFramework f' = "k8s"%string \/
      gatewayFramework f' = "knative"%string /\ backendFramework f' = "grpc"%string /\
      autoscalerFramework f' = ""%string /\ autoscalerConfig f' = ""%string) /\
    (backendFramework f' = "fake"%string \/ backendFramework f' = "grpc"%string)) as [G Bk].
  { unfold validateFlags in V. repeat case_bool_decide; simplify_eq/=; naive_solver. }
  split; [done|]. intros C HC Conn ep dial. unfold NewBackend. destruct Bk as [-> | ->]; simpl; eauto.
Qed.

(** ** Witnesses *)

Definition demo_trace (n : nat) : TraceSpec := mkTrace 1 (replicate n (mkInvocation (f64_of_Z 0) 5)).

Lemma worker_shards_trace_witness :
  exists w, newWorker "ns/app" (demo_trace 3) = Ret w /\ nSenders w = 1.
Proof.
  assert (Z.of_nat (length (Invocations (demo_trace 3))) < 2 ^ 40) as L by reflexivity.
  destruct (worker_shards_trace "ns/app" (demo_trace 3) L) as (w & E & N & _).
  exists w. split; [exact E|exact N].
Defined.

Lemma replay_sends_trace_witness :
  exists w reqss, newWorker "ns/app" (demo_trace 3) = Ret w /\
    replay w (10 * Second) (fun _ _ => 11 * Second) = Ret reqss /\ NoDup (map ID (concat reqss)).
Proof.
  assert (Z.of_nat (length (Invocations (demo_trace 3))) < 2 ^ 40) as L by reflexivity.
  destruct (replay_sends_trace "ns/app" (demo_trace 3) (10 * Second) (fun _ _ => 11 * Second) L)
    as (w & reqss & E & R & _ & _ & _ & N).
  exists w, reqss. split; [exact E|]. split; [exact R|exact N].
Defined.

Definition demo_response (status : ResponseStatus) : Response :=
  mkResponse (mkRequest "0" "ns/app" 5 0 0 0 0 0) status 0 0 0.

Lemma summary_counts_responses_witness :
  exists t, write 1 takes_all [Some (demo_response SUCCESS); Some (demo_response FAIL_TIMEOUT)] =
    Ret (t, (2, 1, 1)).
Proof.
  destruct (summary_counts_responses 1 takes_all [demo_response SUCCESS; demo_response FAIL_TIMEOUT]
    ltac:(lia) ltac:(reflexivity)) as [(t & E & _)|(ls & x & e & Ws & _)]; [|discriminate Ws].
  exists t. exact E.
Defined.

Definition demo_deploy (app : string) : Deployment :=
  mkDeployment (mkMeta "ns" app "u" "1" {["app" := app]} ∅ None) (Some 0) {["app" := app]}.

Lemma client_assigns_traces_witness :
  exists ws, client_Setup (register (newGatewayImpl (C := list)) "ns/app") [demo_trace 1; demo_trace 2]
    (Ok [demo_deploy "app"]) = Ret (Ok ws).
Proof.
  destruct (proj2 (client_assigns_traces (register (newGatewayImpl (C := list)) "ns/app")
    [demo_trace 1; demo_trace 2] [demo_deploy "app"])) as (ws & E & _).
  - simpl. lia.
  - repeat constructor. eexists. vm_compute. reflexivity.
  - repeat constructor.
  - apply NoDup_singleton.
  - exists ws. exact E.
Defined.

Lemma validated_flags_exist_witness :
  exists r, NewBackend (C := list) (Conn := nat) "fake" "10.0.0.1:80" (fun _ => Ok 0%nat) = Ret r.
Proof.
  exact (proj2 (validated_flags_exist (mkFlags "" "k8s" "one-time" "" "config/loader.json")
    (mkFlags "fake" "k8s" "one-time" "" "config/loader.json") eq_refl) list _ nat "10.0.0.1:80"
    (fun _ => Ok 0%nat)).
Defined.
