(* ===== verification/Session.v ===== *)
(** * A session of the trace experiment

    The end of [experiments/trace/main.go] with the replay client of
    [pkg/replay/client.go] and a running gateway: the senders, the relays, the
    dispatchers, the goroutines [recv] and [write] of the client and the main
    goroutine, from [client.Start] to the end of the process.  A rule of
    [ss_act] is a turn of one of them; it may end in a panic, as sending on a
    channel does that [Close] of [pkg/gateway/interface.go] has closed, writing
    to a file that takes no more, creating the backend of a pod or scaling
    against an API server that has compacted its history. *)

From S2P Require Import Prelude GoTypes Float64 Float64Facts Interfaces Kube Workload Metric.
From S2P Require Import Decider Backend Autoscaler Dispatcher Gateway Pipeline GatewayRun Replay.

Local Open Scope nat_scope.

(** ** Closing the channels of a gateway *)

Record closed_channels : Type := mkClosed {
  cl_output : bool;
  cl_inputs : gset string
}.

Definition none_closed : closed_channels := mkClosed false ∅.

Definition send_on_closed {X} : outcome X := Panic "send on closed channel".

(** ** The senders *)

(** A goroutine of [send], with the requests that it has yet to send. *)
Record sender : Type := mkSender {
  sd_target : string;
  sd_todo : list Request
}.

(** [Start] of the client: the senders of all workers. *)
Definition client_start (workers : list (string * worker)) (start : Z) (clock : string -> nat -> nat -> Z) :
    outcome (list sender) :=
  foldr (fun kw acc =>
    reqss ← replay kw.2 start (clock kw.1);
    rest ← acc;
    Ret (map (mkSender (wk_target kw.2)) reqss ++ rest)) (Ret []) workers.

(** ** The state *)

Inductive main_pc : Type :=
| MainSelect
| MainGrace
| MainCancelled
| MainClosed
| MainFinished.

Global Instance main_pc_eq_dec : EqDecision main_pc.
Proof. solve_decision. Defined.

Section session.
Context {C : Type -> Type} `{CL : ChannLaws C}.
Context {W : Type} `{WL : DispatcherLaws W}.
Context {A : Type} `{GatewayHooks A}.

(** [ss_cancelled]: the context is done.  [ss_stopped]: the relays that have
    returned.  [ss_recv_done]: [recv] has returned and closed [ss_writer], the
    channel of [write].  [ss_summary]: the last line of the output file, written
    just before [finishRecv] is closed.  [ss_counted] remembers the responses
    that [write] has counted. *)
Record session : Type := mkSession {
  ss_main : main_pc;
  ss_cancelled : bool;
  ss_gateway : gateway_run C W A;
  ss_closed : closed_channels;
  ss_stopped : gset string;
  ss_senders : list sender;
  ss_finishSend : bool;
  ss_writer : C Response;
  ss_recv_done : bool;
  ss_tally : tally;
  ss_counted : list Response;
  ss_summary : option (Z * Z * Z)
}.

Definition session_start (g : gateway_run C W A) (senders : list sender) : session :=
  mkSession MainSelect false g none_closed ∅ senders false ch_new false (mkTally 0 0 []) [] None.

Definition with_gateway (s : session) (g : gateway_run C W A) : session :=
  mkSession (ss_main s) (ss_cancelled s) g (ss_closed s) (ss_stopped s) (ss_senders s) (ss_finishSend s)
    (ss_writer s) (ss_recv_done s) (ss_tally s) (ss_counted s) (ss_summary s).

Definition with_main (s : session) (pc : main_pc) (cancelled : bool) (closed : closed_channels) : session :=
  mkSession pc cancelled (ss_gateway s) closed (ss_stopped s) (ss_senders s) (ss_finishSend s)
    (ss_writer s) (ss_recv_done s) (ss_tally s) (ss_counted s) (ss_summary s).

Definition with_stopped (s : session) (stopped : gset string) : session :=
  mkSession (ss_main s) (ss_cancelled s) (ss_gateway s) (ss_closed s) stopped (ss_senders s)
    (ss_finishSend s) (ss_writer s) (ss_recv_done s) (ss_tally s) (ss_counted s) (ss_summary s).

Definition with_senders (s : session) (senders : list sender) (finishSend : bool) : session :=
  mkSession (ss_main s) (ss_cancelled s) (ss_gateway s) (ss_closed s) (ss_stopped s) senders finishSend
    (ss_writer s) (ss_recv_done s) (ss_tally s) (ss_counted s) (ss_summary s).

(** [Close]: the output and the input of every registered target. *)
Definition Close (g : gateway_run C W A) : closed_channels := mkClosed true (dom (gr_pipes g)).

(** ** The turns of the goroutines *)

(** A sender sends its next request. *)
Definition sender_sends (s : session) (before : list sender) (target : string) (req : Request)
    (todo : list Request) (after : list sender) : outcome session :=
  if bool_decide (target ∈ cl_inputs (ss_closed s)) then send_on_closed
  else
    match gr_send (ss_gateway s) target req with
    | None => nil_deref
    | Some g =>
        Ret (with_gateway (with_senders s (before ++ mkSender target todo :: after) (ss_finishSend s)) g)
    end.

Definition store_relay (s : session) (key : string) (p : pipe C W A) (r : relay_state C) (a : A) : session :=
  with_gateway s (gr_store (ss_gateway s) key (mkPipe r (pp_disp p) a (pp_sent p))).

(** The next request is for another target, so the relay answers it. *)
Definition next_is_foreign (key : string) (r : relay_state C) : bool :=
  match ch_recv (rl_ext_in r) with
  | Some (req, _) => negb (bool_decide (Target req = key))
  | None => false
  end.

(** The cases of the select of [relay]; [None]: the case is not ready.  A closed
    and empty input delivers a nil request. *)
Definition relay_turn_in (s : session) (key : string) (p : pipe C W A) (t1 t2 : Z) :
    option (outcome session) :=
  let r := pp_relay (gr_view (ss_gateway s) p) in
  match relay_in key r (gr_hooks (ss_gateway s)) t1 t2 with
  | None => if bool_decide (key ∈ cl_inputs (ss_closed s)) then Some nil_deref else None
  | Some (Ret (r', a)) =>
      if cl_output (ss_closed s) && next_is_foreign key r then Some send_on_closed
      else Some (Ret (store_relay s key p r' a))
  | Some (Panic msg) => Some (Panic msg)
  | Some (Fatal msg) => Some (Fatal msg)
  end.

Definition relay_turn_out (s : session) (key : string) (p : pipe C W A) (t1 : Z) : option (outcome session) :=
  match relay_out (pp_relay (gr_view (ss_gateway s) p)) (gr_hooks (ss_gateway s)) t1 with
  | None => None
  | Some (Ret (r', a)) =>
      if cl_output (ss_closed s) then Some send_on_closed else Some (Ret (store_relay s key p r' a))
  | Some (Panic msg) => Some (Panic msg)
  | Some (Fatal msg) => Some (Fatal msg)
  end.

(** A turn of the loop of [recv], and its end. *)
Definition recv_turn (s : session) (now : Z) : option session :=
  if ss_recv_done s then None
  else
    match ch_recv (gr_out (ss_gateway s)) with
    | Some (res, out) =>
        Some (mkSession (ss_main s) (ss_cancelled s)
                (mkGR (gr_pipes (ss_gateway s)) out (gr_hooks (ss_gateway s))) (ss_closed s) (ss_stopped s)
                (ss_senders s) (ss_finishSend s) (ch_send (ss_writer s) (client_recv res now)) false
                (ss_tally s) (ss_counted s) (ss_summary s))
    | None =>
        if cl_output (ss_closed s) then
          Some (mkSession (ss_main s) (ss_cancelled s) (ss_gateway s) (ss_closed s) (ss_stopped s)
                  (ss_senders s) (ss_finishSend s) (ss_writer s) true (ss_tally s) (ss_counted s)
                  (ss_summary s))
        else None
    end.

(** A turn of the loop of [write], and its end, which closes [finishRecv]. *)
Definition write_turn (factor : Z) (WriteString : list string -> string -> option error) (s : session) :
    option (outcome session) :=
  match ss_summary s with
  | Some _ => None
  | None =>
      match ch_recv (ss_writer s) with
      | Some (res, writer) =>
          Some (t ← write_one factor WriteString (ss_tally s) res;
                Ret (mkSession (ss_main s) (ss_cancelled s) (ss_gateway s) (ss_closed s) (ss_stopped s)
                       (ss_senders s) (ss_finishSend s) writer (ss_recv_done s) t (ss_counted s ++ [res])
                       None))
      | None =>
          if ss_recv_done s then
            Some (line ← write_summary WriteString (ss_tally s);
                  Ret (mkSession (ss_main s) (ss_cancelled s) (ss_gateway s) (ss_closed s) (ss_stopped s)
                         (ss_senders s) (ss_finishSend s) (ss_writer s) true (ss_tally s) (ss_counted s)
                         (Some line)))
          else None
      end
  end.

(** The main goroutine after the client was started: it waits for a signal or
    for the end of the senders, cancels the context, closes the gateway and
    waits for [finishRecv]. *)
Definition main_turns (s : session) : list session :=
  match ss_main s with
  | MainSelect =>
      (if ss_cancelled s then [with_main s MainCancelled true (ss_closed s)] else []) ++
      (if ss_finishSend s then [with_main s MainGrace (ss_cancelled s) (ss_closed s)] else [])
  | MainGrace => [with_main s MainCancelled true (ss_closed s)]
  | MainCancelled => [with_main s MainClosed (ss_cancelled s) (Close (ss_gateway s))]
  | MainClosed =>
      match ss_summary s with
      | Some _ => [with_main s MainFinished (ss_cancelled s) (ss_closed s)]
      | None => []
      end
  | MainFinished => []
  end.

(** The turns of the goroutines of the autoscaler, and how they end. *)
Variable background : A -> outcome A -> Prop.
Variable sampleFactor : Z.

Definition after_background (s : session) (o : outcome A) : outcome session :=
  a ← o; Ret (with_gateway s (mkGR (gr_pipes (ss_gateway s)) (gr_out (ss_gateway s)) a)).

Inductive ss_act (s : session) : outcome session -> Prop :=
| act_send before target req todo after :
    ss_senders s = before ++ mkSender target (req :: todo) :: after ->
    ss_act s (sender_sends s before target req todo after)
| act_finish_send :
    Forall (fun sd => sd_todo sd = []) (ss_senders s) -> ss_finishSend s = false ->
    ss_act s (Ret (with_senders s (ss_senders s) true))
| act_relay_in key p t1 t2 o :
    gr_pipes (ss_gateway s) !! key = Some p -> key ∉ ss_stopped s ->
    relay_turn_in s key p t1 t2 = Some o -> ss_act s o
| act_relay_out key p t1 o :
    gr_pipes (ss_gateway s) !! key = Some p -> key ∉ ss_stopped s ->
    relay_turn_out s key p t1 = Some o -> ss_act s o
| act_relay_stop key :
    ss_cancelled s = true -> key ∈ dom (gr_pipes (ss_gateway s)) ->
    ss_act s (Ret (with_stopped s ({[key]} ∪ ss_stopped s)))
| act_disp key p p' :
    gr_pipes (ss_gateway s) !! key = Some p -> disp_step (gr_view (ss_gateway s) p) p' ->
    ss_act s (Ret (with_gateway s (gr_store (ss_gateway s) key p')))
| act_disp_panic key p m :
    gr_pipes (ss_gateway s) !! key = Some p -> dp_fails (pp_disp p) m -> ss_act s (Panic m)
| act_background o : background (gr_hooks (ss_gateway s)) o -> ss_act s (after_background s o)
| act_recv now s' : recv_turn s now = Some s' -> ss_act s (Ret s')
| act_write ws o : write_turn sampleFactor ws s = Some o -> ss_act s o
| act_signal : ss_act s (Ret (with_main s (ss_main s) true (ss_closed s)))
| act_main s' : s' ∈ main_turns s -> ss_act s (Ret s').

(** The process ends with the main goroutine. *)
Definition ss_step (s : session) (o : outcome session) : Prop := ss_main s <> MainFinished /\ ss_act s o.

Definition ss_runs : session -> session -> Prop := rtc (fun s s' => ss_step s (Ret s')).

(** ** Where the requests are *)

Definition tags (responses : list Response) : list (string * string) :=
  map (fun res => tag (Source res)) responses.

Definition unsent (senders : list sender) : list (string * string) :=
  map tag (concat (map sd_todo senders)).

(** [write] has counted the responses [counted]. *)
Record tally_of (counted : list Response) (t : tally) : Prop := {
  to_total : nTotal t = Z.of_nat (length counted);
  to_failed : nFailed t = Z.of_nat (count failed counted);
  to_written : Z.of_nat (length (written t)) = (nTotal t / sampleFactor)%Z
}.

Definition main_closed (pc : main_pc) : bool :=
  match pc with MainClosed | MainFinished => true | _ => false end.

Record ss_inv (all : list (string * string)) (s : session) : Prop := {
  si_good : gr_good (ss_gateway s);
  si_conserved : Permutation all
    (unsent (ss_senders s) ++ gr_inside (ss_gateway s) ++ tags (ch_items (gr_out (ss_gateway s))) ++
     tags (ch_items (ss_writer s)) ++ tags (ss_counted s));
  si_tally : tally_of (ss_counted s) (ss_tally s);
  si_closed : ss_closed s = if main_closed (ss_main s) then Close (ss_gateway s) else none_closed;
  si_recv : ss_recv_done s = true -> cl_output (ss_closed s) = true /\ ch_items (gr_out (ss_gateway s)) = [];
  si_summary : forall line, ss_summary s = Some line ->
    ss_recv_done s = true /\ ch_items (ss_writer s) = [] /\ line = summary_line (ss_tally s);
  si_finished : ss_main s = MainFinished -> is_Some (ss_summary s);
  si_sent : ss_finishSend s = true -> Forall (fun sd => sd_todo sd = []) (ss_senders s)
}.

Lemma tags_app l1 l2 : tags (l1 ++ l2) = tags l1 ++ tags l2.
Proof. apply map_app. Qed.

Lemma unsent_cons before target req todo after :
  Permutation (unsent (before ++ mkSender target (req :: todo) :: after))
    (tag req :: unsent (before ++ mkSender target todo :: after)).
Proof.
  unfold unsent. rewrite !map_app, !concat_app. simpl. rewrite !map_app. simpl. rewrite !map_app. perm.
Qed.

Lemma no_todo_unsent senders : Forall (fun sd => sd_todo sd = []) senders -> unsent senders = [].
Proof.
  unfold unsent. induction 1 as [|sd senders Hd _ IH]; [done|]. simpl. by rewrite Hd.
Qed.

(** A turn of a relay that does not panic is a step of the gateway. *)
Lemma relay_turn_in_gateway s key p t1 t2 s' :
  gr_pipes (ss_gateway s) !! key = Some p -> relay_turn_in s key p t1 t2 = Some (Ret s') ->
  exists g, s' = with_gateway s g /\ gr_inner (ss_gateway s) key g /\
    (cl_output (ss_closed s) = true -> ch_items (gr_out g) = ch_items (gr_out (ss_gateway s))).
Proof.
  intros Hp. unfold relay_turn_in. destruct (relay_in _ _ _ _ _) as [[[r a]|msg|msg]|] eqn:R; try done.
  2: { by case_bool_decide. }
  destruct (cl_output (ss_closed s) && _) eqn:F; [done|]. intros [= <-]. eexists. split_and!; [done| |].
  - apply (gr_relay _ key p); [done|]. by eapply (relay_takes_request key (gr_view (ss_gateway s) p)).
  - intros Hc. rewrite Hc in F. simpl in F. unfold next_is_foreign in F.
    apply relay_in_spec in R as (req & Hi & _ & _ & [(Ne & _)|(_ & _ & Ho & _)]); [|simpl; by rewrite Ho].
    destruct (ch_recv_cons _ _ _ Hi) as (c & Rc & _). simpl in Rc, F. rewrite Rc in F.
    by rewrite bool_decide_eq_false_2 in F.
Qed.

Lemma relay_turn_out_gateway s key p t1 s' :
  gr_pipes (ss_gateway s) !! key = Some p -> relay_turn_out s key p t1 = Some (Ret s') ->
  cl_output (ss_closed s) = false /\ exists g, s' = with_gateway s g /\ gr_inner (ss_gateway s) key g.
Proof.
  intros Hp. unfold relay_turn_out. destruct (relay_out _ _ _) as [[[r a]|msg|msg]|] eqn:R; try done.
  destruct (cl_output (ss_closed s)); [done|]. intros [= <-]. split; [done|]. eexists. split; [done|].
  apply (gr_relay _ key p); [done|]. by eapply (relay_takes_response key (gr_view (ss_gateway s) p)).
Qed.

(** A step of the gateway keeps the invariant, unless it sends on a closed
    output. *)
Lemma gateway_inv all s key g :
  ss_inv all s -> gr_inner (ss_gateway s) key g ->
  (cl_output (ss_closed s) = true -> ch_items (gr_out g) = ch_items (gr_out (ss_gateway s))) ->
  ss_inv all (with_gateway s g).
Proof.
  intros [] St Hc. destruct (gr_inner_moves _ _ _ St si_good0) as (G & _ & Dm & res & Ho & P).
  split; simpl; try done.
  - rewrite si_conserved0, P, Ho, tags_app. unfold tags. perm.
  - rewrite si_closed0. unfold Close. by rewrite Dm.
  - intros Hr. destruct (si_recv0 Hr) as [Hcl He]. split; [done|]. by rewrite Hc.
Qed.

(** [write] panics because the output file does not take a line. *)
Definition file_error (o : outcome session) : Prop :=
  exists e, o = Panic ("Failed to write response: " +:+ err_text e) \/
            o = Panic ("Failed to write request summary: " +:+ err_text e).

Lemma write_one_ok ws counted t res :
  (0 < sampleFactor)%Z -> (Z.of_nat (length counted) + 1 < 2 ^ 62)%Z -> tally_of counted t ->
  (exists t', write_one sampleFactor ws t res = Ret t' /\ tally_of (counted ++ [res]) t') \/
  (exists text e, ws (written t) text = Some e /\
     write_one sampleFactor ws t res = Panic ("Failed to write response: " +:+ err_text e)).
Proof.
  intros Hf Hl [T1 T2 T3]. pose proof (count_le_length failed counted).
  destruct (write_one_spec sampleFactor ws t res Hf) as [(t' & E & U1 & U2 & U3)|F]; [lia|lia|done| |by right].
  left. exists t'. split; [done|]. split; [rewrite length_app; simpl; lia| |done]. rewrite count_snoc.
  destruct (failed res); lia.
Qed.

Lemma client_recv_tag res now : tags [client_recv res now] = tags [res].
Proof. done. Qed.

Lemma recv_inv all s now s' : ss_inv all s -> recv_turn s now = Some s' -> ss_inv all s'.
Proof.
  intros []. unfold recv_turn. destruct (ss_recv_done s) eqn:Hd; [done|].
  destruct (ch_recv (gr_out (ss_gateway s))) as [[res out]|] eqn:R.
  - apply ch_recv_some in R. intros [= <-]. split; simpl; try done.
    + rewrite si_conserved0, R, ch_items_send, tags_app, client_recv_tag.
      change (gr_inside (mkGR _ _ _)) with (gr_inside (ss_gateway s)). unfold tags. perm.
    + intros line Hl. by destruct (si_summary0 line Hl).
  - apply ch_recv_none in R. destruct (cl_output (ss_closed s)) eqn:Hc; [|done]. intros [= <-].
    split; simpl; try done. intros line Hl. by destruct (si_summary0 line Hl).
Qed.

Hypothesis factor_pos : (0 < sampleFactor)%Z.

Lemma counted_length all s : ss_inv all s -> length (ss_counted s) + length (ch_items (ss_writer s)) <= length all.
Proof.
  intros []. rewrite (Permutation_length si_conserved0), !length_app. unfold tags. rewrite !length_map. lia.
Qed.

(** [write] panics only when the file does not take a line, and counts what it
    takes from the channel. *)
Lemma write_inv all ws s o :
  (Z.of_nat (length all) < 2 ^ 62)%Z -> ss_inv all s -> write_turn sampleFactor ws s = Some o ->
  (exists s', o = Ret s' /\ ss_inv all s') \/
  (exists lines text e, ws lines text = Some e) /\ file_error o.
Proof.
  intros Hall I. pose proof (counted_length all s I) as Hlen. destruct I. unfold write_turn.
  destruct (ss_summary s) as [line|] eqn:Hs; [done|].
  destruct (ch_recv (ss_writer s)) as [[res w]|] eqn:R.
  - apply ch_recv_some in R. rewrite R in Hlen. simpl in Hlen.
    destruct (write_one_ok ws (ss_counted s) (ss_tally s) res) as [(t & E & T)|(x & e & Ws & E)];
      [done|lia|done|..]; rewrite E; simpl; intros [= <-].
    + left. eexists. split; [done|]. split; simpl; try done.
      rewrite si_conserved0, R, tags_app. unfold tags. perm.
    + right. split; [eauto|]. exists e. by left.
  - apply ch_recv_none in R. destruct (ss_recv_done s) eqn:Hd; [|done]. unfold write_summary.
    destruct (ws _ _) as [e|] eqn:Ws; simpl; intros [= <-].
    + right. split; [eauto|]. exists e. by right.
    + left. eexists. split; [done|]. split; simpl; try done. intros line [= <-]. done.
Qed.

Lemma sends_inv all s before target req todo after s' :
  ss_inv all s -> ss_senders s = before ++ mkSender target (req :: todo) :: after ->
  sender_sends s before target req todo after = Ret s' -> ss_inv all s'.
Proof.
  intros [] Hs. unfold sender_sends. case_bool_decide; [done|].
  destruct (gr_send (ss_gateway s) target req) as [g|] eqn:Se; [|done]. intros [= <-].
  destruct (gr_send_moves _ _ _ _ Se si_good0) as (G & _ & Pi & Ho & _ & Dm).
  split; simpl; try done.
  - rewrite si_conserved0, Hs, unsent_cons, Pi, Ho. perm.
  - rewrite si_closed0. unfold Close. by rewrite Dm.
  - by rewrite Ho.
  - intros Hf. specialize (si_sent0 Hf). rewrite Hs in si_sent0. apply Forall_app in si_sent0 as [_ X].
    apply Forall_cons in X as [X _]. done.
Qed.

Lemma main_inv all s s' : ss_inv all s -> s' ∈ main_turns s -> ss_inv all s'.
Proof.
  intros [] Hin. assert (exists pc c cl, s' = with_main s pc c cl /\
    cl = (if main_closed pc then Close (ss_gateway s) else none_closed) /\
    (main_closed (ss_main s) = true -> main_closed pc = true) /\
    (pc = MainFinished -> is_Some (ss_summary s))) as (pc & c & cl & -> & -> & Hmono & Hfin).
  { revert Hin. unfold main_turns. rewrite si_closed0.
    destruct (ss_main s); [destruct (ss_cancelled s), (ss_finishSend s)| | |destruct (ss_summary s)|];
      rewrite ?list_elem_of_In; simpl; intros Hin; repeat destruct Hin as [<-|Hin]; try done;
      eexists _, _, _; (split_and!; [reflexivity|..]); simpl; done. }
  split; simpl; try done. intros Hr. destruct (si_recv0 Hr) as [Hc He]. split; [|done].
  rewrite si_closed0 in Hc. destruct (main_closed (ss_main s)); [|done]. by rewrite Hmono.
Qed.

Lemma ss_step_inv all s s' :
  (Z.of_nat (length all) < 2 ^ 62)%Z -> ss_step s (Ret s') -> ss_inv all s -> ss_inv all s'.
Proof.
  intros Hall [_ St] I. remember (Ret s') as o eqn:Ho.
  destruct St as [before target req todo after Hs| |key p t1 t2 o Hp Hk R|key p t1 o Hp Hk R| |key p p' Hp D|
    |ob _|now s1 R|ws o Wt| |s1 M]; try (injection Ho as <-); subst; try (destruct ob; [injection Ho as <-|done..]); try by destruct I.
  - by eapply sends_inv.
  - destruct (relay_turn_in_gateway _ _ _ _ _ _ Hp R) as (g & -> & St & Hc). by eapply gateway_inv.
  - destruct (relay_turn_out_gateway _ _ _ _ _ Hp R) as (Hc & g & -> & St).
    eapply gateway_inv; [done..|congruence].
  - eapply gateway_inv; [done|by eapply gr_disp|]. intros _. simpl.
    by apply disp_step_moves in D as (_ & _ & _ & _ & -> & _).
  - by eapply recv_inv.
  - destruct (write_inv _ _ _ _ Hall I Wt) as [(s1 & [= ->] & I')|[_ (e & [?|?])]]; done.
  - by eapply main_inv.
Qed.

(** ** The end of a session *)

(** A gateway that just started. *)
Definition fresh_run (g : gateway_run C W A) : Prop :=
  gr_good g /\ gr_inside g = [] /\ gr_out g = ch_new.

Lemma session_start_inv g senders : fresh_run g -> ss_inv (unsent senders) (session_start g senders).
Proof.
  intros (G & Hi & Ho). split; simpl; try done.
  - rewrite Hi, Ho, !ch_items_new. simpl. by rewrite app_nil_r.
Qed.

Lemma ss_runs_inv all s s' :
  (Z.of_nat (length all) < 2 ^ 62)%Z -> ss_runs s s' -> ss_inv all s -> ss_inv all s'.
Proof. intros Hall. induction 1; eauto using ss_step_inv. Qed.

(** What the client still has to do once the gateway is closed. *)
Definition shutdown_left (s : session) : nat :=
  2 * length (ch_items (gr_out (ss_gateway s))) + length (ch_items (ss_writer s)) +
  (if ss_recv_done s then 0 else 1) + (if ss_summary s then 0 else 1) +
  (if bool_decide (ss_main s = MainFinished) then 0 else 1).

(** The turns of [recv], [write] and the main goroutine. *)
Definition client_step (s s' : session) : Prop :=
  ss_main s <> MainFinished /\
  ((exists now, recv_turn s now = Some s') \/ (exists ws, write_turn sampleFactor ws s = Some (Ret s')) \/
   s' ∈ main_turns s).

Lemma client_step_step s s' : client_step s s' -> ss_step s (Ret s').
Proof.
  intros [Hm [[now R]|[[ws R]|R]]]; (split; [done|]); eauto using act_recv, act_write, act_main.
Qed.

(** [recv] and [write] leave the rest of the session alone. *)
Lemma recv_turn_frame s now s' : recv_turn s now = Some s' ->
  ss_main s' = ss_main s /\ ss_senders s' = ss_senders s /\ ss_stopped s' = ss_stopped s /\
  gr_pipes (ss_gateway s') = gr_pipes (ss_gateway s) /\ ss_closed s' = ss_closed s.
Proof. unfold recv_turn. repeat case_match; intros; simplify_eq/=; done. Qed.

Lemma write_turn_frame ws s s' : write_turn sampleFactor ws s = Some (Ret s') ->
  ss_main s' = ss_main s /\ ss_senders s' = ss_senders s /\ ss_stopped s' = ss_stopped s /\
  ss_gateway s' = ss_gateway s /\ ss_closed s' = ss_closed s.
Proof.
  unfold write_turn. destruct (ss_summary s); [done|]. destruct (ch_recv (ss_writer s)) as [[res w]|].
  - destruct (write_one _ _ _ _); simpl; intros; simplify_eq/=; done.
  - case_match; [|done]. destruct (write_summary _ _); simpl; intros; simplify_eq/=; done.
Qed.

Lemma client_step_left s s' :
  ss_main s = MainClosed -> client_step s s' -> shutdown_left s' < shutdown_left s.
Proof.
  intros Hm [_ [[now R]|[[ws R]|R]]]; unfold shutdown_left.
  - unfold recv_turn in R. destruct (ss_recv_done s); [done|].
    destruct (ch_recv (gr_out (ss_gateway s))) as [[res out]|] eqn:Rc.
    + apply ch_recv_some in Rc. injection R as <-. simpl. rewrite Rc, ch_items_send, length_app, Hm. simpl. lia.
    + destruct (cl_output (ss_closed s)); [|done]. injection R as <-. simpl. lia.
  - unfold write_turn in R. destruct (ss_summary s); [done|].
    destruct (ch_recv (ss_writer s)) as [[res w]|] eqn:Rc.
    + apply ch_recv_some in Rc. destruct (write_one _ _ _ _) as [t| |]; simpl in R; [|done..].
      injection R as <-. simpl. rewrite Rc. simpl. lia.
    + destruct (ss_recv_done s) eqn:Hd; [|done]. destruct (write_summary _ _); simpl in R; [|done..].
      injection R as <-. simpl. lia.
  - unfold main_turns in R. rewrite Hm in R. destruct (ss_summary s) eqn:Hs; [|set_solver].
    apply list_elem_of_singleton in R as ->. simpl. rewrite Hm, Hs. simpl. lia.
Qed.

(** No turn of another goroutine gives the client more to do. *)
Lemma other_step_left all s s' :
  ss_inv all s -> ss_main s = MainClosed -> ss_step s (Ret s') ->
  shutdown_left s' <= shutdown_left s /\ main_closed (ss_main s') = true.
Proof.
  intros I Hm [Hn St]. assert (cl_output (ss_closed s) = true) as Hc
    by (rewrite (si_closed _ _ I), Hm; done).
  remember (Ret s') as o eqn:Ho.
  assert (main_closed (ss_main s) = true) as Mc by by rewrite Hm.
  destruct St as [before target req todo after Hs| |key p t1 t2 o Hp Hk R|key p t1 o Hp Hk R| |key p p' Hp D|
    |ob _|now s1 R|ws o Wt| |s1 M]; try (injection Ho as <-); subst; try (destruct ob; [injection Ho as <-|done..]); try done.
  - unfold sender_sends in Ho. case_bool_decide; [done|].
    destruct (gr_send (ss_gateway s) target req) as [g|] eqn:Se; [|done]. injection Ho as <-.
    destruct (gr_send_moves _ _ _ _ Se (si_good _ _ I)) as (_ & _ & _ & Eo & _).
    unfold shutdown_left. simpl. by rewrite Eo.
  - destruct (relay_turn_in_gateway _ _ _ _ _ _ Hp R) as (g & -> & St & Hout).
    unfold shutdown_left. simpl. by rewrite Hout.
  - destruct (relay_turn_out_gateway _ _ _ _ _ Hp R) as (Hc' & _). congruence.
  - apply disp_step_moves in D as (_ & _ & _ & _ & Eo & _). unfold shutdown_left. simpl. by rewrite Eo.
  - split; [apply Nat.lt_le_incl, client_step_left; [done|split; eauto]|].
    by rewrite (proj1 (recv_turn_frame _ _ _ R)).
  - split; [apply Nat.lt_le_incl, client_step_left; [done|split; eauto]|].
    by rewrite (proj1 (write_turn_frame _ _ _ Wt)).
  - split; [apply Nat.lt_le_incl, client_step_left; [done|split; eauto]|].
    unfold main_turns in M. rewrite Hm in M. destruct (ss_summary s); [|set_solver].
    apply list_elem_of_singleton in M as ->. done.
Qed.

(** The client is not blocked before the end. *)
Lemma client_step_enabled all s :
  (Z.of_nat (length all) < 2 ^ 62)%Z -> ss_inv all s -> ss_main s = MainClosed -> exists s', client_step s s'.
Proof.
  intros Hall I Hm. assert (ss_main s <> MainFinished) as Hn by by rewrite Hm.
  destruct (ss_recv_done s) eqn:Hd.
  - destruct (ss_summary s) as [line|] eqn:Hs.
    + eexists. split; [done|]. right. right. unfold main_turns. rewrite Hm, Hs. left.
    + assert (exists o, write_turn sampleFactor takes_all s = Some o) as [o Ho].
      { unfold write_turn. rewrite Hs, Hd. destruct (ch_recv _) as [[res w]|]; eauto. }
      destruct (write_inv _ _ _ _ Hall I Ho) as [(s' & -> & _)|[(ls & x & e & Ws) _]]; [|done].
      exists s'. split; [done|]. eauto.
  - assert (exists s', recv_turn s 0 = Some s') as [s' R]; [|exists s'; split; [done|]; eauto].
    unfold recv_turn. rewrite Hd, (si_closed _ _ I), Hm. simpl. destruct (ch_recv _) as [[res w]|]; eauto.
Qed.

(** A run in which [recv], [write] and the main goroutine take [n] turns. *)
Inductive ss_run : nat -> session -> session -> Prop :=
| run_nil s : ss_run 0 s s
| run_client n s s1 s' : client_step s s1 -> ss_run n s1 s' -> ss_run (S n) s s'
| run_other n s s1 s' : ss_step s (Ret s1) -> ss_run n s1 s' -> ss_run n s s'.

Lemma shutdown_run all n s s' :
  (Z.of_nat (length all) < 2 ^ 62)%Z -> ss_run n s s' -> ss_inv all s -> main_closed (ss_main s) = true ->
  n + shutdown_left s' <= shutdown_left s /\ main_closed (ss_main s') = true /\ ss_inv all s'.
Proof.
  intros Hall. induction 1 as [s|n s s1 s' St R IH|n s s1 s' St R IH]; intros I Hm; [done|..].
  - assert (ss_main s = MainClosed) as Hc by (destruct St as [? _]; by destruct (ss_main s)).
    pose proof (client_step_left s s1 Hc St). apply client_step_step in St.
    destruct (other_step_left all s s1 I Hc St) as [_ Hm1].
    destruct (IH (ss_step_inv _ _ _ Hall St I) Hm1) as (L & M & I'). split_and!; [lia|done..].
  - assert (ss_main s = MainClosed) as Hc by (destruct St as [? _]; by destruct (ss_main s)).
    destruct (other_step_left all s s1 I Hc St) as [L1 Hm1].
    destruct (IH (ss_step_inv _ _ _ Hall St I) Hm1) as (L & M & I'). split_and!; [lia|done..].
Qed.

Lemma client_finishes all n : forall s,
  (Z.of_nat (length all) < 2 ^ 62)%Z -> ss_inv all s -> main_closed (ss_main s) = true ->
  shutdown_left s <= n ->
  exists s', rtc client_step s s' /\ ss_main s' = MainFinished.
Proof.
  induction n as [|n IH]; intros s Hall I Hm Hn; (destruct (decide (ss_main s = MainFinished)) as [E|E]; [by exists s|]).
  { exfalso. unfold shutdown_left in Hn. rewrite bool_decide_eq_false_2 in Hn by done. lia. }
  assert (ss_main s = MainClosed) as Hc by by destruct (ss_main s).
  destruct (client_step_enabled all s Hall I Hc) as [s1 St]. pose proof (client_step_left s s1 Hc St).
  pose proof (client_step_step _ _ St) as St'. destruct (other_step_left all s s1 I Hc St') as [_ Hm1].
  destruct (IH s1) as (s' & R & F); [done|by eapply ss_step_inv|done|lia|].
  exists s'. split; [by eapply rtc_l|done].
Qed.

(** C5: no request is lost or counted twice between the senders and the output
    file.  At every instant of a session, in every interleaving of senders,
    relays, dispatchers, autoscaler, [recv], [write], signals and the main
    goroutine, the requests of the traces are those not yet sent, those inside
    the gateway, those whose response waits for [recv] or for [write], and those
    counted, each exactly once.  The last line of the output, without which the
    process does not end, counts the successes and failures of exactly the
    requests that were neither left unsent nor left inside the gateway. *)
Theorem session_accounts g senders s :
  fresh_run g -> (Z.of_nat (length (unsent senders)) < 2 ^ 62)%Z ->
  ss_runs (session_start g senders) s ->
  Permutation (unsent senders)
    (unsent (ss_senders s) ++ gr_inside (ss_gateway s) ++ tags (ch_items (gr_out (ss_gateway s))) ++
     tags (ch_items (ss_writer s)) ++ tags (ss_counted s)) /\
  (forall line, ss_summary s = Some line ->
     line = (Z.of_nat (length (ss_counted s)),
             Z.of_nat (length (ss_counted s)) - Z.of_nat (count failed (ss_counted s)),
             Z.of_nat (count failed (ss_counted s)))%Z /\
     Permutation (unsent senders)
       (unsent (ss_senders s) ++ gr_inside (ss_gateway s) ++ tags (ss_counted s))) /\
  (ss_main s = MainFinished -> is_Some (ss_summary s)).
Proof.
  intros F Hall R. pose proof (ss_runs_inv _ _ _ Hall R (session_start_inv _ _ F)) as [].
  split_and!; [done| |done]. intros line Hl. destruct (si_summary0 line Hl) as (Hd & Hw & ->).
  destruct (si_recv0 Hd) as [_ Ho]. destruct si_tally0 as [T1 T2 _]. unfold summary_line. rewrite T1, T2.
  split; [done|]. by rewrite Ho, Hw in si_conserved0.
Qed.

(** C6: after [Close] the session ends.  However the other goroutines interleave,
    the client and the main goroutine together take at most as many turns as
    [shutdown_left] says, and until the process has ended one of them can take
    its turn (provided that the output file takes the line it writes). *)
Theorem shutdown_terminates g senders s n s' :
  fresh_run g -> (Z.of_nat (length (unsent senders)) < 2 ^ 62)%Z ->
  ss_runs (session_start g senders) s -> ss_main s = MainClosed -> ss_run n s s' ->
  n <= shutdown_left s /\ (ss_main s' <> MainFinished -> exists s'', client_step s' s'').
Proof.
  intros F Hall R Hm Rn. pose proof (ss_runs_inv _ _ _ Hall R (session_start_inv _ _ F)) as I.
  destruct (shutdown_run _ _ _ _ Hall Rn I) as (L & M & I'); [by rewrite Hm|]. split; [lia|].
  intros Hn. apply (client_step_enabled _ _ Hall I'). by destruct (ss_main s').
Qed.

(** Nobody is left who could send on a closed channel. *)
Definition orderly (s : session) : Prop :=
  main_closed (ss_main s) = true /\ Forall (fun sd => sd_todo sd = []) (ss_senders s) /\
  dom (gr_pipes (ss_gateway s)) ⊆ ss_stopped s.

(** The ends of a turn that are not for the senders, the relays and [recv] to
    prevent: the dispatcher of a target panics, a goroutine of the autoscaler
    does not return, or the output file does not take a line. *)
Definition outside_failure (s : session) (o : outcome session) : Prop :=
  (exists key p m, gr_pipes (ss_gateway s) !! key = Some p /\ dp_fails (pp_disp p) m /\ o = Panic m) \/
  (exists ob, background (gr_hooks (ss_gateway s)) ob /\ (forall a, ob <> Ret a) /\ o = after_background s ob) \/
  file_error o.

Lemma orderly_step all s o :
  (Z.of_nat (length all) < 2 ^ 62)%Z -> ss_inv all s -> orderly s -> ss_step s o ->
  (exists s', o = Ret s' /\ orderly s') \/ outside_failure s o.
Proof.
  intros Hall I (Hm & Hs & Hk) [Hn St]. assert (ss_main s = MainClosed) as Hc by by destruct (ss_main s).
  unfold orderly. destruct St as [before target req todo after E| |key p t1 t2 o Hp Hn' R|key p t1 o Hp Hn' R|
    key Hcn Hd|key p p' Hp D|key p m Hp D|ob Hb|now s1 R|ws o Wt| |s1 M].
  - rewrite E in Hs. apply Forall_app in Hs as [_ Hs]. by apply Forall_cons in Hs as [Hs _].
  - left. eauto.
  - exfalso. apply elem_of_dom_2 in Hp. set_solver.
  - exfalso. apply elem_of_dom_2 in Hp. set_solver.
  - left. eexists. split; [done|]. simpl. split_and!; [done|done|set_solver].
  - left. eexists. split; [done|]. simpl. split_and!; [done|done|]. rewrite dom_insert_L.
    apply elem_of_dom_2 in Hp. set_solver.
  - right. left. eauto 6.
  - destruct ob as [a| |]; [left; eexists; split; [done|]; by split_and!|right; right; left; eauto..].
  - left. eexists. split; [done|]. by destruct (recv_turn_frame _ _ _ R) as (-> & -> & -> & -> & _).
  - destruct (write_inv _ _ _ _ Hall I Wt) as [(s' & -> & _)|[_ Fe]]; [left|right; right; by right].
    exists s'. split; [done|]. by destruct (write_turn_frame _ _ _ Wt) as (-> & -> & -> & -> & _).
  - left. eauto.
  - left. eexists. split; [done|]. unfold main_turns in M. rewrite Hc in M. destruct (ss_summary s); [|set_solver].
    apply list_elem_of_singleton in M as ->. done.
Qed.

(** C20: an orderly shutdown is safe.  If the senders had finished and the relays
    had returned when the gateway was closed, then from then on, in any
    interleaving, nobody sends on a closed channel and no sender, no relay and
    neither [recv] nor the main goroutine panics: a turn that does not return is
    a panic of a dispatcher (that of the creation of a backend), of a goroutine
    of the autoscaler or of [write] on a file that does not take a line.  As
    long as none of these happens the process can end, by turns of the client
    and of the main goroutine alone. *)
Theorem orderly_shutdown_is_safe g senders s s' :
  fresh_run g -> (Z.of_nat (length (unsent senders)) < 2 ^ 62)%Z ->
  ss_runs (session_start g senders) s -> orderly s -> ss_runs s s' ->
  (forall o, ss_step s' o -> (exists s'', o = Ret s'') \/ outside_failure s' o) /\
  exists s'', rtc client_step s' s'' /\ ss_main s'' = MainFinished.
Proof.
  intros F Hall R Hs R'. pose proof (ss_runs_inv _ _ _ Hall R (session_start_inv _ _ F)) as I.
  assert (ss_inv (unsent senders) s' /\ orderly s') as [I' O'].
  { clear R. induction R' as [|s s1 s2 St _ IH]; [done|]. apply IH; [|by eapply ss_step_inv].
    destruct (orderly_step _ _ _ Hall I Hs St) as [(? & [= <-] & ?)|Out]; [done|exfalso].
    destruct Out as [(? & ? & ? & _ & _ & ?)|[([a| |] & _ & Hr & Ho)|(e & [?|?])]]; [done|by apply (Hr a)|done..]. }
  split; [|eapply client_finishes; [done|done|apply O'|done]].
  intros o St. destruct (orderly_step _ _ _ Hall I' O' St) as [(s'' & -> & _)|?]; eauto.
Qed.

(** C36: a signal during the replay crashes the experiment.  The senders do not
    look at the context, so in every state in which a sender has a request
    left, the main goroutine can react to a signal by closing the gateway, and
    the next request is then sent on a closed channel. *)
Theorem early_signal_panics s before target req todo after :
  ss_main s = MainSelect -> target ∈ dom (gr_pipes (ss_gateway s)) ->
  ss_senders s = before ++ mkSender target (req :: todo) :: after ->
  exists s', ss_runs s s' /\ ss_main s' = MainClosed /\ ss_step s' send_on_closed.
Proof.
  intros Hm Hd Hs. set (s1 := with_main s (ss_main s) true (ss_closed s)).
  set (s2 := with_main s1 MainCancelled true (ss_closed s)).
  set (s3 := with_main s2 MainClosed true (Close (ss_gateway s))).
  exists s3. split_and!; [|done|].
  - eapply rtc_l; [|eapply rtc_l; [|apply rtc_once]].
    + split; [by rewrite Hm|]. apply act_signal.
    + split; [by rewrite Hm|]. apply (act_main s1 s2). unfold main_turns. simpl. rewrite Hm. left.
    + split; [done|]. apply (act_main s2 s3). left.
  - split; [done|]. pose proof (act_send s3 before target req todo after Hs) as St.
    unfold sender_sends in St. simpl in St. by rewrite bool_decide_eq_true_2 in St.
Qed.

(** ** A complete session *)

Lemma client_step_frame s s' :
  client_step s s' -> ss_senders s' = ss_senders s /\ gr_pipes (ss_gateway s') = gr_pipes (ss_gateway s).
Proof.
  intros [_ [[now R]|[[ws R]|R]]].
  - by destruct (recv_turn_frame _ _ _ R) as (_ & -> & _ & -> & _).
  - by destruct (write_turn_frame _ _ _ R) as (_ & -> & _ & -> & _).
  - unfold main_turns in R.
    destruct (ss_main s); [destruct (ss_cancelled s), (ss_finishSend s)| | |destruct (ss_summary s)|];
      rewrite list_elem_of_In in R; simpl in R; repeat destruct R as [<-|R]; done.
Qed.

Lemma client_steps_frame s s' :
  rtc client_step s s' -> ss_runs s s' /\ ss_senders s' = ss_senders s /\
  gr_pipes (ss_gateway s') = gr_pipes (ss_gateway s).
Proof.
  induction 1 as [|s s1 s2 St _ (R & E1 & E2)]; [by split_and!|].
  destruct (client_step_frame _ _ St) as [E3 E4]. split_and!; [|congruence..].
  eapply rtc_l; [by apply client_step_step|done].
Qed.

(** A gateway that is not closed and whose relays run can do all its steps. *)
Lemma gateway_steps s g :
  rtc (fun g g' => exists key, gr_inner g key g') (ss_gateway s) g ->
  ss_closed s = none_closed -> ss_stopped s = ∅ -> ss_main s <> MainFinished ->
  ss_runs s (with_gateway s g).
Proof.
  intros R Hc Hk Hm. remember (ss_gateway s) as g0 eqn:E. revert s E Hc Hk Hm.
  induction R as [g0|g0 g1 g2 [key St] _ IH]; intros s -> Hc Hk Hm; [by destruct s|].
  eapply rtc_l; [|exact (IH (with_gateway s g1) eq_refl Hc Hk Hm)]. split; [done|].
  destruct St as [key p p' Hp Rs|key p p' Hp D];
    [inversion Rs as [q t1 t2 r a R Eq|q t1 r a R Eq]; subst p' q|].
  - eapply (act_relay_in s key p t1 t2); [done|rewrite Hk; set_solver|]. unfold relay_turn_in.
    simpl in R |- *. rewrite R, Hc. done.
  - eapply (act_relay_out s key p t1); [done|rewrite Hk; set_solver|]. unfold relay_turn_out.
    simpl in R |- *. rewrite R, Hc. done.
  - by eapply act_disp.
Qed.

(** Nothing has been closed or cancelled. *)
Record replaying (s : session) : Prop := {
  rp_main : ss_main s = MainSelect;
  rp_stopped : ss_stopped s = ∅;
  rp_finish : ss_finishSend s = false;
  rp_targets : Forall (fun sd => sd_target sd ∈ dom (gr_pipes (ss_gateway s))) (ss_senders s)
}.

Lemma replaying_open all s : ss_inv all s -> replaying s -> ss_closed s = none_closed.
Proof. intros [] []. by rewrite si_closed0, rp_main0. Qed.

Lemma todo_or_done senders :
  Forall (fun sd => sd_todo sd = []) senders \/
  exists before target req todo after, senders = before ++ mkSender target (req :: todo) :: after.
Proof.
  induction senders as [|[target [|req todo]] senders IH]; [by left| |right; by exists []; eauto].
  destruct IH as [IH|(b & t & req & todo & a & ->)]; [left; by constructor|right].
  by exists (mkSender target [] :: b), t, req, todo, a.
Qed.

(** The senders can finish. *)
Lemma senders_finish all n : forall s,
  (Z.of_nat (length all) < 2 ^ 62)%Z -> ss_inv all s -> gr_clear (ss_gateway s) -> replaying s ->
  length (unsent (ss_senders s)) <= n ->
  exists s', ss_runs s s' /\ replaying s' /\ Forall (fun sd => sd_todo sd = []) (ss_senders s') /\
    gr_clear (ss_gateway s') /\
    gr_hooks (ss_gateway s') = gr_hooks (ss_gateway s) /\
    dom (gr_pipes (ss_gateway s')) = dom (gr_pipes (ss_gateway s)).
Proof.
  induction n as [|n IH]; intros s Hall I Cl Rp Hn;
    (destruct (todo_or_done (ss_senders s)) as [|(b & t & req & todo & a & E)]; [by exists s|]);
    pose proof (unsent_cons b t req todo a) as P; apply Permutation_length in P; rewrite E, P in Hn;
    simpl in Hn; [lia|].
  pose proof (replaying_open _ _ I Rp) as Hc. destruct Rp as [Hm Hk Hf Ht].
  pose proof Ht as Ht'. rewrite E in Ht'. apply Forall_app in Ht' as [T1 T2].
  apply Forall_cons in T2 as [T2 T3]. simpl in T2.
  assert (exists g, gr_send (ss_gateway s) t req = Some g) as [g Se].
  { apply elem_of_dom in T2 as [p Hp]. unfold gr_send. rewrite Hp. eauto. }
  destruct (gr_send_moves _ _ _ _ Se (si_good _ _ I)) as (_ & _ & _ & _ & Eh & Ed).
  set (s1 := with_gateway (with_senders s (b ++ mkSender t todo :: a) (ss_finishSend s)) g).
  assert (ss_step s (Ret s1)) as St.
  { split; [by rewrite Hm|]. pose proof (act_send s b t req todo a E) as St. unfold sender_sends in St.
    rewrite Se, Hc in St. simpl in St. by rewrite bool_decide_eq_false_2 in St by set_solver. }
  destruct (IH s1) as (s' & R & Rp' & D & Cl' & Eh' & Ed').
  - done.
  - by eapply ss_step_inv.
  - by eapply gr_send_clear.
  - split; simpl; [done..|]. rewrite Ed. apply Forall_app. split; [done|]. by constructor.
  - simpl. lia.
  - exists s'. split_and!; [by eapply rtc_l|done|done|done|by rewrite Eh'|by rewrite Ed'].
Qed.

(** When the senders have finished, the main goroutine closes the gateway. *)
Lemma main_closes s :
  ss_main s = MainSelect -> ss_finishSend s = false -> Forall (fun sd => sd_todo sd = []) (ss_senders s) ->
  exists s', ss_runs s s' /\ ss_main s' = MainClosed /\ ss_senders s' = ss_senders s /\
    ss_gateway s' = ss_gateway s.
Proof.
  intros Hm Hf Hd. set (s3 := with_senders s (ss_senders s) true).
  set (s4 := with_main s3 MainGrace (ss_cancelled s3) (ss_closed s3)).
  set (s5 := with_main s4 MainCancelled true (ss_closed s4)).
  set (s6 := with_main s5 MainClosed true (Close (ss_gateway s5))).
  exists s6. split_and!; [|done..]. eapply rtc_l; [|eapply rtc_l; [|eapply rtc_l; [|apply rtc_once]]].
  - split; [by rewrite Hm|]. by apply act_finish_send.
  - split; [by simpl; rewrite Hm|]. apply (act_main s3 s4). unfold main_turns. simpl. rewrite Hm.
    apply elem_of_app. right. left.
  - split; [done|]. apply (act_main s4 s5). left.
  - split; [done|]. apply (act_main s5 s6). left.
Qed.

Context `{HL : !GatewayHooksLaws A}.

(** From a start with serving hooks, a session can end with every request
    counted. *)
Lemma session_can_complete g senders :
  fresh_run g -> gr_clear g -> hooks_serve g -> (Z.of_nat (length (unsent senders)) < 2 ^ 62)%Z ->
  Forall (fun sd => sd_target sd ∈ dom (gr_pipes g)) senders ->
  exists s bad, ss_runs (session_start g senders) s /\ ss_main s = MainFinished /\
    Permutation (unsent senders) (tags (ss_counted s)) /\
    ss_summary s = Some (Z.of_nat (length (unsent senders)), Z.of_nat (length (unsent senders)) - bad, bad)%Z.
Proof.
  intros F Cl Hk Hall Ht. pose proof (session_start_inv g senders F) as I0.
  destruct (senders_finish (unsent senders) (length (unsent senders)) (session_start g senders))
    as (s1 & R1 & Rp1 & D1 & Cl1 & Eh1 & Ed1); [done|done|done|by split|done|].
  pose proof (ss_runs_inv _ _ _ Hall R1 I0) as I1. pose proof (replaying_open _ _ I1 Rp1) as C1.
  destruct Rp1 as [Hm1 Hk1 Hf1 Ht1].
  destruct (gr_drain (gr_backlog (ss_gateway s1)) (ss_gateway s1)) as (g2 & Dr & _ & _ & _ & In2);
    [done|apply I1|done|intros key; rewrite Ed1, Eh1; apply Hk|].
  assert (ss_runs s1 (with_gateway s1 g2)) as R2 by (apply gateway_steps; [done|done|done|by rewrite Hm1]).
  set (s2 := with_gateway s1 g2) in *.
  destruct (main_closes s2) as (s6 & R6 & Hm6 & Es6 & Eg6); [done|done|done|].
  assert (ss_runs (session_start g senders) s6) as R by (unfold ss_runs in *; do 2 (etrans; [done|]); done).
  pose proof (ss_runs_inv _ _ _ Hall R I0) as I6.
  destruct (client_finishes _ (shutdown_left s6) s6 Hall I6) as (s & Rs & Hm); [by rewrite Hm6|done|].
  apply client_steps_frame in Rs as (Rs & Es & Ep).
  assert (ss_runs (session_start g senders) s) as Rall by by etrans.
  pose proof (ss_runs_inv _ _ _ Hall Rall I0) as [].
  destruct (si_finished0 Hm) as [line Hl]. destruct (si_summary0 line Hl) as (Hd & Hw & ->).
  destruct (si_recv0 Hd) as [_ Ho]. rewrite Ho, Hw, Es, Es6 in si_conserved0. simpl in si_conserved0.
  rewrite (no_todo_unsent (ss_senders s1) D1) in si_conserved0.
  unfold gr_inside in si_conserved0, In2. rewrite Ep, Eg6 in si_conserved0. simpl in si_conserved0.
  rewrite In2 in si_conserved0. simpl in si_conserved0.
  exists s, (nFailed (ss_tally s)). split_and!; [done|done|done|]. rewrite Hl. unfold summary_line.
  rewrite (to_total _ _ si_tally0), (Permutation_length si_conserved0). unfold tags. by rewrite length_map.
Qed.

End session.

Arguments session C W A : clear implicits.

(** ** The goroutines of an autoscaler *)

Section autoscaler_turns.
Context {Q : Type -> Type} `{WorkQueueOps Q}.
Context {D : Type} `{DeciderOps D}.
Context {S : Type} `{ClientOps S}.
Variable IsPodReady : Pod -> bool.

(** A turn of a ticker or of a collector, of a worker that takes a key or of one
    that scales it, and of the goroutine of a one-time scaling; the calls of the
    API server meet any state of the cluster. *)
Inductive autoscaler_turn : option (autoscaler Q D) -> outcome (option (autoscaler Q D)) -> Prop :=
| turn_tick s key :
    key ∈ tickers s -> autoscaler_turn (Some (KnativeAutoscaler s)) (Ret (Some (KnativeAutoscaler (as_tick s key))))
| turn_collect s key now :
    key ∈ tickers s ->
    autoscaler_turn (Some (KnativeAutoscaler s)) (Ret (Some (KnativeAutoscaler (as_collect s key now))))
| turn_get s key s' :
    worker_get s = Some (key, s') ->
    autoscaler_turn (Some (KnativeAutoscaler s)) (Ret (Some (KnativeAutoscaler s')))
| turn_scale s (rd : scale_reads S) cl key now :
    autoscaler_turn (Some (KnativeAutoscaler s))
      ('(s', _) ← worker_scale IsPodReady s rd cl key now; Ret (Some (KnativeAutoscaler s')))
| turn_onetime s (read cl : S) before key after :
    spawned s = before ++ key :: after ->
    autoscaler_turn (Some (OneTimeAS s))
      (_ ← ot_scale s read cl key;
       Ret (Some (OneTimeAS (mkOneTime (ot_started s) (seen s) (initialScale s) (before ++ after))))).

Context {C : Type -> Type} `{ChannOps C}.
Context {W : Type} `{DispatcherOps W}.

Lemma contains_app sub pre t : contains sub t = true -> contains sub (pre +:+ t) = true.
Proof.
  intros Ht. induction pre as [|c pre IH]; [done|].
  change (String.prefix sub (String c (pre +:+ t)) || contains sub (pre +:+ t) = true). rewrite IH. apply orb_true_r.
Qed.

(** An etcd compaction ends the session: where the deployment of a key is read
    and the API server answers with an error that names [mvcc], the worker that
    scales the key panics, in every state of the session. *)
Theorem compaction_stops_session factor (s : session C W (option (autoscaler Q D))) a d (rd : scale_reads S) key nn e :
  ss_main s <> MainFinished -> gr_hooks (ss_gateway s) = Some (KnativeAutoscaler a) ->
  deciders a !! key = Some d -> NamespacedNameFromKey key = Ret nn ->
  cl_get_deployment (rd_target rd) nn = Err e -> contains "mvcc" (err_text e) = true ->
  ss_step autoscaler_turn factor s (Panic ("failed to get deployment " +:+ key +:+ ": " +:+ err_text e)).
Proof.
  intros Hm Ha Hd Hn Hg He. split; [done|].
  pose proof (act_background autoscaler_turn factor s) as B. rewrite Ha in B.
  specialize (B _ (turn_scale a rd (rd_target rd) key 0)).
  unfold after_background, worker_scale, scale in B. rewrite Hd, Hn in B. cbn [mbind outcome_bind] in B.
  rewrite Hg in B. cbn [mbind outcome_bind errorf err_text] in B.
  rewrite (contains_app "mvcc" _ _ (contains_app "mvcc" key _ (contains_app "mvcc" ": " _ He))) in B. exact B.
Qed.

End autoscaler_turns.

(** ** Witnesses *)

#[local] Existing Instances demo_pods demo_pods_laws.

Definition demo_run : gateway_run list (pd_world (M := gmap string) (C := list) (Conn := nat) (E := fakeBackend)) unit :=
  mkGR {["ns/app" := pipe_init demo_idle tt]} [] tt.

Lemma demo_run_fresh : fresh_run demo_run.
Proof.
  split; [|split; reflexivity]. intros key p Hp. simpl in Hp.
  apply lookup_singleton_Some in Hp as [<- <-].
  split; [by apply relay_empty_inv|apply new_pd_ok].
Qed.

(** A gateway without an autoscaler has no goroutine of one. *)
Definition no_autoscaler (_ : unit) (_ : outcome unit) : Prop := False.

Definition demo_senders : list sender := [mkSender "ns/app" [demo_req "0" "ns/app"]].

Definition demo_sent : session list (pd_world (M := gmap string) (C := list) (Conn := nat) (E := fakeBackend)) unit :=
  with_gateway (with_senders (session_start demo_run demo_senders) [mkSender "ns/app" []] false)
    (gr_store demo_run "ns/app"
       (client_send (gr_view demo_run (pipe_init demo_idle tt)) (demo_req "0" "ns/app"))).

Lemma demo_sent_run : ss_runs no_autoscaler 1 (session_start demo_run demo_senders) demo_sent.
Proof.
  apply rtc_once. split; [discriminate|].
  pose proof (act_send no_autoscaler 1 (session_start demo_run demo_senders) [] "ns/app"
    (demo_req "0" "ns/app") [] [] eq_refl) as St.
  unfold sender_sends in St. rewrite bool_decide_eq_false_2 in St by set_solver.
  unfold gr_send in St. simpl in St. rewrite lookup_singleton_eq in St. exact St.
Qed.

Lemma session_accounts_witness :
  Permutation (unsent demo_senders)
    (unsent (ss_senders demo_sent) ++ gr_inside (ss_gateway demo_sent) ++
     tags (ch_items (gr_out (ss_gateway demo_sent))) ++ tags (ch_items (ss_writer demo_sent)) ++
     tags (ss_counted demo_sent)).
Proof.
  exact (proj1 (session_accounts no_autoscaler 1 ltac:(lia) demo_run demo_senders demo_sent
    demo_run_fresh eq_refl demo_sent_run)).
Defined.

(** A session without senders that was interrupted and closed in order. *)
Definition demo_signalled : session list (pd_world (M := gmap string) (C := list) (Conn := nat) (E := fakeBackend)) unit :=
  with_main (session_start demo_run []) MainSelect true none_closed.

Definition demo_stopped : session list (pd_world (M := gmap string) (C := list) (Conn := nat) (E := fakeBackend)) unit :=
  with_stopped (with_main demo_signalled MainCancelled true none_closed) ({["ns/app"]} ∪ ∅).

Definition demo_closed : session list (pd_world (M := gmap string) (C := list) (Conn := nat) (E := fakeBackend)) unit :=
  with_main demo_stopped MainClosed true (Close demo_run).

Lemma demo_closed_run : ss_runs no_autoscaler 1 (session_start demo_run []) demo_closed.
Proof.
  set (cancelled := with_main demo_signalled MainCancelled true none_closed).
  eapply rtc_l; [split; [discriminate|apply act_signal]|].
  eapply rtc_l; [split; [discriminate|apply (act_main _ _ demo_signalled cancelled); left]|].
  eapply rtc_l; [split; [discriminate|apply (act_relay_stop _ _ cancelled "ns/app"); [reflexivity|set_solver]]|].
  apply rtc_once. split; [discriminate|]. apply (act_main _ _ demo_stopped demo_closed). left.
Qed.

Lemma shutdown_terminates_witness :
  shutdown_left demo_closed = 3 /\ exists s, client_step 1 demo_closed s.
Proof.
  split; [reflexivity|].
  exact (proj2 (shutdown_terminates no_autoscaler 1 ltac:(lia) demo_run [] demo_closed 0 demo_closed
    demo_run_fresh eq_refl demo_closed_run eq_refl (run_nil _ _ _)) ltac:(discriminate)).
Defined.

Lemma orderly_shutdown_is_safe_witness :
  orderly demo_closed /\ exists s, rtc (client_step 1) demo_closed s /\ ss_main s = MainFinished.
Proof.
  assert (orderly demo_closed) as O.
  { split; [reflexivity|]. split; [constructor|]. simpl. rewrite dom_singleton_L. set_solver. }
  split; [exact O|].
  exact (proj2 (orderly_shutdown_is_safe no_autoscaler 1 ltac:(lia) demo_run [] demo_closed demo_closed
    demo_run_fresh eq_refl demo_closed_run O (rtc_refl _ _))).
Defined.

Lemma early_signal_panics_witness :
  exists s', ss_runs no_autoscaler 1 (session_start demo_run demo_senders) s' /\
    ss_main s' = MainClosed /\ ss_step no_autoscaler 1 s' send_on_closed.
Proof.
  apply (early_signal_panics no_autoscaler 1 (session_start demo_run demo_senders) [] "ns/app"
    (demo_req "0" "ns/app") [] []); [reflexivity| |reflexivity].
  simpl. rewrite dom_singleton_L. set_solver.
Defined.
