(* ===== verification/TraceExperiment.v ===== *)
(** * The trace experiment ([experiments/trace/main.go])

    The main function up to the start of gateway and client: the choice and the
    set-up of the gateway, the client and its traces.  With the sessions of
    [Session.v] this is the whole program; the theorem follows it from the flags
    to the last line of the output. *)

From S2P Require Import Prelude GoTypes Float64 Float64Facts Interfaces Kube Workload Metric.
From S2P Require Import Decider Backend Autoscaler Dispatcher Gateway Pipeline GatewayRun Replay Session.

Local Open Scope nat_scope.

(** ** The main function *)

Section main.
Context {C : Type -> Type} `{ChannOps C}.
Context {M : Type -> Type} `{SharedMapOps M}.
Context {Q : Type -> Type} `{WorkQueueOps Q}.
Context {B Wn : Type} `{TimedBucketsOps B} `{TimeWindowOps Wn}.
Context {E : Type}.

Inductive any_gateway : Type :=
| UseKnative (g : knativeGateway C E)
| UseK8s (g : k8sGateway C M Q B Wn E).

Definition gateway_impl (gw : any_gateway) : gatewayImpl C :=
  match gw with UseKnative g => kn_impl g | UseK8s g => k8s_impl g end.

(** The function literal that makes the gateway. *)
Definition create_gateway (readFile : string -> result string) (unmarshal : string -> result AutoscalerConfig)
    (emptyq : Q string) (f : flags) (dispatchTimeout : Z) : outcome (result any_gateway) :=
  if bool_decide (gatewayFramework f = "knative") then Ret (Ok (UseKnative (NewKnativeGateway dispatchTimeout)))
  else if bool_decide (gatewayFramework f = "k8s") then
    Ret (match NewK8sGateway readFile unmarshal emptyq dispatchTimeout (autoscalerFramework f)
                 (autoscalerConfig f) with
         | Ok g => Ok (UseK8s g)
         | Err e => Err e
         end)
  else Panic ("unknown gateway framework " +:+ gatewayFramework f).

(** [SetUpWithManager] of the gateway: the list calls of services and
    deployments, each with the creation of its client, which may end the
    process, and the registration of the controller are arguments. *)
Definition setup_gateway (newBackend : string -> outcome (result E))
    (services : outcome (result (list (ObjectMeta * string)))) (deployments : outcome (result (list Deployment)))
    (registering : option error) (gw : any_gateway) : outcome (result any_gateway) :=
  match gw with
  | UseKnative g =>
      services ← services;
      match services with
      | Err e => Ret (Err (errorf ("error listing kn services in knative gateway: " +:+ err_text e)))
      | Ok services =>
          r ← kn_SetUp newBackend g services;
          Ret (match r with Ok g => Ok (UseKnative g) | Err e => Err e end)
      end
  | UseK8s g =>
      r ← k8s_SetUp g deployments registering;
      Ret (match r with Ok g => Ok (UseK8s g) | Err e => Err e end)
  end.

(** [NewClient]: the loaded traces, and the creation of the output file. *)
Definition NewClient (loaded : outcome (list TraceSpec)) (outputPath : string) (created : option error) :
    outcome (result (list TraceSpec)) :=
  traces ← loaded;
  Ret (match created with
       | Some e => Err (errorf ("failed to create output file " +:+ outputPath +:+ ": " +:+ err_text e))
       | None => Ok traces
       end).

Definition or_fatal {X} (what : string) (r : result X) : outcome X :=
  match r with Ok x => Ret x | Err e => Fatal (what +:+ ": " +:+ err_text e) end.

(** [main] from the flags to the gateway and the workers of the client;
    [manager] is the call of [NewManagerOrDie], [newBackend] the constructor of
    backends of the framework that [backend.Use] selects, and [listed] the
    deployments as the client lists them. *)
Definition trace_main (manager : outcome unit) (readFile : string -> result string) (unmarshal : string -> result AutoscalerConfig)
    (emptyq : Q string) (newBackend : string -> string -> outcome (result E))
    (services : outcome (result (list (ObjectMeta * string)))) (deployments : outcome (result (list Deployment)))
    (registering : option error) (loaded : outcome (list TraceSpec)) (created : option error)
    (listed : outcome (result (list Deployment))) (outputPath : string)
    (dispatchTimeoutSeconds : Z) (f : flags) : outcome (any_gateway * gmap string worker) :=
  f ← validateFlags f;
  _ ← manager;
  let dispatchTimeout := mul64 dispatchTimeoutSeconds Second in
  r ← create_gateway readFile unmarshal emptyq f dispatchTimeout;
  gw ← or_fatal ("Unable to create " +:+ gatewayFramework f +:+ " gateway") r;
  r ← setup_gateway (newBackend (backendFramework f)) services deployments registering gw;
  gw ← or_fatal ("Unable to setup " +:+ gatewayFramework f +:+ " gateway with manager") r;
  r ← NewClient loaded outputPath created;
  traces ← or_fatal "Unable to create client" r;
  listed ← listed;
  r ← client_Setup (gateway_impl gw) traces listed;
  workers ← or_fatal "Unable to setup client with manager" r;
  Ret (gw, workers).

End main.

(** ** The senders of the assigned traces *)

Lemma newWorker_fields target trace w :
  newWorker target trace = Ret w -> wk_target w = target /\ wk_trace w = trace.
Proof.
  unfold newWorker. destruct (_ <? 0)%Z; [done|]. destruct (shard _ _ _ _); [|done..]. by intros [= <-].
Qed.

(** The senders of a list of workers, each made for a trace of its target. *)
Definition worker_for (kw : string * worker) (tt : Deployment * TraceSpec) : Prop :=
  kw.1 = KeyFromObject (dep_meta tt.1) /\ newWorker kw.1 tt.2 = Ret kw.2 /\
  (Z.of_nat (length (Invocations tt.2)) < 2 ^ 40)%Z.

Definition trace_size (tt : Deployment * TraceSpec) : nat := length (Invocations tt.2).

Lemma unsent_app l1 l2 : unsent (l1 ++ l2) = unsent l1 ++ unsent l2.
Proof. unfold unsent. by rewrite map_app, concat_app, map_app. Qed.

Lemma client_start_spec workers plan start clock :
  Forall2 worker_for workers plan ->
  exists senders, client_start workers start clock = Ret senders /\
  Forall (fun sd => sd_target sd ∈ workers.*1) senders /\
  length (unsent senders) = sum_list_with trace_size plan.
Proof.
  induction 1 as [|[key w] [t trace] workers plan (Hk & Hw & Hl) _ (senders & E & T & L)].
  { exists []. by split_and!. }
  simpl in Hw, Hl. unfold client_start in *. simpl. rewrite E.
  destruct (replay_sends key trace start (clock key) Hl) as (w' & reqss & Hw' & R & _ & P & _).
  rewrite Hw in Hw'. injection Hw' as <-. rewrite R. simpl. eexists. split; [done|].
  destruct (newWorker_fields _ _ _ Hw) as [Ht _]. split.
  - apply Forall_app. split.
    + apply Forall_forall. intros sd. rewrite list_elem_of_fmap. intros (reqs & -> & _). simpl.
      rewrite Ht. left.
    + eapply Forall_impl; [exact T|]. simpl. intros sd Hs. by right.
  - rewrite unsent_app, length_app, L. f_equal. unfold unsent, trace_size. simpl.
    apply Permutation_length in P. rewrite !length_map in P. rewrite <- P, length_map.
    by rewrite map_map, map_id.
Qed.

Lemma assign_workers_plan {C} (g : gatewayImpl C) targets : forall traces ws ws',
  assign_workers g targets traces ws = Ret ws' ->
  NoDup (target_keys targets) -> (forall key, key ∈ target_keys targets -> ws !! key = None) ->
  Forall (fun tr => (Z.of_nat (length (Invocations tr)) < 2 ^ 40)%Z) traces ->
  exists new, Permutation (map_to_list ws') (new ++ map_to_list ws) /\
  Forall2 worker_for new (zip targets traces).
Proof.
  induction targets as [|t targets IH]; intros traces ws ws'; cbn [assign_workers].
  { intros [= <-] _ _ _. by exists []. }
  destruct traces as [|tr traces]; [done|].
  destruct (RequestChan _ _); [|done..]. simpl. destruct (newWorker _ tr) as [w| |] eqn:Hw; [|done..]. simpl.
  intros R [Hk Hn]%NoDup_cons Hf [Ht Hts]%Forall_cons.
  destruct (IH traces _ ws' R Hn) as (new & P & F2); [|done|].
  { intros key Hin. rewrite lookup_insert_ne by (intros Eq; apply Hk; by rewrite Eq).
    apply Hf. by right. }
  exists ((KeyFromObject (dep_meta t), w) :: new). split; [|by constructor].
  rewrite P, map_to_list_insert by (apply Hf; left). symmetry. apply Permutation_middle.
Qed.

(** Flags for the k8s gateway that are accepted. *)
Lemma validated_k8s f :
  gatewayFramework f = "k8s"%string -> backendFramework f ∈ [""; "fake"; "grpc"]%string ->
  traceLoaderConfig f <> ""%string -> autoscalerConfig f <> ""%string ->
  exists f', validateFlags f = Ret f' /\ gatewayFramework f' = "k8s"%string /\
    autoscalerFramework f' = autoscalerFramework f /\ autoscalerConfig f' = autoscalerConfig f.
Proof.
  intros Hg Hb Hl Hc. unfold validateFlags. rewrite (bool_decide_eq_false_2 _ Hl), Hg.
  rewrite (bool_decide_eq_false_2 (_ = "knative"%string)), (bool_decide_eq_true_2 ("k8s"%string = _)) by done.
  rewrite (bool_decide_eq_false_2 _ Hc), andb_false_r.
  rewrite !elem_of_cons, elem_of_nil in Hb. destruct Hb as [Hb|[Hb|[Hb|[]]]]; rewrite Hb; simpl; eauto.
Qed.

Section experiment.
Context {C : Type -> Type} `{CL : ChannLaws C}.
Context {M : Type -> Type} `{SML : SharedMapLaws M}.
Context {Q : Type -> Type} `{QL : WorkQueueLaws Q}.
Context {B Wn : Type} `{TimedBucketsOps B} `{TimeWindowOps Wn}.
Context {Conn E : Type} `{EL : ExecutorLaws Conn E}.
Variable background : option (autoscaler Q (KPADecider B Wn)) -> outcome (option (autoscaler Q (KPADecider B Wn))) -> Prop.

(** The invocations of the traces that are replayed. *)
Definition replayed (targets : list Deployment) (traces : list TraceSpec) : nat :=
  sum_list_with trace_size (zip targets traces).

(** Gateway and client set up for the same deployments: a run of the session can
    end with every invocation counted. *)
Lemma set_up_completes readFile unmarshal (emptyq : Q string) timeout framework path text cfg
    targets traces (g0 g : k8sGateway C M Q B Wn E) start clock factor :
  path <> ""%string -> readFile path = Ok text -> unmarshal text = Ok cfg -> serving_config framework cfg ->
  NewK8sGateway readFile unmarshal emptyq timeout framework path = Ok g0 ->
  k8s_SetUp g0 (Ret (Ok targets)) None = Ret (Ok g) ->
  NoDup (target_keys targets) -> length targets <= length traces ->
  Forall (fun tr => (Z.of_nat (length (Invocations tr)) < 2 ^ 40)%Z) traces ->
  (Z.of_nat (replayed targets traces) < 2 ^ 62)%Z -> (0 < factor)%Z ->
  exists ws senders r0, client_Setup (k8s_impl g) traces (Ok targets) = Ret (Ok ws) /\
  client_start (map_to_list ws) start clock = Ret senders /\ k8s_run (Conn := Conn) g = Ret r0 /\
  Forall (fun sd => sd_target sd ∈ dom (gr_pipes r0)) senders /\
  exists s bad, ss_runs background factor (session_start r0 senders) s /\ ss_main s = MainFinished /\
    ss_summary s = Some (Z.of_nat (replayed targets traces),
                         Z.of_nat (replayed targets traces) - bad, bad)%Z.
Proof.
  intros Hp Hr Hu Hs Hn Hg Nd Hl Htr Hsz Hf.
  destruct (k8s_run_start _ _ _ _ _ _ _ _ _ Hn Hg) as (r0 & R & I & Eh & D & Gi & _ & Go & Rc & Cl).
  assert (hooks_serve r0) as Hk.
  { intros key Hk. rewrite Eh. eapply k8s_hooks_serve; eauto. by apply D. }
  destruct (assign_workers_spec (k8s_impl g) targets traces ∅ Hl) as (ws & Ew & _); [|done|done|].
  { apply Forall_forall. intros t Ht. apply Rc, list_elem_of_fmap. eauto. }
  destruct (assign_workers_plan _ _ _ _ _ Ew Nd) as (new & P & F2); [intros; apply lookup_empty|done|].
  rewrite map_to_list_empty, app_nil_r in P.
  destruct (Permutation_Forall2 (Permutation_sym P) F2) as (plan & Pp & F2').
  destruct (client_start_spec (map_to_list ws) plan start clock F2') as (senders & Es & Ts & Ls).
  assert (length (unsent senders) = replayed targets traces) as Len.
  { rewrite Ls. unfold replayed. by rewrite Pp. }
  assert (Forall (fun sd => sd_target sd ∈ dom (gr_pipes r0)) senders) as Td.
  { eapply Forall_impl; [exact Ts|]. intros sd Hsd. apply D.
    apply list_elem_of_fmap in Hsd as (kw & -> & Hin). rewrite P in Hin.
    apply list_elem_of_lookup in Hin as [i Hi].
    destruct (Forall2_lookup_l _ _ _ _ _ F2 Hi) as ([t tr] & Hz & -> & _).
    apply lookup_zip_with_Some in Hz as (t' & tr' & [= -> ->] & Ht & _).
    apply list_elem_of_fmap. exists t'. split; [done|by eapply list_elem_of_lookup_2]. }
  exists ws, senders, r0. split_and!; [|done|done|done|].
  - unfold client_Setup. destruct (Nat.ltb_spec (length traces) (length targets)); [lia|]. by rewrite Ew.
  - destruct (session_can_complete background factor Hf r0 senders) as (s & bad & Rs & Hm & _ & Hb);
      [split_and!; [apply I|done|done]|done|done|lia|done|].
    exists s, bad. rewrite Len in Hb. by split_and!.
Qed.

(** C1: the trace experiment works from end to end.  With the k8s gateway, a known
    backend, an autoscaler configuration that serves and a trace of reasonable
    size for each of the listed deployments, [main] sets up gateway and client
    without an error, and there is a run of the whole program, from the start of
    the client to the end of the process, in which no request is lost: the last
    line of the output counts as many responses as the replayed traces have
    invocations. *)
Theorem trace_experiment_completes readFile unmarshal (emptyq : Q string) newBackend services targets traces
    outputPath timeoutSeconds f text cfg start clock factor :
  gatewayFramework f = "k8s"%string -> backendFramework f ∈ [""; "fake"; "grpc"]%string ->
  traceLoaderConfig f <> ""%string -> autoscalerConfig f <> ""%string ->
  readFile (autoscalerConfig f) = Ok text -> unmarshal text = Ok cfg ->
  serving_config (autoscalerFramework f) cfg ->
  NoDup (target_keys targets) -> length targets <= length traces ->
  Forall (fun tr => (Z.of_nat (length (Invocations tr)) < 2 ^ 40)%Z) traces ->
  (Z.of_nat (replayed targets traces) < 2 ^ 62)%Z -> (0 < factor)%Z ->
  exists (g : k8sGateway C M Q B Wn E) ws senders r0,
    trace_main (Ret tt) readFile unmarshal emptyq newBackend services (Ret (Ok targets)) None (Ret traces) None
      (Ret (Ok targets)) outputPath timeoutSeconds f = Ret (UseK8s g, ws) /\
    client_start (map_to_list ws) start clock = Ret senders /\ k8s_run (Conn := Conn) g = Ret r0 /\
    exists s bad, ss_runs background factor (session_start r0 senders) s /\ ss_main s = MainFinished /\
      ss_summary s = Some (Z.of_nat (replayed targets traces),
                           Z.of_nat (replayed targets traces) - bad, bad)%Z.
Proof.
  intros Hg Hb Hl Hc Hr Hu Hs Nd Hlen Htr Hsz Hf.
  destruct (validated_k8s f Hg Hb Hl Hc) as (f' & V & G' & A' & C').
  destruct (k8s_setup_ok (C := C) (M := M) (B := B) (Wn := Wn) (E := E) readFile unmarshal emptyq
    (mul64 timeoutSeconds Second) (autoscalerFramework f) (autoscalerConfig f) text cfg targets)
    as (g0 & g & E1 & E2); [done..|].
  destruct (set_up_completes readFile unmarshal emptyq _ _ _ text cfg targets traces g0 g start clock factor
    Hc Hr Hu Hs E1 E2 Nd Hlen Htr Hsz Hf) as (ws & senders & r0 & S1 & S2 & S3 & _ & S4).
  exists g, ws, senders, r0. split_and!; [|done|done|done].
  unfold trace_main. rewrite V. cbn [mbind outcome_bind]. unfold create_gateway. rewrite G', A', C'.
  rewrite bool_decide_eq_false_2, bool_decide_eq_true_2 by done. rewrite E1. cbn [mbind outcome_bind or_fatal].
  unfold setup_gateway. rewrite E2. cbn [mbind outcome_bind or_fatal NewClient gateway_impl].
  rewrite S1. done.
Qed.

End experiment.

(** ** Witnesses *)

#[local] Existing Instances demo_pods demo_pods_laws.

Lemma trace_experiment_completes_witness :
  exists (g : demo_k8s) ws senders r0,
    trace_main (Ret tt) demo_read demo_unmarshal (mk_simple_wq [] []) (fun _ => demo_new) (Ret (Ok []))
      (Ret (Ok demo_targets)) None (Ret [demo_trace 2; demo_trace 3; demo_trace 1]) None (Ret (Ok demo_targets))
      "trace.log" 15
      (mkFlags "" "k8s" "kpa" "config/kpa.yaml" "config/loader.json") = Ret (UseK8s g, ws) /\
    client_start (map_to_list ws) (10 * Second)%Z (fun _ _ _ => 11 * Second)%Z = Ret senders /\
    k8s_run (Conn := nat) g = Ret r0 /\
    exists s bad, ss_runs (fun _ _ => False) 1 (session_start r0 senders) s /\
      ss_summary s = Some (5, 5 - bad, bad)%Z.
Proof.
  destruct (trace_experiment_completes (Conn := nat) (fun _ _ => False) demo_read demo_unmarshal
    (mk_simple_wq [] []) (fun _ => demo_new) (Ret (Ok [])) demo_targets [demo_trace 2; demo_trace 3; demo_trace 1] "trace.log" 15
    (mkFlags "" "k8s" "kpa" "config/kpa.yaml" "config/loader.json") "kpa: ..."
    (mkAutoscalerConfig (Some demo_config) None) (10 * Second)%Z (fun _ _ _ => 11 * Second)%Z 1)
    as (g & ws & senders & r0 & E1 & E2 & E3 & s & bad & R & _ & L).
  - reflexivity.
  - left.
  - discriminate.
  - discriminate.
  - reflexivity.
  - reflexivity.
  - left. split; [reflexivity|]. exists demo_config. split; [reflexivity|]. vm_compute. split; reflexivity.
  - apply NoDup_ListNoDup. repeat constructor; vm_compute; intros X; repeat destruct X as [X|X]; discriminate || done.
  - vm_compute. lia.
  - repeat constructor.
  - reflexivity.
  - lia.
  - exists g, ws, senders, r0. split; [exact E1|]. split; [exact E2|]. split; [exact E3|].
    exists s, bad. split; [exact R|exact L].
Defined.
