(* ===== verification/Kubelet.v ===== *)
(** * The custom kubelet ([cmd/kubelet])

    Models [cmd/kubelet/kubelet.go] (events, the queue and its workers,
    [SyncPod], the published address) and [kubedirect.go] (handshake, binding,
    exposing, the reference status and marking pods ready).  The Kubedirect
    packages are outside the repository: their label names, predicates and
    conversions form the class [KdApi], the epochs of the server hub the class
    [EpochHub].  API reads, the outcomes of API writes, the clock and the random
    choice are read from an environment [sync_env]; API writes are effects. *)

From S2P Require Import Prelude GoTypes Interfaces Kube.

Local Open Scope Z_scope.

(** ** Code outside the repository *)

(** [kdutil] and [kdctx]: [PodInfo] describes a pod that is not yet an API
    object. *)
Class KdApi (PodInfo : Type) : Type := {
  PodLifecycleManagerLabel : string;
  KubeletServiceAddrAnnotation : string;
  IsManaged : Pod -> bool;
  IsPersistent : Pod -> bool;
  IsPodActive : Pod -> bool;
  IsPodReady : Pod -> bool;
  pi_namespace : PodInfo -> string;
  pi_name : PodInfo -> string;
  pi_owner : PodInfo -> string;
  AsPersistentPod : PodInfo -> Pod -> Pod
}.

(** [kdrpc.ServerHub]: the current epoch of each source.  [Lock] installs a new
    epoch; [RLock] fails for any other than the current one. *)
Class EpochHub (H : Type) : Type := {
  hub_lock : H -> string -> string -> H;
  hub_rlock : H -> string -> string -> option error
}.

Class EpochHubLaws (H : Type) `{EpochHub H} : Prop := {
  hub_rlock_current : forall h source epoch, hub_rlock (hub_lock h source epoch) source epoch = None;
  hub_rlock_stale : forall h source epoch epoch',
    epoch' <> epoch -> is_Some (hub_rlock (hub_lock h source epoch) source epoch')
}.

(** ** Data *)

Definition CustomKubeletServicePort : string := ":25010".

Definition PodLifecycleManagerCustom : string := "custom".

Definition WorkloadPoolLabel : string := "kubedirect/workload-pool".

Record PendingPod : Type := mkPending {
  pp_namespace : string;
  pp_name : string
}.

Global Instance PendingPod_eq_dec : EqDecision PendingPod.
Proof. solve_decision. Defined.

Global Instance PendingPod_countable : Countable PendingPod.
Proof.
  apply (inj_countable' (fun p => (pp_namespace p, pp_name p)) (fun x => mkPending x.1 x.2)).
  by intros [].
Defined.

Definition pending_string (p : PendingPod) : string := pp_namespace p +:+ "/" +:+ pp_name p.

Definition NewPendingPodFromAPIServer (pod : Pod) : PendingPod :=
  mkPending (Namespace (pod_meta pod)) (Name (pod_meta pod)).

(** What an informer hands to an event handler. *)
Inductive event_obj : Type :=
| ObjPod (pod : Pod)
| ObjNode (node : Node)
| ObjDeletedPod (pod : Pod)
| ObjDeletedNode (node : Node)
| ObjOther.

(** The API writes of the kubelet. *)
Inductive effect : Type :=
| DeletePod (namespace name : string)
| ExposePod (pod : Pod)
| UpdateStatus (pod : Pod) (status : PodStatus)
| PatchStatus (namespace name uid : string) (status : PodStatus).

Section kubelet.
Context {M : Type -> Type} `{SharedMapOps M}.
Context {Q : Type -> Type} `{WorkQueueOps Q}.
Context {PodInfo : Type} `{KdApi PodInfo}.
Context {Hub : Type} `{EpochHub Hub}.

(** [clientPool] holds the nodes for which a client was made; [delayed] and
    [backoff] are the keys that the queue will add later. *)
Record KubedirectServer : Type := mkServer {
  ks_nodeName : string;
  readyDelay : Z;
  simulate : bool;
  patch : bool;
  clientPool : M unit;
  ks_queue : Q PendingPod;
  delayed : list (PendingPod * Z);
  backoff : list PendingPod;
  inMemCache : M PodInfo;
  readyTimers : M Z;
  serverHub : Hub
}.

Definition set_ks_queue (s : KubedirectServer) (q : Q PendingPod) : KubedirectServer :=
  mkServer (ks_nodeName s) (readyDelay s) (simulate s) (patch s) (clientPool s) q (delayed s)
    (backoff s) (inMemCache s) (readyTimers s) (serverHub s).

Definition set_timers (s : KubedirectServer) (t : M Z) : KubedirectServer :=
  mkServer (ks_nodeName s) (readyDelay s) (simulate s) (patch s) (clientPool s) (ks_queue s) (delayed s)
    (backoff s) (inMemCache s) t (serverHub s).

Definition set_cache (s : KubedirectServer) (c : M PodInfo) : KubedirectServer :=
  mkServer (ks_nodeName s) (readyDelay s) (simulate s) (patch s) (clientPool s) (ks_queue s) (delayed s)
    (backoff s) c (readyTimers s) (serverHub s).

Definition add_after (s : KubedirectServer) (p : PendingPod) (wait : Z) : KubedirectServer :=
  mkServer (ks_nodeName s) (readyDelay s) (simulate s) (patch s) (clientPool s) (ks_queue s)
    (delayed s ++ [(p, wait)]) (backoff s) (inMemCache s) (readyTimers s) (serverHub s).

Definition add_rate_limited (s : KubedirectServer) (p : PendingPod) : KubedirectServer :=
  mkServer (ks_nodeName s) (readyDelay s) (simulate s) (patch s) (clientPool s) (ks_queue s)
    (delayed s) (backoff s ++ [p]) (inMemCache s) (readyTimers s) (serverHub s).

Definition clear_timer (s : KubedirectServer) (p : PendingPod) : KubedirectServer :=
  set_timers s (snd (sm_del (readyTimers s) (pending_string p))).

(** *** The environment of one call *)

(** The listers, the outcomes of the API writes (the pod lister may lag behind
    the server), the clock, and the index that [rand.Intn] draws. *)
Record sync_env : Type := mkSyncEnv {
  env_pod : string -> string -> result Pod;
  env_template : string -> string -> result Pod;
  env_node : string -> result Node;
  env_pool : string -> string -> result (list Pod);
  env_delete : option error;
  env_write : result unit;
  env_marshal : PodStatus -> result unit;
  env_created : Z;
  env_now : Z;
  env_rand : nat -> nat
}.

(** *** Filters *)

Definition enqueueFilter (pod : Pod) : bool :=
  negb (bool_decide (NodeName pod = "")) &&
  bool_decide (str_at (Labels (pod_meta pod)) (PodLifecycleManagerLabel (PodInfo := PodInfo))
               = PodLifecycleManagerCustom).

(** The error joins those of the two lookups, the same text once. *)
Definition isResponsibleFor (s : KubedirectServer) (env : sync_env) (pod : Pod) : result bool :=
  if bool_decide (NodeName pod = "") then Ok false
  else if bool_decide (NodeName pod = ks_nodeName s) then Ok true
  else
    match env_node env (ks_nodeName s), env_node env (NodeName pod) with
    | Ok thisNode, Ok thatNode =>
        let addr := KubeletServiceAddrAnnotation (PodInfo := PodInfo) in
        Ok (bool_decide (str_at (Annotations (node_meta thisNode)) addr =
                         str_at (Annotations (node_meta thatNode)) addr))
    | Ok _, Err e | Err e, Ok _ => Err (errorf ("failed to get node object: " +:+ err_text e))
    | Err e, Err e' =>
        Err (errorf ("failed to get node object: " +:+
               if bool_decide (err_text e = err_text e') then err_text e
               else "[" +:+ err_text e +:+ ", " +:+ err_text e' +:+ "]"))
    end.

Definition unwrapPodObj (obj : event_obj) : option Pod :=
  match obj with
  | ObjPod pod | ObjDeletedPod pod => if enqueueFilter pod then Some pod else None
  | _ => None
  end.

Definition unwrapNodeObj (obj : event_obj) : option Node :=
  match obj with
  | ObjNode node | ObjDeletedNode node => Some node
  | _ => None
  end.

(** *** Event handlers *)

Definition handlePodEvent (s : KubedirectServer) (obj : event_obj) (isDelete : bool) :
    KubedirectServer :=
  match unwrapPodObj obj with
  | None => s
  | Some pod =>
      let pending := NewPendingPodFromAPIServer pod in
      let s := if negb isDelete then set_ks_queue s (wq_add (ks_queue s) pending)
               else clear_timer s pending in
      if IsManaged pod && IsPersistent pod
      then set_cache s (snd (sm_del (inMemCache s) (Name (pod_meta pod)))) else s
  end.

Definition GetClient (s : KubedirectServer) (nodeName : string) : option unit :=
  sm_get (clientPool s) nodeName.

Definition DelClient (s : KubedirectServer) (nodeName : string) : KubedirectServer :=
  mkServer (ks_nodeName s) (readyDelay s) (simulate s) (patch s)
    (snd (sm_del (clientPool s) nodeName)) (ks_queue s) (delayed s) (backoff s) (inMemCache s)
    (readyTimers s) (serverHub s).

(** The handler of node deletions. *)
Definition handleNodeDelete (s : KubedirectServer) (obj : event_obj) : KubedirectServer :=
  match unwrapNodeObj obj with
  | Some node => DelClient s (Name (node_meta node))
  | None => s
  end.

(** *** Reference status *)

Definition set_running (c : ContainerStatus) (now : Z) : ContainerStatus :=
  mkContainerStatus (CSName c) (CSImage c) (Started c) (CSReady c)
    (mkContainerState (match Running (State c) with Some _ => Some now | None => None end)
       (Terminated (State c))).

Definition set_terminated (c : ContainerStatus) (now : Z) : ContainerStatus :=
  mkContainerStatus (CSName c) (CSImage c) (Started c) (CSReady c)
    (mkContainerState (Running (State c))
       (match Terminated (State c) with
        | Some t => Some (mkTerminated (ExitCode t) (Reason t) now now)
        | None => None
        end)).

Definition tweakRefPodStatus (st : PodStatus) (now : Z) : PodStatus :=
  mkPodStatus (Phase st)
    (map (fun c => mkCondition (CondType c) (CondStatus c) now) (Conditions st))
    (HostIP st) (PodIP st) (Some now)
    (map (fun c => set_running c now) (ContainerStatuses st))
    (map (fun c => set_terminated (set_running c now) now) (InitContainerStatuses st)).

Definition true_condition (type : string) : PodCondition := mkCondition type "True" zero_time.

Definition simulateRefPodStatus (pod : Pod) (now : Z) : PodStatus :=
  tweakRefPodStatus
    (mkPodStatus "Running"
       ([true_condition "Ready"; true_condition "ContainersReady"; true_condition "PodScheduled";
         true_condition "Initialized"] ++ map true_condition (ReadinessGates pod))
       "127.0.0.1" "127.0.0.1" None
       (map (fun c => mkContainerStatus (CName c) (CImage c) (Some true) true
                        (mkContainerState (Some zero_time) None)) (Containers pod))
       (map (fun c => mkContainerStatus (CName c) (CImage c) (Some true) true
                        (mkContainerState None (Some (mkTerminated 0 "Completed" zero_time zero_time))))
          (InitContainers pod))) now.

(** [rand.Intn(n)] is below [n]; an index out of range would panic. *)
Definition getRefPodStatus (env : sync_env) (pod : Pod) : outcome (result PodStatus) :=
  match env_pool env (Namespace (pod_meta pod)) (str_at (Labels (pod_meta pod)) "workload") with
  | Err e => Ret (Err (errorf ("failed to list pods from workload pool: " +:+ err_text e)))
  | Ok workloadPool =>
      let readyPods := filter (fun p => IsPodReady p = true) workloadPool in
      if (length readyPods =? 0)%nat then Ret (Err (errorf "no ready pod matches the workload"))
      else
        match readyPods !! env_rand env (length readyPods) with
        | Some refPod => Ret (Ok (tweakRefPodStatus (Status refPod) (env_now env)))
        | None => Panic "index out of range"
        end
  end.

(** *** Marking a pod ready *)

(** A call on the nil client of a node without handshake panics.  The text of the
    patch error leaves out the bytes of the patch. *)
Definition markPodReady (s : KubedirectServer) (env : sync_env) (pod : Pod) (refStatus : PodStatus) :
    outcome (option error * list effect) :=
  if patch s then
    match env_marshal env refStatus with
    | Err e =>
        Ret (Some (errorf ("failed to Marshal newData for pod " +:+ quoted (Namespace (pod_meta pod)) +:+ "/"
                           +:+ quoted (Name (pod_meta pod)) +:+ ": " +:+ err_text e)), [])
    | Ok _ =>
        match GetClient s (NodeName pod) with
        | None => nil_deref
        | Some _ =>
            let eff := [PatchStatus (Namespace (pod_meta pod)) (Name (pod_meta pod)) (UID (pod_meta pod))
                          refStatus] in
            match env_write env with
            | Err e => Ret (Some (errorf ("failed to patch status: " +:+ err_text e)), eff)
            | Ok _ => Ret (None, eff)
            end
        end
    end
  else
    match GetClient s (NodeName pod) with
    | None => nil_deref
    | Some _ =>
        let eff := [UpdateStatus (set_status pod refStatus) refStatus] in
        match env_write env with
        | Err e => Ret (Some (errorf ("failed to update status: " +:+ err_text e)), eff)
        | Ok _ => Ret (None, eff)
        end
    end.

(** *** [SyncPod] *)

(** The pod to work on: the API object if the lister has it, else the in-memory
    pod built from its template; [None] when there is nothing to do. *)
Definition find_pod (s : KubedirectServer) (env : sync_env) (pending : PendingPod) :
    result (option (Pod * bool)) :=
  match env_pod env (pp_namespace pending) (pp_name pending) with
  | Ok apiPod => Ok (Some (apiPod, false))
  | Err e =>
      if IsNotFound e then
        match sm_get (inMemCache s) (pp_name pending) with
        | None => Ok None
        | Some podInfo =>
            match env_template env (pi_namespace podInfo) (pi_owner podInfo) with
            | Ok template => Ok (Some (AsPersistentPod podInfo template, true))
            | Err e => if IsNotFound e then Ok None else Err e
            end
        end
      else Err e
  end.

Definition sync_outcome : Type := outcome (option error * KubedirectServer * list effect).

(** The part of [SyncPod] after the checks: the ready timer, the exposure of an
    in-memory pod, and the status update. *)
Definition sync_active (s : KubedirectServer) (env : sync_env) (pending : PendingPod) (pod : Pod)
    (isInMem : bool) : sync_outcome :=
  let '((readyTime, fresh), timers) :=
    sm_get_or_create (readyTimers s) (pending_string pending)
      (time_add (env_created env) (readyDelay s)) in
  let s := set_timers s timers in
  let exposed := if fresh && isInMem then [ExposePod pod] else [] in
  let waitTime := time_sub readyTime (env_now env) in
  if 0 <? waitTime then Ret (None, add_after s pending waitTime, exposed)
  else if isInMem then Ret (None, s, exposed)
  else
    refStatus ← (if simulate s then Ret (Ok (simulateRefPodStatus pod (env_now env)))
                 else getRefPodStatus env pod);
    match refStatus with
    | Err e => Ret (Some e, s, exposed)
    | Ok refStatus =>
        '(err, eff) ← markPodReady s env pod refStatus;
        Ret (err, s, exposed ++ eff)
    end.

Definition SyncPod (s : KubedirectServer) (env : sync_env) (pending : PendingPod) : sync_outcome :=
  match find_pod s env pending with
  | Err e => Ret (Some e, s, [])
  | Ok None => Ret (None, s, [])
  | Ok (Some (pod, isInMem)) =>
      match isResponsibleFor s env pod with
      | Err e => Ret (Some e, s, [])
      | Ok false => Ret (None, s, [])
      | Ok true =>
          match DeletionTimestamp (pod_meta pod) with
          | Some _ =>
              let eff := [DeletePod (Namespace (pod_meta pod)) (Name (pod_meta pod))] in
              match env_delete env with
              | Some e => if IsNotFound e then Ret (None, clear_timer s pending, eff)
                          else Ret (Some e, s, eff)
              | None => Ret (None, clear_timer s pending, eff)
              end
          | None =>
              if negb (IsPodActive pod) then Ret (None, clear_timer s pending, [])
              else if IsPodReady pod then Ret (None, clear_timer s pending, [])
              else sync_active s env pending pod isInMem
          end
      end
  end.

(** *** Workers *)

Definition kubelet_get (s : KubedirectServer) : option (PendingPod * KubedirectServer) :=
  match wq_get (ks_queue s) with
  | Some (pending, q) => Some (pending, set_ks_queue s q)
  | None => None
  end.

Definition kubelet_sync (s : KubedirectServer) (env : sync_env) (pending : PendingPod) :
    outcome (KubedirectServer * list effect) :=
  '(err, s, eff) ← SyncPod s env pending;
  let s := match err with Some _ => add_rate_limited s pending | None => s end in
  Ret (set_ks_queue s (wq_done (ks_queue s) pending), eff).

Definition kubelet_processNextItem (s : KubedirectServer) (env : sync_env) :
    option (outcome (KubedirectServer * list effect)) :=
  match kubelet_get s with
  | Some (pending, s) => Some (kubelet_sync s env pending)
  | None => None
  end.

(** *** Exposing a pod *)

(** One attempt of the poll: whether it is over.  [created] is the outcome of
    the create call. *)
Definition tryCreate (s : KubedirectServer) (pod : Pod) (created : option error) : outcome bool :=
  match GetClient s (NodeName pod) with
  | None => nil_deref
  | Some _ =>
      Ret (match created with
           | None => true
           | Some e => IsAlreadyExists e
           end)
  end.

(** The poll over the outcomes of successive attempts: [Some n] when attempt
    [n] ended it, [None] when it still polls. *)
Fixpoint ExposeManagedPod_poll (s : KubedirectServer) (pod : Pod) (n : nat)
    (attempts : list (option error)) : outcome (option nat) :=
  match attempts with
  | [] => Ret None
  | created :: attempts =>
      finished ← tryCreate s pod created;
      if (finished : bool) then Ret (Some n) else ExposeManagedPod_poll s pod (S n) attempts
  end.

Definition ExposeManagedPod (s : KubedirectServer) (pod : Pod) (attempts : list (option error)) :
    outcome (option nat) :=
  if negb (bool_decide (ResourceVersion (pod_meta pod) = "")) then Ret (Some 0%nat)
  else ExposeManagedPod_poll s pod 0 attempts.

(** *** Remote procedures *)

Record HandshakeRequest : Type := mkHandshake {
  hs_source : string;
  hs_destination : string;
  hs_epoch : string
}.

(** The response lists the in-memory pods on the node ([onNode]). *)
Definition Handshake (onNode : M PodInfo -> string -> list PodInfo) (s : KubedirectServer)
    (req : HandshakeRequest) : (string * string * list PodInfo) * KubedirectServer :=
  let '(_, pool) := sm_get_or_create (clientPool s) (hs_destination req) tt in
  let s := mkServer (ks_nodeName s) (readyDelay s) (simulate s) (patch s) pool (ks_queue s) (delayed s)
             (backoff s) (inMemCache s) (readyTimers s)
             (hub_lock (serverHub s) (hs_source req) (hs_epoch req)) in
  ((hs_epoch req, hs_destination req, onNode (inMemCache s) (hs_destination req)), s).

Record PodBindingRequest : Type := mkBinding {
  br_source : string;
  br_epoch : string;
  br_owner_namespace : string;
  br_owner_name : string;
  br_info : PodInfo
}.

(** gRPC status codes of the error results. *)
Inductive bind_error : Type :=
| BindNotFound (e : error)
| BindEpochMismatch (e : error).

Definition NewPendingPodFromInMemCache (podInfo : PodInfo) : PendingPod :=
  mkPending (pi_namespace podInfo) (pi_name podInfo).

(** [template] is the outcome of the template lookup.  A pod that is already in
    the cache is ignored. *)
Definition BindPod (template : result Pod) (s : KubedirectServer) (req : PodBindingRequest) :
    option bind_error * KubedirectServer :=
  match template with
  | Err e => (Some (BindNotFound e), s)
  | Ok _ =>
      let podInfo := br_info req in
      match hub_rlock (serverHub s) (br_source req) (br_epoch req) with
      | Some e => (Some (BindEpochMismatch e), s)
      | None =>
          let '((_, fresh), cache) := sm_get_or_create (inMemCache s) (pi_name podInfo) podInfo in
          if negb fresh then (None, set_cache s cache)
          else
            let pending := NewPendingPodFromInMemCache podInfo in
            let s := set_cache s cache in
            (None, set_ks_queue s (wq_add (ks_queue s) pending))
      end
  end.

(** *** The service address *)

(** The first internal IP of the node. *)
Definition host_ip (node : Node) : string :=
  match list_find (fun a => AddrType a = "InternalIP") (Addresses node) with
  | Some (_, a) => Address a
  | None => ""
  end.

(** One attempt: an error ends the poll, [Ok (false, _)] retries.  [update] is
    the outcome of the node update. *)
Definition publishServiceAddr (s : KubedirectServer) (env : sync_env) (update : result unit) :
    outcome (result (bool * option Node)) :=
  match env_node env (ks_nodeName s) with
  | Err e => if IsNotFound e then Ret (Err (errorf ("node " +:+ ks_nodeName s +:+ " not found")))
             else nil_deref
  | Ok node =>
      if bool_decide (host_ip node = "")
      then Ret (Err (errorf ("node " +:+ ks_nodeName s +:+ " has no internal IP")))
      else
        let m := node_meta node in
        let node := mkNode (mkMeta (Namespace m) (Name m) (UID m) (ResourceVersion m) (Labels m)
          (<[KubeletServiceAddrAnnotation (PodInfo := PodInfo) := host_ip node +:+ CustomKubeletServicePort]>
             (Annotations m)) (DeletionTimestamp m)) (Addresses node) in
        match update with
        | Err _ => Ret (Ok (false, Some node))
        | Ok _ => Ret (Ok (true, Some node))
        end
  end.

End kubelet.

Arguments KubedirectServer M Q PodInfo Hub : clear implicits.

(** ** What a synchronisation may do *)

Section facts.
Context {M : Type -> Type} `{SML : SharedMapLaws M}.
Context {Q : Type -> Type} `{QL : WorkQueueLaws Q}.
Context {PodInfo : Type} `{KdApi PodInfo}.
Context {Hub : Type} `{EpochHub Hub}.
Notation server := (KubedirectServer M Q PodInfo Hub).
Implicit Types s : server.

(** The pod that an effect concerns. *)
Definition effect_on (e : effect) (pod : Pod) : Prop :=
  match e with
  | DeletePod ns n => ns = Namespace (pod_meta pod) /\ n = Name (pod_meta pod)
  | ExposePod p => p = pod
  | UpdateStatus p _ => pod_meta p = pod_meta pod
  | PatchStatus ns n uid _ =>
      ns = Namespace (pod_meta pod) /\ n = Name (pod_meta pod) /\ uid = UID (pod_meta pod)
  end.

Definition is_status_write (e : effect) : bool :=
  match e with UpdateStatus _ _ | PatchStatus _ _ _ _ => true | _ => false end.

(** The timer of a key after a synchronisation created or found it. *)
Lemma timer_spec (timers : M Z) key t :
  let r := sm_get_or_create timers key t in
  snd (fst r) = bool_decide (sm_inner timers !! key = None) /\
  sm_inner (snd r) = <[key := fst (fst r)]> (sm_inner timers) /\
  fst (fst r) = default t (sm_inner timers !! key).
Proof.
  simpl. destruct (sm_inner timers !! key) as [v|] eqn:L.
  - rewrite (sm_goc_old _ _ _ _ _ L). simpl. split_and!; [done|by rewrite insert_id|done].
  - destruct (sm_goc_new _ timers key t L) as [E1 E2]. rewrite E2, E1. simpl.
    split_and!; done.
Qed.

Lemma markPodReady_effects s env pod st err eff :
  markPodReady s env pod st = Ret (err, eff) ->
  Forall (fun e => effect_on e pod /\ is_status_write e = true) eff.
Proof.
  unfold markPodReady. intros E. repeat break_hyp; simplify_eq/=; repeat constructor; done.
Qed.

(** What [sync_active] does. *)
Lemma sync_active_spec s env pending pod isInMem err s' eff :
  sync_active s env pending pod isInMem = Ret (err, s', eff) ->
  let ready := default (time_add (env_created env) (readyDelay s))
                 (sm_inner (readyTimers s) !! pending_string pending) in
  sm_inner (readyTimers s') = <[pending_string pending := ready]> (sm_inner (readyTimers s)) /\
  readyDelay s' = readyDelay s /\ inMemCache s' = inMemCache s /\ clientPool s' = clientPool s /\
  Forall (fun e => effect_on e pod /\
    (match e with
     | ExposePod _ => isInMem = true /\ sm_inner (readyTimers s) !! pending_string pending = None
     | DeletePod _ _ => False
     | _ => isInMem = false /\ ready <= env_now env
     end)) eff.
Proof.
  unfold sync_active.
  pose proof (timer_spec (readyTimers s) (pending_string pending) (time_add (env_created env) (readyDelay s)))
    as (T1 & T2 & T3).
  destruct (sm_get_or_create _ _ _) as [[ready fresh] timers]. simpl in T1, T2, T3. rewrite <- T3.
  assert (Forall (fun e => effect_on e pod /\
    (match e with
     | ExposePod _ => isInMem = true /\ sm_inner (readyTimers s) !! pending_string pending = None
     | DeletePod _ _ => False
     | _ => isInMem = false /\ ready <= env_now env
     end)) (if fresh && isInMem then [ExposePod pod] else [])) as Fe.
  { destruct fresh, isInMem; simpl; constructor; [|constructor]. split; [done|]. split; [done|].
    symmetry in T1. by apply bool_decide_eq_true in T1. }
  destruct (Z.ltb_spec 0 (time_sub ready (env_now env))) as [W|W].
  { intros [= <- <- <-]. simpl. split_and!; done. }
  assert (ready <= env_now env) as Hr.
  { destruct (Z_le_gt_dec ready (env_now env)) as [|G]; [done|].
    assert (0 < time_sub ready (env_now env)) by (apply time_sub_pos; lia). lia. }
  destruct isInMem; simpl. { intros [= <- <- <-]. simpl. split_and!; done. }
  match goal with |- context [(if simulate s then ?a else ?b)] => destruct (if simulate s then a else b) as [[st|e]| |] end;
    simpl; [| |done..].
  2: { intros [= <- <- <-]. simpl. split_and!; done. }
  destruct (markPodReady _ env pod st) as [[err1 eff1]| |] eqn:MR; simpl; [|done..].
  intros [= <- <- <-]. simpl. split_and!; try done.
  apply markPodReady_effects in MR. apply Forall_app. split; [done|].
  eapply Forall_impl; [exact MR|]. intros e [E1 E2]. split; [done|]. by destruct e.
Qed.

(** The checks that precede [sync_active]. *)
Lemma SyncPod_cases s env pending err s' eff :
  SyncPod s env pending = Ret (err, s', eff) ->
  (eff = [] /\ (s' = s \/ s' = clear_timer s pending)) \/
  exists pod isInMem, find_pod s env pending = Ok (Some (pod, isInMem)) /\
    isResponsibleFor s env pod = Ok true /\
    ((is_Some (DeletionTimestamp (pod_meta pod)) /\
      eff = [DeletePod (Namespace (pod_meta pod)) (Name (pod_meta pod))] /\
      (s' = s \/ s' = clear_timer s pending)) \/
     (DeletionTimestamp (pod_meta pod) = None /\ IsPodActive pod = true /\ IsPodReady pod = false /\
      sync_active s env pending pod isInMem = Ret (err, s', eff))).
Proof.
  unfold SyncPod. destruct (find_pod s env pending) as [[[pod isInMem]|]|e] eqn:F;
    [|intros [= <- <- <-]; auto..].
  destruct (isResponsibleFor s env pod) as [[]|e] eqn:R; [|intros [= <- <- <-]; auto..].
  destruct (DeletionTimestamp (pod_meta pod)) as [t|] eqn:D.
  { intros E. right. exists pod, isInMem. split_and!; [done..|]. left.
    destruct (env_delete env) as [e|]; [destruct (IsNotFound e)|]; simplify_eq/=; auto. }
  destruct (IsPodActive pod) eqn:A; simpl; [|intros [= <- <- <-]; auto].
  destruct (IsPodReady pod) eqn:Rd; [intros [= <- <- <-]; auto|].
  intros E. right. exists pod, isInMem. split_and!; [done..|]. right. split_and!; done.
Qed.

(** C17: the kubelet touches only its own pods, and each effect has its reason.
    Every API write of [SyncPod] concerns the pod of the key, for which this
    kubelet is responsible: it is deleted only when its deletion was requested,
    exposed only when it is an in-memory pod seen for the first time, and its
    status is written only when it is an API object, active, not yet ready and
    past its ready time. *)
Theorem sync_effects_justified s env pending err s' eff e :
  SyncPod s env pending = Ret (err, s', eff) -> e ∈ eff ->
  exists pod isInMem, find_pod s env pending = Ok (Some (pod, isInMem)) /\
  isResponsibleFor s env pod = Ok true /\ effect_on e pod /\
  match e with
  | DeletePod _ _ => is_Some (DeletionTimestamp (pod_meta pod))
  | ExposePod _ => isInMem = true /\ DeletionTimestamp (pod_meta pod) = None /\
      sm_inner (readyTimers s) !! pending_string pending = None
  | _ => isInMem = false /\ DeletionTimestamp (pod_meta pod) = None /\ IsPodActive pod = true /\
      IsPodReady pod = false /\
      exists ready, sm_inner (readyTimers s') !! pending_string pending = Some ready /\
                    ready <= env_now env
  end.
Proof.
  intros E Hin. apply SyncPod_cases in E as [[-> _]|(pod & isInMem & F & R & C)]; [by apply not_elem_of_nil in Hin|].
  exists pod, isInMem. split; [done|]. split; [done|]. destruct C as [(D & -> & _)|(D & A & Rd & E)].
  { apply list_elem_of_singleton in Hin as ->. done. }
  apply sync_active_spec in E as (T & _ & _ & _ & Fe). rewrite Forall_forall in Fe.
  apply Fe in Hin as [On W]. split; [done|].
  destruct e; [done|naive_solver|..];
    (destruct W as [W1 W2]; split_and!; try done; eexists; rewrite T, lookup_insert_eq; split; done).
Qed.

(** ** Runs of a kubelet *)

Inductive ks_event : Type :=
| EvPod (obj : event_obj) (isDelete : bool)
| EvNodeDelete (obj : event_obj)
| EvHandshake (req : HandshakeRequest)
| EvBind (template : result Pod) (req : PodBindingRequest (PodInfo := PodInfo))
| EvSync (pending : PendingPod) (env : sync_env).

Definition ks_step (s : server) (ev : ks_event) : outcome (server * list effect) :=
  match ev with
  | EvPod obj isDelete => Ret (handlePodEvent s obj isDelete, [])
  | EvNodeDelete obj => Ret (handleNodeDelete s obj, [])
  | EvHandshake req => Ret (snd (Handshake (fun _ _ => []) s req), [])
  | EvBind template req => Ret (snd (BindPod template s req), [])
  | EvSync pending env => kubelet_sync s env pending
  end.

Fixpoint ks_run (s : server) (evs : list ks_event) : outcome server :=
  match evs with
  | [] => Ret s
  | ev :: evs => '(s, _) ← ks_step s ev; ks_run s evs
  end.

Lemma ks_run_app s evs1 evs2 : ks_run s (evs1 ++ evs2) = (s1 ← ks_run s evs1; ks_run s1 evs2).
Proof.
  revert s. induction evs1 as [|ev evs1 IH]; intros s; [done|]. simpl.
  destruct (ks_step s ev) as [[s1 eff]| |]; simpl; [apply IH|done..].
Qed.

(** The events that end the life of the pod of a key, as the kubelet sees it: its
    deletion is reported, or it is synchronised and found to be deleted, to have
    ended or to be ready. *)
Definition resets s (ev : ks_event) (key : string) : Prop :=
  match ev with
  | EvPod obj true =>
      exists pod, unwrapPodObj obj = Some pod /\ Namespace (pod_meta pod) +:+ "/" +:+ Name (pod_meta pod) = key
  | EvSync pending env =>
      pending_string pending = key /\
      exists pod isInMem, find_pod s env pending = Ok (Some (pod, isInMem)) /\
        isResponsibleFor s env pod = Ok true /\
        match DeletionTimestamp (pod_meta pod) with
        | Some _ => forall e, env_delete env = Some e -> IsNotFound e = true
        | None => IsPodActive pod = false \/ IsPodReady pod = true
        end
  | _ => False
  end.

(** In the run of [before ++ evs] no event of [evs] resets the key. *)
Definition never_reset s0 (before evs : list ks_event) (key : string) : Prop :=
  forall evs1 ev evs2 s, evs = evs1 ++ ev :: evs2 -> ks_run s0 (before ++ evs1) = Ret s -> ~ resets s ev key.

(** The timer of the key was started by a synchronisation, after which the key
    was not reset. *)
Definition timer_origin s0 (evs : list ks_event) (key : string) (ready : Z) : Prop :=
  exists before pending env after, evs = before ++ EvSync pending env :: after /\
    pending_string pending = key /\ ready = env_created env + readyDelay s0 /\
    never_reset s0 (before ++ [EvSync pending env]) after key.

Definition timers_from s0 (evs : list ks_event) s : Prop :=
  readyDelay s = readyDelay s0 /\
  forall key ready, sm_inner (readyTimers s) !! key = Some ready -> timer_origin s0 evs key ready.

Lemma timer_origin_snoc s0 evs s ev key ready :
  ks_run s0 evs = Ret s -> ~ resets s ev key -> timer_origin s0 evs key ready ->
  timer_origin s0 (evs ++ [ev]) key ready.
Proof.
  intros R Nr (before & pending & env & after & -> & Hk & Hr & Nv).
  exists before, pending, env, (after ++ [ev]). split_and!; [by rewrite <- app_assoc|done|done|].
  intros evs1 ev1 evs2 s1 E R1. destruct evs2 as [|x evs2 _] using rev_ind.
  - apply app_inj_tail in E as [<- <-]. rewrite <- app_assoc in R1. simpl in R1. rewrite R in R1. by injection R1 as <-.
  - rewrite app_comm_cons, app_assoc in E. apply app_inj_tail in E as [-> _]. by eapply Nv.
Qed.

(** A timer that runs after an event ran before it, and the event did not reset
    it, or a synchronisation has just started it. *)
Lemma clear_timer_kept s p key ready :
  sm_inner (readyTimers (clear_timer s p)) !! key = Some ready ->
  key <> pending_string p /\ sm_inner (readyTimers s) !! key = Some ready.
Proof. simpl. rewrite sm_inner_del. intros [Ne L]%lookup_delete_Some. by split. Qed.

Lemma SyncPod_timer s env pending err s' eff key ready :
  SyncPod s env pending = Ret (err, s', eff) -> sm_inner (readyTimers s') !! key = Some ready ->
  (sm_inner (readyTimers s) !! key = Some ready /\ ~ resets s (EvSync pending env) key) \/
  (pending_string pending = key /\ ready = env_created env + readyDelay s).
Proof.
  intros E L. destruct (decide (pending_string pending = key)) as [Hk|Hk].
  2: { left. split; [|intros [? _]; done].
    apply SyncPod_cases in E as [[_ [->| ->]]|(pod & m & _ & _ & [(_ & _ & [->| ->])|(_ & _ & _ & E)])]; try done;
      try by apply clear_timer_kept in L as [_ L].
    apply sync_active_spec in E as (E1 & _). by rewrite E1, lookup_insert_ne in L by done. }
  unfold SyncPod in E. unfold resets.
  destruct (find_pod s env pending) as [[[pod m]|]|e] eqn:F;
    [|left; injection E as <- <- <-; split; [done|by intros (_ & ? & ? & ? & _)]..].
  destruct (isResponsibleFor s env pod) as [[]|e] eqn:R;
    [|left; injection E as <- <- <-; split; [done|intros (_ & ? & ? & [= <- <-] & ? & _); congruence]..].
  destruct (DeletionTimestamp (pod_meta pod)) as [t|] eqn:D.
  { destruct (env_delete env) as [e|]; [destruct (IsNotFound e) eqn:Nf|]; simplify_eq;
      try (by apply clear_timer_kept in L as [? _]).
    left. split; [done|]. intros (_ & pod' & m' & [= <- <-] & _ & Hd). rewrite D in Hd. by rewrite (Hd e) in Nf. }
  destruct (IsPodActive pod) eqn:A; simpl in E; [|simplify_eq; by apply clear_timer_kept in L as [? _]].
  destruct (IsPodReady pod) eqn:Rd; [simplify_eq; by apply clear_timer_kept in L as [? _]|].
  apply sync_active_spec in E as (E1 & _). rewrite E1, Hk, lookup_insert_eq in L. injection L as L.
  destruct (sm_inner (readyTimers s) !! key) as [r|] eqn:Lk; simpl in L; [left|right].
  - split; [congruence|]. intros (_ & pod' & m' & [= <- <-] & _ & Hd). rewrite D in Hd.
    destruct Hd; congruence.
  - split; [done|]. by subst ready.
Qed.

Lemma ks_step_timer s ev s' eff key ready :
  ks_step s ev = Ret (s', eff) -> sm_inner (readyTimers s') !! key = Some ready ->
  (sm_inner (readyTimers s) !! key = Some ready /\ ~ resets s ev key) \/
  exists pending env, ev = EvSync pending env /\ pending_string pending = key /\
    ready = env_created env + readyDelay s.
Proof.
  destruct ev as [obj isDelete|obj|req|template req|pending env]; cbn [ks_step].
  - intros [= <- <-] L. left. unfold handlePodEvent in L. unfold resets.
    destruct (unwrapPodObj obj) as [pod|]; [|destruct isDelete; naive_solver].
    assert (sm_inner (readyTimers (if isDelete then clear_timer s (NewPendingPodFromAPIServer pod) else s)) !! key
      = Some ready) as L' by by destruct isDelete, (IsManaged pod && IsPersistent pod).
    destruct isDelete; [|split; [exact L'|intros []]]. apply clear_timer_kept in L' as [Ne L'].
    split; [done|]. intros (pod' & [= <-] & Hk). by apply Ne.
  - intros [= <- <-] L. left. split; [|intros []]. unfold handleNodeDelete in L. by destruct (unwrapNodeObj obj).
  - intros [= <- <-] L. left. split; [|intros []]. unfold Handshake in L. by destruct (sm_get_or_create _ _ _).
  - intros [= <- <-] L. left. split; [|intros []]. unfold BindPod in L. revert L. by repeat break_goal.
  - unfold kubelet_sync. destruct (SyncPod s env pending) as [[[err s1] eff1]| |] eqn:E; simpl; [|done..].
    intros [= <- <-] L. destruct (SyncPod_timer _ _ _ _ _ _ key ready E) as [|[]]; [by destruct err|by left|right; eauto].
Qed.

Lemma ks_step_delay s ev s' eff : ks_step s ev = Ret (s', eff) -> readyDelay s' = readyDelay s.
Proof.
  destruct ev as [obj isDelete|obj|req|template req|pending env]; cbn [ks_step].
  - intros [= <- <-]. unfold handlePodEvent. destruct (unwrapPodObj obj); [|done]. by destruct isDelete, (_ && _).
  - intros [= <- <-]. unfold handleNodeDelete. by destruct (unwrapNodeObj obj).
  - intros [= <- <-]. unfold Handshake. by destruct (sm_get_or_create _ _ _).
  - intros [= <- <-]. unfold BindPod. by repeat break_goal.
  - unfold kubelet_sync. destruct (SyncPod s env pending) as [[[err s1] eff1]| |] eqn:E; simpl; [|done..].
    intros [= <- <-].
    apply SyncPod_cases in E as [[_ [->| ->]]|(pod & m & _ & _ & [(_ & _ & [->| ->])|(_ & _ & _ & E)])];
      try by destruct err.
    apply sync_active_spec in E as (_ & E & _). by destruct err.
Qed.

(** Every timer that runs after an event has its origin among the events. *)
Lemma timer_after s0 evs s ev key ready :
  ks_run s0 evs = Ret s -> timers_from s0 evs s ->
  (sm_inner (readyTimers s) !! key = Some ready /\ ~ resets s ev key) \/
  (exists pending env, ev = EvSync pending env /\ pending_string pending = key /\
     ready = env_created env + readyDelay s) ->
  timer_origin s0 (evs ++ [ev]) key ready.
Proof.
  intros R [D T] [[L Nr]|(pending & env & -> & Hk & Hr)].
  - eapply timer_origin_snoc; eauto.
  - exists evs, pending, env, []. split_and!; [done|done|congruence|]. by intros [|? evs1].
Qed.

Lemma ks_run_timers s0 evs s :
  sm_inner (readyTimers s0) = ∅ -> ks_run s0 evs = Ret s -> timers_from s0 evs s.
Proof.
  intros Hz. revert s. induction evs as [|ev evs IH] using rev_ind; intros s.
  { intros [= <-]. split; [done|]. intros key ready. by rewrite Hz, lookup_empty. }
  rewrite ks_run_app. destruct (ks_run s0 evs) as [s1| |] eqn:R; simpl; [|done..].
  destruct (ks_step s1 ev) as [[s2 eff]| |] eqn:E; simpl; [|done..]. intros [= <-].
  destruct (IH s1 eq_refl) as [D T]. split; [rewrite (ks_step_delay _ _ _ _ E); done|].
  intros key ready L. eapply timer_after; [done|by split|]. by eapply ks_step_timer.
Qed.

(** C16: no pod is ready before its delay.  In every run of a kubelet, the status
    of a pod is written at a synchronisation only if an earlier synchronisation
    of the pod (or this one) started its timer at least the ready delay before,
    and nothing has reset the pod since: no deletion of it was reported, and no
    synchronisation found it deleted, ended or ready.  So a pod that is deleted
    and created again waits for a delay of its own. *)
Theorem ready_after_delay s0 evs s pending env err s' eff e :
  sm_inner (readyTimers s0) = ∅ ->
  ks_run s0 evs = Ret s ->
  SyncPod s env pending = Ret (err, s', eff) -> e ∈ eff -> is_status_write e = true ->
  exists before pending0 env0 after,
    evs ++ [EvSync pending env] = before ++ EvSync pending0 env0 :: after /\
    pending_string pending0 = pending_string pending /\
    env_created env0 + readyDelay s0 <= env_now env /\
    never_reset s0 (before ++ [EvSync pending0 env0]) after (pending_string pending).
Proof.
  intros Hz R E Hin Hs. pose proof (ks_run_timers _ _ _ Hz R) as T.
  assert (forall ready, sm_inner (readyTimers s') !! pending_string pending = Some ready ->
    timer_origin s0 (evs ++ [EvSync pending env]) (pending_string pending) ready) as To.
  { intros ready L. eapply timer_after; [done|done|].
    destruct (SyncPod_timer _ _ _ _ _ _ _ _ E L) as [|[]]; [by left|right; eauto]. }
  apply SyncPod_cases in E as [[-> _]|(pod & isInMem & _ & _ & [(_ & -> & _)|(_ & _ & _ & E)])].
  { by apply not_elem_of_nil in Hin. }
  { apply list_elem_of_singleton in Hin as ->. done. }
  apply sync_active_spec in E as (E1 & _ & _ & _ & Fe). rewrite Forall_forall in Fe. apply Fe in Hin as [_ W].
  destruct (To _ ltac:(by rewrite E1, lookup_insert_eq)) as (before & p0 & en0 & after & El & Hk & Hr & Nv).
  exists before, p0, en0, after. split_and!; [done|done| |done]. rewrite <- Hr. by destruct e; destruct W.
Qed.

(** ** Progress *)

(** The pod of the key is an API object of this kubelet that should become ready. *)
Definition startable s env pending pod : Prop :=
  env_pod env (pp_namespace pending) (pp_name pending) = Ok pod /\
  isResponsibleFor s env pod = Ok true /\ DeletionTimestamp (pod_meta pod) = None /\
  IsPodActive pod = true /\ IsPodReady pod = false.

Lemma SyncPod_startable s env pending pod :
  startable s env pending pod -> SyncPod s env pending = sync_active s env pending pod false.
Proof.
  intros (P1 & P2 & P3 & P4 & P5). unfold SyncPod, find_pod. rewrite P1, P2, P3, P4, P5. done.
Qed.

(** The reference status of a pod, simulated or of a pod of the workload pool,
    and the write that marks the pod ready with it. *)
Definition ref_status s env pod : outcome (result PodStatus) :=
  if simulate s then Ret (Ok (simulateRefPodStatus pod (env_now env)))
  else getRefPodStatus (PodInfo := PodInfo) env pod.

Definition ready_write s pod (st : PodStatus) : effect :=
  if patch s then PatchStatus (Namespace (pod_meta pod)) (Name (pod_meta pod)) (UID (pod_meta pod)) st
  else UpdateStatus (set_status pod st) st.

(** A synchronisation of a startable pod at or past its ready time. *)
Lemma sync_past_ready s env pending pod ready st :
  startable s env pending pod ->
  sm_inner (readyTimers s) !! pending_string pending = Some ready -> ready <= env_now env ->
  ref_status s env pod = Ret (Ok st) -> (patch s = true -> is_ok (env_marshal env st) = true) ->
  match sm_inner (clientPool s) !! NodeName pod with
  | Some _ => exists err s', SyncPod s env pending = Ret (err, s', [ready_write s pod st]) /\
      (err = None <-> is_ok (env_write env) = true) /\ sm_inner (readyTimers s') = sm_inner (readyTimers s)
  | None => exists msg, SyncPod s env pending = Panic msg
  end.
Proof.
  intros St L Hr Hst Hm. rewrite (SyncPod_startable _ _ _ _ St). unfold sync_active.
  rewrite (sm_goc_old _ _ _ _ _ L). simpl.
  destruct (Z.ltb_spec 0 (time_sub ready (env_now env))) as [W|W].
  { apply (proj1 (time_sub_pos _ _)) in W. lia. }
  unfold ref_status in Hst. rewrite Hst. simpl. unfold markPodReady, GetClient, ready_write. simpl.
  rewrite sm_get_inner. destruct (patch s).
  - specialize (Hm eq_refl). destruct (env_marshal env st) as [[]|]; [|done].
    destruct (sm_inner (clientPool s) !! NodeName pod) as [c|]; simpl; [|eauto].
    destruct (env_write env) as [[]|e]; simpl; do 2 eexists; (split; [done|naive_solver]).
  - destruct (sm_inner (clientPool s) !! NodeName pod) as [c|]; simpl; [|eauto].
    destruct (env_write env) as [[]|e]; simpl; do 2 eexists; (split; [done|naive_solver]).
Qed.

(** A pod becomes ready after its delay.  The first synchronisation of a
    startable pod starts its timer and is repeated exactly when it expires; a
    later one at or after that time, on a kubelet with a client for the pod's
    node and a reference status (simulated, or of a ready pod of the pool),
    writes that status, by update or patch as configured, and succeeds exactly
    when the write does. *)
Theorem startable_pod_becomes_ready s env1 env2 pending pod pod' st :
  startable s env1 pending pod ->
  sm_inner (readyTimers s) !! pending_string pending = None ->
  env_now env1 = env_created env1 -> 0 < readyDelay s <= max_int64 ->
  exists s1, SyncPod s env1 pending = Ret (None, s1, []) /\
  delayed s1 = delayed s ++ [(pending, readyDelay s)] /\
  (startable s1 env2 pending pod' -> ref_status s env2 pod' = Ret (Ok st) ->
   (patch s = true -> is_ok (env_marshal env2 st) = true) ->
   is_Some (sm_inner (clientPool s) !! NodeName pod') ->
   env_created env1 + readyDelay s <= env_now env2 ->
   exists err s2, SyncPod s1 env2 pending = Ret (err, s2, [ready_write s pod' st]) /\
     (err = None <-> is_ok (env_write env2) = true)).
Proof.
  intros St L Hn Hd. rewrite (SyncPod_startable _ _ _ _ St). unfold sync_active.
  destruct (sm_goc_new _ (readyTimers s) (pending_string pending) (time_add (env_created env1) (readyDelay s)) L)
    as [G1 G2].
  destruct (sm_get_or_create _ _ _) as [[ready fresh] timers]. simpl in G1, G2. injection G1 as -> ->.
  rewrite andb_false_r. rewrite time_sub_exact.
  2: { unfold time_add, in_int64, min_int64. rewrite Hn. unfold max_int64 in *. lia. }
  unfold time_add at 1 2. rewrite Hn. replace (env_created env1 + readyDelay s - env_created env1)
    with (readyDelay s) by lia.
  destruct (Z.ltb_spec 0 (readyDelay s)); [|lia]. eexists. split; [done|]. split; [done|].
  intros St2 Hst Hm [c Hc] Ht.
  match goal with |- exists err s2, SyncPod ?s1 _ _ = _ /\ _ =>
    pose proof (sync_past_ready s1 env2 pending pod' (env_created env1 + readyDelay s) st St2) as P end.
  simpl in P. rewrite G2, lookup_insert_eq, Hc in P.
  destruct (P eq_refl Ht Hst Hm) as (err & s2 & E & Hw & _). eauto.
Qed.

(** C39: without a handshake the kubelet crashes.  When a pod of a node for which
    no handshake created a client is past its ready time, [SyncPod] calls a
    method of the nil client and the process ends, with update and with patch;
    the pod need not be managed by Kubedirect. *)
Theorem sync_without_client_panics s env pending pod ready st :
  startable s env pending pod ->
  sm_inner (readyTimers s) !! pending_string pending = Some ready -> ready <= env_now env ->
  ref_status s env pod = Ret (Ok st) -> (patch s = true -> is_ok (env_marshal env st) = true) ->
  sm_inner (clientPool s) !! NodeName pod = None ->
  exists msg, SyncPod s env pending = Panic msg.
Proof.
  intros St L Hr Hst Hm Hc. pose proof (sync_past_ready s env pending pod ready st St L Hr Hst Hm) as P.
  by rewrite Hc in P.
Qed.

(** ** The simulated status *)

(** The simulated status is that of a ready pod.  All its conditions are
    true, among them "Ready" and every readiness gate of the pod; its containers
    are those of the pod, in order, running and ready, its init containers
    completed; and every timestamp is the given instant. *)
Theorem simulated_status_ready pod now :
  let st := simulateRefPodStatus pod now in
  Phase st = "Running"%string /\ StartTime st = Some now /\
  Forall (fun c => CondStatus c = "True"%string /\ LastTransitionTime c = now) (Conditions st) /\
  "Ready"%string ∈ map CondType (Conditions st) /\
  (forall gate, gate ∈ ReadinessGates pod -> gate ∈ map CondType (Conditions st)) /\
  map CSName (ContainerStatuses st) = map CName (Containers pod) /\
  Forall (fun c => CSReady c = true /\ Running (State c) = Some now) (ContainerStatuses st) /\
  map CSName (InitContainerStatuses st) = map CName (InitContainers pod) /\
  Forall (fun c => CSReady c = true /\ Terminated (State c) = Some (mkTerminated 0 "Completed" now now))
    (InitContainerStatuses st).
Proof.
  simpl. rewrite !map_map. simpl. split_and!; try done.
  - repeat constructor. apply Forall_forall. intros c Hc.
    apply list_elem_of_fmap in Hc as (g & -> & _). done.
  - left.
  - intros gate Hg. do 4 right. apply list_elem_of_fmap. by exists gate.
  - apply Forall_forall. intros c (c0 & -> & _)%list_elem_of_fmap. done.
  - apply Forall_forall. intros c (c0 & -> & _)%list_elem_of_fmap. done.
Qed.

(** ** Binding *)

(** Binding a pod.  A request with the epoch of the last handshake of its
    source succeeds: the pod is in the in-memory cache afterwards, a new one is
    queued, and repeating the request changes nothing.  A request with another
    epoch, or without a template, is refused and changes nothing. *)
Theorem bind_pod_spec `{!EpochHubLaws Hub} s hub template req :
  serverHub s = hub_lock hub (br_source req) (br_epoch req) ->
  (exists s', BindPod (Ok template) s req = (None, s') /\
     is_Some (sm_inner (inMemCache s') !! pi_name (br_info req)) /\
     (sm_inner (inMemCache s) !! pi_name (br_info req) = None ->
        sm_inner (inMemCache s') = <[pi_name (br_info req) := br_info req]> (sm_inner (inMemCache s)) /\
        mkPending (pi_namespace (br_info req)) (pi_name (br_info req)) ∈ wq_dirty (ks_queue s')) /\
     BindPod (Ok template) s' req = (None, s')) /\
  (forall epoch, epoch <> br_epoch req -> exists e,
     BindPod (Ok template) s (mkBinding (br_source req) epoch (br_owner_namespace req)
                                (br_owner_name req) (br_info req)) = (Some (BindEpochMismatch e), s)) /\
  (forall e, BindPod (Err e) s req = (Some (BindNotFound e), s)).
Proof.
  intros Hh. split_and!; [| |done].
  - unfold BindPod. rewrite Hh, hub_rlock_current.
    destruct (sm_inner (inMemCache s) !! pi_name (br_info req)) as [old|] eqn:L.
    + rewrite (sm_goc_old _ _ _ _ _ L). simpl. eexists. split; [done|]. simpl. rewrite L.
      split_and!; [eauto|done|]. rewrite Hh, hub_rlock_current, (sm_goc_old _ _ _ _ _ L). done.
    + destruct (sm_goc_new _ (inMemCache s) (pi_name (br_info req)) (br_info req) L) as [G1 G2].
      destruct (sm_get_or_create _ _ _) as [[v fresh] cache]. simpl in G1, G2. injection G1 as -> ->.
      simpl. eexists. split; [done|]. simpl. rewrite G2, lookup_insert_eq. split_and!; [eauto| |].
      * intros _. split; [done|]. rewrite wq_add_dirty. set_solver.
      * rewrite Hh, hub_rlock_current. rewrite (sm_goc_old _ cache (pi_name (br_info req)) _ (br_info req)).
        { done. } rewrite G2. apply lookup_insert_eq.
  - intros epoch Hne. unfold BindPod. simpl. rewrite Hh.
    destruct (hub_rlock_stale hub (br_source req) (br_epoch req) epoch Hne) as [e ->]. eauto.
Qed.

(** An in-memory pod disappears once its API object is seen.  After an event
    for a managed, persistent pod that passes the filter, the in-memory cache no
    longer has it; an addition or update queues the pod, a deletion clears its
    timer, and objects that do not pass the filter change nothing. *)
Theorem pod_event_effect s pod isDelete :
  let s' := handlePodEvent s (ObjPod pod) isDelete in
  (enqueueFilter (PodInfo := PodInfo) pod = false -> s' = s) /\
  (enqueueFilter (PodInfo := PodInfo) pod = true ->
   (if isDelete
    then sm_inner (readyTimers s') !! pending_string (NewPendingPodFromAPIServer pod) = None
    else NewPendingPodFromAPIServer pod ∈ wq_dirty (ks_queue s')) /\
   (IsManaged pod = true -> IsPersistent pod = true ->
    sm_inner (inMemCache s') = delete (Name (pod_meta pod)) (sm_inner (inMemCache s)))).
Proof.
  unfold handlePodEvent, unwrapPodObj. destruct (enqueueFilter pod); (split; [done|intros E; try done]).
  split.
  - destruct isDelete; simpl; destruct (_ && _); simpl; rewrite ?sm_inner_del, ?wq_add_dirty;
      (apply lookup_delete_eq || set_solver).
  - intros -> ->. destruct isDelete; simpl; by rewrite sm_inner_del.
Qed.

(** ** Exposing *)

(** Exposing a pod ends with the first attempt that creates it or finds it
    created; errors before are retried, and an API pod is not created again. *)
Theorem expose_until_created s pod attempts failures created rest :
  ResourceVersion (pod_meta pod) = ""%string -> is_Some (sm_inner (clientPool s) !! NodeName pod) ->
  attempts = failures ++ created :: rest ->
  Forall (fun a => exists e, a = Some e /\ IsAlreadyExists e = false) failures ->
  created = None \/ (exists e, created = Some e /\ IsAlreadyExists e = true) ->
  ExposeManagedPod s pod attempts = Ret (Some (length failures)).
Proof.
  intros Hv [c Hc] -> Hf Hcr. unfold ExposeManagedPod. rewrite bool_decide_eq_true_2 by done. simpl.
  assert (forall n, ExposeManagedPod_poll s pod n (failures ++ created :: rest) = Ret (Some (n + length failures)%nat))
    as G; [|by rewrite G].
  induction Hf as [|a failures (e & -> & Ha) Hf IH]; intros n; simpl; unfold tryCreate, GetClient;
    rewrite sm_get_inner, Hc; simpl.
  - rewrite Nat.add_0_r. destruct Hcr as [->|(e & -> & Ha)]; [done|]. by rewrite Ha.
  - rewrite Ha, IH. do 2 f_equal. lia.
Qed.

End facts.

(** ** Witnesses *)

(** A concrete instance of the outside code. *)
Record demo_info : Type := mkInfo { di_ns : string; di_name : string; di_owner : string; di_node : string }.

Definition has_true (type : string) (p : Pod) : bool :=
  existsb (fun c => bool_decide (CondType c = type) && bool_decide (CondStatus c = "True"%string))
    (Conditions (Status p)).

Global Instance demo_kd : KdApi demo_info := {
  PodLifecycleManagerLabel := "kubedirect/lifecycle";
  KubeletServiceAddrAnnotation := "kubedirect/kubelet-addr";
  IsManaged := fun p => bool_decide (is_Some (Labels (pod_meta p) !! "kubedirect/managed"));
  IsPersistent := fun p => bool_decide (is_Some (Labels (pod_meta p) !! "kubedirect/persistent"));
  IsPodActive := fun p => negb (bool_decide (Phase (Status p) = "Succeeded"%string))
                          && negb (bool_decide (Phase (Status p) = "Failed"%string));
  IsPodReady := has_true "Ready";
  pi_namespace := di_ns;
  pi_name := di_name;
  pi_owner := di_owner;
  AsPersistentPod := fun i t =>
    mkPod (mkMeta (di_ns i) (di_name i) "" "" (Labels (pod_meta t)) ∅ None) (di_node i)
      (ReadinessGates t) (Containers t) (InitContainers t) empty_status
}.

Global Instance gmap_hub : EpochHub (gmap string string) := {
  hub_lock := fun h source epoch => <[source := epoch]> h;
  hub_rlock := fun h source epoch =>
    if bool_decide (h !! source = Some epoch) then None else Some (errorf "epoch mismatch")
}.

Global Instance gmap_hub_laws : EpochHubLaws (gmap string string).
Proof.
  split.
  - intros h source epoch. simpl. rewrite lookup_insert_eq, bool_decide_eq_true_2; done.
  - intros h source epoch epoch' N. simpl. rewrite lookup_insert_eq, bool_decide_eq_false_2; [eauto|].
    congruence.
Qed.

Definition demo_kserver (timers : gmap string Z) (clients : gmap string unit) :
    KubedirectServer (gmap string) simple_wq demo_info (gmap string string) :=
  mkServer "n0" (100 * Millisecond) true false clients (mk_simple_wq [] []) [] [] ∅ timers ∅.

Definition demo_api_pod : Pod :=
  mkPod (mkMeta "ns" "p0" "u0" "7" {["kubedirect/lifecycle" := "custom"]} ∅ None) "n0" ["gate"]
    [mkContainer "main" "img"] [] empty_status.

Definition demo_env (now : Z) : sync_env :=
  mkSyncEnv (fun _ _ => Ok demo_api_pod) (fun _ _ => Err (mkError KNotFound "no template"))
    (fun _ => Err (mkError KNotFound "no node")) (fun _ _ => Ok []) None (Ok tt) (fun _ => Ok tt)
    now now (fun _ => 0%nat).

Definition demo_pending : PendingPod := mkPending "ns" "p0".

Lemma demo_startable timers clients delayed' now :
  startable (mkServer "n0" (100 * Millisecond) true false clients (mk_simple_wq [] []) delayed' [] ∅ timers ∅
             : KubedirectServer (gmap string) simple_wq demo_info (gmap string string))
    (demo_env now) demo_pending demo_api_pod.
Proof. split_and!; vm_compute; reflexivity. Qed.

Lemma startable_pod_becomes_ready_witness :
  exists s1 s2, SyncPod (demo_kserver ∅ {["n0" := tt]}) (demo_env (5 * Second)) demo_pending = Ret (None, s1, []) /\
  SyncPod s1 (demo_env (6 * Second)) demo_pending = Ret (None, s2, [ready_write (demo_kserver ∅ ∅) demo_api_pod
    (simulateRefPodStatus demo_api_pod (6 * Second))]).
Proof.
  destruct (startable_pod_becomes_ready (demo_kserver ∅ {["n0" := tt]}) (demo_env (5 * Second))
    (demo_env (6 * Second)) demo_pending demo_api_pod demo_api_pod
    (simulateRefPodStatus demo_api_pod (6 * Second))) as (s1 & E & _ & K);
    [apply demo_startable|reflexivity|reflexivity|split; vm_compute; [reflexivity|discriminate]|].
  assert (SyncPod (demo_kserver ∅ {["n0" := tt]}) (demo_env (5 * Second)) demo_pending =
    Ret (None, mkServer "n0" (100 * Millisecond) true false {["n0" := tt]} (mk_simple_wq [] [])
      [(demo_pending, 100 * Millisecond)] [] ∅ {["ns/p0" := 5 * Second + 100 * Millisecond]} ∅, [])) as E'
    by (vm_compute; reflexivity).
  rewrite E' in E. injection E as <-.
  destruct K as (err & s2 & E2 & Hw);
    [apply demo_startable|reflexivity|discriminate|vm_compute; eauto|vm_compute; discriminate|].
  eexists _, s2. split; [exact E'|]. rewrite E2, (proj2 Hw eq_refl). reflexivity.
Defined.

Lemma sync_without_client_panics_witness :
  exists msg, SyncPod (demo_kserver {["ns/p0" := 5 * Second]} ∅) (demo_env (6 * Second)) demo_pending = Panic msg.
Proof.
  apply (sync_without_client_panics _ _ _ demo_api_pod (5 * Second)
    (simulateRefPodStatus demo_api_pod (6 * Second)));
    [apply demo_startable|vm_compute; reflexivity|vm_compute; discriminate|reflexivity|discriminate|reflexivity].
Defined.

Definition demo_ready_status : PodStatus := simulateRefPodStatus demo_api_pod (6 * Second).

(** The server and the effects of two synchronisations, the second past the delay. *)
Definition demo_synced : KubedirectServer (gmap string) simple_wq demo_info (gmap string string) :=
  match ks_run (demo_kserver ∅ {["n0" := tt]}) [EvSync demo_pending (demo_env (5 * Second))] with
  | Ret s => s
  | _ => demo_kserver ∅ ∅
  end.

Definition demo_synced2 : KubedirectServer (gmap string) simple_wq demo_info (gmap string string) :=
  match SyncPod demo_synced (demo_env (6 * Second)) demo_pending with
  | Ret (_, s, _) => s
  | _ => demo_synced
  end.

Definition demo_write : effect := UpdateStatus (set_status demo_api_pod demo_ready_status) demo_ready_status.

Lemma demo_sync2 :
  SyncPod demo_synced (demo_env (6 * Second)) demo_pending = Ret (None, demo_synced2, [demo_write]).
Proof. vm_compute. reflexivity. Qed.

Lemma sync_effects_justified_witness :
  exists pod isInMem, find_pod demo_synced (demo_env (6 * Second)) demo_pending = Ok (Some (pod, isInMem)) /\
    isResponsibleFor demo_synced (demo_env (6 * Second)) pod = Ok true.
Proof.
  destruct (sync_effects_justified demo_synced (demo_env (6 * Second)) demo_pending None demo_synced2
    [demo_write] demo_write demo_sync2 (list_elem_of_here _ _)) as (pod & isInMem & F & R & _).
  exists pod, isInMem. split; [exact F|exact R].
Defined.

Lemma ready_after_delay_witness :
  exists before pending0 env0 after,
    [EvSync demo_pending (demo_env (5 * Second))] ++ [EvSync (PodInfo := demo_info) demo_pending (demo_env (6 * Second))]
      = before ++ EvSync pending0 env0 :: after /\
    pending_string pending0 = "ns/p0"%string /\ env_created env0 + 100 * Millisecond <= 6 * Second.
Proof.
  assert (sm_inner (M := gmap string) (readyTimers (demo_kserver ∅ {["n0" := tt]})) = ∅) as Hz by reflexivity.
  assert (ks_run (demo_kserver ∅ {["n0" := tt]}) [EvSync demo_pending (demo_env (5 * Second))] = Ret demo_synced) as Hr
    by (vm_compute; reflexivity).
  destruct (ready_after_delay (demo_kserver ∅ {["n0" := tt]}) [EvSync demo_pending (demo_env (5 * Second))]
    demo_synced demo_pending (demo_env (6 * Second)) None demo_synced2 [demo_write] demo_write
    Hz Hr demo_sync2 (list_elem_of_here _ _) eq_refl)
    as (before & p0 & en0 & after & E & K & T & _).
  exists before, p0, en0, after. split; [exact E|]. split; [exact K|exact T].
Defined.

Definition demo_bind : PodBindingRequest := mkBinding "sched" "e1" "ns" "rs0" (mkInfo "ns" "p1" "rs0" "n0").

Definition demo_shaken : KubedirectServer (gmap string) simple_wq demo_info (gmap string string) :=
  snd (Handshake (fun _ _ => []) (demo_kserver ∅ ∅) (mkHandshake "sched" "n0" "e1")).

Lemma bind_pod_spec_witness : exists s', BindPod (Ok demo_api_pod) demo_shaken demo_bind = (None, s').
Proof.
  assert (serverHub demo_shaken = hub_lock ∅ (br_source demo_bind) (br_epoch demo_bind)) as Hh
    by (vm_compute; reflexivity).
  destruct (bind_pod_spec demo_shaken ∅ demo_api_pod demo_bind Hh) as ((s' & E & _) & _).
  exists s'. exact E.
Defined.

Lemma pod_event_effect_witness :
  sm_inner (readyTimers (handlePodEvent (demo_kserver {["ns/p0" := 5]} ∅) (ObjPod demo_api_pod) true))
    !! "ns/p0"%string = None.
Proof.
  assert (enqueueFilter (PodInfo := demo_info) demo_api_pod = true) as F by (vm_compute; reflexivity).
  exact (proj1 (proj2 (pod_event_effect (demo_kserver {["ns/p0" := 5]} ∅) demo_api_pod true) F)).
Defined.

Lemma expose_until_created_witness :
  ExposeManagedPod (demo_kserver ∅ {["n0" := tt]})
    (mkPod (mkMeta "ns" "p1" "" "" ∅ ∅ None) "n0" [] [] [] empty_status)
    [Some (errorf "refused"); None; None] = Ret (Some 1%nat).
Proof.
  apply (expose_until_created (demo_kserver ∅ {["n0" := tt]}) _ _ [Some (errorf "refused")] None [None]);
    [reflexivity|vm_compute; eauto|reflexivity| |left; reflexivity].
  repeat constructor. exists (errorf "refused"). split; reflexivity.
Defined.
