(* ===== verification/KubeletServer.v ===== *)
(** * The running kubelet ([cmd/kubelet])

    The construction of the server ([NewKubedirectServer], the options and the
    flags of [main.go]), the filter in front of its event handlers, and the
    server as [ListenAndServe] runs it: informer events, remote procedures, the
    workers of the queue and the timers of delayed and rate-limited keys are the
    rules of [kr_step]. *)

From S2P Require Import Prelude GoTypes Interfaces Kube Kubelet.

Local Open Scope nat_scope.

Definition nWorkers : nat := 64.

(** What the pod informer reports. *)
Inductive pod_event : Type :=
| PodAdded (obj : event_obj)
| PodUpdated (old new : event_obj)
| PodDeleted (obj : event_obj).

Section server.
Context {M : Type -> Type} `{SharedMapOps M}.
Context {Q : Type -> Type} `{WorkQueueOps Q}.
Context {PodInfo : Type} `{KdApi PodInfo}.
Context {Hub : Type} `{EpochHub Hub}.
Notation server := (KubedirectServer M Q PodInfo Hub).

(** ** Construction *)

(** [emptyq] and [hub] are a new queue and a new server hub. *)
Definition NewKubedirectServer (emptyq : Q PendingPod) (hub : Hub) (nodeName : string) : server :=
  mkServer nodeName 0 false false sm_new emptyq [] [] sm_new sm_new hub.

Definition WithReadyDelay (s : server) (delay : Z) : server :=
  mkServer (ks_nodeName s) delay (simulate s) (patch s) (clientPool s) (ks_queue s) (delayed s) (backoff s)
    (inMemCache s) (readyTimers s) (serverHub s).

Definition Simulate (s : server) : server :=
  mkServer (ks_nodeName s) (readyDelay s) true (patch s) (clientPool s) (ks_queue s) (delayed s) (backoff s)
    (inMemCache s) (readyTimers s) (serverHub s).

Definition UsePatch (s : server) : server :=
  mkServer (ks_nodeName s) (readyDelay s) (simulate s) true (clientPool s) (ks_queue s) (delayed s) (backoff s)
    (inMemCache s) (readyTimers s) (serverHub s).

(** [main] up to [ListenAndServe]; [hostname] is the result of [os.Hostname]. *)
Definition kubelet_configure (emptyq : Q PendingPod) (hub : Hub) (node : string) (sim pat : bool)
    (readyDelayMilliseconds : Z) (hostname : result string) : outcome server :=
  node ← (if bool_decide (node = "") then
            match hostname with
            | Err e => Fatal ("Failed to get hostname: " +:+ err_text e)
            | Ok hostName => Ret hostName
            end
          else Ret node);
  let s := WithReadyDelay (NewKubedirectServer emptyq hub node) (mul64 readyDelayMilliseconds Millisecond) in
  let s := if sim then Simulate s else s in
  Ret (if pat then UsePatch s else s).

(** ** Events of the pod informer *)

(** [FilterFunc]. *)
Definition pod_filter (obj : event_obj) : bool :=
  match obj with
  | ObjPod pod | ObjDeletedPod pod => enqueueFilter (PodInfo := PodInfo) pod
  | _ => false
  end.

(** [cache.FilteringResourceEventHandler] with the handlers of the server: an
    update is an addition of an object that starts to pass the filter, and a
    deletion of one that stops to. *)
Definition on_pod_event (s : server) (ev : pod_event) : server :=
  match ev with
  | PodAdded obj => if pod_filter obj then handlePodEvent s obj false else s
  | PodUpdated old new =>
      match pod_filter old, pod_filter new with
      | _, true => handlePodEvent s new false
      | true, false => handlePodEvent s old true
      | false, false => s
      end
  | PodDeleted obj => if pod_filter obj then handlePodEvent s obj true else s
  end.

(** ** [ListenAndServe] *)

(** The poll of [publishServiceAddr]: the environment and the outcome of the
    update of each attempt, until the context is cancelled. *)
Fixpoint publish_poll (s : server) (attempts : list (sync_env * result unit)) : outcome (result unit) :=
  match attempts with
  | [] => Ret (Err (errorf "context canceled"))
  | (env, update) :: attempts =>
      r ← publishServiceAddr s env update;
      match r with
      | Err e => Ret (Err e)
      | Ok (finished, _) => if finished : bool then Ret (Ok tt) else publish_poll s attempts
      end
  end.

(** The start: the caches are synced (by informer, with whether it succeeded) and
    the address is published, before the workers and the RPC server run. *)
Definition serve_start (s : server) (synced : list (string * bool)) (attempts : list (sync_env * result unit)) :
    outcome (result unit) :=
  match find (fun k => negb k.2) synced with
  | Some (k, _) => Ret (Err (errorf ("error syncing " +:+ k)))
  | None =>
      r ← publish_poll s attempts;
      Ret (match r with
           | Err e => Err (errorf ("failed to publish custom kubelet service address: " +:+ err_text e))
           | Ok _ => Ok tt
           end)
  end.

(** A synchronisation that has ended: the server it found, its key and
    environment, its error and its writes. *)
Record sync_record : Type := mkSync {
  sy_server : server;
  sy_pending : PendingPod;
  sy_env : sync_env;
  sy_error : option error;
  sy_effects : list effect
}.

(** The server with the keys that its workers are processing; the ended
    synchronisations are remembered. *)
Record kubelet_run : Type := mkKR {
  kr_server : server;
  kr_busy : list PendingPod;
  kr_log : list sync_record
}.

(** The body of [processNextItem] after [Get]: [SyncPod], a retry after an error,
    and [Done]. *)
Definition kr_sync (r : kubelet_run) (before : list PendingPod) (pending : PendingPod) (env : sync_env)
    (after : list PendingPod) : outcome kubelet_run :=
  '(err, s, eff) ← SyncPod (kr_server r) env pending;
  let s := match err with Some _ => add_rate_limited s pending | None => s end in
  Ret (mkKR (set_ks_queue s (wq_done (ks_queue s) pending)) (before ++ after)
         (kr_log r ++ [mkSync (kr_server r) pending env err eff])).

Definition with_queue (r : kubelet_run) (s : server) (p : PendingPod) : kubelet_run :=
  mkKR (set_ks_queue s (wq_add (ks_queue s) p)) (kr_busy r) (kr_log r).

Inductive kr_step (r : kubelet_run) : outcome kubelet_run -> Prop :=
| kr_pod ev : kr_step r (Ret (mkKR (on_pod_event (kr_server r) ev) (kr_busy r) (kr_log r)))
| kr_node obj : kr_step r (Ret (mkKR (handleNodeDelete (kr_server r) obj) (kr_busy r) (kr_log r)))
| kr_handshake onNode req :
    kr_step r (Ret (mkKR (snd (Handshake onNode (kr_server r) req)) (kr_busy r) (kr_log r)))
| kr_bind template req :
    kr_step r (Ret (mkKR (snd (BindPod template (kr_server r) req)) (kr_busy r) (kr_log r)))
| kr_get p s :
    length (kr_busy r) < nWorkers -> kubelet_get (kr_server r) = Some (p, s) ->
    kr_step r (Ret (mkKR s (p :: kr_busy r) (kr_log r)))
| kr_process before p env after :
    kr_busy r = before ++ p :: after -> kr_step r (kr_sync r before p env after)
| kr_delay before p wait after :
    delayed (kr_server r) = before ++ (p, wait) :: after ->
    let s := kr_server r in
    kr_step r (Ret (with_queue r (mkServer (ks_nodeName s) (readyDelay s) (simulate s) (patch s) (clientPool s)
      (ks_queue s) (before ++ after) (backoff s) (inMemCache s) (readyTimers s) (serverHub s)) p))
| kr_retry before p after :
    backoff (kr_server r) = before ++ p :: after ->
    let s := kr_server r in
    kr_step r (Ret (with_queue r (mkServer (ks_nodeName s) (readyDelay s) (simulate s) (patch s) (clientPool s)
      (ks_queue s) (delayed s) (before ++ after) (inMemCache s) (readyTimers s) (serverHub s)) p)).

Definition kr_runs : kubelet_run -> kubelet_run -> Prop := rtc (fun r r' => kr_step r (Ret r')).

End server.

Arguments kubelet_run M Q PodInfo Hub : clear implicits.

(** ** Workers exclude each other, and no pod is forgotten *)

Section run_facts.
Context {M : Type -> Type} `{SML : SharedMapLaws M}.
Context {Q : Type -> Type} `{QL : WorkQueueLaws Q}.
Context {PodInfo : Type} `{KdApi PodInfo}.
Context {Hub : Type} `{EpochHub Hub}.
Notation server := (KubedirectServer M Q PodInfo Hub).
Notation krun := (kubelet_run M Q PodInfo Hub).
Implicit Types (s : server) (r : krun).

(** The key waits in the queue, with a worker, or for a timer of the queue. *)
Definition scheduled s (p : PendingPod) : Prop :=
  p ∈ wq_dirty (ks_queue s) \/ p ∈ wq_processing (ks_queue s) \/ p ∈ (delayed s).*1 \/ p ∈ backoff s.

(** A synchronisation after which there was nothing left to do: it wrote the
    status, or the pod was gone, belonged to another kubelet, or was not yet an
    API object, whose creation the informer will report. *)
Definition settled (y : sync_record (M := M) (Q := Q) (PodInfo := PodInfo) (Hub := Hub)) : Prop :=
  sy_error y = None /\
  ((exists e, e ∈ sy_effects y /\ is_status_write e = true) \/
   find_pod (sy_server y) (sy_env y) (sy_pending y) = Ok None \/
   exists pod isInMem, find_pod (sy_server y) (sy_env y) (sy_pending y) = Ok (Some (pod, isInMem)) /\
     (isResponsibleFor (sy_server y) (sy_env y) pod = Ok false \/ isInMem = true)).

Lemma markPodReady_writes s env pod st eff :
  markPodReady s env pod st = Ret (None, eff) -> exists e, e ∈ eff /\ is_status_write e = true.
Proof.
  unfold markPodReady. intros E. repeat break_hyp; simplify_eq/=; (eexists; split; [left|done]).
Qed.

(** What [sync_active] leaves of the queue, and why. *)
Lemma sync_active_queue s env pending pod isInMem err s' eff :
  sync_active s env pending pod isInMem = Ret (err, s', eff) ->
  ks_queue s' = ks_queue s /\ backoff s' = backoff s /\
  ((exists wait, delayed s' = delayed s ++ [(pending, wait)]) \/
   delayed s' = delayed s /\
   (is_Some err \/ isInMem = true \/ exists e, e ∈ eff /\ is_status_write e = true)).
Proof.
  unfold sync_active. destruct (sm_get_or_create _ _ _) as [[ready fresh] timers]. simpl.
  destruct (0 <? _)%Z; [intros [= <- <- <-]; simpl; split_and!; eauto|].
  destruct isInMem; [intros [= <- <- <-]; simpl; split_and!; eauto|].
  match goal with |- context [(if simulate s then ?a else ?b)] => destruct (if simulate s then a else b) as [[st|e]| |] end;
    simpl; [| |done..].
  2: { intros [= <- <- <-]. simpl. split_and!; eauto. }
  destruct (markPodReady _ env pod st) as [[err1 eff1]| |] eqn:MR; simpl; [|done..].
  intros [= <- <- <-]. simpl. split_and!; [done|done|]. right. split; [done|].
  destruct err1 as [e|]; [eauto|]. apply markPodReady_writes in MR as (e & He & Hs).
  right. right. exists e. rewrite elem_of_app. eauto.
Qed.

(** A synchronisation leaves the other timers alone, the queue untouched, and
    keeps the timer of its key only with a plan for the key. *)
Lemma SyncPod_plan s env pending err s' eff :
  SyncPod s env pending = Ret (err, s', eff) ->
  ks_queue s' = ks_queue s /\ backoff s' = backoff s /\
  (forall p, p ∈ (delayed s).*1 -> p ∈ (delayed s').*1) /\
  (forall key, key <> pending_string pending ->
     sm_inner (readyTimers s') !! key = sm_inner (readyTimers s) !! key) /\
  (is_Some (sm_inner (readyTimers s') !! pending_string pending) ->
   is_Some err \/ pending ∈ (delayed s').*1 \/ settled (mkSync s pending env err eff)).
Proof.
  assert (forall key, key <> pending_string pending ->
    sm_inner (readyTimers (clear_timer s pending)) !! key = sm_inner (readyTimers s) !! key) as Clr.
  { intros key Hk. simpl. rewrite sm_inner_del. by apply lookup_delete_ne. }
  assert (~ is_Some (sm_inner (readyTimers (clear_timer s pending)) !! pending_string pending)) as Gone.
  { simpl. rewrite sm_inner_del, lookup_delete_eq. by intros []. }
  unfold SyncPod, settled. simpl.
  destruct (find_pod s env pending) as [[[pod isInMem]|]|e] eqn:F;
    [|intros [= <- <- <-]; (split_and!; [done..|])..]; [|intros _; right; right; auto|eauto].
  destruct (isResponsibleFor s env pod) as [[]|e] eqn:R;
    [|intros [= <- <- <-]; (split_and!; [done..|])..]; [|intros _; right; right; eauto 10|eauto].
  destruct (DeletionTimestamp (pod_meta pod)) as [t|] eqn:D.
  { destruct (env_delete env) as [e|]; [destruct (IsNotFound e)|]; intros [= <- <- <-]; (split_and!; [done..|]); try (by intros ?%Gone); eauto. }
  destruct (IsPodActive pod); simpl; [|intros [= <- <- <-]; split_and!; [done..|by intros ?%Gone]].
  destruct (IsPodReady pod); [intros [= <- <- <-]; split_and!; [done..|by intros ?%Gone]|].
  intros E. pose proof (sync_active_spec _ _ _ _ _ _ _ _ E) as (T & _).
  apply sync_active_queue in E as (Eq & Eb & Hd). split_and!; [done|done| | |].
  - intros p Hp. destruct Hd as [[w ->]|[-> _]]; [rewrite fmap_app; set_solver|done].
  - intros key Hk. rewrite T. by apply lookup_insert_ne.
  - intros _. destruct Hd as [[w ->]|[_ [?|[->|?]]]]; [|by left|..].
    + right. left. rewrite fmap_app. set_solver.
    + destruct err; [by left|]. right. right. split; [done|]. right. right. exists pod, true. auto.
    + destruct err; [by left|]. right. right. split; [done|]. by left.
Qed.

Record kr_inv r : Prop := {
  ki_processing : wq_processing (ks_queue (kr_server r)) = list_to_set (kr_busy r);
  ki_nodup : NoDup (kr_busy r);
  ki_workers : length (kr_busy r) <= nWorkers;
  ki_timers : forall key, is_Some (sm_inner (readyTimers (kr_server r)) !! key) ->
    exists p, pending_string p = key /\
      (scheduled (kr_server r) p \/ exists y, y ∈ kr_log r /\ sy_pending y = p /\ settled y)
}.

(** A change of the server that only adds keys to the queue and removes timers. *)
Lemma grow_inv r s :
  kr_inv r -> wq_processing (ks_queue s) = wq_processing (ks_queue (kr_server r)) ->
  (forall p, scheduled (kr_server r) p -> scheduled s p) ->
  (forall key, is_Some (sm_inner (readyTimers s) !! key) -> is_Some (sm_inner (readyTimers (kr_server r)) !! key)) ->
  kr_inv (mkKR s (kr_busy r) (kr_log r)).
Proof.
  intros [] Hp Hs Ht. split; simpl; [by rewrite Hp|done|done|]. intros key Hk.
  destruct (ki_timers0 key (Ht key Hk)) as (p & Hpk & [Hsc|Hse]); exists p; (split; [done|]); auto.
Qed.

Lemma handlePodEvent_grows s obj isDelete :
  let s' := handlePodEvent s obj isDelete in
  wq_processing (ks_queue s') = wq_processing (ks_queue s) /\
  (forall p, scheduled s p -> scheduled s' p) /\
  (forall key, is_Some (sm_inner (readyTimers s') !! key) -> is_Some (sm_inner (readyTimers s) !! key)).
Proof.
  unfold handlePodEvent, scheduled. destruct (unwrapPodObj obj) as [pod|]; [|done].
  assert (forall key k, is_Some (sm_inner (snd (sm_del (readyTimers s) k)) !! key) ->
    is_Some (sm_inner (readyTimers s) !! key)) as Del.
  { intros key k. rewrite sm_inner_del. intros [t [_ L]%lookup_delete_Some]. eauto. }
  destruct isDelete; simpl; destruct (_ && _); simpl;
    rewrite ?wq_add_dirty, ?wq_add_processing; split_and!; try done; try set_solver; eauto.
Qed.

Lemma on_pod_event_grows s ev :
  let s' := on_pod_event s ev in
  wq_processing (ks_queue s') = wq_processing (ks_queue s) /\
  (forall p, scheduled s p -> scheduled s' p) /\
  (forall key, is_Some (sm_inner (readyTimers s') !! key) -> is_Some (sm_inner (readyTimers s) !! key)).
Proof.
  destruct ev as [obj|old new|obj]; simpl.
  - destruct (pod_filter obj); [apply handlePodEvent_grows|done].
  - destruct (pod_filter old), (pod_filter new); try apply handlePodEvent_grows; done.
  - destruct (pod_filter obj); [apply handlePodEvent_grows|done].
Qed.

Lemma bind_grows template s req :
  let s' := snd (BindPod template s req) in
  wq_processing (ks_queue s') = wq_processing (ks_queue s) /\
  (forall p, scheduled s p -> scheduled s' p) /\ readyTimers s' = readyTimers s.
Proof.
  unfold BindPod, scheduled. destruct template; [|done]. destruct (hub_rlock _ _ _); [done|].
  destruct (sm_get_or_create _ _ _) as [[i fresh] cache]. destruct fresh; simpl;
    rewrite ?wq_add_dirty, ?wq_add_processing; split_and!; try done; set_solver.
Qed.

(** The server after a key moved from a timer of the queue into the queue. *)
Lemma requeue_inv r s p :
  kr_inv r -> ks_queue s = ks_queue (kr_server r) -> readyTimers s = readyTimers (kr_server r) ->
  (forall p', scheduled (kr_server r) p' -> p' = p \/ scheduled s p') -> kr_inv (with_queue r s p).
Proof.
  intros I Hq Ht Hs. apply grow_inv; simpl; [done|by rewrite wq_add_processing, Hq| |by rewrite Ht].
  intros p' Hp. unfold scheduled. simpl. rewrite wq_add_dirty, wq_add_processing.
  destruct (Hs p' Hp) as [->|Sc]; [set_solver|]. unfold scheduled in Sc. set_solver.
Qed.

(** The end of a synchronisation. *)
Lemma sync_inv r before p env after r' :
  kr_inv r -> kr_busy r = before ++ p :: after -> kr_sync r before p env after = Ret r' -> kr_inv r'.
Proof.
  intros [Ip In Iw It] Hb. unfold kr_sync.
  destruct (SyncPod (kr_server r) env p) as [[[err s] eff]| |] eqn:E; simpl; [|done..]. intros [= <-].
  apply SyncPod_plan in E as (Eq & Eb & Ed & Ek & Plan).
  rewrite Hb in In, Iw. apply NoDup_app in In as (N1 & N2 & N3). apply NoDup_cons in N3 as [N3 N4].
  set (s1 := match err with Some _ => add_rate_limited s p | None => s end).
  assert (ks_queue s1 = ks_queue (kr_server r) /\ readyTimers s1 = readyTimers s /\ delayed s1 = delayed s /\
    (forall q, q ∈ backoff (kr_server r) -> q ∈ backoff s1) /\ (is_Some err -> p ∈ backoff s1)) as (Q1 & Q2 & Q3 & Q4 & Q5).
  { unfold s1. destruct err; simpl; rewrite ?Eb; split_and!; try done; try set_solver; by intros []. }
  split; simpl.
  - rewrite wq_done_processing, Q1, Ip, Hb, !list_to_set_app_L, list_to_set_cons. set_solver.
  - apply NoDup_app. split_and!; [done|set_solver|done].
  - rewrite !length_app in *. simpl in *. lia.
  - intros key. rewrite Q2. intros Hk. destruct (decide (key = pending_string p)) as [->|Ne].
    + exists p. split; [done|]. destruct (Plan Hk) as [?|[Hd|Hy]].
      * left. unfold scheduled. simpl. auto.
      * left. unfold scheduled. simpl. rewrite Q3. auto.
      * right. eexists. split; [apply elem_of_app; right; left|done].
    + rewrite Ek in Hk by done. destruct (It key Hk) as (p' & Hp & [Sc|(y & Hy & Hs)]); exists p'; (split; [done|]).
      * left. unfold scheduled in *. simpl. rewrite wq_done_dirty, wq_done_processing, Q1, Q3.
        destruct Sc as [?|[?|[?|?]]]; [auto| |right; right; left; by apply Ed|auto].
        right. left. assert (p' <> p) by (intros ->; done). set_solver.
      * right. exists y. split; [apply elem_of_app; by left|done].
Qed.

Lemma kr_step_inv r r' : kr_step r (Ret r') -> kr_inv r -> kr_inv r'.
Proof.
  intros St I. remember (Ret r') as o eqn:Ho.
  destruct St as [ev|obj|onNode req|template req|p s Hl Hg|before p env after Hb|before p w after Hd sv|
    before p after Hd sv]; try (injection Ho as <-).
  - destruct (on_pod_event_grows (kr_server r) ev) as (E1 & E2 & E3). by apply grow_inv.
  - apply grow_inv; try done; unfold handleNodeDelete; by destruct (unwrapNodeObj obj).
  - apply grow_inv; try done; unfold Handshake; by destruct (sm_get_or_create _ _ _).
  - destruct (bind_grows template (kr_server r) req) as (E1 & E2 & E3). apply grow_inv; try done. by rewrite E3.
  - unfold kubelet_get in Hg. destruct (wq_get (ks_queue (kr_server r))) as [[p' q]|] eqn:G; [|done].
    injection Hg as <- <-. apply wq_get_some in G as (G1 & G2 & G3 & G4). destruct I as [Ip In Iw It].
    split; simpl; [|by constructor; [set_solver|]|lia|].
    + rewrite G4, Ip. done.
    + intros key Hk. destruct (It key Hk) as (p & Hp & [Sc|Se]); exists p; (split; [done|]); [left|by right].
      unfold scheduled in *. simpl. rewrite G3, G4. destruct (decide (p = p')); set_solver.
  - by eapply sync_inv.
  - apply requeue_inv; try done. intros p'. unfold scheduled. simpl. rewrite Hd, !fmap_app. simpl. set_solver.
  - apply requeue_inv; try done. intros p'. unfold scheduled. simpl. rewrite Hd. set_solver.
Qed.

(** C18: the workers of a kubelet exclude each other, and no pod is forgotten.
    From the start of a configured server, in every interleaving of informer
    events, remote procedures, 64 workers and the timers of the queue, no two
    workers synchronise the same pod; and for every pod with a ready timer the
    key is still scheduled (queued, with a worker, delayed or backed off),
    unless a synchronisation of it wrote the status or found nothing to do: the
    pod gone, another kubelet's, or not yet exposed. *)
Theorem kubelet_forgets_no_pod emptyq hub node sim pat delay hostname s0 r :
  wq_processing emptyq = ∅ ->
  kubelet_configure emptyq hub node sim pat delay hostname = Ret s0 ->
  kr_runs (mkKR s0 [] []) r ->
  NoDup (kr_busy r) /\ length (kr_busy r) <= nWorkers /\
  forall key, is_Some (sm_inner (readyTimers (kr_server r)) !! key) ->
    exists p, pending_string p = key /\
      (scheduled (kr_server r) p \/ exists y, y ∈ kr_log r /\ sy_pending y = p /\ settled y).
Proof.
  intros He Hc R. assert (kr_inv (mkKR s0 [] [])) as I0.
  { unfold kubelet_configure in Hc.
    destruct (if bool_decide (node = "") then _ else _) as [n| |]; simpl in Hc; [|done..].
    assert (ks_queue s0 = emptyq /\ sm_inner (readyTimers s0) = ∅) as [Eq Et].
    { injection Hc as <-. destruct sim, pat; simpl; split; try done; apply sm_inner_new. }
    split; simpl; [by rewrite Eq, He|constructor|unfold nWorkers; lia|].
    intros key. rewrite Et, lookup_empty. by intros []. }
  assert (kr_inv r) as [] by (clear Hc; induction R; eauto using kr_step_inv). done.
Qed.

End run_facts.

(** ** Witnesses *)

Definition demo_started : KubedirectServer (gmap string) simple_wq demo_info (gmap string string) :=
  UsePatch (WithReadyDelay (NewKubedirectServer (mk_simple_wq [] []) ∅ "n0") (100 * Millisecond)%Z).

(** A pod is added, a worker takes it, and its synchronisation starts the timer. *)
Definition demo_added : kubelet_run (gmap string) simple_wq demo_info (gmap string string) :=
  mkKR (on_pod_event demo_started (PodAdded (ObjPod demo_api_pod))) [] [].

Definition demo_taken : kubelet_run (gmap string) simple_wq demo_info (gmap string string) :=
  match kubelet_get (kr_server demo_added) with
  | Some (p, s) => mkKR s [p] []
  | None => demo_added
  end.

Definition demo_waiting : kubelet_run (gmap string) simple_wq demo_info (gmap string string) :=
  match kr_sync demo_taken [] demo_pending (demo_env (5 * Second)) [] with Ret r => r | _ => demo_taken end.

Lemma demo_waiting_run : kr_runs (mkKR demo_started [] []) demo_waiting.
Proof.
  eapply rtc_l; [exact (kr_pod (mkKR demo_started [] []) (PodAdded (ObjPod demo_api_pod)))|].
  eapply rtc_l; [apply (kr_get demo_added demo_pending (kr_server demo_taken)); vm_compute; [lia|reflexivity]|].
  apply rtc_once.
  assert (kr_sync demo_taken [] demo_pending (demo_env (5 * Second)) [] = Ret demo_waiting) as <-
    by (vm_compute; reflexivity).
  apply kr_process. vm_compute. reflexivity.
Qed.

Lemma kubelet_forgets_no_pod_witness :
  exists p, pending_string p = "ns/p0"%string /\
    (scheduled (kr_server demo_waiting) p \/
     exists y, y ∈ kr_log demo_waiting /\ sy_pending y = p /\ settled y).
Proof.
  assert (wq_processing (mk_simple_wq [] [] : simple_wq PendingPod) = ∅) as He by reflexivity.
  assert (kubelet_configure (mk_simple_wq [] []) ∅ "n0" false true 100 (Ok "host"%string) = Ret demo_started) as Hc
    by (vm_compute; reflexivity).
  apply (proj2 (proj2 (kubelet_forgets_no_pod _ _ _ _ _ _ _ _ demo_waiting He Hc demo_waiting_run))).
  vm_compute. eauto.
Defined.
