(* ===== verification/PodLife.v ===== *)
(** * From a pod of the custom kubelet to an endpoint of the gateway

    The two ends of the benchmark meet in the status of a pod: [SyncPod] of
    [cmd/kubelet/kubelet.go] writes it, and [Reconcile] of [pkg/gateway/k8s.go]
    reads it to decide which pods serve requests.  Both test the same predicate,
    [IsPodReady] of Kubedirect, of which the laws below state what its
    documentation promises. *)

From S2P Require Import Prelude GoTypes Float64 Interfaces Kube Workload Backend Dispatcher Autoscaler Gateway Kubelet.

Local Open Scope Z_scope.

(** [backend.IsPodReady]. *)
Definition backend_IsPodReady {PodInfo} `{KdApi PodInfo} (pod : Pod) : bool := IsPodReady pod.

(** A condition without the time of its last transition. *)
Definition cond_value (c : PodCondition) : string * string := (CondType c, CondStatus c).

(** Readiness is read off the phase and the conditions: a running pod all of
    whose conditions are true, among them "Ready", is ready, and so is every
    pod that is not being deleted with the phase and the conditions of a ready
    one. *)
Class ReadyLaws (PodInfo : Type) `{KdApi PodInfo} : Prop := {
  ready_conditions : forall pod, DeletionTimestamp (pod_meta pod) = None ->
    Phase (Status pod) = "Running"%string -> "Ready"%string ∈ map CondType (Conditions (Status pod)) ->
    Forall (fun c => CondStatus c = "True"%string) (Conditions (Status pod)) -> IsPodReady pod = true;
  ready_same_conditions : forall pod pod', IsPodReady pod = true -> DeletionTimestamp (pod_meta pod') = None ->
    Phase (Status pod') = Phase (Status pod) ->
    map cond_value (Conditions (Status pod')) = map cond_value (Conditions (Status pod)) -> IsPodReady pod' = true
}.

(** The pod object [pod] carries the status that a write of the kubelet asked
    for. *)
Definition carries (e : effect) (pod : Pod) : Prop :=
  match e with
  | UpdateStatus pod0 st =>
      Namespace (pod_meta pod) = Namespace (pod_meta pod0) /\ Name (pod_meta pod) = Name (pod_meta pod0) /\
      Status pod = st
  | PatchStatus ns name _ st => Namespace (pod_meta pod) = ns /\ Name (pod_meta pod) = name /\ Status pod = st
  | _ => False
  end.

Section ready.
Context {M : Type -> Type} `{SML : SharedMapLaws M}.
Context {Q : Type -> Type} `{QL : WorkQueueLaws Q}.
Context {PodInfo : Type} `{RL : ReadyLaws PodInfo}.
Context {Hub : Type} `{EpochHub Hub}.
Implicit Types s : KubedirectServer M Q PodInfo Hub.

(** The timestamps of [tweakRefPodStatus] do not matter. *)
Lemma tweak_conditions st now : map cond_value (Conditions (tweakRefPodStatus st now)) = map cond_value (Conditions st).
Proof. simpl. rewrite map_map. by apply map_ext. Qed.

(** A reference status makes the pod that carries it ready. *)
Lemma ref_status_ready s env pod st pod' :
  ref_status s env pod = Ret (Ok st) -> Status pod' = st -> DeletionTimestamp (pod_meta pod') = None ->
  backend_IsPodReady pod' = true.
Proof.
  unfold ref_status, backend_IsPodReady. intros R E D. destruct (simulate s).
  - injection R as R. rewrite <- R in E. apply ready_conditions; rewrite ?E; [done|done|left|].
    simpl. repeat constructor. rewrite map_map. apply Forall_forall. intros c (g & -> & _)%list_elem_of_fmap. done.
  - unfold getRefPodStatus in R. destruct (env_pool _ _ _) as [pool|]; [|done].
    destruct (_ =? 0)%nat; [done|]. destruct (filter _ pool !! _) as [ref|] eqn:L; [|done].
    injection R as R. rewrite <- R in E.
    apply list_elem_of_lookup_2, list_elem_of_filter in L as [L _].
    apply (ready_same_conditions ref); rewrite ?E; [done|done|done|apply tweak_conditions].
Qed.

Lemma carries_status s env pod st pod' :
  ref_status s env pod = Ret (Ok st) -> carries (ready_write s pod st) pod' ->
  DeletionTimestamp (pod_meta pod') = None ->
  backend_IsPodReady pod' = true /\ Name (pod_meta pod') = Name (pod_meta pod).
Proof.
  intros R K D. unfold ready_write in K.
  destruct (patch s); destruct K as (_ & E & K); (split; [by eapply ref_status_ready|done]).
Qed.

Context {C : Type -> Type} `{CL : ChannLaws C}.
Context {B W : Type} `{TimedBucketsOps B} `{TimeWindowOps W}.
Context {Conn E : Type} `{Executor Conn E}.
Context {S : Type} `{ClientOps S}.
Implicit Types g : k8sGateway C M Q B W E.

(** A reconciliation that succeeds with a ready pod in the list makes it an
    endpoint, with a token if it was none. *)
Lemma reconcile_adopts newBackend order g (cl : S) req target pods pod pd g' :
  (forall l, Permutation (order l) l) -> cl_get_deployment cl req = Ok target ->
  cl_list_pods cl (Namespace (dep_meta target)) (TemplateLabels target) = Ok pods ->
  pod ∈ pods -> backend_IsPodReady pod = true -> dispatchers g !! nn_string req = Some pd ->
  k8s_Reconcile backend_IsPodReady newBackend order g cl req = Ret ([], g') ->
  let key := fst (podEndpointKeyFunc pod) in
  exists pd', dispatchers g' !! nn_string req = Some pd' /\ live pd' key = true /\
    (live pd key = false -> key ∈ token_items pd').
Proof.
  intros Ho Hg Hl Hin Hr Hd. unfold k8s_Reconcile. rewrite Hg, Hl, Hd.
  destruct (pd_Reconcile _ _ _ _) as [[errs pd']| |] eqn:R; [|done..]. intros [= -> <-]. cbv zeta.
  destruct (reconcile_spec _ _ _ _ _ _ Ho R) as (added & _ & Ht & _ & _ & R2 & R3).
  assert (fst (podEndpointKeyFunc pod) ∈ ready_keys (filter (fun p => backend_IsPodReady p = true) pods)) as Hk.
  { apply list_elem_of_fmap. exists pod. split; [done|]. by apply list_elem_of_filter. }
  exists pd'. simpl. rewrite lookup_insert_eq. specialize (R3 eq_refl _ Hk).
  split; [done|]. split; [by apply bool_decide_eq_true|].
  intros Hn. rewrite Ht. apply elem_of_app. right.
  destruct (decide (fst (podEndpointKeyFunc pod) ∈ added)) as [|N]; [done|]. exfalso.
  rewrite (R2 _ N), decide_True in R3 by done. unfold live in Hn. by rewrite bool_decide_eq_true_2 in Hn.
Qed.

(** With a live token in the channel, [dispatch] does not wait. *)
Lemma live_token_dispatches (pd : PodDispatcher M C E) key fuel :
  live pd key = true -> key ∈ token_items pd -> (length (token_items pd) < fuel)%nat ->
  exists k e pd', dispatch fuel pd = Some (Some (k, e), pd') /\ sm_inner (endpoints pd) !! k = Some e.
Proof.
  intros L Hin Hf. destruct (dispatch_first_live pd fuel Hf) as ([[k e]|] & pd' & D & R).
  - destruct R as (dead & rest & _ & _ & R & _). eauto.
  - destruct R as [R _]. rewrite Forall_forall in R. specialize (R _ Hin). congruence.
Qed.

(** C15: from the node to the gateway.  When a pod that should become ready is past
    its delay, and the kubelet has a client for its node and a reference status
    for it, [SyncPod] writes that status; and once the gateway lists the pod with
    it, a reconciliation of the pod's target that succeeds makes the pod an
    endpoint of the target's dispatcher, under its own name and address.  If it
    is a new one, the dispatcher no longer makes requests wait: its loop ends
    with the executor of a live endpoint. *)
Theorem synced_pod_serves s env pending pod ready st :
  startable s env pending pod ->
  sm_inner (readyTimers s) !! pending_string pending = Some ready -> ready <= env_now env ->
  ref_status s env pod = Ret (Ok st) -> (patch s = true -> is_ok (env_marshal env st) = true) ->
  is_Some (sm_inner (clientPool s) !! NodeName pod) ->
  exists err s', SyncPod s env pending = Ret (err, s', [ready_write s pod st]) /\
  (err = None <-> is_ok (env_write env) = true) /\
  forall newBackend order g (cl : S) req target pods listed pd g',
    (forall l, Permutation (order l) l) -> cl_get_deployment cl req = Ok target ->
    cl_list_pods cl (Namespace (dep_meta target)) (TemplateLabels target) = Ok pods ->
    listed ∈ pods -> carries (ready_write s pod st) listed -> DeletionTimestamp (pod_meta listed) = None ->
    dispatchers g !! nn_string req = Some pd ->
    k8s_Reconcile backend_IsPodReady newBackend order g cl req = Ret ([], g') ->
    let key := (Name (pod_meta pod) +:+ "@" +:+ PodIP st +:+ WorkloadServicePort)%string in
    exists pd', dispatchers g' !! nn_string req = Some pd' /\ live pd' key = true /\
    (live pd key = false -> forall fuel, (length (token_items pd') < fuel)%nat ->
     exists k e pd'', dispatch fuel pd' = Some (Some (k, e), pd'') /\ sm_inner (endpoints pd') !! k = Some e).
Proof.
  intros St L Hr Hst Hm [c Hc]. pose proof (sync_past_ready s env pending pod ready st St L Hr Hst Hm) as P.
  rewrite Hc in P. destruct P as (err & s' & E1 & Hw & _). exists err, s'. split; [done|]. split; [done|].
  intros newBackend order g cl req target pods listed pd g' Ho Hg Hl Hin K D Hd R key.
  destruct (carries_status s env pod st listed Hst K D) as [Hready Hname].
  assert (fst (podEndpointKeyFunc listed) = key) as Hkey.
  { unfold podEndpointKeyFunc, key. simpl. rewrite Hname. unfold ready_write in K.
    destruct (patch s); by destruct K as (_ & _ & ->). }
  destruct (reconcile_adopts newBackend order g cl req target pods listed pd g' Ho Hg Hl Hin Hready Hd R)
    as (pd' & P1 & P2 & P3). rewrite Hkey in *. exists pd'. split; [done|]. split; [done|].
  intros Hn fuel Hf. apply (live_token_dispatches pd' key); auto.
Qed.

End ready.

(** ** Witness *)

Global Instance demo_kd_ready : ReadyLaws demo_info.
Proof.
  split.
  - intros pod _ _ Hin Ht. apply existsb_exists. apply list_elem_of_fmap in Hin as (c & Hc & Hin).
    exists c. split; [by apply list_elem_of_In|]. rewrite Forall_forall in Ht.
    rewrite <- Hc, (Ht c Hin). by rewrite !bool_decide_eq_true_2.
  - intros pod pod' R _ _ E. simpl in *. unfold has_true in *. apply existsb_exists in R as (c & Hin & R).
    assert (cond_value c ∈ map cond_value (Conditions (Status pod'))) as Hc.
    { rewrite E. apply list_elem_of_fmap. exists c. split; [done|by apply list_elem_of_In]. }
    apply list_elem_of_fmap in Hc as (c' & [= E1 E2] & Hin'). apply existsb_exists. exists c'.
    split; [by apply list_elem_of_In|]. by rewrite <- E1, <- E2.
Qed.

(** The pod with the status that the kubelet of the example wrote, and a cluster
    with it and its deployment. *)
Definition demo_written : Pod := set_status demo_api_pod demo_ready_status.

Definition demo_pod_cluster : cluster :=
  mkCluster [(mkNamespacedName "ns" "app",
              mkDeployment (mkMeta "ns" "app" "u" "1" ∅ ∅ None) (Some 1) {["kubedirect/lifecycle" := "custom"]})]
    [demo_pod "p9" "10.0.0.9"; demo_written] [].

Lemma synced_pod_serves_witness :
  exists g' pd', k8s_Reconcile backend_IsPodReady demo_new id (demo_gateway (demo_pd [] [] 0)) demo_pod_cluster
      (mkNamespacedName "ns" "app") = Ret ([], g' : demo_k8s) /\
    dispatchers g' !! "ns/app" = Some pd' /\ live pd' "p0@127.0.0.1:80" = true.
Proof.
  destruct (synced_pod_serves (C := list) (B := float64) (W := Z * list (Z * Z)) (E := fakeBackend) (S := cluster)
    (demo_kserver {["ns/p0" := 5 * Second]} {["n0" := tt]}) (demo_env (6 * Second)) demo_pending demo_api_pod
    (5 * Second) demo_ready_status) as (err & s' & _ & _ & K);
    [apply demo_startable|vm_compute; reflexivity|vm_compute; discriminate|reflexivity|discriminate|vm_compute; eauto|].
  assert (exists g', k8s_Reconcile backend_IsPodReady demo_new id (demo_gateway (demo_pd [] [] 0)) demo_pod_cluster
      (mkNamespacedName "ns" "app") = Ret ([], g' : demo_k8s)) as [g' R] by (eexists; vm_compute; reflexivity).
  destruct (K demo_new id (demo_gateway (demo_pd [] [] 0)) demo_pod_cluster (mkNamespacedName "ns" "app")
    (mkDeployment (mkMeta "ns" "app" "u" "1" ∅ ∅ None) (Some 1) {["kubedirect/lifecycle" := "custom"]})
    [demo_written] demo_written (demo_pd [] [] 0) g') as (pd' & P1 & P2 & _);
    [intros l; reflexivity|reflexivity|vm_compute; reflexivity|left|repeat split|reflexivity|reflexivity|exact R|].
  exists g', pd'. split; [exact R|]. split; [exact P1|exact P2].
Defined.
