(* ===== verification/Handler.v ===== *)
(** * Package [handler]: the function that a pod runs

    Models [pkg/workload/handler]: the busy-spinning and the sleeping function
    of [handler.go], the environment variables that select between them, and the
    gRPC method of [server.go].  Durations in milliseconds and microseconds are
    [uint32], the clock is an argument.  The square root of the spin loop has no
    effect but time: the loop is modelled by the number of its turns. *)

From S2P Require Import Prelude GoTypes.

Local Open Scope Z_scope.

Definition EXEC_UNIT : Z := 100.

Inductive FunctionType : Type :=
| TraceFunction
| SleepFunction.

(** The package variables. *)
Record handler_config : Type := mkHandler {
  hostname : string;
  funcType : FunctionType;
  iterationMultiplier : Z
}.

Definition default_handler : handler_config := mkHandler "" TraceFunction 102.

(** [takeSqrts]: the square roots of one call. *)
Definition takeSqrts : Z := EXEC_UNIT.

(** [busySpin]: the calls of [takeSqrts]; the product is an [int]. *)
Definition busySpin (cfg : handler_config) (runtimeMilliSec : Z) : Z :=
  Z.max 0 (mul64 (iterationMultiplier cfg) runtimeMilliSec).

(** [uint32(time.Since(start).Milliseconds())]. *)
Definition consumed_millis (elapsed : Z) : Z := uint32_of (quo64 elapsed Millisecond).

(** The message and the turns of the spin loop. *)
Definition TraceFunctionExecution (cfg : handler_config) (elapsed requestedMilliSec : Z) : string * Z :=
  let timeConsumedMilliSec := consumed_millis elapsed in
  if timeConsumedMilliSec <? requestedMilliSec then
    let requestedMilliSec := uint32_of (requestedMilliSec - timeConsumedMilliSec) in
    let spun := if 0 <? requestedMilliSec then busySpin cfg requestedMilliSec else 0 in
    ("OK - " +:+ hostname cfg, spun)
  else ("", 0).

(** The message and the duration of the sleep. *)
Definition EmptyFunctionExecution (cfg : handler_config) (elapsed requestedMilliSec : Z) : string * Z :=
  let timeConsumedMilliSec := consumed_millis elapsed in
  if timeConsumedMilliSec <? requestedMilliSec then
    let requestedMilliSec := uint32_of (requestedMilliSec - timeConsumedMilliSec) in
    let slept := if 0 <? requestedMilliSec then mul64 requestedMilliSec Millisecond else 0 in
    ("OK - EMPTY - " +:+ hostname cfg, slept)
  else ("", 0).

(** [strconv.Atoi] is [atoi], [os.Hostname] is [host]. *)
Definition readEnvironmentalVariables (atoi : string -> option Z) (host : result string)
    (lookup : string -> option string) (cfg : handler_config) : handler_config :=
  let multiplier :=
    match lookup "ITERATIONS_MULTIPLIER" with
    | Some v => default (iterationMultiplier cfg) (atoi v)
    | None => iterationMultiplier cfg
    end in
  let type :=
    match lookup "FUNCTION_TYPE" with
    | Some v => if bool_decide (v = "trace"%string) then TraceFunction
                else if bool_decide (v = "sleep"%string) then SleepFunction
                else funcType cfg
    | None => funcType cfg
    end in
  mkHandler (match host with Ok h => h | Err _ => "Unknown host" end) type multiplier.

(** The gRPC server of the function; [mode] is the type it was made with. *)
Record funcServer : Type := newFuncServer {
  mode : FunctionType
}.

(** [Execute]: [elapsed] is the time since [start] at the first reading,
    [total] at the last. *)
Definition handler_Execute (srv : funcServer) (cfg : handler_config) (elapsed total requestedMilliSec : Z) :
    string * Z :=
  let msg :=
    match mode srv with
    | TraceFunction => fst (TraceFunctionExecution cfg elapsed requestedMilliSec)
    | SleepFunction => fst (EmptyFunctionExecution cfg elapsed requestedMilliSec)
    end in
  (msg, uint32_of (quo64 total Microsecond)).

(** [StartGRPCServer], the main function of the container.  [listen] and
    [serve] are the errors of [net.Listen] and of the blocking [Serve], which is
    handed the server and returns without one after a signal and
    [GracefulStop]. *)
Definition StartGRPCServer (atoi : string -> option Z) (host : result string) (lookup : string -> option string)
    (listen : option error) (serve : funcServer -> handler_config -> option error) :
    outcome (funcServer * handler_config) :=
  let cfg := readEnvironmentalVariables atoi host lookup default_handler in
  match listen with
  | Some e => Fatal ("failed to listen: " +:+ err_text e)
  | None =>
      let srv := newFuncServer (funcType cfg) in
      match serve srv cfg with
      | Some e => Fatal ("Failed to serve: " +:+ err_text e)
      | None => Ret (srv, cfg)
      end
  end.

(** ** Theorems *)

Lemma consumed_millis_small elapsed :
  0 <= elapsed < 2 ^ 32 * Millisecond -> consumed_millis elapsed = elapsed / Millisecond.
Proof.
  intros He. unfold consumed_millis, quo64, Millisecond in *. rewrite Z.quot_div_nonneg by lia.
  pose proof (Z.div_pos elapsed 1000000 ltac:(lia) ltac:(lia)).
  assert (elapsed / 1000000 < 2 ^ 32) by (apply Z.div_lt_upper_bound; lia).
  rewrite int64_of_id by (unfold in_int64, min_int64, max_int64; lia).
  by apply uint32_of_id.
Qed.

(** The sleeping function takes the requested time, and no more.  With
    [elapsed] nanoseconds already gone, it sleeps for exactly the whole
    milliseconds that are missing, and not at all when none is missing: the
    unsigned difference never wraps around. *)
Theorem sleep_completes_request cfg elapsed requested :
  0 <= elapsed < 2 ^ 32 * Millisecond -> 0 <= requested < 2 ^ 32 ->
  snd (EmptyFunctionExecution cfg elapsed requested)
    = Z.max 0 (requested - elapsed / Millisecond) * Millisecond /\
  (fst (EmptyFunctionExecution cfg elapsed requested) = ""%string <-> requested <= elapsed / Millisecond).
Proof.
  intros He Hr. unfold EmptyFunctionExecution. rewrite consumed_millis_small by done.
  assert (0 <= elapsed / Millisecond) by (apply Z.div_pos; unfold Millisecond in *; lia).
  destruct (Z.ltb_spec (elapsed / Millisecond) requested) as [L|L]; simpl.
  - rewrite uint32_of_id by lia. destruct (Z.ltb_spec 0 (requested - elapsed / Millisecond)); [|lia].
    unfold mul64. rewrite int64_of_id.
    + rewrite Z.max_r by lia. split; [done|]. split; [done|lia].
    + unfold in_int64, min_int64, max_int64, Millisecond in *. lia.
  - rewrite Z.max_l by lia. split; [done|]. done.
Qed.

(** The spinning function does the work of the missing time.  For a
    multiplier below 2^31 it calls the unit of work exactly multiplier times
    per missing millisecond, and never when the time is already used up. *)
Theorem spin_matches_request cfg elapsed requested :
  0 <= elapsed < 2 ^ 32 * Millisecond -> 0 <= requested < 2 ^ 32 ->
  0 <= iterationMultiplier cfg < 2 ^ 31 ->
  snd (TraceFunctionExecution cfg elapsed requested)
    = iterationMultiplier cfg * Z.max 0 (requested - elapsed / Millisecond).
Proof.
  intros He Hr Hm. unfold TraceFunctionExecution. rewrite consumed_millis_small by done.
  assert (0 <= elapsed / Millisecond) by (apply Z.div_pos; unfold Millisecond in *; lia).
  destruct (Z.ltb_spec (elapsed / Millisecond) requested) as [L|L]; simpl; [|lia].
  rewrite uint32_of_id by lia. destruct (Z.ltb_spec 0 (requested - elapsed / Millisecond)); [|lia].
  unfold busySpin, mul64. rewrite int64_of_id; [nia|].
  unfold in_int64, min_int64, max_int64. nia.
Qed.

(** What a container answers.  Started without an error, the function replies
    to a request for [requested] milliseconds with its greeting, after its type
    (selected by [FUNCTION_TYPE], the spinning one by default) and its host,
    exactly when time is missing, and reports the microseconds it took. *)
Theorem container_replies atoi host lookup serve srv cfg elapsed total requested :
  StartGRPCServer atoi host lookup None serve = Ret (srv, cfg) ->
  0 <= elapsed < 2 ^ 32 * Millisecond -> 0 <= requested < 2 ^ 32 -> 0 <= total < 2 ^ 32 * Microsecond ->
  handler_Execute srv cfg elapsed total requested =
    ((if (requested <=? elapsed / Millisecond)%Z then ""
      else (if bool_decide (lookup "FUNCTION_TYPE" = Some "sleep") then "OK - EMPTY - " else "OK - ") +:+
           match host with Ok h => h | Err _ => "Unknown host" end)%string,
     total / Microsecond).
Proof.
  unfold StartGRPCServer. destruct (serve _ _); [done|]. intros [= <- <-] He Hr Ht. unfold handler_Execute. f_equal.
  - unfold TraceFunctionExecution, EmptyFunctionExecution. rewrite consumed_millis_small by done.
    unfold readEnvironmentalVariables. simpl. rewrite Z.leb_antisym.
    destruct (lookup "FUNCTION_TYPE") as [v|].
    2: { rewrite bool_decide_eq_false_2 by done. by destruct (_ <? _). }
    destruct (decide (v = "sleep"%string)) as [->|Hv].
    { rewrite (bool_decide_eq_true_2 (Some "sleep"%string = _)) by done. by destruct (_ <? _). }
    rewrite (bool_decide_eq_false_2 (Some v = _)) by congruence.
    rewrite (bool_decide_eq_false_2 (v = "sleep"%string)) by done.
    destruct (bool_decide _); by destruct (_ <? _).
  - unfold quo64, Microsecond in *. rewrite Z.quot_div_nonneg by lia.
    pose proof (Z.div_pos total 1000 ltac:(lia) ltac:(lia)).
    assert (total / 1000 < 2 ^ 32) by (apply Z.div_lt_upper_bound; lia).
    rewrite int64_of_id by (unfold in_int64, min_int64, max_int64; lia). by apply uint32_of_id.
Qed.

(** ** Witnesses *)

Lemma sleep_completes_request_witness :
  snd (EmptyFunctionExecution default_handler (3 * Millisecond) 10) = 7 * Millisecond.
Proof.
  exact (proj1 (sleep_completes_request default_handler (3 * Millisecond) 10
    ltac:(vm_compute; split; [discriminate|reflexivity]) ltac:(lia))).
Defined.

Lemma spin_matches_request_witness :
  snd (TraceFunctionExecution default_handler (3 * Millisecond) 10) = 102 * 7.
Proof.
  exact (spin_matches_request default_handler (3 * Millisecond) 10
    ltac:(vm_compute; split; [discriminate|reflexivity]) ltac:(lia) ltac:(simpl; lia)).
Defined.

Lemma container_replies_witness :
  handler_Execute (newFuncServer SleepFunction) (mkHandler "h0" SleepFunction 102) (3 * Millisecond)
    (10 * Millisecond) 10 = ("OK - EMPTY - h0"%string, 10000).
Proof.
  exact (container_replies (fun _ => None) (Ok "h0"%string)
    (fun name => if bool_decide (name = "FUNCTION_TYPE"%string) then Some "sleep"%string else None) (fun _ _ => None)
    (newFuncServer SleepFunction) (mkHandler "h0" SleepFunction 102) (3 * Millisecond) (10 * Millisecond) 10
    eq_refl ltac:(vm_compute; split; [discriminate|reflexivity]) ltac:(lia)
    ltac:(vm_compute; split; [discriminate|reflexivity])).
Defined.
