(* ===== verification/Experiments.v ===== *)
(** * The microbenchmarks ([experiments/microbench])

    Models the clients of the end-to-end and the breakdown experiments: the
    handshakes and address listers, the division of the pods over the targets,
    the runs of the deployment, autoscaler, replica-set and endpoints breakdowns
    (their calls one after the other; [Breakdown.v] interleaves them), and the
    pod monitors of the end-to-end and the kubelet experiment, which count ready
    pods on a wait group and report the 90th percentile of their times.  API and
    RPC calls are arguments. *)

From Stdlib Require Import Sorting.Sorted.
From stdpp Require Import sorting.
From S2P Require Import Prelude GoTypes Interfaces Kube Workload.

Local Open Scope Z_scope.

(** ** Handshakes and addresses *)

(** [doDeploymentHandshake], [doReplicaSetHandshake], [doEndpointsHandshake] and
    [doSchedulerHandshake] for the service [service]: [epoch] is that of the new
    request, [reply] the epoch of the response. *)
Definition testClient : string := "test".

Definition doHandshake (service src dest epoch : string) (reply : result string) :
    outcome (result string) :=
  if negb (bool_decide (src = testClient))
  then Panic ("invalid source: expected " +:+ testClient +:+ ", got " +:+ src)
  else if negb (bool_decide (dest = service))
  then Panic ("invalid destination: expected " +:+ service +:+ ", got " +:+ dest)
  else
    match reply with
    | Err e => Ret (Err e)
    | Ok epoch' =>
        if negb (bool_decide (epoch = epoch'))
        then Ret (Err (errorf ("epoch mismatch: expected " +:+ epoch +:+ ", got " +:+ epoch')))
        else Ret (Ok epoch)
    end.

Definition kdClientKeyFunc (nodeName : string) : string := testClient +:+ "/" +:+ nodeName.

Definition doKubeletHandshake (src dest epoch : string) (reply : result string) : outcome (result string) :=
  if negb (bool_decide (src = kdClientKeyFunc dest))
  then Panic ("invalid source: expected " +:+ kdClientKeyFunc dest +:+ ", got " +:+ src)
  else
    match reply with
    | Err e => Ret (Err e)
    | Ok epoch' =>
        if negb (bool_decide (epoch = epoch'))
        then Ret (Err (errorf ("epoch mismatch: expected " +:+ epoch +:+ ", got " +:+ epoch')))
        else Ret (Ok epoch)
    end.

(** The listers of the controller-manager and scheduler services: the addresses
    of the ready pods, in the order of the list. *)
Definition service_lister (IsPodReady : Pod -> bool) (port : string) (listed : result (list Pod)) :
    result (list string) :=
  match listed with
  | Err e => Err e
  | Ok pods => Ok (map (fun p => PodIP (Status p) +:+ port) (filter (fun p => IsPodReady p = true) pods))
  end.

(** [override] is [kdrpc.GetKubeletServiceOverrideAddr]. *)
Definition newKubeletLister (override : Node -> string * bool) (port nodeName : string)
    (requireAddrAnnotation : bool) (got : result Node) : outcome (result (list string)) :=
  match got with
  | Err e => Ret (Err e)
  | Ok node =>
      let '(overrideAddr, mustOverride) := override node in
      if negb (bool_decide (overrideAddr = "")) then Ret (Ok [overrideAddr])
      else if mustOverride || requireAddrAnnotation
      then Fatal ("Missing Kubelet service address annotation on node " +:+ nodeName)
      else Ret (Ok (map (fun a => Address a +:+ port)
                      (filter (fun a => AddrType a = "InternalIP"%string) (Addresses node))))
  end.

(** ** Pods per target *)

Definition nPodsPerTarget (nPods nTargets : Z) : Z :=
  let q := quo64 nPods nTargets in
  if q =? 0 then 1 else q.

(** ** The runs of the breakdown experiments *)

(** The counters that a run prints. *)
Record report : Type := mkRunReport {
  rp_per_target : Z;
  rp_scaled : Z;
  rp_finished : Z
}.

(** The successful calls among those for the targets. *)
Definition succeeded {A} (call : A -> result unit) (targets : list A) : Z :=
  Z.of_nat (count (fun t => is_ok (call t)) targets).

(** The checks of a list, in order. *)
Fixpoint check_all {A} (check : A -> outcome unit) (targets : list A) : outcome unit :=
  match targets with
  | [] => Ret tt
  | t :: targets => _ ← check t; check_all check targets
  end.

(** One attempt of [waitForReplicaSets]: the listed replica sets, each with
    whether it has a controller. *)
Definition waitForReplicaSets (nTargets : nat) (listed : result (list (ObjectMeta * bool))) : outcome bool :=
  match listed with
  | Err e => Fatal ("Error listing ReplicaSets: " +:+ err_text e)
  | Ok rsList =>
      _ ← check_all (fun rs => if rs.2 : bool then Ret tt
                               else Fatal ("ReplicaSet " +:+ Namespace rs.1 +:+ "/" +:+ Name rs.1
                                           +:+ " has no owner")) rsList;
      Ret (length rsList =? nTargets)%nat
  end.

(** [wait.PollUntilContextCancel] for the event [what]: attempts until one is
    satisfied; the context is cancelled when they run out. *)
Fixpoint poll (what : string) (attempts : list (outcome bool)) : outcome unit :=
  match attempts with
  | [] => Fatal ("Error waiting for " +:+ what +:+ ": context canceled")
  | a :: attempts => ok ← a; if (ok : bool) then Ret tt else poll what attempts
  end.

(** The list call of a run, and the texts of its two failures. *)
Definition list_targets {A} (failed none : string) (listed : result (list A)) : outcome (list A) :=
  match listed with
  | Err e => Fatal (failed +:+ ": " +:+ err_text e)
  | Ok [] => Fatal none
  | Ok targets => Ret targets
  end.

(** [run] of the autoscaler and the deployment breakdown, for a context that is
    not cancelled: [scale] is the scale update, [watch] the blocking watch, each
    in a goroutine per target. *)
Definition run_deployment (IsManaged : ObjectMeta -> bool) (listed : result (list ObjectMeta))
    (polls : list (result (list (ObjectMeta * bool)))) (nPods : Z) (fallback : bool)
    (scale watch : ObjectMeta -> Z -> result unit) : outcome report :=
  targets ← list_targets "Error listing scaling targets" "No scaling targets selected" listed;
  _ ← check_all (fun dp => if bool_decide (fallback = negb (IsManaged dp)) then Ret tt
                           else Fatal "Deployment must not be managed in fallback mode and vice versa") targets;
  _ ← poll "ReplicaSets" (map (waitForReplicaSets (length targets)) polls);
  let n := nPodsPerTarget nPods (Z.of_nat (length targets)) in
  Ret (mkRunReport n (succeeded (fun t => scale t (int32_of n)) targets)
         (succeeded (fun t => watch t (int32_of n)) targets)).

(** [run] of the replica-set breakdown; the replicas pointer of a target is
    dereferenced. *)
Definition run_replicaset (IsManaged IsFallbackScaling : ObjectMeta -> bool)
    (listed : result (list (ObjectMeta * option Z))) (nPods : Z) (fallback : bool)
    (scale : ObjectMeta -> Z -> result unit) : outcome report :=
  targets ← list_targets "Error listing scaling targets" "No scaling targets selected" listed;
  _ ← check_all (fun rs =>
        if negb (IsManaged rs.1) then Fatal "ReplicaSet must be managed in this breakdown test"
        else if bool_decide (fallback = IsFallbackScaling rs.1) then Ret tt
        else Fatal "ReplicaSet should set fallback label if and only if in fallback mode") targets;
  let n := nPodsPerTarget nPods (Z.of_nat (length targets)) in
  _ ← check_all (fun rs => match rs.2 with
                           | Some _ => Ret tt
                           | None => nil_deref
                           end) targets;
  let ok := succeeded (fun t => scale t.1 (int32_of n)) targets in
  Ret (mkRunReport n ok ok).

Definition checkMetadata (IsManaged : ObjectMeta -> bool) (fallback : bool) (obj : ObjectMeta) : outcome unit :=
  if negb (bool_decide (str_at (Labels obj) "app" = Name obj))
  then Fatal ("ReplicaSet " +:+ quoted "app" +:+ " label must match name: expected " +:+ Name obj
              +:+ ", got " +:+ str_at (Labels obj) "app")
  else if bool_decide (fallback = negb (IsManaged obj)) then Ret tt
  else Fatal "ReplicaSet should set fallback label if and only if in fallback mode".

(** The loop that finds the replica set of each service: [get] gives it with
    its replicas, whose pointer is dereferenced. *)
Fixpoint matching_replicasets (IsManaged : ObjectMeta -> bool) (fallback : bool)
    (get : ObjectMeta -> result (ObjectMeta * option Z)) (services : list ObjectMeta) :
    outcome (list ObjectMeta) :=
  match services with
  | [] => Ret []
  | svc :: services =>
      _ ← checkMetadata IsManaged fallback svc;
      match get svc with
      | Err e => Fatal ("Error getting matching ReplicaSet for Service " +:+ Namespace svc +:+ "/"
                        +:+ Name svc +:+ ": " +:+ err_text e)
      | Ok (rs, replicas) =>
          _ ← checkMetadata IsManaged fallback rs;
          match replicas with
          | None => nil_deref
          | Some r =>
              if r =? 0 then
                replicaSets ← matching_replicasets IsManaged fallback get services;
                Ret (rs :: replicaSets)
              else Fatal ("ReplicaSet " +:+ Namespace rs +:+ "/" +:+ Name rs
                          +:+ " has non-zero initial replicas")
          end
      end
  end.

(** One attempt of [waitForReadyPods]: the ready replicas of the replica sets. *)
Definition waitForReadyPods (n : Z) (listed : result (list Z)) : outcome bool :=
  match listed with
  | Err e => Fatal ("Error listing ReplicaSets: " +:+ err_text e)
  | Ok readyReplicas => Ret (forallb (fun r => r =? int32_of n) readyReplicas)
  end.

(** [run] of the endpoints breakdown, for a context that is not cancelled:
    [scale] scales a replica set, [update] sets the selector of a service. *)
Definition run_endpoints (IsManaged : ObjectMeta -> bool) (listed : result (list ObjectMeta))
    (get : ObjectMeta -> result (ObjectMeta * option Z)) (ready : list (result (list Z)))
    (nPods : Z) (fallback : bool) (scale : ObjectMeta -> Z -> result unit)
    (update watch : ObjectMeta -> result unit) : outcome report :=
  services ← list_targets "Error listing Services" "No Service selected" listed;
  replicaSets ← matching_replicasets IsManaged fallback get services;
  let n := nPodsPerTarget nPods (Z.of_nat (length services)) in
  _ ← check_all (fun rs => match scale rs (int32_of n) with
                           | Ok _ => Ret tt
                           | Err e => Fatal ("Error scaling up " +:+ Namespace rs +:+ "/" +:+ Name rs
                                             +:+ ": " +:+ err_text e)
                           end) replicaSets;
  _ ← poll "ready pods" (map (waitForReadyPods n) ready);
  Ret (mkRunReport n (succeeded update services) (succeeded watch services)).

(** The template checks of the scheduler and the kubelet breakdown; [consistent]
    is the comparison of the mode with the template's labels and [mismatch] the
    text of its failure. *)
Definition check_template (IsTemplatePod : Pod -> bool) (ownerLabel target : string)
    (consistent : Pod -> bool) (mismatch : string) (got : result Pod) : outcome Pod :=
  match got with
  | Err e => Fatal ("Error getting template pod: " +:+ err_text e)
  | Ok template =>
      if negb (IsTemplatePod template) then Fatal "Invalid template pod: missing template pod label"
      else if negb (bool_decide (str_at (Labels (pod_meta template)) ownerLabel = target))
      then Fatal ("Invalid owner label, expected " +:+ target +:+ ", got "
                  +:+ str_at (Labels (pod_meta template)) ownerLabel)
      else if negb (consistent template) then Fatal ("Invalid template pod: " +:+ mismatch)
      else Ret template
  end.

(** The baselines of the breakdown experiments: the fallback mode. *)
Definition baseline_fallback (baseline selector : string) : outcome bool :=
  if bool_decide (selector = "") then Fatal "must specify workload selector"
  else if bool_decide (baseline = "k8s") then Ret true
  else if bool_decide (baseline = "kd") then Ret false
  else Fatal ("unknown baseline " +:+ baseline).

(** ** Wait groups and percentiles *)

(** [WaitGroup.Done]. *)
Definition wg_done (n : Z) : outcome Z :=
  if n - 1 <? 0 then Panic "sync: negative WaitGroup counter" else Ret (n - 1).

(** The percentile of the two [Since] methods, over all recorded times. *)
Definition since_times (seenTimes : list Z) (start : Z) : outcome Z :=
  if (length seenTimes =? 0)%nat then Ret 0
  else
    let idx := (90 * length seenTimes / 100)%nat in
    match merge_sort Z.le seenTimes !! idx with
    | Some percentile => Ret (time_sub percentile start)
    | None => Panic "index out of range"
    end.

Definition pod_key (pod : Pod) : string := Namespace (pod_meta pod) +:+ "/" +:+ Name (pod_meta pod).

(** ** The monitor of the end-to-end experiment *)

Section e2e.
Context {M : Type -> Type} `{SharedMapOps M}.
Variable IsPodReady : Pod -> bool.

(** An expectation is the map of the pods it has seen; all expectations share
    one wait group. *)
Record e2e_monitor : Type := mkE2e {
  em_selector : string;
  em_expectations : M (gmap string Z);
  em_wg : Z
}.

Definition e2e_Done (seen : gmap string Z) (wg : Z) (pod : Pod) (now : Z) :
    outcome (bool * gmap string Z * Z) :=
  match seen !! pod_key pod with
  | Some _ => Ret (false, seen, wg)
  | None => wg ← wg_done wg; Ret (true, <[pod_key pod := now]> seen, wg)
  end.

Definition e2e_Watch (m : e2e_monitor) (key : string) : e2e_monitor :=
  mkE2e (em_selector m) (sm_set (em_expectations m) key ∅) (em_wg m).

Definition e2e_FilterEvent (m : e2e_monitor) (obj : ObjectMeta) : bool :=
  IsWorkload obj && bool_decide (str_at (Labels obj) "workload" = em_selector m).

(** The expectation is shared: [Done] updates it in place. *)
Definition e2e_HandlePodEvent (m : e2e_monitor) (new : option Pod) (now : Z) : outcome e2e_monitor :=
  match new with
  | None => Ret m
  | Some pod =>
      if IsPodReady pod then
        let key := KeyFromObject (pod_meta pod) in
        match sm_get (em_expectations m) key with
        | None => Ret m
        | Some seen =>
            '(_, seen, wg) ← e2e_Done seen (em_wg m) pod now;
            Ret (mkE2e (em_selector m) (sm_set (em_expectations m) key seen) wg)
        end
      else Ret m
  end.

(** All recorded times. *)
Definition e2e_times (m : e2e_monitor) : list Z :=
  concat (map (fun kv => map snd (map_to_list kv.2)) (map_to_list (sm_inner (em_expectations m)))).

Definition e2e_Since (m : e2e_monitor) (start : Z) : outcome Z := since_times (e2e_times m) start.

(** The part of [run] that installs the expectations. *)
Definition e2e_watch_all (selector : string) (targets : list ObjectMeta) (nPods : Z) : outcome e2e_monitor :=
  let n := nPodsPerTarget nPods (Z.of_nat (length targets)) in
  let nPods := mul64 n (Z.of_nat (length targets)) in
  if nPods <? 0 then Panic "sync: negative WaitGroup counter"
  else Ret (foldl (fun m t => e2e_Watch m (KeyFromObject t)) (mkE2e selector sm_new nPods) targets).

Fixpoint e2e_run (m : e2e_monitor) (events : list (option Pod * Z)) : outcome e2e_monitor :=
  match events with
  | [] => Ret m
  | (new, now) :: events => m ← e2e_HandlePodEvent m new now; e2e_run m events
  end.

End e2e.

Arguments e2e_monitor M : clear implicits.

(** ** The monitor of the kubelet experiment *)

Section kubelet_monitor.
Variable IsPodReady : Pod -> bool.

Record km_expectation : Type := mkKm {
  km_wg : option Z;
  km_desired : gmap string Z
}.

Definition km_new : km_expectation := mkKm None ∅.

(** The pod infos are given by their namespace and name. *)
Definition info_key (info : string * string) : string := info.1 +:+ "/" +:+ info.2.

Definition km_Watch (wg : Z) (podInfos : list (string * string)) (e : km_expectation) : km_expectation :=
  mkKm (Some wg) (foldl (fun m info => <[info_key info := zero_time]> m) (km_desired e) podInfos).

Definition km_Done (e : km_expectation) (pod : Pod) (now : Z) : outcome (bool * km_expectation) :=
  match km_wg e with
  | None => Ret (false, e)
  | Some wg =>
      match km_desired e !! pod_key pod with
      | Some t =>
          if time_is_zero t then
            wg ← wg_done wg;
            Ret (true, mkKm (Some wg) (<[pod_key pod := now]> (km_desired e)))
          else Ret (false, e)
      | None => Ret (false, e)
      end
  end.

Definition km_HandlePodEvent (e : km_expectation) (old new : option Pod) (now : Z) :
    outcome km_expectation :=
  match new, old with
  | None, Some old => '(_, e) ← km_Done e old now; Ret e
  | None, None => nil_deref
  | Some new, _ => if IsPodReady new then '(_, e) ← km_Done e new now; Ret e else Ret e
  end.

Definition km_Since (e : km_expectation) (start : Z) : outcome Z :=
  since_times (map snd (map_to_list (km_desired e))) start.

(** [newPodInfos]: namespace and name of the pods; [ts] is the creation time in
    nanoseconds.  [make] panics on a negative length. *)
Definition newPodInfos (ownerNamespace ownerName : string) (ts : N) (nPods : Z) :
    outcome (list (string * string)) :=
  if nPods <? 0 then Panic "makeslice: len out of range"
  else Ret (map (fun i => (ownerNamespace, ownerName +:+ "-" +:+ pretty ts +:+ "-" +:+ pretty i))
              (seq 0 (Z.to_nat nPods))).

(** [run]: the infos are made and watched on a wait group of their number. *)
Definition km_start (ownerNamespace ownerName : string) (ts : N) (nPods : Z) :
    outcome (list (string * string) * km_expectation) :=
  podInfos ← newPodInfos ownerNamespace ownerName ts nPods;
  Ret (podInfos, km_Watch (Z.of_nat (length podInfos)) podInfos km_new).

Fixpoint km_run (e : km_expectation) (events : list (option Pod * option Pod * Z)) : outcome km_expectation :=
  match events with
  | [] => Ret e
  | (old, new, now) :: events => e ← km_HandlePodEvent e old new now; km_run e events
  end.

End kubelet_monitor.

(** ** The percentile *)

Lemma count_all {A} (P : A -> bool) (l : list A) : Forall (fun x => P x = true) l -> count P l = length l.
Proof. induction 1 as [|x l Hx Hl IH]; simpl; [done|]. rewrite Hx, IH. done. Qed.

Lemma count_none {A} (P : A -> bool) (l : list A) : Forall (fun x => P x = false) l -> count P l = 0%nat.
Proof. induction 1 as [|x l Hx Hl IH]; simpl; [done|]. rewrite Hx, IH. done. Qed.

(** In a sorted list, the elements up to an index are at most the one there,
    the ones from it on at least it. *)
Lemma sorted_around l i x :
  StronglySorted Z.le l -> l !! i = Some x ->
  Forall (fun y => y <= x) (take (S i) l) /\ Forall (fun y => x <= y) (drop i l).
Proof.
  intros Hs. revert i. induction Hs as [|y l Hs IH Hy]; intros [|i] Hi; simplify_eq/=.
  - split; [repeat constructor; lia|]. constructor; [lia|done].
  - destruct (IH i Hi) as [I1 I2]. split; [|done]. constructor; [|done].
    rewrite Forall_forall in Hy. apply Hy. by eapply list_elem_of_lookup_2.
Qed.

(** At least nine tenths of the times are at most [p], which is one of them, and
    at most nine tenths are before it. *)
Definition percentile90 (times : list Z) (p : Z) : Prop :=
  p ∈ times /\
  (90 * length times <= 100 * count (fun t => (t <=? p)%Z) times)%nat /\
  (100 * count (fun t => (t <? p)%Z) times <= 90 * length times)%nat.

(** The reported latency is a 90th percentile.  For any non-empty set of
    recorded times, [Since] does not panic: it returns the distance from the
    start to a recorded time [p] such that at least nine tenths of the times
    are at most [p] and at most nine tenths are before [p]. *)
Theorem since_is_percentile times start :
  times <> [] ->
  exists p, since_times times start = Ret (time_sub p start) /\ percentile90 times p.
Proof.
  intros Hne. unfold since_times, percentile90.
  assert (length times <> 0)%nat as Hl by (destruct times; simpl; [done|lia]).
  destruct (Nat.eqb_spec (length times) 0); [lia|].
  set (sorted := merge_sort Z.le times). set (idx := (90 * length times / 100)%nat).
  assert (Permutation sorted times) as Pm by apply merge_sort_Permutation.
  assert (length sorted = length times) as Ls by (by rewrite Pm).
  pose proof (Nat.div_mod (90 * length times) 100 ltac:(lia)) as Dm. fold idx in Dm.
  pose proof (Nat.mod_upper_bound (90 * length times) 100 ltac:(lia)).
  destruct (lookup_lt_is_Some_2 sorted idx) as [p Hp]; [lia|]. rewrite Hp.
  exists p. assert (StronglySorted Z.le sorted) as Hs by (apply StronglySorted_merge_sort; apply _).
  destruct (sorted_around sorted idx p Hs Hp) as [B1 B2]. split_and!; [done| | |].
  - rewrite <- Pm. by eapply list_elem_of_lookup_2.
  - rewrite <- (count_perm _ _ _ Pm), <- (take_drop (S idx) sorted), count_app.
    rewrite (count_all _ (take (S idx) sorted)), length_take; [lia|].
    eapply Forall_impl; [exact B1|]. intros y Hy. by apply Z.leb_le.
  - rewrite <- (count_perm _ _ _ Pm), <- (take_drop idx sorted), count_app.
    rewrite (count_none _ (drop idx sorted)).
    + pose proof (count_le_length (fun t => t <? p) (take idx sorted)) as Hc.
      rewrite length_take in Hc. lia.
    + eapply Forall_impl; [exact B2|]. intros y Hy. by apply Z.ltb_ge.
Qed.

Lemma since_latency times start latency :
  since_times times start = Ret latency -> times <> [] ->
  exists p, percentile90 times p /\ latency = time_sub p start.
Proof.
  intros Hs Hne. destruct (since_is_percentile times start Hne) as (p & E & P).
  exists p. split; [done|]. congruence.
Qed.

Lemma since_cases times start latency :
  since_times times start = Ret latency ->
  (times = [] /\ latency = 0) \/ exists p, percentile90 times p /\ latency = time_sub p start.
Proof.
  intros Hs. destruct times as [|t times]; [left; by injection Hs as <-|right]. by apply since_latency.
Qed.

Lemma since_total times start : exists latency, since_times times start = Ret latency.
Proof.
  unfold since_times. destruct (Nat.eqb_spec (length times) 0); [eauto|].
  destruct (lookup_lt_is_Some_2 (merge_sort Z.le times) (90 * length times / 100)%nat) as [p ->]; [|eauto].
  rewrite (Permutation_length (merge_sort_Permutation Z.le times)). apply Nat.div_lt_upper_bound; lia.
Qed.

(** ** Counting on the wait group *)

Section e2e_facts.
Context {M : Type -> Type} `{SML : SharedMapLaws M}.
Variable IsPodReady : Pod -> bool.
Implicit Types m : e2e_monitor M.

(** The number of pods seen by all expectations. *)
Definition seen_total m : nat :=
  map_fold (fun _ (seen : gmap string Z) n => size seen + n)%nat 0%nat (sm_inner (em_expectations m)).

Lemma seen_total_set m key seen wg :
  forall old, sm_inner (em_expectations m) !! key = Some old ->
  (seen_total (mkE2e (em_selector m) (sm_set (em_expectations m) key seen) wg) + size old =
   seen_total m + size seen)%nat.
Proof.
  intros old Ho. unfold seen_total. simpl. rewrite sm_inner_set.
  rewrite (map_fold_delete_L _ _ key seen (<[key := seen]> _)); [|intros; lia|apply lookup_insert_eq].
  rewrite (map_fold_delete_L _ _ key old (sm_inner (em_expectations m))); [|intros; lia|done].
  rewrite delete_insert_eq. lia.
Qed.

Lemma e2e_times_length m : length (e2e_times m) = seen_total m.
Proof.
  unfold e2e_times, seen_total. rewrite map_fold_foldr. generalize (map_to_list (sm_inner (em_expectations m))).
  intros l. induction l as [|[key seen] l IH]; [done|]. simpl.
  by rewrite length_app, IH, length_map, length_map_to_list.
Qed.

(** Every recorded instant is that of a delivered event with the ready pod. *)
Definition e2e_recorded (delivered : option Pod * Z -> Prop) m : Prop :=
  forall key seen name t, sm_inner (em_expectations m) !! key = Some seen -> seen !! name = Some t ->
  exists pod, delivered (Some pod, t) /\ IsPodReady pod = true /\ KeyFromObject (pod_meta pod) = key /\
    pod_key pod = name.

Lemma e2e_event_recorded delivered m new now m' :
  delivered (new, now) -> e2e_HandlePodEvent IsPodReady m new now = Ret m' ->
  e2e_recorded delivered m -> e2e_recorded delivered m'.
Proof.
  intros D E R. unfold e2e_HandlePodEvent in E. destruct new as [pod|]; [|by injection E as <-].
  destruct (IsPodReady pod) eqn:Rd; [|by injection E as <-]. rewrite sm_get_inner in E.
  destruct (sm_inner (em_expectations m) !! _) as [seen|] eqn:L; [|by injection E as <-].
  unfold e2e_Done in E. intros key seen' name t. destruct (seen !! pod_key pod) as [u|] eqn:S.
  - injection E as <-. simpl. rewrite sm_inner_set. intros [[<- <-]|[_ Hk]]%lookup_insert_Some; by apply R.
  - destruct (wg_done (em_wg m)); [|done..]. injection E as <-. simpl. rewrite sm_inner_set.
    intros [[<- <-]|[_ Hk]]%lookup_insert_Some; [|by apply R].
    intros [[<- <-]|[_ Hn]]%lookup_insert_Some; [by exists pod|by eapply R].
Qed.

(** A pod event counts when it is the first report of a ready, watched pod. *)
Definition e2e_counts m (new : option Pod) : bool :=
  match new with
  | Some pod => IsPodReady pod &&
      match sm_inner (em_expectations m) !! KeyFromObject (pod_meta pod) with
      | Some seen => bool_decide (seen !! pod_key pod = None)
      | None => false
      end
  | None => false
  end.

Lemma e2e_event_spec m new now :
  match e2e_HandlePodEvent IsPodReady m new now with
  | Ret m' => em_wg m' + Z.of_nat (seen_total m') = em_wg m + Z.of_nat (seen_total m) /\
      seen_total m' = (seen_total m + if e2e_counts m new then 1 else 0)%nat
  | Panic _ => e2e_counts m new = true /\ em_wg m <= 0
  | Fatal _ => False
  end.
Proof.
  unfold e2e_HandlePodEvent, e2e_counts. destruct new as [pod|]; [|lia].
  destruct (IsPodReady pod); simpl; [|lia]. rewrite sm_get_inner.
  destruct (sm_inner (em_expectations m) !! _) as [seen|] eqn:L; [|lia].
  unfold e2e_Done. destruct (seen !! pod_key pod) as [t|] eqn:S.
  - rewrite (bool_decide_eq_false_2 (Some t = None)) by done.
    cbn [mbind outcome_bind]. pose proof (seen_total_set m _ seen (em_wg m) seen L). simpl in *. lia.
  - rewrite bool_decide_eq_true_2 by done. unfold wg_done.
    destruct (Z.ltb_spec (em_wg m - 1) 0); simpl; [split; [done|lia]|].
    pose proof (seen_total_set m _ (<[pod_key pod := now]> seen) (em_wg m - 1) seen L) as Hs.
    rewrite (map_size_insert_None _ _ _ S) in Hs. lia.
Qed.

Lemma e2e_run_spec total events : forall m,
  0 <= em_wg m -> em_wg m + Z.of_nat (seen_total m) = total ->
  match e2e_run IsPodReady m events with
  | Ret m' => em_wg m' = total - Z.of_nat (seen_total m') /\ 0 <= em_wg m'
  | Panic _ => exists before new now rest m', events = before ++ (new, now) :: rest /\
      e2e_run IsPodReady m before = Ret m' /\ Z.of_nat (seen_total m') = total /\
      e2e_counts m' new = true
  | Fatal _ => False
  end.
Proof.
  induction events as [|[new now] events IH]; intros m1 H1 Hsum; cbn [e2e_run]; [lia|].
  pose proof (e2e_event_spec m1 new now) as Hev.
  assert (forall m2, e2e_HandlePodEvent IsPodReady m1 new now = Ret m2 -> 0 <= em_wg m2) as Hpos.
  { clear - H1. intros m2. unfold e2e_HandlePodEvent, e2e_Done, wg_done.
    repeat break_goal; intros E; simpl in *; simplify_eq/=; try lia;
      repeat break_hyp; simplify_eq/=; lia. }
  destruct (e2e_HandlePodEvent IsPodReady m1 new now) as [m2|msg|msg] eqn:E; simpl; [| |done].
  - destruct Hev as [Hs _]. specialize (IH m2 (Hpos m2 eq_refl) ltac:(lia)).
    destruct (e2e_run IsPodReady m2 events) as [m'|msg|msg]; [done| |done].
    destruct IH as (before & new' & now' & rest & m' & -> & R & T & C).
    exists ((new, now) :: before), new', now', rest, m'. split_and!; try done. simpl. by rewrite E.
  - exists [], new, now, events, m1. destruct Hev as [Hc Hle]. split_and!; try done. lia.
Qed.

Lemma e2e_watch_fresh (targets : list ObjectMeta) : forall m,
  map_Forall (fun _ (seen : gmap string Z) => seen = ∅) (sm_inner (em_expectations m)) ->
  let m' := foldl (fun m t => e2e_Watch m (KeyFromObject t)) m targets in
  map_Forall (fun _ (seen : gmap string Z) => seen = ∅) (sm_inner (em_expectations m')) /\
  em_wg m' = em_wg m.
Proof.
  induction targets as [|t targets IH]; intros m Hm; simpl; [done|].
  destruct (IH (e2e_Watch m (KeyFromObject t))) as [I1 I2]; [|by split].
  simpl. rewrite sm_inner_set. by apply map_Forall_insert_2.
Qed.

Lemma seen_total_fresh m :
  map_Forall (fun _ (seen : gmap string Z) => seen = ∅) (sm_inner (em_expectations m)) ->
  seen_total m = 0%nat.
Proof.
  unfold seen_total. generalize (sm_inner (em_expectations m)) as mp. clear m.
  intros mp. induction mp as [|k seen mp Hk IH] using map_ind; intros Hm; [by rewrite map_fold_empty|].
  rewrite map_fold_insert_L; [|intros; lia|done].
  rewrite (map_Forall_insert_1_1 _ _ _ _ Hm), map_size_empty, IH; [done|].
  by eapply map_Forall_insert_1_2.
Qed.

(** The end-to-end experiment waits for as many distinct pods as it scales
    to.  After the expectations are installed and whatever pod events follow,
    the wait group is the pods per target times the targets, less the distinct
    ready pods of watched targets seen; so the experiment ends exactly when
    that many have been seen.  It fails (with a negative counter) only on the
    report of one more pod after that. *)
Theorem e2e_waits_for_distinct_pods selector targets nPods m events :
  e2e_watch_all selector targets nPods = Ret m ->
  let total := mul64 (nPodsPerTarget nPods (Z.of_nat (length targets))) (Z.of_nat (length targets)) in
  match e2e_run IsPodReady m events with
  | Ret m' => em_wg m' = total - Z.of_nat (seen_total m') /\ 0 <= em_wg m'
  | Panic _ => exists before new now rest m', events = before ++ (new, now) :: rest /\
      e2e_run IsPodReady m before = Ret m' /\ Z.of_nat (seen_total m') = total /\
      e2e_counts m' new = true
  | Fatal _ => False
  end.
Proof.
  unfold e2e_watch_all. destruct (Z.ltb_spec (mul64 (nPodsPerTarget nPods (Z.of_nat (length targets)))
    (Z.of_nat (length targets))) 0) as [|Hge]; intros [= <-]. cbv zeta.
  destruct (e2e_watch_fresh targets (mkE2e selector sm_new (mul64 (nPodsPerTarget nPods
    (Z.of_nat (length targets))) (Z.of_nat (length targets))))) as [F W].
  { simpl. rewrite sm_inner_new. apply map_Forall_empty. }
  apply e2e_run_spec; rewrite W; [done|]. rewrite (seen_total_fresh _ F). simpl. lia.
Qed.

End e2e_facts.

(** ** The kubelet experiment counts each bound pod once *)

Section km_facts.
Variable IsPodReady : Pod -> bool.

(** An event reports the pod with key [k]: it became ready, or was deleted. *)
Definition km_reports (k : string) (ev : option Pod * option Pod * Z) : bool :=
  match ev.1.2, ev.1.1 with
  | Some new, _ => IsPodReady new && bool_decide (pod_key new = k)
  | None, Some old => bool_decide (pod_key old = k)
  | None, None => false
  end.

(** Events as the informer delivers them, at real times. *)
Definition km_event_ok (ev : option Pod * option Pod * Z) : Prop :=
  (ev.1.1 <> None \/ ev.1.2 <> None) /\ ev.2 <> zero_time.

(** The desired pods without a time. *)
Definition km_unseen (m : gmap string Z) : gmap string Z := filter (fun kv => kv.2 = zero_time) m.

Lemma km_done_spec e wg pod now :
  km_wg e = Some wg -> wg = Z.of_nat (size (km_unseen (km_desired e))) -> now <> zero_time ->
  exists b e', km_Done e pod now = Ret (b, e') /\
  km_wg e' = Some (Z.of_nat (size (km_unseen (km_desired e')))) /\
  dom (km_desired e') = dom (km_desired e) /\
  km_unseen (km_desired e') = delete (pod_key pod) (km_unseen (km_desired e)).
Proof.
  intros Hw Hn Hnow. unfold km_Done. rewrite Hw.
  destruct (km_desired e !! pod_key pod) as [t|] eqn:L.
  - unfold time_is_zero. destruct (Z.eqb_spec t 0) as [Hz|Hz].
    + assert (km_unseen (km_desired e) !! pod_key pod = Some t) as Lu
        by (apply map_lookup_filter_Some_2; done).
      assert (km_unseen (<[pod_key pod := now]> (km_desired e)) =
              delete (pod_key pod) (km_unseen (km_desired e))) as Eu.
      { unfold km_unseen. by rewrite map_filter_insert_False, map_filter_delete. }
      assert (is_Some (km_unseen (km_desired e) !! pod_key pod)) as Hu by eauto.
      pose proof (map_size_delete_Some _ _ Hu) as Hs.
      assert (size (km_unseen (km_desired e)) <> 0)%nat
        by (intros Hz0%map_size_empty_inv; by rewrite Hz0, lookup_empty in Lu).
      unfold wg_done. destruct (Z.ltb_spec (wg - 1) 0); [lia|]. cbn [mbind outcome_bind].
      do 2 eexists. split; [done|]. cbn [km_wg km_desired]. rewrite Eu.
      split_and!; [f_equal; lia| |done]. rewrite dom_insert_L.
      apply elem_of_dom_2 in L. set_solver.
    + do 2 eexists. split; [done|]. split_and!; [by rewrite Hw, Hn|done|].
      rewrite delete_id; [done|]. apply map_lookup_filter_None_2. right. intros ? [= <-]%(eq_trans (eq_sym L)). done.
  - do 2 eexists. split; [done|]. split_and!; [by rewrite Hw, Hn|done|].
    rewrite delete_id; [done|]. apply map_lookup_filter_None_2. by left.
Qed.

Lemma km_event_spec e old new now :
  km_wg e = Some (Z.of_nat (size (km_unseen (km_desired e)))) -> km_event_ok (old, new, now) ->
  exists e', km_HandlePodEvent IsPodReady e old new now = Ret e' /\
  km_wg e' = Some (Z.of_nat (size (km_unseen (km_desired e')))) /\
  dom (km_desired e') = dom (km_desired e) /\
  km_unseen (km_desired e') =
    filter (fun kv => km_reports kv.1 (old, new, now) = false) (km_unseen (km_desired e)).
Proof.
  intros Hw [Hev Hnow]. simpl in Hev, Hnow. unfold km_HandlePodEvent.
  assert (forall pod (m : gmap string Z), delete (pod_key pod) m =
    filter (fun kv => bool_decide (pod_key pod = kv.1) = false) m) as Hd.
  { intros pod m. apply map_eq. intros k. rewrite map_lookup_filter, lookup_delete.
    case_decide as Hk; destruct (m !! k); simpl; try done.
    - by rewrite option_guard_False by (rewrite bool_decide_eq_true_2 by done; done).
    - by rewrite option_guard_True by (by rewrite bool_decide_eq_false_2). }
  assert (forall pod, exists e', ('(_, e) ← km_Done e pod now; Ret e) = Ret e' /\
    km_wg e' = Some (Z.of_nat (size (km_unseen (km_desired e')))) /\
    dom (km_desired e') = dom (km_desired e) /\
    km_unseen (km_desired e') =
      filter (fun kv => bool_decide (pod_key pod = kv.1) = false) (km_unseen (km_desired e))) as Hp.
  { intros pod. destruct (km_done_spec e _ pod now Hw eq_refl Hnow) as (b & e' & -> & I1 & I2 & I3).
    exists e'. rewrite <- Hd. by split_and!. }
  destruct new as [new|]; [|destruct old as [old|]; [|naive_solver]; exact (Hp old)].
  unfold km_reports; simpl. destruct (IsPodReady new); [exact (Hp new)|].
  exists e. split_and!; [done|done|done|]. symmetry. apply map_filter_id. done.
Qed.

Lemma km_run_spec events : forall e,
  km_wg e = Some (Z.of_nat (size (km_unseen (km_desired e)))) -> Forall km_event_ok events ->
  exists e', km_run IsPodReady e events = Ret e' /\
  km_wg e' = Some (Z.of_nat (size (km_unseen (km_desired e')))) /\
  dom (km_desired e') = dom (km_desired e) /\
  km_unseen (km_desired e') =
    filter (fun kv => existsb (km_reports kv.1) events = false) (km_unseen (km_desired e)).
Proof.
  induction events as [|[[old new] now] events IH]; intros e Hw Hok; cbn [km_run].
  - exists e. split_and!; try done. symmetry. by apply map_filter_id.
  - inversion Hok as [|? ? Ho1 Ho2]; subst.
    destruct (km_event_spec e old new now Hw Ho1) as (e1 & -> & I1 & I2 & I3).
    destruct (IH e1 I1 Ho2) as (e2 & R & J1 & J2 & J3). exists e2.
    split_and!; [exact R|done|congruence|]. rewrite J3, I3, map_filter_filter.
    apply map_filter_ext. intros k t _. simpl. pose proof (orb_false_iff (km_reports k (old, new, now)) (existsb (km_reports k) events)). tauto.
Qed.

(** The names made for one run differ. *)
Lemma newPodInfos_nodup ns owner ts n podInfos :
  newPodInfos ns owner ts n = Ret podInfos ->
  NoDup (map info_key podInfos) /\ length podInfos = Z.to_nat n.
Proof.
  unfold newPodInfos. case_match; intros [= <-]. rewrite length_map, length_seq. split; [|done].
  rewrite map_map. change (map ?f ?l) with (f <$> l). apply NoDup_fmap_2_strong; [|apply NoDup_seq].
  intros i j _ _ Hij. unfold info_key in Hij. simpl in Hij.
  do 6 (apply (inj (String.append _)) in Hij). by apply (inj pretty) in Hij.
Qed.

Lemma km_watch_desired podInfos : forall (m : gmap string Z) k,
  foldl (fun m info => <[info_key info := zero_time]> m) m podInfos !! k =
  if bool_decide (k ∈ map info_key podInfos) then Some zero_time else m !! k.
Proof.
  induction podInfos as [|info podInfos IH]; intros m k; cbn [foldl map]; [done|]. rewrite IH.
  rewrite (bool_decide_ext (k ∈ _ :: _) (k = info_key info \/ k ∈ map info_key podInfos))
    by apply elem_of_cons.
  destruct (decide (k ∈ map info_key podInfos)) as [Hi|Hi].
  - rewrite !bool_decide_eq_true_2 by tauto. done.
  - rewrite (bool_decide_eq_false_2 _ Hi). destruct (decide (k = info_key info)) as [->|Hk].
    + rewrite bool_decide_eq_true_2 by tauto. apply lookup_insert_eq.
    + rewrite bool_decide_eq_false_2 by tauto. by apply lookup_insert_ne.
Qed.

(** The size of a map whose keys are the members of a list. *)
Lemma size_keys (m : gmap string Z) (keys : list string) :
  NoDup keys -> (forall k, k ∈ dom m <-> k ∈ keys) -> size m = length keys.
Proof.
  intros Hn Hk. rewrite <- size_dom. assert (dom m = list_to_set keys) as -> by set_solver.
  by apply size_list_to_set.
Qed.

(** The expectation of a run that has just started. *)
Lemma km_started ns owner ts n infos :
  newPodInfos ns owner ts n = Ret infos ->
  let m := km_desired (km_Watch (Z.of_nat (length infos)) infos km_new) in
  (forall k, k ∈ dom m <-> k ∈ map info_key infos) /\ km_unseen m = m /\
  size m = length infos.
Proof.
  intros E. destruct (newPodInfos_nodup _ _ _ _ _ E) as [Nd _]. cbv zeta.
  set (m := km_desired _).
  assert (forall k, m !! k = if bool_decide (k ∈ map info_key infos) then Some zero_time else None) as L0.
  { intros k. subst m. simpl. by rewrite km_watch_desired, lookup_empty. }
  assert (forall k, k ∈ dom m <-> k ∈ map info_key infos) as D0.
  { intros k. rewrite elem_of_dom, L0. case_bool_decide; split; intros HH; try done; destruct HH; done. }
  split_and!; [done| |].
  - apply map_filter_id. intros k t Hk. rewrite L0 in Hk. simpl. case_bool_decide; congruence.
  - rewrite (size_keys m _ Nd D0). apply length_map.
Qed.

(** The kubelet experiment ends when every bound pod has been reported.  For
    any sequence of delivered pod events (reports, repetitions, deletions,
    foreign pods) the monitor does not fail, and its wait group is the number of
    bound pods that no event has reported ready or deleted; the pods it measures
    stay the bound ones. *)
Theorem km_waits_for_bound_pods ns owner ts n podInfos e events :
  km_start ns owner ts n = Ret (podInfos, e) -> Forall km_event_ok events ->
  exists e', km_run IsPodReady e events = Ret e' /\
  km_wg e' = Some (Z.of_nat (length
    (filter (fun k => existsb (km_reports k) events = false) (map info_key podInfos)))) /\
  dom (km_desired e') = list_to_set (map info_key podInfos) /\ length podInfos = Z.to_nat n.
Proof.
  unfold km_start. destruct (newPodInfos ns owner ts n) as [infos| |] eqn:E; intros [= <- <-] Hok.
  destruct (newPodInfos_nodup _ _ _ _ _ E) as [Nd Hl]. destruct (km_started _ _ _ _ _ E) as (D0 & U0 & Sz).
  set (m0 := km_desired (km_Watch (Z.of_nat (length infos)) infos km_new)) in *.
  destruct (km_run_spec events (km_Watch (Z.of_nat (length infos)) infos km_new)) as (e' & R & I1 & I2 & I3);
    [by fold m0; rewrite U0, Sz|done|].
  fold m0 in I2, I3. exists e'. split_and!; [done| |rewrite I2; set_solver|done].
  rewrite I1. do 2 f_equal. apply size_keys; [by apply NoDup_filter|].
  intros k. rewrite I3, U0, list_elem_of_filter, <- D0, !elem_of_dom.
  split.
  - intros [t (Hk & Hr)%map_lookup_filter_Some]. simpl in Hr. split; [exact Hr|by exists t].
  - intros [Hr [t Ht]]. exists t. by apply map_lookup_filter_Some_2.
Qed.

End km_facts.

(** ** Division of the pods and checks of the targets *)

Lemma succeeded_bounds {A} (call : A -> result unit) targets :
  0 <= succeeded call targets <= Z.of_nat (length targets).
Proof. unfold succeeded. pose proof (count_le_length (fun t => is_ok (call t)) targets). lia. Qed.

Lemma nPodsPerTarget_spec nPods k :
  0 <= nPods -> in_int64 nPods -> 0 < k ->
  let n := nPodsPerTarget nPods k in
  1 <= n /\ ((nPods < k /\ n = 1) \/ (n * k <= nPods < n * k + k)).
Proof.
  intros Hn Hr Hk. unfold nPodsPerTarget, quo64. rewrite Z.quot_div_nonneg by lia.
  pose proof (Z.div_pos nPods k Hn Hk). pose proof (Z.mul_div_le nPods k Hk).
  pose proof (Z.mul_succ_div_gt nPods k Hk). pose proof (Z.div_le_upper_bound nPods k nPods Hk ltac:(nia)).
  rewrite int64_of_id by (unfold in_int64, min_int64, max_int64 in *; lia).
  destruct (Z.eqb_spec (nPods / k) 0) as [E|E]; [rewrite E in *|]; lia.
Qed.

Lemma check_all_ok {A} (check : A -> outcome unit) targets :
  Forall (fun t => check t = Ret tt) targets -> check_all check targets = Ret tt.
Proof. induction 1 as [|t targets Ht _ IH]; simpl; [done|]. by rewrite Ht. Qed.

Lemma check_all_fails {A} (check : A -> outcome unit) targets t :
  (forall t, check t = Ret tt \/ exists msg, check t = Fatal msg) -> t ∈ targets -> check t <> Ret tt ->
  exists msg, check_all check targets = Fatal msg.
Proof.
  intros Hc Ht Hn. induction Ht as [t targets|t t' targets Ht IH]; simpl.
  - destruct (Hc t) as [|[msg ->]]; [done|]. by exists msg.
  - destruct (Hc t') as [->|[msg ->]]; simpl; [by apply IH|by exists msg].
Qed.

(** A successful poll in which every replica set has an owner. *)
Definition all_owned (p : result (list (ObjectMeta * bool))) : Prop :=
  exists rsList, p = Ok rsList /\ Forall (fun rs => rs.2 = true) rsList.

Lemma owned_attempt k rsList :
  Forall (fun rs : ObjectMeta * bool => rs.2 = true) rsList ->
  waitForReplicaSets k (Ok rsList) = Ret (length rsList =? k)%nat.
Proof.
  intros Ho. unfold waitForReplicaSets. rewrite check_all_ok; [done|].
  eapply Forall_impl; [exact Ho|]. intros rs Hr. simpl. by rewrite Hr.
Qed.

(** A breakdown run divides the pods over its targets.  When the selected
    deployments match the mode and a poll eventually sees one owned replica set
    per deployment, the run finishes and asks every target for the same
    positive number of pods: together at most the requested total and less than
    one per target short of it, or one each when fewer pods than targets are
    requested; at most one success per target is counted. *)
Theorem deployment_run_divides IsManaged targets polls before final rest nPods fallback scale watch :
  targets <> [] -> 0 <= nPods < 2 ^ 31 ->
  Forall (fun dp => fallback = negb (IsManaged dp)) targets ->
  Forall all_owned polls -> polls = before ++ Ok final :: rest -> length final = length targets ->
  exists r, run_deployment IsManaged (Ok targets) polls nPods fallback scale watch = Ret r /\
  let k := Z.of_nat (length targets) in
  1 <= rp_per_target r /\ int32_of (rp_per_target r) = rp_per_target r /\
  ((nPods < k /\ rp_per_target r = 1) \/
   rp_per_target r * k <= nPods < rp_per_target r * k + k) /\
  rp_scaled r = succeeded (fun t => scale t (rp_per_target r)) targets /\
  0 <= rp_scaled r <= k /\ 0 <= rp_finished r <= k.
Proof.
  intros Hne Hr Hm Hp -> Hl. unfold run_deployment, list_targets.
  assert (poll "ReplicaSets" (map (waitForReplicaSets (length targets)) (before ++ Ok final :: rest))
    = Ret tt) as Hpoll.
  { induction before as [|o before IH]; cbn [app map poll];
      inversion Hp as [|? ? (o' & Eo & Ho) Hp']; subst.
    - injection Eo as <-. rewrite owned_attempt, Hl, Nat.eqb_refl by done. done.
    - rewrite owned_attempt by done. cbn [mbind outcome_bind].
      destruct (length o' =? length targets)%nat; [done|by apply IH]. }
  destruct targets as [|t0 targets0] eqn:Et; [done|]. rewrite <- Et in *. clear Hne.
  cbn [mbind outcome_bind]. rewrite check_all_ok, Hpoll.
  2: { eapply Forall_impl; [exact Hm|]. intros dp Hd. simpl. by rewrite bool_decide_eq_true_2. }
  cbn [mbind outcome_bind]. eexists. split; [done|]. cbv zeta. cbn [rp_per_target rp_scaled rp_finished].
  assert (0 < Z.of_nat (length targets)) as Hk by (rewrite Et; simpl; lia).
  destruct (nPodsPerTarget_spec nPods (Z.of_nat (length targets))) as [B1 B2];
    [lia|unfold in_int64, min_int64, max_int64; lia|lia|].
  assert (int32_of (nPodsPerTarget nPods (Z.of_nat (length targets))) =
          nPodsPerTarget nPods (Z.of_nat (length targets))) as E32.
  { apply int32_of_id. unfold in_int32. nia. }
  rewrite E32. split_and!; try done; apply succeeded_bounds.
Qed.

(** The replica-set breakdown rejects every unmanaged replica set, in both
    modes: there is no baseline without the managed label. *)
Theorem replicaset_run_needs_managed IsManaged IsFallbackScaling targets rs nPods fallback scale :
  rs ∈ targets -> IsManaged rs.1 = false ->
  exists msg, run_replicaset IsManaged IsFallbackScaling (Ok targets) nPods fallback scale = Fatal msg.
Proof.
  intros Hin Hm. unfold run_replicaset, list_targets. destruct targets as [|t0 targets0] eqn:Et; [set_solver|].
  rewrite <- Et in *. cbn [mbind outcome_bind]. clear Et.
  match goal with |- context [check_all ?c targets ≫= _] =>
    match c with context [IsFallbackScaling] =>
      destruct (check_all_fails c targets rs) as [msg ->] end end.
  - intros t. cbv beta. destruct (IsManaged t.1); cbn [negb]; [case_bool_decide|]; eauto.
  - done.
  - simpl. by rewrite Hm.
  - by exists msg.
Qed.

(** ** Witnesses *)

Lemma since_is_percentile_witness :
  exists p, since_times [30; 10; 20] 5 = Ret (time_sub p 5) /\ p ∈ [30; 10; 20] /\
  (90 * 3 <= 100 * count (fun t => (t <=? p)%Z) [30; 10; 20]%Z)%nat.
Proof.
  destruct (since_is_percentile [30; 10; 20] 5) as (p & H1 & H2 & H3 & _); [discriminate|].
  exists p. split_and!; done.
Defined.

Definition demo_target (app : string) : ObjectMeta :=
  mkMeta "ns" app "" "" {["app" := app]} ∅ None.

Definition demo_ready_pod (app name : string) : Pod :=
  mkPod (mkMeta "ns" name "" "" {["app" := app]} ∅ None) "n0" [] [] []
    (mkPodStatus "Running" [] "" "" None [] []).

Definition demo_is_ready (p : Pod) : bool := bool_decide (Phase (Status p) = "Running"%string).

Definition demo_monitor : e2e_monitor (gmap string) :=
  match e2e_watch_all "trace" [demo_target "f"; demo_target "g"] 2 with Ret m => m | _ => mkE2e "" ∅ 0 end.

(** Both pods of two targets, one of them reported twice. *)
Definition demo_pod_events : list (option Pod * Z) :=
  [(Some (demo_ready_pod "f" "f-0"), 7); (Some (demo_ready_pod "f" "f-0"), 8); (Some (demo_ready_pod "g" "g-0"), 9)].

Lemma e2e_waits_for_distinct_pods_witness :
  (exists m', e2e_run demo_is_ready demo_monitor demo_pod_events = Ret m' /\ em_wg m' = 0) /\
  match e2e_run demo_is_ready demo_monitor demo_pod_events with
  | Ret m' => em_wg m' = 2 - Z.of_nat (seen_total m') /\ 0 <= em_wg m'
  | _ => True
  end.
Proof.
  assert (e2e_watch_all "trace" [demo_target "f"; demo_target "g"] 2 = Ret demo_monitor) as E
    by (vm_compute; reflexivity).
  split; [eexists; split; [vm_compute; reflexivity|reflexivity]|].
  pose proof (e2e_waits_for_distinct_pods demo_is_ready _ _ _ demo_monitor demo_pod_events E) as H.
  destruct (e2e_run demo_is_ready demo_monitor demo_pod_events); [exact H|exact I|exact I].
Defined.

(** One ready pod too many ends the end-to-end experiment with a panic: a
    pod replaced (or left over) after its target's pods were counted is seen
    under a new name and counted again, below zero. *)
Theorem e2e_extra_pod_panics :
  e2e_run demo_is_ready demo_monitor
    (demo_pod_events ++ [(Some (demo_ready_pod "g" "g-1"), 10)]) =
  Panic "sync: negative WaitGroup counter".
Proof. vm_compute. reflexivity. Qed.

Definition demo_infos : list (string * string) := [("ns", "t-5-0"); ("ns", "t-5-1")]%string.

Lemma km_waits_for_bound_pods_witness :
  exists e', km_run demo_is_ready (km_Watch 2 demo_infos km_new)
    [(None, Some (demo_ready_pod "t" "t-5-0"), 3); (None, Some (demo_ready_pod "t" "other"), 4);
     (Some (demo_ready_pod "t" "t-5-0"), None, 5)] = Ret e' /\ km_wg e' = Some 1.
Proof.
  assert (km_start "ns" "t" 5 2 = Ret (demo_infos, km_Watch 2 demo_infos km_new)) as E
    by (vm_compute; reflexivity).
  destruct (km_waits_for_bound_pods demo_is_ready _ _ _ _ _ _
    [(None, Some (demo_ready_pod "t" "t-5-0"), 3); (None, Some (demo_ready_pod "t" "other"), 4);
     (Some (demo_ready_pod "t" "t-5-0"), None, 5)] E) as (e' & R & W & _).
  - repeat constructor; simpl; try discriminate; first [by left | by right].
  - exists e'. split; [exact R|]. rewrite W. vm_compute. reflexivity.
Defined.

Definition demo_polls : list (result (list (ObjectMeta * bool))) :=
  [Ok [(demo_target "f", true)]; Ok [(demo_target "f", true); (demo_target "g", true)]].

Lemma deployment_run_divides_witness :
  exists r, run_deployment (fun _ => true) (Ok [demo_target "f"; demo_target "g"])
    demo_polls 5 false (fun _ _ => Ok tt) (fun _ _ => Ok tt) = Ret r /\
  rp_per_target r * 2 <= 5.
Proof.
  destruct (deployment_run_divides (fun _ => true) [demo_target "f"; demo_target "g"]
    demo_polls [Ok [(demo_target "f", true)]] [(demo_target "f", true); (demo_target "g", true)] []
    5 false (fun _ _ => Ok tt) (fun _ _ => Ok tt))
    as (r & R & _ & _ & B & _); [discriminate|lia|by repeat constructor| |reflexivity|reflexivity|].
  - repeat constructor; eexists; (split; [reflexivity|repeat constructor]).
  - exists r. split; [exact R|]. simpl in B. lia.
Defined.

Lemma replicaset_run_needs_managed_witness :
  exists msg, run_replicaset (fun _ => false) (fun _ => false) (Ok [(demo_target "f", Some 0)]) 3 true
    (fun _ _ => Ok tt) = Fatal msg.
Proof.
  apply (replicaset_run_needs_managed _ _ _ (demo_target "f", Some 0)); [apply list_elem_of_here|reflexivity].
Defined.
