(* ===== verification/Breakdown.v ===== *)
(** * Running the microbenchmarks ([experiments/microbench])

    The packages [deployment] (whose code [autoscaler] repeats), [replicaset],
    [endpoints], [scheduler] and [kubelet] of [breakdown], and [e2e]: their Kubedirect services, requests
    and main functions, and the concurrent part of their runs: a goroutine per
    target, the wait groups and the lines printed.  What the runs check and
    count is in [Experiments.v]; here it is shown that every interleaving of
    the goroutines prints just that. *)

From S2P Require Import Prelude GoTypes Interfaces Kube Workload Experiments.

Local Open Scope Z_scope.

(** ** The Kubedirect client *)

(** What [ID] and [Epoch] of a connected client return. *)
Record kd_client : Type := mkKdClient {
  kc_ID : string;
  kc_Epoch : string
}.

(** The poll of [Unwrap]: the attempts before the context is cancelled.  The
    error of a cancelled poll is dropped, and the client stays nil. *)
Fixpoint kd_connect (unwraps : list (option kd_client)) : option kd_client :=
  match unwraps with
  | [] => None
  | Some c :: _ => Some c
  | None :: unwraps => kd_connect unwraps
  end.

(** [metav1.NamespaceSystem] and [metav1.NamespaceDefault]. *)
Definition NamespaceSystem : string := "kube-system".

Definition NamespaceDefault : string := "default".

(** ** Package [deployment] *)

Module Deployments.

Definition dpService : string := "dp".

Definition doDeploymentHandshake (src dest epoch : string) (reply : result string) : outcome (result string) :=
  doHandshake dpService src dest epoch reply.

(** [listPods] is the API's list call, by namespace and labels. *)
Definition newDeploymentServiceLister (IsPodReady : Pod -> bool) (DeploymentServicePort : string)
    (listPods : string -> gmap string string -> result (list Pod)) : result (list string) :=
  service_lister IsPodReady DeploymentServicePort
    (listPods NamespaceSystem {["component" := "kube-controller-manager"%string]}).

Record DeploymentWatchRequest : Type := mkDpWatch {
  dw_Source : string;
  dw_Epoch : string;
  dw_Target : NamespacedName;
  dw_Replicas : Z
}.

Definition newDeploymentWatchRequest (client : kd_client) (dp : ObjectMeta) (replicas : Z) :
    DeploymentWatchRequest :=
  mkDpWatch (kc_ID client) (kc_Epoch client) (mkNamespacedName (Namespace dp) (Name dp)) (int32_of replicas).

(** A watcher; [Watch] is the RPC. *)
Definition watch_target (Watch : DeploymentWatchRequest -> result unit) (client : option kd_client)
    (replicas : Z) (dp : ObjectMeta) : outcome (result unit) :=
  match client with
  | None => nil_deref
  | Some c => Ret (Watch (newDeploymentWatchRequest c dp replicas))
  end.

(** [main]; the listed targets are those that the selector gives. *)
Definition deployment_main (IsManaged : ObjectMeta -> bool) (baseline selector : string)
    (listed : string -> result (list ObjectMeta)) (polls : list (result (list (ObjectMeta * bool)))) (nPods : Z)
    (scale watch : ObjectMeta -> Z -> result unit) : outcome report :=
  fallback ← baseline_fallback baseline selector;
  run_deployment IsManaged (listed selector) polls nPods fallback scale watch.

End Deployments.

(** ** Package [replicaset] *)

Module ReplicaSets.

Definition rsService : string := "rs".

Definition doReplicaSetHandshake (src dest epoch : string) (reply : result string) : outcome (result string) :=
  doHandshake rsService src dest epoch reply.

Definition newReplicaSetServiceLister (IsPodReady : Pod -> bool) (ReplicaSetServicePort : string)
    (listPods : string -> gmap string string -> result (list Pod)) : result (list string) :=
  service_lister IsPodReady ReplicaSetServicePort
    (listPods NamespaceSystem {["component" := "kube-controller-manager"%string]}).

(** A scaler; [Scale] is the blocking RPC for a replica set with its new
    number of replicas. *)
Definition scale_target (Scale : kd_client -> ObjectMeta -> Z -> result unit) (client : option kd_client)
    (replicas : Z) (rs : ObjectMeta) : outcome (result unit) :=
  match client with
  | None => nil_deref
  | Some c => Ret (Scale c rs (int32_of replicas))
  end.

Definition replicaset_main (IsManaged IsFallbackScaling : ObjectMeta -> bool) (baseline selector : string)
    (listed : string -> result (list (ObjectMeta * option Z))) (nPods : Z)
    (scale : ObjectMeta -> Z -> result unit) : outcome report :=
  fallback ← baseline_fallback baseline selector;
  run_replicaset IsManaged IsFallbackScaling (listed selector) nPods fallback scale.

End ReplicaSets.

(** ** Package [endpoints] *)

Module Endpoints.

Definition epService : string := "ep".

Definition doEndpointsHandshake (src dest epoch : string) (reply : result string) : outcome (result string) :=
  doHandshake epService src dest epoch reply.

Definition newEndpointsServiceLister (IsPodReady : Pod -> bool) (EndpointsServicePort : string)
    (listPods : string -> gmap string string -> result (list Pod)) : result (list string) :=
  service_lister IsPodReady EndpointsServicePort
    (listPods NamespaceSystem {["component" := "kube-controller-manager"%string]}).

Record EndpointsWatchRequest : Type := mkEpWatch {
  ew_Source : string;
  ew_Epoch : string;
  ew_Service : NamespacedName
}.

Definition newEndpointsWatchRequest (client : kd_client) (service : ObjectMeta) : EndpointsWatchRequest :=
  mkEpWatch (kc_ID client) (kc_Epoch client) (mkNamespacedName (Namespace service) (Name service)).

Definition watch_service (Watch : EndpointsWatchRequest -> result unit) (client : option kd_client)
    (service : ObjectMeta) : outcome (result unit) :=
  match client with
  | None => nil_deref
  | Some c => Ret (Watch (newEndpointsWatchRequest c service))
  end.

(** The selector that a service gets. *)
Definition service_selector (service : ObjectMeta) (selector : string) : gmap string string :=
  <["app" := Name service]> {["workload" := selector]}.

(** An updater; [Update] is the API's update call with the selector of the
    service. *)
Definition update_service (Update : ObjectMeta -> gmap string string -> result unit) (selector : string)
    (service : ObjectMeta) : result unit :=
  Update service (service_selector service selector).

Definition endpoints_main (IsManaged : ObjectMeta -> bool) (baseline selector : string)
    (listed : string -> result (list ObjectMeta)) (get : ObjectMeta -> result (ObjectMeta * option Z))
    (ready : list (result (list Z))) (nPods : Z) (scale : ObjectMeta -> Z -> result unit)
    (Update : ObjectMeta -> gmap string string -> result unit) (watch : ObjectMeta -> result unit) :
    outcome report :=
  fallback ← baseline_fallback baseline selector;
  run_endpoints IsManaged (listed selector) get ready nPods fallback scale (update_service Update selector) watch.

End Endpoints.

(** ** Package [scheduler] *)

Module Scheduler.

Definition schedService : string := "sched".

Definition doSchedulerHandshake (src dest epoch : string) (reply : result string) : outcome (result string) :=
  doHandshake schedService src dest epoch reply.

Definition newSchedulerLister (IsPodReady : Pod -> bool) (SchedulerServicePort : string)
    (listPods : string -> gmap string string -> result (list Pod)) : result (list string) :=
  service_lister IsPodReady SchedulerServicePort (listPods NamespaceSystem {["component" := "kube-scheduler"%string]}).

(** The key of the template pod. *)
Definition template_key (target : string) : NamespacedName :=
  mkNamespacedName NamespaceDefault (target +:+ "-template").

(** [run]: [get] is the API's get call, [SchedulePods] the blocking RPC for the
    pods of a replica set.  An error of the RPC is logged and ends the run
    without a result ([false]). *)
Definition run_scheduler (IsTemplatePod IsFallbackBinding : Pod -> bool) (ownerLabel target : string)
    (nPods : Z) (fallback : bool) (get : NamespacedName -> result Pod) (client : option kd_client)
    (SchedulePods : kd_client -> NamespacedName -> Z -> result unit) : outcome bool :=
  templatePod ← check_template IsTemplatePod ownerLabel target
    (fun p => bool_decide (fallback = IsFallbackBinding p))
    "should set fallback binding label if and only if in fallback mode" (get (template_key target));
  match client with
  | None => nil_deref
  | Some c =>
      Ret (is_ok (SchedulePods c (mkNamespacedName (Namespace (pod_meta templatePod)) target) nPods))
  end.

(** [main]: the mode of the run. *)
Definition scheduler_main (baseline target : string) : outcome bool :=
  if bool_decide (target = "") then Fatal "must specify target ReplicaSet"
  else if bool_decide (baseline = "k8s") then Ret true
  else if bool_decide (baseline = "kd") then Ret false
  else Fatal ("unknown baseline " +:+ baseline).

End Scheduler.

(** [main] of the kubelet breakdown: whether the default kubelet is used. *)
Definition kubelet_main (baseline target node : string) : outcome bool :=
  if bool_decide (target = "") then Fatal "must specify target ReplicaSet"
  else if bool_decide (node = "") then Fatal "must specify target node"
  else if bool_decide (baseline = "kubelet") then Ret true
  else if bool_decide (baseline = "custom") then Ret false
  else Fatal ("unknown baseline " +:+ baseline).

(** [main] of the end-to-end experiment: whether it runs. *)
Definition e2e_main (baseline selector : string) : outcome unit :=
  if bool_decide (selector = "") then Fatal "must specify workload selector"
  else if bool_decide (baseline ∈ ["k8s"; "k8s+"; "kd"; "kd+"]%string) then Ret tt
  else Fatal ("unknown baseline " +:+ baseline).

(** ** A goroutine per target *)

Section fan.
Context {A : Type}.
Variable call : A -> outcome (result unit).

(** The goroutines still running, their wait group and the atomic counter of
    those that succeeded. *)
Record fan : Type := mkFan {
  fan_pending : list A;
  fan_wg : Z;
  fan_ok : Z
}.

Definition fan_start (targets : list A) : fan := mkFan targets (Z.of_nat (length targets)) 0.

(** The goroutine of [t] ends: it counts its success, and [Done] is deferred. *)
Definition fan_finish (f : fan) (before : list A) (t : A) (after : list A) : outcome fan :=
  r ← call t;
  let ok := if is_ok r then int32_of (fan_ok f + 1) else fan_ok f in
  wg ← wg_done (fan_wg f);
  Ret (mkFan (before ++ after) wg ok).

Inductive fan_step (f : fan) : outcome fan -> Prop :=
| fan_one before t after : fan_pending f = before ++ t :: after -> fan_step f (fan_finish f before t after).

End fan.

Arguments fan A : clear implicits.

(** ** Watch, then scale *)

Inductive ws_pc : Type := WsSleeping | WsScaling | WsWatching | WsEnded.

Global Instance ws_pc_eq_dec : EqDecision ws_pc.
Proof. solve_decision. Defined.

Inductive ws_line : Type :=
| TargetsScaled (n total : Z)
| RPCReturned (n total : Z)
| TotalTime.

Section watch_scale.
Context {A : Type}.
Variables (watch scale : A -> outcome (result unit)).

(** The end of [run] of the deployment, autoscaler and endpoints breakdown: the
    watchers are started, after a pause the scalers, then the main goroutine
    waits for the scalers and for the watchers. *)
Record ws_state : Type := mkWs {
  ws_targets : list A;
  ws_at : ws_pc;
  ws_cancelled : bool;
  ws_watchers : fan A;
  ws_scalers : fan A;
  ws_printed : list ws_line
}.

Definition ws_start (targets : list A) : ws_state :=
  mkWs targets WsSleeping false (fan_start targets) (fan_start []) [].

Definition ws_goto (s : ws_state) (pc : ws_pc) (lines : list ws_line) : ws_state :=
  mkWs (ws_targets s) pc (ws_cancelled s) (ws_watchers s) (ws_scalers s) (ws_printed s ++ lines).

(** The main goroutine; [None]: it waits. *)
Definition ws_main (s : ws_state) : option ws_state :=
  let total := Z.of_nat (length (ws_targets s)) in
  match ws_at s with
  | WsSleeping =>
      Some (mkWs (ws_targets s) WsScaling (ws_cancelled s) (ws_watchers s) (fan_start (ws_targets s))
              (ws_printed s))
  | WsScaling =>
      if fan_wg (ws_scalers s) =? 0 then
        Some (if ws_cancelled s then ws_goto s WsEnded []
              else ws_goto s WsWatching [TargetsScaled (fan_ok (ws_scalers s)) total])
      else None
  | WsWatching =>
      if fan_wg (ws_watchers s) =? 0 then
        Some (if ws_cancelled s then ws_goto s WsEnded []
              else ws_goto s WsEnded [RPCReturned (fan_ok (ws_watchers s)) total; TotalTime])
      else None
  | WsEnded => None
  end.

Definition ws_with_watchers (s : ws_state) (f : fan A) : ws_state :=
  mkWs (ws_targets s) (ws_at s) (ws_cancelled s) f (ws_scalers s) (ws_printed s).

Definition ws_with_scalers (s : ws_state) (f : fan A) : ws_state :=
  mkWs (ws_targets s) (ws_at s) (ws_cancelled s) (ws_watchers s) f (ws_printed s).

Inductive ws_act (s : ws_state) : outcome ws_state -> Prop :=
| ws_watcher o : fan_step watch (ws_watchers s) o -> ws_act s (ws_with_watchers s <$> o)
| ws_scaler o : fan_step scale (ws_scalers s) o -> ws_act s (ws_with_scalers s <$> o)
| ws_advance s' : ws_main s = Some s' -> ws_act s (Ret s')
| ws_cancel : ws_cancelled s = false ->
    ws_act s (Ret (mkWs (ws_targets s) (ws_at s) true (ws_watchers s) (ws_scalers s) (ws_printed s))).

(** The process ends with the run. *)
Definition ws_step (s : ws_state) (o : outcome ws_state) : Prop := ws_at s <> WsEnded /\ ws_act s o.

Definition ws_runs : ws_state -> ws_state -> Prop := rtc (fun s s' => ws_step s (Ret s')).

End watch_scale.

Arguments ws_state A : clear implicits.

(** ** Scale only *)

Section scale_only.
Context {A : Type}.
Variable scale : A -> outcome (result unit).

(** The end of [run] of the replica-set breakdown: a scaler per target, for which
    the main goroutine waits. *)
Record so_state : Type := mkSo {
  so_targets : list A;
  so_cancelled : bool;
  so_scalers : fan A;
  so_ended : option (list ws_line)
}.

Definition so_start (targets : list A) : so_state := mkSo targets false (fan_start targets) None.

(** After [wg.Wait]; [None]: the main goroutine waits. *)
Definition so_main (s : so_state) : option so_state :=
  if fan_wg (so_scalers s) =? 0 then
    Some (mkSo (so_targets s) (so_cancelled s) (so_scalers s)
            (Some (if so_cancelled s then []
                   else [RPCReturned (fan_ok (so_scalers s)) (Z.of_nat (length (so_targets s))); TotalTime])))
  else None.

Inductive so_act (s : so_state) : outcome so_state -> Prop :=
| so_scaler o :
    fan_step scale (so_scalers s) o ->
    so_act s ((fun f => mkSo (so_targets s) (so_cancelled s) f (so_ended s)) <$> o)
| so_advance s' : so_main s = Some s' -> so_act s (Ret s')
| so_cancel : so_cancelled s = false -> so_act s (Ret (mkSo (so_targets s) true (so_scalers s) (so_ended s))).

Definition so_step (s : so_state) (o : outcome so_state) : Prop := so_ended s = None /\ so_act s o.

Definition so_runs : so_state -> so_state -> Prop := rtc (fun s s' => so_step s (Ret s')).

End scale_only.

Arguments so_state A : clear implicits.

(** ** Every interleaving of the goroutines *)

Section fan_facts.
Context {A : Type}.
Variable c : A -> result unit.
Notation call := (fun t => Ret (c t)).

Lemma succeeded_ext (c' : A -> result unit) targets :
  (forall t, c t = c' t) -> succeeded c targets = succeeded c' targets.
Proof.
  intros E. unfold succeeded. f_equal. induction targets as [|t targets IH]; simpl; [done|]. by rewrite E, IH.
Qed.

Record fan_inv (targets : list A) (f : fan A) : Prop := {
  fi_wg : fan_wg f = Z.of_nat (length (fan_pending f));
  fi_ok : fan_ok f + succeeded c (fan_pending f) = succeeded c targets;
  fi_pos : 0 <= fan_ok f
}.

Lemma fan_start_inv targets : fan_inv targets (fan_start targets).
Proof. by split. Qed.

Lemma succeeded_split before t after :
  succeeded c (before ++ t :: after) = succeeded c (before ++ after) + (if is_ok (c t) then 1 else 0).
Proof. unfold succeeded. rewrite !count_app. simpl. destruct (is_ok (c t)); lia. Qed.

(** A goroutine ends without a panic, and one fewer is left. *)
Lemma fan_step_ok targets f o :
  Z.of_nat (length targets) < 2 ^ 31 -> fan_inv targets f -> fan_step call f o ->
  exists f', o = Ret f' /\ fan_inv targets f' /\ length (fan_pending f) = S (length (fan_pending f')).
Proof.
  intros Hl [Iw Io Ip] [before t after Hp]. rewrite Hp, succeeded_split in Io.
  rewrite Hp, length_app in Iw. simpl in Iw.
  pose proof (succeeded_bounds c targets). pose proof (succeeded_bounds c (before ++ after)).
  unfold fan_finish, wg_done. simpl. destruct (Z.ltb_spec (fan_wg f - 1) 0); [lia|]. simpl.
  eexists. split; [done|]. split; [split; simpl|].
  - rewrite length_app. lia.
  - destruct (is_ok (c t)); [|lia]. rewrite int32_of_id; [lia|]. unfold in_int32. lia.
  - destruct (is_ok (c t)); [|lia]. rewrite int32_of_id; [lia|]. unfold in_int32. lia.
  - simpl. rewrite Hp, !length_app. simpl. lia.
Qed.

Lemma fan_done targets f : fan_inv targets f -> fan_wg f = 0 -> fan_ok f = succeeded c targets.
Proof.
  intros [Iw Io _] Hz. rewrite Iw in Hz. rewrite (nil_length_inv (fan_pending f)) in Io by lia.
  unfold succeeded in *. simpl in Io. lia.
Qed.

Lemma fan_progress targets f : fan_inv targets f -> fan_wg f <> 0 -> exists o, fan_step call f o.
Proof.
  intros [Iw _ _] Hn. destruct (fan_pending f) as [|t l] eqn:E; [simpl in Iw; lia|].
  eexists. by apply (fan_one _ f [] t l).
Qed.

End fan_facts.

Section ws_facts.
Context {A : Type}.
Variables (watch scale : A -> result unit) (targets : list A).
Hypothesis targets_fit : Z.of_nat (length targets) < 2 ^ 31.
Notation step := (ws_step (fun t => Ret (watch t)) (fun t => Ret (scale t))).
Notation runs := (ws_runs (fun t => Ret (watch t)) (fun t => Ret (scale t))).
Notation total := (Z.of_nat (length targets)).

(** What has been printed at each point of an uncancelled run. *)
Definition printed_at (pc : ws_pc) : list ws_line :=
  match pc with
  | WsSleeping | WsScaling => []
  | WsWatching => [TargetsScaled (succeeded scale targets) total]
  | WsEnded =>
      [TargetsScaled (succeeded scale targets) total; RPCReturned (succeeded watch targets) total; TotalTime]
  end.

Record ws_inv (s : ws_state A) : Prop := {
  wi_targets : ws_targets s = targets;
  wi_watchers : fan_inv watch targets (ws_watchers s);
  wi_scalers : if bool_decide (ws_at s = WsSleeping) then ws_scalers s = fan_start []
               else fan_inv scale targets (ws_scalers s);
  wi_printed : ws_cancelled s = false -> ws_printed s = printed_at (ws_at s)
}.

(** What is left to happen. *)
Definition ws_left (s : ws_state A) : nat :=
  length (fan_pending (ws_watchers s)) + length (fan_pending (ws_scalers s)) +
  (if ws_cancelled s then 0 else 1) +
  match ws_at s with
  | WsSleeping => length targets + 3
  | WsScaling => 2
  | WsWatching => 1
  | WsEnded => 0
  end.

Lemma ws_step_ok s o : ws_inv s -> step s o -> exists s', o = Ret s' /\ ws_inv s' /\ (ws_left s' < ws_left s)%nat.
Proof.
  intros [It Iw Is Ip] [Hn St]. destruct St as [o Fs|o Fs|s' M|Hc].
  - destruct (fan_step_ok watch _ _ _ targets_fit Iw Fs) as (f & -> & I & L).
    eexists. split; [done|]. split; [by split|]. unfold ws_left. simpl. lia.
  - case_bool_decide as E.
    { rewrite Is in Fs. destruct Fs as [before t after Hp]. by destruct before. }
    destruct (fan_step_ok scale _ _ _ targets_fit Is Fs) as (f & -> & I & L).
    eexists. split; [done|]. split; [|unfold ws_left; simpl; lia]. split; simpl; try done.
    by rewrite bool_decide_eq_false_2.
  - exists s'. split; [done|]. unfold ws_main in M. rewrite It in M.
    destruct (ws_at s) eqn:E; [| | |done]; simpl in Is.
    + injection M as <-. split; [split; simpl|].
      * done.
      * done.
      * apply fan_start_inv.
      * exact Ip.
      * unfold ws_left. simpl. rewrite E, Is. simpl. lia.
    + destruct (Z.eqb_spec (fan_wg (ws_scalers s)) 0) as [Hz|]; [|done]. pose proof (fan_done _ _ _ Is Hz) as Hd.
      destruct (ws_cancelled s) eqn:Hc; injection M as <-; (split; [split; simpl; try done|]);
        try (unfold ws_left; simpl; rewrite E, Hc; lia).
      all: intros ?; first [congruence|by rewrite Ip, Hd].
    + destruct (Z.eqb_spec (fan_wg (ws_watchers s)) 0) as [Hz|]; [|done]. pose proof (fan_done _ _ _ Iw Hz) as Hd.
      destruct (ws_cancelled s) eqn:Hc; injection M as <-; (split; [split; simpl; try done|]);
        try (unfold ws_left; simpl; rewrite E, Hc; lia).
      all: intros ?; first [congruence|by rewrite Ip, Hd].
  - eexists. split; [done|]. split; [by split|]. unfold ws_left. simpl. rewrite Hc. lia.
Qed.

Lemma ws_progress s : ws_inv s -> ws_at s <> WsEnded -> exists o, step s o.
Proof.
  intros [It Iw Is Ip] Hn. unfold ws_step.
  destruct (ws_main s) as [s'|] eqn:M; [exists (Ret s'); split; [done|by apply ws_advance]|].
  unfold ws_main in M. destruct (ws_at s) eqn:E; [done| | |done]; simpl in Is.
  - destruct (Z.eqb_spec (fan_wg (ws_scalers s)) 0) as [|Hz]; [done|].
    destruct (fan_progress scale _ _ Is Hz) as [o Fs]. eexists. split; [done|]. by apply ws_scaler.
  - destruct (Z.eqb_spec (fan_wg (ws_watchers s)) 0) as [|Hz]; [done|].
    destruct (fan_progress watch _ _ Iw Hz) as [o Fs]. eexists. split; [done|]. by apply ws_watcher.
Qed.

Lemma ws_start_inv : ws_inv (ws_start targets).
Proof. by split; simpl. Qed.

(** In every reachable state: no goroutine panics, every step brings the end
    nearer, somebody can move until the end, and an uncancelled run ends with
    the three lines. *)
Lemma ws_correct s : runs (ws_start targets) s ->
  (forall o, step s o -> exists s', o = Ret s' /\ (ws_left s' < ws_left s)%nat) /\
  (ws_at s <> WsEnded -> exists o, step s o) /\
  (ws_at s = WsEnded -> ws_cancelled s = false -> ws_printed s = printed_at WsEnded).
Proof.
  intros R. assert (ws_inv s) as I.
  { revert s R. refine (rtc_ind_r ws_inv _ ws_start_inv _). intros s s' _ St I.
    by destruct (ws_step_ok _ _ I St) as (? & [= <-] & ? & _). }
  split_and!.
  - intros o St. destruct (ws_step_ok _ _ I St) as (s' & -> & _ & L). eauto.
  - by apply ws_progress.
  - intros He Hc. by rewrite (wi_printed _ I Hc), He.
Qed.

End ws_facts.

Section so_facts.
Context {A : Type}.
Variables (scale : A -> result unit) (targets : list A).
Hypothesis targets_fit : Z.of_nat (length targets) < 2 ^ 31.
Notation step := (so_step (fun t => Ret (scale t))).
Notation runs := (so_runs (fun t => Ret (scale t))).

Record so_inv (s : so_state A) : Prop := {
  oi_targets : so_targets s = targets;
  oi_scalers : fan_inv scale targets (so_scalers s);
  oi_printed : forall lines, so_ended s = Some lines -> so_cancelled s = false ->
    lines = [RPCReturned (succeeded scale targets) (Z.of_nat (length targets)); TotalTime]
}.

Definition so_left (s : so_state A) : nat :=
  length (fan_pending (so_scalers s)) + (if so_cancelled s then 0 else 1) +
  match so_ended s with Some _ => 0 | None => 1 end.

Lemma so_step_ok s o : so_inv s -> step s o -> exists s', o = Ret s' /\ so_inv s' /\ (so_left s' < so_left s)%nat.
Proof.
  intros [It Is Ip] [Hn St]. unfold so_left. rewrite Hn. destruct St as [o Fs|s' M|Hc].
  - destruct (fan_step_ok scale _ _ _ targets_fit Is Fs) as (f & -> & I & L).
    eexists. split; [done|]. split; [by split|]. simpl. rewrite Hn. lia.
  - exists s'. split; [done|]. unfold so_main in M. rewrite It in M.
    destruct (Z.eqb_spec (fan_wg (so_scalers s)) 0) as [Hz|]; [|done].
    rewrite (fan_done _ _ _ Is Hz) in M. injection M as <-. split; [split; simpl|simpl; lia]; [done|done|].
    by intros lines [= <-] ->.
  - eexists. split; [done|]. split; [split; simpl; [done|done|by rewrite Hn]|]. simpl. rewrite Hn, Hc. lia.
Qed.

Lemma so_correct s : runs (so_start targets) s ->
  (forall o, step s o -> exists s', o = Ret s' /\ (so_left s' < so_left s)%nat) /\
  (so_ended s = None -> exists o, step s o) /\
  (forall lines, so_ended s = Some lines -> so_cancelled s = false ->
   lines = [RPCReturned (succeeded scale targets) (Z.of_nat (length targets)); TotalTime]).
Proof.
  intros R. assert (so_inv s) as I.
  { revert s R. refine (rtc_ind_r so_inv _ _ _); [by split|]. intros s s' _ St I.
    by destruct (so_step_ok _ _ I St) as (? & [= <-] & ? & _). }
  split_and!; [|intros Hn|apply I].
  - intros o St. destruct (so_step_ok _ _ I St) as (s' & -> & _ & L). eauto.
  - destruct (so_main s) as [s'|] eqn:M; [exists (Ret s'); split; [done|by apply so_advance]|].
    unfold so_main in M. destruct (Z.eqb_spec (fan_wg (so_scalers s)) 0) as [|Hz]; [done|].
    destruct (fan_progress scale _ _ (oi_scalers _ I) Hz) as [o Fs]. eexists. split; [done|]. by apply so_scaler.
Qed.

End so_facts.

(** The report of a run whose checks pass. *)
Lemma run_deployment_report IsManaged targets polls nPods fallback scale watch r :
  run_deployment IsManaged (Ok targets) polls nPods fallback scale watch = Ret r ->
  let n := nPodsPerTarget nPods (Z.of_nat (length targets)) in
  r = mkRunReport n (succeeded (fun t => scale t (int32_of n)) targets)
        (succeeded (fun t => watch t (int32_of n)) targets).
Proof.
  unfold run_deployment, list_targets. destruct targets as [|t l]; [done|]. cbn [mbind outcome_bind].
  destruct (check_all _ _); [|done..]. cbn [mbind outcome_bind].
  destruct (poll _ _); [|done..]. by intros [= <-].
Qed.

Lemma run_endpoints_report IsManaged services get ready nPods fallback scale update watch r :
  run_endpoints IsManaged (Ok services) get ready nPods fallback scale update watch = Ret r ->
  r = mkRunReport (nPodsPerTarget nPods (Z.of_nat (length services))) (succeeded update services)
        (succeeded watch services).
Proof.
  unfold run_endpoints, list_targets. destruct services as [|t l]; [done|]. cbn [mbind outcome_bind].
  destruct (matching_replicasets _ _ _ _); [|done..]. cbn [mbind outcome_bind].
  destruct (check_all _ _); [|done..]. cbn [mbind outcome_bind].
  destruct (poll _ _); [|done..]. by intros [= <-].
Qed.

(** C32: the goroutines of a deployment breakdown cannot disturb its result.
    When flags and checks pass and a client is connected, every
    interleaving of watchers, scalers, the main goroutine and a cancellation is
    free of panics and ends after finitely many steps without getting stuck;
    uncancelled, it prints the counts of [deployment_main] and nothing else. *)
Theorem deployment_run_refines IsManaged baseline selector listed targets polls nPods scale Watch client r s :
  let n := nPodsPerTarget nPods (Z.of_nat (length targets)) in
  let watch := Deployments.watch_target Watch (Some client) n in
  let update := fun t => Ret (scale t (int32_of n)) in
  Z.of_nat (length targets) < 2 ^ 31 -> listed selector = Ok targets ->
  Deployments.deployment_main IsManaged baseline selector listed polls nPods scale
    (fun t k => Watch (Deployments.newDeploymentWatchRequest client t k)) = Ret r ->
  ws_runs watch update (ws_start targets) s ->
  (forall o, ws_step watch update s o ->
     exists s', o = Ret s' /\ (ws_left targets s' < ws_left targets s)%nat) /\
  (ws_at s <> WsEnded -> exists o, ws_step watch update s o) /\
  (ws_at s = WsEnded -> ws_cancelled s = false ->
   ws_printed s = [TargetsScaled (rp_scaled r) (Z.of_nat (length targets));
                   RPCReturned (rp_finished r) (Z.of_nat (length targets)); TotalTime]).
Proof.
  intros n watch update Hl Hs Hr R. unfold Deployments.deployment_main in Hr. rewrite Hs in Hr.
  destruct (baseline_fallback _ _) as [fallback| |]; [|done..]. cbn [mbind outcome_bind] in Hr.
  destruct (ws_correct (fun t => Watch (Deployments.newDeploymentWatchRequest client t n))
    (fun t => scale t (int32_of n)) targets Hl s R) as (P1 & P2 & P3).
  split_and!; [exact P1|exact P2|]. intros He Hc. rewrite (P3 He Hc). unfold printed_at.
  apply run_deployment_report in Hr as ->. cbn [rp_scaled rp_finished]. fold n.
  rewrite (succeeded_ext (fun t => Watch (Deployments.newDeploymentWatchRequest client t n))
    (fun t => Watch (Deployments.newDeploymentWatchRequest client t (int32_of n)))); [done|].
  intros t. unfold Deployments.newDeploymentWatchRequest. by rewrite int32_of_idemp.
Qed.

(** The same for the endpoints breakdown: every interleaving of the
    selector updates and of the watches prints the counts of [endpoints_main]. *)
Theorem endpoints_run_refines IsManaged baseline selector listed services get ready nPods scale Update Watch
    client r s :
  let watch := Endpoints.watch_service Watch (Some client) in
  let updates := fun t => Ret (Endpoints.update_service Update selector t) in
  Z.of_nat (length services) < 2 ^ 31 -> listed selector = Ok services ->
  Endpoints.endpoints_main IsManaged baseline selector listed get ready nPods scale Update
    (fun t => Watch (Endpoints.newEndpointsWatchRequest client t)) = Ret r ->
  ws_runs watch updates (ws_start services) s ->
  (forall o, ws_step watch updates s o ->
     exists s', o = Ret s' /\ (ws_left services s' < ws_left services s)%nat) /\
  (ws_at s <> WsEnded -> exists o, ws_step watch updates s o) /\
  (ws_at s = WsEnded -> ws_cancelled s = false ->
   ws_printed s = [TargetsScaled (rp_scaled r) (Z.of_nat (length services));
                   RPCReturned (rp_finished r) (Z.of_nat (length services)); TotalTime]).
Proof.
  intros watch updates Hl Hs Hr R. unfold Endpoints.endpoints_main in Hr. rewrite Hs in Hr.
  destruct (baseline_fallback _ _) as [fallback| |]; [|done..]. cbn [mbind outcome_bind] in Hr.
  destruct (ws_correct (fun t => Watch (Endpoints.newEndpointsWatchRequest client t))
    (Endpoints.update_service Update selector) services Hl s R)
    as (P1 & P2 & P3).
  split_and!; [exact P1|exact P2|]. intros He Hc. rewrite (P3 He Hc). unfold printed_at.
  by apply run_endpoints_report in Hr as ->.
Qed.

(** The calls of the replica-set breakdown cannot disturb its result either: every
    interleaving of the scale calls and a cancellation is free of panics and ends
    after finitely many steps; uncancelled, it prints the count of
    [replicaset_main]. *)
Theorem replicaset_run_refines IsManaged IsFallbackScaling baseline selector listed
    (targets : list (ObjectMeta * option Z)) nPods Scale client r s :
  let n := nPodsPerTarget nPods (Z.of_nat (length targets)) in
  let scale := fun t : ObjectMeta * option Z => ReplicaSets.scale_target Scale (Some client) n t.1 in
  Z.of_nat (length targets) < 2 ^ 31 -> listed selector = Ok targets ->
  ReplicaSets.replicaset_main IsManaged IsFallbackScaling baseline selector listed nPods (Scale client) = Ret r ->
  so_runs scale (so_start targets) s ->
  (forall o, so_step scale s o -> exists s', o = Ret s' /\ (so_left s' < so_left s)%nat) /\
  (so_ended s = None -> exists o, so_step scale s o) /\
  (forall lines, so_ended s = Some lines -> so_cancelled s = false ->
   lines = [RPCReturned (rp_finished r) (Z.of_nat (length targets)); TotalTime]).
Proof.
  intros n scale Hl Hs Hr R. unfold ReplicaSets.replicaset_main in Hr. rewrite Hs in Hr.
  destruct (baseline_fallback _ _) as [fallback| |]; [|done..]. cbn [mbind outcome_bind] in Hr.
  assert (rp_finished r = succeeded (fun t => Scale client t.1 (int32_of n)) targets) as ->.
  { revert Hr. unfold run_replicaset, list_targets. destruct targets as [|t l]; [done|]. cbn [mbind outcome_bind].
    destruct (check_all _ _), (check_all _ _); cbn [mbind outcome_bind]; try done; by intros [= <-]. }
  exact (so_correct (fun t => Scale client t.1 (int32_of n)) targets Hl s R).
Qed.

(** A run that is interrupted while it connects crashes.  The error of the
    poll for a client is dropped, so a context cancelled before the first
    success leaves the client nil, and the first watcher dereferences it. *)
Theorem cancelled_connect_panics unwraps Watch n update targets :
  Forall (fun u => u = None) unwraps -> targets <> [] ->
  ws_step (Deployments.watch_target Watch (kd_connect unwraps) n) update (ws_start targets) nil_deref.
Proof.
  intros Hu Hne. assert (kd_connect unwraps = None) as -> by (by induction Hu as [|u us -> _ IH]).
  destruct targets as [|t l]; [done|]. split; [done|].
  refine (ws_watcher _ _ (ws_start (t :: l)) nil_deref _).
  exact (fan_one (Deployments.watch_target Watch None n) (fan_start (t :: l)) [] t l eq_refl).
Qed.

(** ** Runs that wait for pods

    The end-to-end and the kubelet experiment start their calls in goroutines
    that no wait group counts, and wait for the pods that a monitor sees. *)

Section monitored.
Context {A Mn Ev : Type}.
Variables (call : A -> result unit) (handle : Mn -> Ev -> outcome Mn) (delivered : Ev -> Prop).
Variables (waiting : Mn -> Z) (since : Mn -> outcome Z).

(** What a run ends with: nothing when it was cancelled, or the number of
    successful calls and the latency that it prints. *)
Inductive mr_end : Type :=
| MrCancelled
| MrPrinted (nOk latency : Z).

Record mr_state : Type := mkMr {
  mr_pending : list A;
  mr_ok : Z;
  mr_monitor : Mn;
  mr_cancelled : bool;
  mr_ended : option mr_end
}.

Definition mr_start (targets : list A) (m : Mn) : mr_state := mkMr targets 0 m false None.

(** A call returns. *)
Definition mr_return (s : mr_state) (before : list A) (t : A) (after : list A) : mr_state :=
  mkMr (before ++ after) (if is_ok (call t) then int32_of (mr_ok s + 1) else mr_ok s) (mr_monitor s)
    (mr_cancelled s) (mr_ended s).

Definition mr_event (s : mr_state) (ev : Ev) : outcome mr_state :=
  m ← handle (mr_monitor s) ev;
  Ret (mkMr (mr_pending s) (mr_ok s) m (mr_cancelled s) (mr_ended s)).

(** After [wg.Wait]. *)
Definition mr_finish (s : mr_state) : outcome mr_state :=
  if mr_cancelled s then Ret (mkMr (mr_pending s) (mr_ok s) (mr_monitor s) true (Some MrCancelled))
  else
    latency ← since (mr_monitor s);
    Ret (mkMr (mr_pending s) (mr_ok s) (mr_monitor s) false (Some (MrPrinted (mr_ok s) latency))).

Inductive mr_act (s : mr_state) : outcome mr_state -> Prop :=
| mr_call before t after :
    mr_pending s = before ++ t :: after -> mr_act s (Ret (mr_return s before t after))
| mr_pod ev : delivered ev -> mr_act s (mr_event s ev)
| mr_waited : waiting (mr_monitor s) = 0 -> mr_act s (mr_finish s)
| mr_cancel : mr_act s (Ret (mkMr (mr_pending s) (mr_ok s) (mr_monitor s) true (mr_ended s))).

Definition mr_step (s : mr_state) (o : outcome mr_state) : Prop := mr_ended s = None /\ mr_act s o.

Definition mr_runs : mr_state -> mr_state -> Prop := rtc (fun s s' => mr_step s (Ret s')).

Variable targets : list A.
Hypothesis targets_fit : Z.of_nat (length targets) < 2 ^ 31.
Variable good : Mn -> Prop.
Hypothesis handle_good : forall m ev m', good m -> delivered ev -> handle m ev = Ret m' -> good m'.

(** The monitor stays good, the counter does not run ahead of the calls, and
    what is printed is the counter and the latency at the end of the wait. *)
Record mr_inv (s : mr_state) : Prop := {
  mi_good : good (mr_monitor s);
  mi_ok : 0 <= mr_ok s /\ mr_ok s + succeeded call (mr_pending s) = succeeded call targets;
  mi_printed : forall k latency, mr_ended s = Some (MrPrinted k latency) ->
    k = mr_ok s /\ waiting (mr_monitor s) = 0 /\ since (mr_monitor s) = Ret latency
}.

Lemma mr_step_inv s s' : mr_step s (Ret s') -> mr_inv s -> mr_inv s'.
Proof.
  intros [He St] [G [Kp K] _]. remember (Ret s') as o eqn:Ho.
  destruct St as [before t after Hp|ev Hd|Hw|]; try (injection Ho as <-).
  - split; simpl; [done| |by rewrite He]. rewrite Hp, succeeded_split in K.
    pose proof (succeeded_bounds call targets). pose proof (succeeded_bounds call (before ++ after)).
    destruct (is_ok (call t)); [|lia]. rewrite int32_of_id by (unfold in_int32; lia). lia.
  - unfold mr_event in Ho. destruct (handle (mr_monitor s) ev) as [m| |] eqn:Hh; [|done..].
    injection Ho as <-. split; simpl; [by eapply handle_good|done|by rewrite He].
  - unfold mr_finish in Ho. destruct (mr_cancelled s); [injection Ho as <-; by split|].
    destruct (since (mr_monitor s)) as [l| |] eqn:Hs; [|done..]. injection Ho as <-.
    split; simpl; [done|done|]. by intros k latency [= <- <-].
  - split; simpl; [done|done|by rewrite He].
Qed.

Lemma mr_runs_inv m s : good m -> mr_runs (mr_start targets m) s -> mr_inv s.
Proof.
  intros Hm R. revert s R. refine (rtc_ind_r mr_inv _ _ _); [|eauto using mr_step_inv]. by split.
Qed.

End monitored.

Arguments mr_state A Mn : clear implicits.

(** *** The end-to-end experiment *)

(** [run] up to the expectations. *)
Definition e2e_setup {M} `{SharedMapOps M} (selector : string) (listed : result (list ObjectMeta))
    (polls : list (result (list (ObjectMeta * bool)))) (nPods : Z) : outcome (list ObjectMeta * e2e_monitor M) :=
  targets ← list_targets "Error listing Deployments" "No Deployment selected" listed;
  _ ← poll "ReplicaSets" (map (waitForReplicaSets (length targets)) polls);
  m ← e2e_watch_all selector targets nPods;
  Ret (targets, m).

(** The pods that are scaled to. *)
Definition e2e_total (targets : list ObjectMeta) (nPods : Z) : Z :=
  mul64 (nPodsPerTarget nPods (Z.of_nat (length targets))) (Z.of_nat (length targets)).

Section e2e_runs.
Context {M : Type -> Type} `{SML : SharedMapLaws M}.
Variable IsPodReady : Pod -> bool.

(** The expectations as [run] installs them: nothing was seen yet. *)
Lemma e2e_setup_fresh selector listed polls nPods targets m :
  e2e_setup (M := M) selector listed polls nPods = Ret (targets, m) ->
  em_wg m = e2e_total targets nPods /\ map_Forall (fun _ seen => seen = ∅) (sm_inner (em_expectations m)).
Proof.
  unfold e2e_setup. destruct (list_targets _ _ _) as [ts| |]; [|done..]. cbn [mbind outcome_bind].
  destruct (poll _ _); [|done..]. cbn [mbind outcome_bind]. unfold e2e_watch_all.
  destruct (Z.ltb_spec (mul64 (nPodsPerTarget nPods (Z.of_nat (length ts))) (Z.of_nat (length ts))) 0); [done|].
  intros [= -> <-].
  destruct (e2e_watch_fresh targets (mkE2e (M := M) selector sm_new (e2e_total targets nPods))) as [F W]; [|by split].
  simpl. rewrite sm_inner_new. apply map_Forall_empty.
Qed.

(** C33: the end-to-end experiment prints when all its pods are ready.  In every
    interleaving of the scale calls, the pod events and a cancellation, a run
    that prints has seen exactly as many distinct ready pods as it scaled to,
    each recorded with the instant of a delivered event in which it was ready;
    the latency is the distance from the start to the 90th percentile of these
    instants (one of them, that nine tenths of them do not exceed and at most
    nine tenths are before), or zero when there are none; and the printed count
    does not exceed the scale calls that succeed. *)
Theorem e2e_prints_when_ready selector listed polls nPods targets m scale delivered start s k latency :
  e2e_setup (M := M) selector listed polls nPods = Ret (targets, m) -> Z.of_nat (length targets) < 2 ^ 31 ->
  mr_runs scale (fun m ev => e2e_HandlePodEvent IsPodReady m ev.1 ev.2) delivered em_wg
    (fun m => e2e_Since m start) (mr_start targets m) s ->
  mr_ended s = Some (MrPrinted k latency) ->
  let times := e2e_times (mr_monitor s) in
  Z.of_nat (seen_total (mr_monitor s)) = e2e_total targets nPods /\ length times = seen_total (mr_monitor s) /\
  e2e_recorded IsPodReady delivered (mr_monitor s) /\
  (e2e_total targets nPods = 0 -> latency = 0) /\
  (e2e_total targets nPods <> 0 -> exists p, percentile90 times p /\ latency = time_sub p start) /\
  0 <= k <= succeeded scale targets.
Proof.
  intros Hs Hl R He times.
  pose (good := fun m : e2e_monitor M => em_wg m + Z.of_nat (seen_total m) = e2e_total targets nPods /\
    e2e_recorded IsPodReady delivered m).
  assert (good m) as Hm.
  { destruct (e2e_setup_fresh _ _ _ _ _ _ Hs) as [W F]. split; [rewrite W, (seen_total_fresh _ F); lia|].
    intros key seen name t Hk Hn. rewrite (F key seen Hk), lookup_empty in Hn. done. }
  eapply (mr_runs_inv scale _ _ _ _ targets Hl good) in R as [[G Rc] [K1 K2] P]; [| |done].
  - destruct (P k latency He) as (-> & Hw & Hsince). rewrite Hw in G.
    pose proof (succeeded_bounds scale (mr_pending s)). pose proof (e2e_times_length (mr_monitor s)) as Lt. fold times in Lt.
    unfold e2e_Since in Hsince. fold times in Hsince. split_and!; [lia|done|done| | |lia|lia].
    + intros Hz. unfold since_times in Hsince. rewrite Lt in Hsince.
      by replace (seen_total (mr_monitor s)) with 0%nat in Hsince by lia; injection Hsince.
    + intros Hz. apply (since_latency times start latency Hsince). intros Hn. rewrite Hn in Lt. simpl in Lt. lia.
  - intros m1 [new now] m2 [G1 R1] D1 Hh. simpl in Hh. pose proof (e2e_event_spec IsPodReady m1 new now) as Sp.
    rewrite Hh in Sp. split; [lia|by eapply e2e_event_recorded].
Qed.

End e2e_runs.

(** *** The kubelet breakdown *)

(** [RequestForBinding] is the method of [kdctx.PodInfo], which reads the client. *)
Definition newBindingRequests {R} (RequestForBinding : string * string -> kd_client -> R)
    (client : option kd_client) (podInfos : list (string * string)) : outcome (list R) :=
  match podInfos, client with
  | [], _ => Ret []
  | _, None => nil_deref
  | _, Some c => Ret (map (fun podInfo => RequestForBinding podInfo c) podInfos)
  end.

(** [run] up to the binding calls: the requests, and the expectation on a wait
    group of their number. *)
Definition kubelet_setup {R} (IsTemplatePod IsKubeletResponsibleFor : Pod -> bool) (ownerLabel target : string)
    (nPods : Z) (useDefaultKubelet : bool) (get : NamespacedName -> result Pod) (client : option kd_client)
    (RequestForBinding : string * string -> kd_client -> R) (ts : N) :
    outcome (list (string * string) * list R * km_expectation) :=
  templatePod ← check_template IsTemplatePod ownerLabel target
    (fun p => bool_decide (useDefaultKubelet = IsKubeletResponsibleFor p))
    "pod-lifecycle label does not match kubelet implementation" (get (Scheduler.template_key target));
  podInfos ← newPodInfos (Namespace (pod_meta templatePod)) target ts nPods;
  reqs ← newBindingRequests RequestForBinding client podInfos;
  Ret (podInfos, reqs, km_Watch (Z.of_nat (length reqs)) podInfos km_new).

(** The events that the filter of the monitor lets through. *)
Definition km_FilterEvent (IsManaged : ObjectMeta -> bool) (ownerLabel ownerName : string) (obj : ObjectMeta) : bool :=
  IsManaged obj && bool_decide (str_at (Labels obj) ownerLabel = ownerName).

Definition km_waiting (e : km_expectation) : Z := match km_wg e with Some n => n | None => 0 end.

Section km_runs.
Variable IsPodReady : Pod -> bool.
Notation km_handle := (fun e ev => km_HandlePodEvent IsPodReady e ev.1.1 ev.1.2 ev.2).

(** The wait group counts the bound pods that were not reported yet. *)
Definition km_good (podInfos : list (string * string)) (e : km_expectation) : Prop :=
  km_wg e = Some (Z.of_nat (size (km_unseen (km_desired e)))) /\
  dom (km_desired e) = list_to_set (map info_key podInfos).

Lemma km_handle_good podInfos e ev :
  km_good podInfos e -> km_event_ok ev -> exists e', km_handle e ev = Ret e' /\ km_good podInfos e'.
Proof.
  intros [Hw Hd] Hok. destruct ev as [[old new] now].
  destruct (km_event_spec IsPodReady e old new now Hw Hok) as (e' & E & W & D & _).
  exists e'. split; [exact E|]. split; [done|by rewrite D].
Qed.

Lemma newBindingRequests_length {R} (RequestForBinding : string * string -> kd_client -> R) client podInfos reqs :
  newBindingRequests RequestForBinding client podInfos = Ret reqs -> length reqs = length podInfos.
Proof.
  destruct podInfos as [|info infos], client as [c|]; cbn [newBindingRequests]; try done; intros [= <-]; [done..|].
  simpl. by rewrite length_map.
Qed.

Lemma kubelet_setup_good {R} IsTemplatePod IsKubeletResponsibleFor ownerLabel target nPods useDefault get client
    (RequestForBinding : string * string -> kd_client -> R) ts podInfos reqs e :
  kubelet_setup IsTemplatePod IsKubeletResponsibleFor ownerLabel target nPods useDefault get client
    RequestForBinding ts = Ret (podInfos, reqs, e) -> km_good podInfos e.
Proof.
  unfold kubelet_setup. destruct (check_template _ _ _ _ _ _) as [pod| |]; [|done..]. cbn [mbind outcome_bind].
  destruct (newPodInfos _ _ _ _) as [infos| |] eqn:E; [|done..]. cbn [mbind outcome_bind].
  destruct (newBindingRequests _ _ _) as [rs| |] eqn:Er; [|done..]. cbn [mbind outcome_bind].
  intros [= <- _ <-]. destruct (km_started _ _ _ _ _ E) as (D & U & Sz).
  rewrite (newBindingRequests_length _ _ _ _ Er). split; [by rewrite U, Sz|]. set_solver.
Qed.

(** The kubelet breakdown measures exactly the pods that it bound.  In every
    interleaving of the binding calls, the delivered pod events and a
    cancellation no goroutine panics; a run that prints has had every one of
    its pods, and no other, reported ready or deleted, the latency is the
    distance from the start to the 90th percentile of the instants of those
    reports (zero when there are none), and the printed count does not exceed the
    binding calls that succeed. *)
Theorem kubelet_prints_when_reported {R} IsTemplatePod IsKubeletResponsibleFor ownerLabel target nPods useDefault
    get client (RequestForBinding : string * string -> kd_client -> R) ts podInfos reqs e bind start s :
  kubelet_setup IsTemplatePod IsKubeletResponsibleFor ownerLabel target nPods useDefault get client
    RequestForBinding ts = Ret (podInfos, reqs, e) ->
  Z.of_nat (length reqs) < 2 ^ 31 ->
  mr_runs bind km_handle km_event_ok km_waiting (fun e => km_Since e start) (mr_start reqs e) s ->
  (forall o, mr_step bind km_handle km_event_ok km_waiting (fun e => km_Since e start) s o ->
     exists s', o = Ret s') /\
  (forall k latency, mr_ended s = Some (MrPrinted k latency) ->
     dom (km_desired (mr_monitor s)) = list_to_set (map info_key podInfos) /\
     (forall key t, km_desired (mr_monitor s) !! key = Some t -> t <> zero_time) /\
     (let times := map snd (map_to_list (km_desired (mr_monitor s))) in
      (times = [] /\ latency = 0) \/ exists p, percentile90 times p /\ latency = time_sub p start) /\
     0 <= k <= succeeded bind reqs).
Proof.
  intros Hs Hl Rs. pose proof (kubelet_setup_good _ _ _ _ _ _ _ _ _ _ _ _ _ Hs) as He.
  eapply (mr_runs_inv bind _ _ _ _ reqs Hl (km_good podInfos)) in Rs as [G [K1 K2] P]; [| |done].
  - split.
    + intros o [_ [before t after Hp|ev Hd|Hw|]]; [eauto| | |eauto].
      * unfold mr_event. destruct (km_handle_good _ _ _ G Hd) as (e' & -> & _). simpl. eauto.
      * unfold mr_finish. destruct (mr_cancelled s); [eauto|]. unfold km_Since.
        destruct (since_total (map snd (map_to_list (km_desired (mr_monitor s)))) start) as [l ->]. simpl. eauto.
    + intros k latency Hp. destruct (P k latency Hp) as (-> & Hw & Hsince). destruct G as [Gw Gd].
      unfold km_waiting in Hw. rewrite Gw in Hw. pose proof (succeeded_bounds bind (mr_pending s)).
      split_and!; [done| |apply (since_cases _ _ _ Hsince)|lia|lia].
      intros key t Ht ->. assert (size (km_unseen (km_desired (mr_monitor s))) = 0%nat) as Hz by lia.
      apply map_size_empty_inv in Hz.
      assert (km_unseen (km_desired (mr_monitor s)) !! key = Some zero_time) as Lk
        by (by apply map_lookup_filter_Some_2). by rewrite Hz, lookup_empty in Lk.
  - intros e1 ev e2 G1 Hd Hh. destruct (km_handle_good _ _ _ G1 Hd) as (e' & E & G'). congruence.
Qed.

End km_runs.

(** ** Witnesses *)

Definition demo_client : kd_client := mkKdClient "test" "e0".

Definition demo_one : list ObjectMeta := [demo_target "f"].

(** A complete run with one target. *)
Definition demo_run (pc : ws_pc) (w s : fan ObjectMeta) (lines : list ws_line) : ws_state ObjectMeta :=
  mkWs demo_one pc false w s lines.

Definition demo_done : fan ObjectMeta := mkFan [] 0 1.

Definition demo_lines : list ws_line := [TargetsScaled 1 1; RPCReturned 1 1; TotalTime].

Lemma demo_complete watch scale :
  watch (demo_target "f") = Ret (Ok tt) -> scale (demo_target "f") = Ret (Ok tt) ->
  ws_runs watch scale (ws_start demo_one) (demo_run WsEnded demo_done demo_done demo_lines).
Proof.
  intros Hw Hs.
  assert (forall call, call (demo_target "f") = Ret (Ok tt) ->
    fan_step call (fan_start demo_one) (Ret demo_done)) as Fan.
  { intros call Hc. pose proof (fan_one call (fan_start demo_one) [] (demo_target "f") [] eq_refl) as F.
    unfold fan_finish in F. rewrite Hc in F. exact F. }
  eapply rtc_l; [split; [discriminate|apply (ws_advance _ _ (ws_start demo_one)); reflexivity]|].
  eapply rtc_l; [split; [discriminate|apply (ws_scaler _ _ (demo_run WsScaling (fan_start demo_one) (fan_start demo_one) []) (Ret demo_done)); exact (Fan _ Hs)]|].
  eapply rtc_l; [split; [discriminate|apply (ws_advance _ _ (demo_run WsScaling (fan_start demo_one) demo_done [])); reflexivity]|].
  eapply rtc_l; [split; [discriminate|apply (ws_watcher _ _ (demo_run WsWatching (fan_start demo_one) demo_done [TargetsScaled 1 1]) (Ret demo_done)); exact (Fan _ Hw)]|].
  apply rtc_once. split; [discriminate|].
  apply (ws_advance _ _ (demo_run WsWatching demo_done demo_done [TargetsScaled 1 1])). reflexivity.
Qed.

Lemma deployment_run_refines_witness :
  exists r, Deployments.deployment_main (fun _ => true) "kd" "test" (fun _ => Ok demo_one)
    [Ok [(demo_target "f", true)]] 5 (fun _ _ => Ok tt) (fun _ _ => Ok tt) = Ret r /\
  demo_lines = [TargetsScaled (rp_scaled r) 1; RPCReturned (rp_finished r) 1; TotalTime].
Proof.
  exists (mkRunReport 5 1 1). split; [vm_compute; reflexivity|].
  refine (proj2 (proj2 (deployment_run_refines (fun _ => true) "kd" "test" (fun _ => Ok demo_one) demo_one
    [Ok [(demo_target "f", true)]] 5 (fun _ _ => Ok tt) (fun _ => Ok tt) demo_client (mkRunReport 5 1 1)
    (demo_run WsEnded demo_done demo_done demo_lines) _ _ _ _)) _ _); try reflexivity.
  apply demo_complete; reflexivity.
Defined.

Lemma endpoints_run_refines_witness :
  exists r, Endpoints.endpoints_main (fun _ => true) "kd" "test" (fun _ => Ok demo_one)
    (fun _ => Ok (demo_target "f", Some 0)) [Ok [5]] 5 (fun _ _ => Ok tt) (fun _ _ => Ok tt) (fun _ => Ok tt) = Ret r /\
  demo_lines = [TargetsScaled (rp_scaled r) 1; RPCReturned (rp_finished r) 1; TotalTime].
Proof.
  exists (mkRunReport 5 1 1). split; [vm_compute; reflexivity|].
  refine (proj2 (proj2 (endpoints_run_refines (fun _ => true) "kd" "test" (fun _ => Ok demo_one) demo_one
    (fun _ => Ok (demo_target "f", Some 0)) [Ok [5]] 5 (fun _ _ => Ok tt) (fun _ _ => Ok tt) (fun _ => Ok tt) demo_client (mkRunReport 5 1 1)
    (demo_run WsEnded demo_done demo_done demo_lines) _ _ _ _)) _ _); try reflexivity.
  apply demo_complete; reflexivity.
Defined.

Lemma replicaset_run_refines_witness :
  exists r, ReplicaSets.replicaset_main (fun _ => true) (fun _ => false) "kd" "test"
    (fun _ => Ok [(demo_target "f", Some 0)]) 5 (fun _ _ => Ok tt) = Ret r /\
  [RPCReturned 1 1; TotalTime] = [RPCReturned (rp_finished r) 1; TotalTime].
Proof.
  set (t := (demo_target "f", Some 0)). exists (mkRunReport 5 1 1). split; [vm_compute; reflexivity|].
  refine (proj2 (proj2 (replicaset_run_refines (fun _ => true) (fun _ => false) "kd" "test" (fun _ => Ok [t]) [t] 5
    (fun _ _ _ => Ok tt) demo_client (mkRunReport 5 1 1)
    (mkSo [t] false (mkFan [] 0 1) (Some [RPCReturned 1 1; TotalTime])) _ _ _ _)) _ _ _); try reflexivity.
  apply (rtc_l _ _ (mkSo [t] false (mkFan [] 0 1) None)); [|apply rtc_once].
  - split; [reflexivity|].
    exact (so_scaler _ (so_start [t]) _ (fan_one _ (fan_start [t]) [] t [] eq_refl)).
  - split; [reflexivity|]. apply so_advance. vm_compute. reflexivity.
Defined.

Lemma cancelled_connect_panics_witness :
  ws_step (Deployments.watch_target (fun _ => Ok tt) (kd_connect [None; None]) 5) (fun _ => Ret (Ok tt))
    (ws_start demo_one) nil_deref.
Proof. apply cancelled_connect_panics; [repeat constructor|discriminate]. Defined.

(** Two targets, both scaled, and both pods seen. *)
Definition demo_e2e_targets : list ObjectMeta := [demo_target "f"; demo_target "g"].

Definition demo_handle (m : e2e_monitor (gmap string)) (ev : option Pod * Z) : outcome (e2e_monitor (gmap string)) :=
  e2e_HandlePodEvent demo_is_ready m ev.1 ev.2.

Definition demo_seen_once : e2e_monitor (gmap string) :=
  match demo_handle demo_monitor (Some (demo_ready_pod "f" "f-0"), 7) with Ret m => m | _ => demo_monitor end.

Definition demo_seen_twice : e2e_monitor (gmap string) :=
  match demo_handle demo_seen_once (Some (demo_ready_pod "g" "g-0"), 9) with Ret m => m | _ => demo_monitor end.

Lemma e2e_prints_when_ready_witness :
  Z.of_nat (seen_total demo_seen_twice) = e2e_total demo_e2e_targets 2 /\ e2e_total demo_e2e_targets 2 = 2.
Proof.
  split; [|vm_compute; reflexivity].
  assert (e2e_setup "trace" (Ok demo_e2e_targets) [Ok [(demo_target "f", true); (demo_target "g", true)]] 2 =
    Ret (demo_e2e_targets, demo_monitor)) as Hs by (vm_compute; reflexivity).
  set (st m ended := mkMr demo_e2e_targets 0 m false ended : mr_state ObjectMeta (e2e_monitor (gmap string))).
  refine (proj1 (e2e_prints_when_ready demo_is_ready "trace" (Ok demo_e2e_targets) _ 2 demo_e2e_targets demo_monitor
    (fun _ => Ok tt) (fun _ => True) 5 (st demo_seen_twice (Some (MrPrinted 0 4))) 0 4 Hs eq_refl _ eq_refl)).
  eapply rtc_l; [|eapply rtc_l; [|apply rtc_once]].
  - split; [reflexivity|]. assert (Ret (st demo_seen_once None) =
      mr_event demo_handle (st demo_monitor None) (Some (demo_ready_pod "f" "f-0"), 7)) as ->
      by (vm_compute; reflexivity). apply mr_pod. exact I.
  - split; [reflexivity|]. assert (Ret (st demo_seen_twice None) =
      mr_event demo_handle (st demo_seen_once None) (Some (demo_ready_pod "g" "g-0"), 9)) as ->
      by (vm_compute; reflexivity). apply mr_pod. exact I.
  - split; [reflexivity|]. assert (Ret (st demo_seen_twice (Some (MrPrinted 0 4))) =
      mr_finish (fun m => e2e_Since m 5) (st demo_seen_twice None)) as -> by (vm_compute; reflexivity).
    apply mr_waited. vm_compute. reflexivity.
Defined.

Definition demo_template : Pod :=
  mkPod (mkMeta "default" "t-template" "" "" {["owner" := "t"%string]} ∅ None) "n0" [] [] []
    (mkPodStatus "Running" [] "" "" None [] []).

Definition demo_bound : list (string * string) := [("default", "t-5-0")]%string.

(** Its one pod is bound, and reported ready at 9. *)
Definition demo_expected : km_expectation := km_Watch 1 demo_bound km_new.

Definition demo_km_handle (e : km_expectation) (ev : option Pod * option Pod * Z) : outcome km_expectation :=
  km_HandlePodEvent demo_is_ready e ev.1.1 ev.1.2 ev.2.

Definition demo_pod_ready : option Pod * option Pod * Z :=
  (None, Some (mkPod (mkMeta "default" "t-5-0" "" "" ∅ ∅ None) "n0" [] [] []
    (mkPodStatus "Running" [] "" "" None [] [])), 9).

Definition demo_reported : km_expectation :=
  match demo_km_handle demo_expected demo_pod_ready with Ret e => e | _ => demo_expected end.

Lemma kubelet_prints_when_reported_witness :
  dom (km_desired demo_reported) = list_to_set (map info_key demo_bound) /\
  exists p, percentile90 (map snd (map_to_list (km_desired demo_reported))) p /\ 5 = time_sub p 4.
Proof.
  set (st ts n e ended := mkMr ts n e false ended : mr_state (string * string) km_expectation).
  assert (mr_runs (fun _ => Ok tt) demo_km_handle km_event_ok km_waiting (fun e => km_Since e 4)
    (mr_start demo_bound demo_expected) (st [] 1 demo_reported (Some (MrPrinted 1 5)))) as Rs; cycle 1.
  { destruct (proj2 (kubelet_prints_when_reported demo_is_ready (fun _ => true) (fun _ => true) "owner" "t" 1 true
      (fun _ => Ok demo_template) (Some demo_client) (fun info _ => info) 5 demo_bound demo_bound
      demo_expected (fun _ => Ok tt) 4 _ eq_refl eq_refl Rs) 1 5 eq_refl) as (D & _ & L & _).
    split; [exact D|]. destruct L as [[_ L]|L]; [discriminate L|exact L]. }
  eapply rtc_l; [|eapply rtc_l; [|apply rtc_once]].
  - split; [reflexivity|]. assert (Ret (st [] 1 demo_expected None) =
      Ret (mr_return (fun _ => Ok tt) (mr_start demo_bound demo_expected) [] ("default", "t-5-0")%string [])) as ->
      by (vm_compute; reflexivity). apply mr_call. reflexivity.
  - split; [reflexivity|]. assert (Ret (st [] 1 demo_reported None) =
      mr_event demo_km_handle (st [] 1 demo_expected None) demo_pod_ready) as -> by (vm_compute; reflexivity).
    apply mr_pod. split; [right; discriminate|discriminate].
  - split; [reflexivity|]. assert (Ret (st [] 1 demo_reported (Some (MrPrinted 1 5))) =
      mr_finish (fun e => km_Since e 4) (st [] 1 demo_reported None)) as -> by (vm_compute; reflexivity).
    apply mr_waited. vm_compute. reflexivity.
Defined.
