(* ===== verification/Programs.v ===== *)
(** * The programs, from their command lines

    The main functions of [cmd/kubelet], [experiments/trace] and
    [experiments/microbench]: the flags they declare, the Kubernetes clients and
    managers that [pkg/util/ctrl.go] makes for them, and their way to the parts
    that the other files model.  The flags that the Kubernetes libraries declare
    in the same flag set are an argument ([others]). *)

From S2P Require Import Prelude GoTypes Flags Float64 Interfaces Kube Workload Metric Decider Autoscaler.
From S2P Require Import Backend Dispatcher Gateway Replay TraceExperiment Kubelet KubeletServer Experiments Breakdown.

Local Open Scope Z_scope.

(** ** Running a program *)

(** [flag.Parse] ends the process, or [main] goes on with the variables. *)
Inductive program (A : Type) : Type :=
| Exited (code : Z)
| Runs (result : outcome A).

Arguments Exited {A} code.
Arguments Runs {A} result.

Definition command {A} (declared others : FlagSet) (args : list string) (main : FlagSet -> outcome A) : program A :=
  match flag_parse (declared ∪ others) args with
  | Exits code => Exited code
  | Parsed fs _ => Runs (main fs)
  end.

(** ** Package [util] *)

Definition defaultQPS : Z := 10000.

Definition defaultBurst : Z := 20000.

(** [rest.Config]: the two fields that are set, and the others. *)
Record rest_config (X : Type) : Type := mkRest {
  rest_base : X;
  QPS : Z;
  Burst : Z
}.

Arguments mkRest {X} _ _ _.
Arguments rest_base {X} _.
Arguments QPS {X} _.
Arguments Burst {X} _.

Definition with_limits {X} (c : rest_config X) : rest_config X := mkRest (rest_base c) defaultQPS defaultBurst.

(** [ctrl.Options]: the fields that are set. *)
Record ctrl_options : Type := mkCtrlOptions {
  HealthProbeBindAddress : string;
  LeaderElection : bool;
  MetricsBindAddress : string
}.

(** [client] is the outcome of [client.New]. *)
Definition NewUncachedClientOrDie {Cl} (client : result Cl) : outcome Cl :=
  or_fatal "Error creating uncached client" client.

(** [config] is [ctrl.GetConfigOrDie], which ends the process on an error. *)
Definition NewManagerOrDie {X Mgr} (config : outcome (rest_config X))
    (newManager : rest_config X -> ctrl_options -> result Mgr) : outcome Mgr :=
  kubeConfig ← config;
  or_fatal "Error creating manager" (newManager (with_limits kubeConfig) (mkCtrlOptions "0" false "0")).

Definition NewClientsetOrDie {X Cl} (config : outcome (rest_config X)) (newForConfig : rest_config X -> result Cl) :
    outcome Cl :=
  kubeConfig ← config;
  or_fatal "Error building kubernetes clientset" (newForConfig (with_limits kubeConfig)).

(** The manager runs in a goroutine, whose error ends the process: [failed] is
    the error it ends with before the caches are synced. *)
Definition start_manager (run_text sync_text : string) (failed : option error) (synced : bool) : outcome unit :=
  match failed with
  | Some e => Fatal (run_text +:+ ": " +:+ err_text e)
  | None => if synced then Ret tt else Fatal sync_text
  end.

(** ** The custom kubelet *)

Definition kubelet_flags : FlagSet :=
  {["node" := VString ""; "simulate" := VBool false; "patch" := VBool true; "ready-after" := VInt 100]}.

Section kubelet.
Context {M : Type -> Type} `{SharedMapOps M}.
Context {Q : Type -> Type} `{WorkQueueOps Q}.
Context {PodInfo : Type} `{KdApi PodInfo}.
Context {Hub : Type} `{EpochHub Hub}.

(** [NewKubedirectServer] returns nil if an event handler cannot be registered,
    and [WithReadyDelay] then writes through the nil pointer. *)
Definition handlers_registered (pods nodes : option error) : outcome unit :=
  match pods, nodes with None, None => Ret tt | _, _ => nil_deref end.

(** [main] to the start of the workers: [clientset] is [NewClientsetOrDie]. *)
Definition kubelet_program {Cl} (others : FlagSet) (args : list string) (hostname : result string)
    (clientset : outcome Cl) (pods nodes : option error) (emptyq : Q PendingPod) (hub : Hub)
    (synced : list (string * bool)) (attempts : list (sync_env * result unit)) :
    program (KubedirectServer M Q PodInfo Hub) :=
  command kubelet_flags others args (fun fs =>
    s ← kubelet_configure emptyq hub (string_flag fs "node") (bool_flag fs "simulate") (bool_flag fs "patch")
          (int_flag fs "ready-after") hostname;
    _ ← clientset;
    _ ← handlers_registered pods nodes;
    r ← serve_start s synced attempts;
    _ ← or_fatal "Failed to listen & serve" r;
    Ret s).

End kubelet.

(** ** The trace experiment *)

Definition trace_flags : FlagSet :=
  {["gateway" := VString "k8s"; "backend" := VString "fake"; "autoscaler" := VString "one-time";
    "autoscaler-config" := VString ""; "loader-config" := VString "config/loader.json";
    "output" := VString "trace.log"; "timeout" := VInt 15]}.

(** The program runs in the directory of its source, with the data beside it:
    [data] is whether the file that [os.Stat] finds is a directory. *)
Definition enter_baseDir (baseDir : string) (chdir : option error) (data : result bool) : outcome unit :=
  match chdir with
  | Some e => Fatal ("Cannot enter " +:+ baseDir +:+ ": " +:+ err_text e)
  | None =>
      match data with
      | Ok true => Ret tt
      | _ => Fatal (baseDir +:+ " contains no data dir, consider running download.sh first")
      end
  end.

Definition flags_of (fs : FlagSet) : flags :=
  mkFlags (string_flag fs "backend") (string_flag fs "gateway") (string_flag fs "autoscaler")
    (string_flag fs "autoscaler-config") (string_flag fs "loader-config").

Section trace.
Context {C : Type -> Type} `{ChannOps C}.
Context {M : Type -> Type} `{SharedMapOps M}.
Context {Q : Type -> Type} `{WorkQueueOps Q}.
Context {B Wn : Type} `{TimedBucketsOps B} `{TimeWindowOps Wn}.
Context {E : Type}.

(** [main] to the start of the gateway.  [loaded] loads the traces of a
    configuration file, [created] creates an output file. *)
Definition trace_program (others : FlagSet) (args : list string) (baseDir : string) (chdir : option error)
    (data : result bool) (manager : outcome unit) (readFile : string -> result string)
    (unmarshal : string -> result AutoscalerConfig) (emptyq : Q string)
    (newBackend : string -> string -> outcome (result E)) (services : outcome (result (list (ObjectMeta * string))))
    (deployments : outcome (result (list Deployment))) (registering : option error)
    (loaded : string -> outcome (list TraceSpec)) (created : string -> option error)
    (listed : outcome (result (list Deployment))) (failed : option error) (synced : bool) :
    program (any_gateway * gmap string worker) :=
  match enter_baseDir baseDir chdir data with
  | Ret _ =>
      command trace_flags others args (fun fs =>
        r ← trace_main (C := C) (M := M) (B := B) (Wn := Wn) manager readFile unmarshal emptyq newBackend services
              deployments registering (loaded (string_flag fs "loader-config")) (created (string_flag fs "output"))
              listed (string_flag fs "output") (int_flag fs "timeout") (flags_of fs);
        _ ← start_manager "Unable to run manager" "Unable to sync manager cache" failed synced;
        Ret r)
  | Panic msg => Runs (Panic msg)
  | Fatal msg => Runs (Fatal msg)
  end.

End trace.

(** ** The microbenchmarks *)

(** The flags of [autoscaler], [deployment], [replicaset] and [endpoints]. *)
Definition selector_flags : FlagSet :=
  {["baseline" := VString "k8s"; "selector" := VString ""; "n" := VInt 0]}.

Definition scheduler_flags : FlagSet :=
  {["baseline" := VString "k8s"; "target" := VString ""; "n" := VInt 100]}.

Definition kubelet_bench_flags : FlagSet :=
  {["baseline" := VString "kubelet"; "target" := VString ""; "node" := VString ""; "n" := VInt 10]}.

Definition e2e_flags : FlagSet :=
  {["baseline" := VString "k8s"; "selector" := VString "test"; "n" := VInt 0]}.

Definition required (value text : string) : outcome unit :=
  if bool_decide (value = "") then Fatal text else Ret tt.

(** [main] of the breakdowns with a selector: [manager] is [NewManagerOrDie], and
    [run] begins with [NewUncachedClientOrDie]. *)
Definition selector_main {A Cl} (manager : outcome unit) (uncached : outcome Cl)
    (run : string -> Z -> bool -> outcome A) (fs : FlagSet) : outcome A :=
  let selector := string_flag fs "selector" in
  _ ← required selector "must specify workload selector";
  _ ← manager;
  fallback ← baseline_fallback (string_flag fs "baseline") selector;
  _ ← uncached;
  run selector (int_flag fs "n") fallback.

Section microbench.
Context {Cl : Type}.
Variables (others : FlagSet) (args : list string) (manager : outcome unit) (uncached : outcome Cl).

(** [autoscaler] and [deployment] have the same main function and the same run. *)
Definition autoscaler_program (IsManaged : ObjectMeta -> bool) (listed : string -> result (list ObjectMeta))
    (polls : list (result (list (ObjectMeta * bool)))) (scale watch : ObjectMeta -> Z -> result unit) : program report :=
  command selector_flags others args (selector_main manager uncached (fun selector nPods fallback =>
    run_deployment IsManaged (listed selector) polls nPods fallback scale watch)).

Definition deployment_program (IsManaged : ObjectMeta -> bool) (listed : string -> result (list ObjectMeta))
    (polls : list (result (list (ObjectMeta * bool)))) (scale watch : ObjectMeta -> Z -> result unit) : program report :=
  autoscaler_program IsManaged listed polls scale watch.

Definition replicaset_program (IsManaged IsFallbackScaling : ObjectMeta -> bool)
    (listed : string -> result (list (ObjectMeta * option Z))) (scale : ObjectMeta -> Z -> result unit) :
    program report :=
  command selector_flags others args (selector_main manager uncached (fun selector nPods fallback =>
    run_replicaset IsManaged IsFallbackScaling (listed selector) nPods fallback scale)).

Definition endpoints_program (IsManaged : ObjectMeta -> bool) (listed : string -> result (list ObjectMeta))
    (get : ObjectMeta -> result (ObjectMeta * option Z)) (ready : list (result (list Z)))
    (scale : ObjectMeta -> Z -> result unit) (Update : ObjectMeta -> gmap string string -> result unit)
    (watch : ObjectMeta -> result unit) : program report :=
  command selector_flags others args (selector_main manager uncached (fun selector nPods fallback =>
    run_endpoints IsManaged (listed selector) get ready nPods fallback scale
      (Endpoints.update_service Update selector) watch)).

Definition scheduler_program (IsTemplatePod IsFallbackBinding : Pod -> bool) (ownerLabel : string)
    (get : NamespacedName -> result Pod) (client : option kd_client)
    (SchedulePods : kd_client -> NamespacedName -> Z -> result unit) : program bool :=
  command scheduler_flags others args (fun fs =>
    let target := string_flag fs "target" in
    _ ← required target "must specify target ReplicaSet";
    _ ← manager;
    fallback ← Scheduler.scheduler_main (string_flag fs "baseline") target;
    _ ← uncached;
    Scheduler.run_scheduler IsTemplatePod IsFallbackBinding ownerLabel target (int_flag fs "n") fallback get
      client SchedulePods).

(** The start of the runs with a pod monitor: [setup] is the error of its
    [SetupWithManager].  [run] of the kubelet breakdown is [kubelet_bench_run]. *)
Definition start_monitor (setup failed : option error) (synced : bool) : outcome unit :=
  match setup with
  | Some e => Fatal ("Error creating monitor: " +:+ err_text e)
  | None => start_manager "Error running manager" "Cannot syncing manager cache" failed synced
  end.

Definition kubelet_bench_run {R} (setup failed : option error) (synced : bool)
    (IsTemplatePod IsKubeletResponsibleFor : Pod -> bool) (ownerLabel target : string) (nPods : Z)
    (useDefaultKubelet : bool) (get : NamespacedName -> result Pod) (client : option kd_client)
    (RequestForBinding : string * string -> kd_client -> R) (ts : N) :
    outcome (list (string * string) * list R * km_expectation) :=
  _ ← start_monitor setup failed synced;
  kubelet_setup IsTemplatePod IsKubeletResponsibleFor ownerLabel target nPods useDefaultKubelet get client
    RequestForBinding ts.

Definition kubelet_bench_program {R} (run : string -> Z -> bool -> outcome R) : program R :=
  command kubelet_bench_flags others args (fun fs =>
    let target := string_flag fs "target" in
    _ ← required target "must specify target ReplicaSet";
    _ ← required (string_flag fs "node") "must specify target node";
    _ ← manager;
    useDefaultKubelet ← kubelet_main (string_flag fs "baseline") target (string_flag fs "node");
    run target (int_flag fs "n") useDefaultKubelet).

Definition e2e_program {M} `{SharedMapOps M} (setup failed : option error) (synced : bool)
    (listed : string -> result (list ObjectMeta)) (polls : list (result (list (ObjectMeta * bool)))) :
    program (list ObjectMeta * e2e_monitor M) :=
  command e2e_flags others args (fun fs =>
    let selector := string_flag fs "selector" in
    _ ← required selector "must specify workload selector";
    _ ← manager;
    _ ← e2e_main (string_flag fs "baseline") selector;
    _ ← start_monitor setup failed synced;
    e2e_setup selector (listed selector) polls (int_flag fs "n")).

End microbench.

(** ** Theorems *)

(** The last value that a command line writes for a flag. *)
Fixpoint last_value (written : list (style * string * flag_var)) (name : string) : option flag_var :=
  match written with
  | [] => None
  | w :: written =>
      match last_value written name with
      | Some v => Some v
      | None => if decide (w.1.2 = name) then Some w.2 else None
      end
  end.

Lemma foldl_assign written name : forall fs,
  foldl assign fs written !! name = match last_value written name with Some v => Some v | None => fs !! name end.
Proof.
  induction written as [|[[st n] v] written IH]; intros fs; cbn [foldl last_value]; [done|].
  rewrite IH. destruct (last_value written name); [done|]. simpl. case_decide as Hn.
  - subst. by rewrite lookup_insert_eq.
  - by rewrite lookup_insert_ne.
Qed.

(** A program reads its flags as they are written. *)
Lemma command_written {A} declared others written rest (main : FlagSet -> outcome A) :
  Forall (writable declared) written -> (forall s, head rest = Some s -> read_arg s = NotAFlag) ->
  command declared others (concat (map show_flag written) ++ rest) main =
    Runs (main (foldl assign (declared ∪ others) written)).
Proof.
  intros F Hr. unfold command. rewrite flags_roundtrip; [done| |done].
  eapply Forall_impl; [exact F|]. intros [[st name] v] (Hn & v0 & L & Hf). split; [done|].
  exists v0. split; [by apply lookup_union_Some_l|done].
Qed.

(** The value that [main] finds in a declared variable. *)
Lemma written_flag declared others written name v :
  declared !! name = Some v ->
  foldl assign (declared ∪ others) written !! name = Some (default v (last_value written name)).
Proof.
  intros L. rewrite foldl_assign. destruct (last_value written name); [done|]. by apply lookup_union_Some_l.
Qed.

(** The written options are among the given names. *)
Definition only (names : list string) (written : list (style * string * flag_var)) : Prop :=
  Forall (fun w => w.1.2 ∈ names) written.

Lemma only_absent names written name : only names written -> name ∉ names -> last_value written name = None.
Proof.
  intros O N. induction O as [|w written Hw O IH]; simpl; [done|]. rewrite IH, decide_False; [done|].
  intros <-. done.
Qed.

Lemma default_string declared others written names name :
  only names written -> is_Some (declared !! name) -> name ∉ names ->
  string_flag (foldl assign (declared ∪ others) written) name = string_flag declared name.
Proof.
  intros O [v L] N. unfold string_flag. by rewrite (written_flag _ _ _ _ _ L), L, (only_absent names) by done.
Qed.

Section kubelet_facts.
Context {M : Type -> Type} `{SharedMapOps M}.
Context {Q : Type -> Type} `{WorkQueueOps Q}.
Context {PodInfo : Type} `{KdApi PodInfo}.
Context {Hub : Type} `{EpochHub Hub}.

(** C35: the custom kubelet runs with the options it is given.  From a command
    line that writes options of the kubelet as [-name=value], [--name=value] or
    [-name value], in any order and with repetitions, the server that starts has
    the last written value of each option and the default of every other one:
    the host name for an empty node name, and the delay in milliseconds. *)
Theorem kubelet_reads_command {Cl} others written h (cl : Cl) (emptyq : Q PendingPod) (hub : Hub) synced attempts
    node sim pat ms :
  Forall (writable kubelet_flags) written ->
  default (VString "") (last_value written "node") = VString node ->
  default (VBool false) (last_value written "simulate") = VBool sim ->
  default (VBool true) (last_value written "patch") = VBool pat ->
  default (VInt 100) (last_value written "ready-after") = VInt ms -> Z.abs ms <= 2 ^ 43 ->
  exists s : KubedirectServer M Q PodInfo Hub,
    kubelet_program others (concat (map show_flag written)) (Ok h) (Ret cl) None None emptyq hub synced attempts =
      Runs (r ← serve_start s synced attempts; _ ← or_fatal "Failed to listen & serve" r; Ret s) /\
    ks_nodeName s = (if bool_decide (node = ""%string) then h else node) /\
    simulate s = sim /\ patch s = pat /\ readyDelay s = ms * Millisecond.
Proof.
  intros F Hn Hs Hp Hm Hr. unfold kubelet_program.
  rewrite <- (app_nil_r (concat _)), command_written by done. unfold string_flag, bool_flag, int_flag.
  rewrite (written_flag _ others written "node" (VString "")), (written_flag _ others written "simulate" (VBool false)),
    (written_flag _ others written "patch" (VBool true)), (written_flag _ others written "ready-after" (VInt 100)),
    Hn, Hs, Hp, Hm by done.
  assert (mul64 ms Millisecond = ms * Millisecond) as E.
  { unfold mul64. apply int64_of_id. unfold in_int64, min_int64, max_int64, Millisecond. lia. }
  unfold kubelet_configure. rewrite E.
  destruct (bool_decide (node = ""%string)); destruct sim, pat; eexists; (split; [reflexivity|]); done.
Qed.

End kubelet_facts.

Section trace_facts.
Context {C : Type -> Type} `{CL : ChannLaws C}.
Context {M : Type -> Type} `{SML : SharedMapLaws M}.
Context {Q : Type -> Type} `{QL : WorkQueueLaws Q}.
Context {B Wn : Type} `{TimedBucketsOps B} `{TimeWindowOps Wn}.
Context {E : Type}.

(** C40: the default flags of the trace experiment do not fit together.  With the
    default gateway and autoscaler, whatever the output file and the timeout, the
    set-up of the gateway dereferences a nil configuration; and with
    [-gateway=knative] and the default backend, whatever the options of the
    autoscaler, the flags are refused, although validation means to choose the
    backend that fits the gateway. *)
Theorem trace_defaults_fail others written baseDir readFile unmarshal (emptyq : Q string) newBackend services
    targets registering loaded created listed failed synced :
  Forall (writable trace_flags) written ->
  let run args := trace_program (C := C) (M := M) (B := B) (Wn := Wn) (E := E) others args baseDir None (Ok true)
    (Ret tt) readFile unmarshal emptyq newBackend services (Ret (Ok targets)) registering loaded created listed
    failed synced in
  (only ["output"; "timeout"]%string written -> run (concat (map show_flag written)) = Runs nil_deref) /\
  (only ["autoscaler"; "autoscaler-config"; "output"; "timeout"]%string written ->
   run ("-gateway=knative"%string :: concat (map show_flag written)) =
     Runs (Fatal "Only grpc backend is supported for knative gateway, got fake")).
Proof.
  intros F run. subst run. unfold trace_program. simpl enter_baseDir. cbv iota beta. split; intros O.
  - rewrite <- (app_nil_r (concat _)), command_written by done. f_equal.
    set (fs := foldl assign _ written). assert (flags_of fs = mkFlags "fake" "k8s" "one-time" "" "config/loader.json") as ->.
    { unfold flags_of, fs. by rewrite !(default_string trace_flags others written ["output"; "timeout"]%string) by (eauto || set_solver). }
    destruct (setup_nil_config_panics (C := C) (M := M) (B := B) (W := Wn) (E := E) readFile unmarshal emptyq
      (mul64 (int_flag fs "timeout") Second) "one-time" targets registering (or_intror eq_refl)) as (g0 & E1 & E2).
    unfold trace_main. set (f := mkFlags _ _ _ _ _). change (validateFlags f) with (Ret f).
    cbn [mbind outcome_bind]. unfold create_gateway. cbn [f gatewayFramework autoscalerFramework autoscalerConfig].
    rewrite bool_decide_eq_false_2, bool_decide_eq_true_2, E1 by done. cbn [mbind outcome_bind or_fatal].
    unfold setup_gateway. by rewrite E2.
  - change ("-gateway=knative"%string :: ?l) with (show_flag (OneDash, "gateway"%string, VString "knative") ++ l).
    change (?a ++ concat (map show_flag written)) with
      (concat (map show_flag ((OneDash, "gateway"%string, VString "knative") :: written))).
    rewrite <- (app_nil_r (concat _)), command_written; [|constructor; [|exact F]|done].
    2: { split; [done|]. exists (VString "k8s"). by split. }
    f_equal. set (w := (OneDash, "gateway"%string, VString "knative")). set (fs := foldl assign _ _).
    assert (flags_of fs = mkFlags "fake" "knative" (string_flag fs "autoscaler") (string_flag fs "autoscaler-config")
      "config/loader.json") as ->; [|done].
    assert (string_flag fs "gateway" = "knative"%string) as Hg.
    { unfold string_flag, fs. rewrite (written_flag trace_flags others (w :: written) "gateway" (VString "k8s")) by done.
      simpl. by rewrite (only_absent _ _ _ O) by set_solver. }
    unfold flags_of. rewrite Hg. unfold fs.
    assert (only ["gateway"; "autoscaler"; "autoscaler-config"; "output"; "timeout"]%string (w :: written)) as O'.
    { constructor; [left|]. eapply Forall_impl; [exact O|]. intros w'. by right. }
    rewrite (default_string _ others _ _ "backend"%string O'), (default_string _ others _ _ "loader-config"%string O')
      by (eauto || set_solver). done.
Qed.

End trace_facts.

(** ** Witness *)

Lemma trace_defaults_fail_witness :
  trace_program (C := list) (M := gmap string) (B := float64) (Wn := Z * list (Z * Z)) (E := fakeBackend) ∅
    ["-timeout"; "30"]%string "/trace" None (Ok true) (Ret tt) demo_read demo_unmarshal (mk_simple_wq [] [])
    (fun _ => demo_new) (Ret (Ok [])) (Ret (Ok [(demo_deployment "app" 0).2])) None (fun _ => Ret []) (fun _ => None)
    (Ret (Ok [(demo_deployment "app" 0).2])) None true
  = Runs nil_deref.
Proof.
  refine (proj1 (trace_defaults_fail (C := list) (M := gmap string) (B := float64) (Wn := Z * list (Z * Z))
    (E := fakeBackend) ∅ [(Apart, "timeout"%string, VInt 30)] "/trace" demo_read demo_unmarshal (mk_simple_wq [] [])
    (fun _ => demo_new) (Ret (Ok [])) [(demo_deployment "app" 0).2] None (fun _ => Ret []) (fun _ => None)
    (Ret (Ok [(demo_deployment "app" 0).2])) None true _) _).
  - repeat constructor. exists (VInt 15). split; [vm_compute; reflexivity|]. unfold fits, in_int64, min_int64, max_int64. lia.
  - repeat constructor.
Defined.

Lemma kubelet_reads_command_witness :
  exists s : KubedirectServer (gmap string) simple_wq demo_info (gmap string string),
    kubelet_program ∅ ["--node=n1"; "-ready-after"; "250"; "-patch=false"; "-ready-after=80"]%string (Ok "host"%string)
      (Ret tt) None None (mk_simple_wq [] []) (∅ : gmap string string) [] [] =
      Runs (r ← serve_start s [] []; _ ← or_fatal "Failed to listen & serve" r; Ret s) /\
    ks_nodeName s = "n1"%string /\ patch s = false /\ readyDelay s = 80 * Millisecond.
Proof.
  pose (written := [(TwoDashes, "node"%string, VString "n1"); (Apart, "ready-after"%string, VInt 250);
    (OneDash, "patch"%string, VBool false); (OneDash, "ready-after"%string, VInt 80)]).
  destruct (kubelet_reads_command (M := gmap string) (Q := simple_wq) (PodInfo := demo_info)
    (Hub := gmap string string) ∅ written "host" tt (mk_simple_wq [] []) ∅ [] [] "n1" false false 80)
    as (s & E & N & _ & P & D);
    [|reflexivity|reflexivity|reflexivity|reflexivity|lia|].
  - repeat constructor.
    + exists (VString ""). split; [vm_compute; reflexivity|exact I].
    + exists (VInt 100). split; [vm_compute; reflexivity|]. unfold fits, in_int64, min_int64, max_int64. lia.
    + exists (VBool true). split; [vm_compute; reflexivity|discriminate].
    + exists (VInt 100). split; [vm_compute; reflexivity|]. unfold fits, in_int64, min_int64, max_int64. lia.
  - exists s. split; [|split; [exact N|split; [exact P|exact D]]]. rewrite <- E. reflexivity.
Defined.
